(* ===== verification/_CoqProject ===== *)
-Q . S2P
Prelude.v
Errors.v
Protobuf.v
Wire.v
MessagePb.v
Transactions.v
Conflicts.v
Responses.v
Host.v
Codecs.v
HostFacts.v
HostRuns.v
ReplicateRun.v
Network.v
NetworkInv.v
Agreement.v
Verdicts.v
Convergence.v
Replicas.v
Path.v
Mirror.v
Hostile.v
Rfs.v
Perspective.v
Framing.v
Backoff.v
Connection.v
Pool.v
Counter.v
Config.v
PoolRun.v
PoolRunFacts.v
Shutdown.v
Settings.v
Logging.v
Descriptor.v
Tls.v
Fuse.v
Main.v
