(* ===== verification/Prelude.v ===== *)
(** * Replicated File System: a verification development

    The program ([src/], Go) is a peer-to-peer replicated file system. A FUSE file
    system ([rfs/]) turns every modifying call into a request. The host ([p2p/])
    broadcasts the request to all peers over QUIC connections ([connection/]); each
    peer asks its mirror ([mirror/]) whether it could apply the request, checks it
    against the transactions it knows, and broadcasts an ACK or a NACK to everybody.
    When a peer has one message from every other peer and no NACK, it applies the
    request to its mirror directory; when the initiator has all ACKs, the FUSE call
    performs the local operation. There is no coordinator and no log: what the peers
    agree on rests on every host counting the same votes.

    ** Files, and the code they model

    - [Prelude]: results of Go calls ([outcome]: value, error or panic), machine
      integers, byte-wise string order, reachability ([steps]), tactics, and the
      lemmas on lists and maps that the components share.
    - [Errors]: the error values and [connection/errors.go].
    - [Protobuf]: [protobuf/message.go], [protobuf/gzip.go] and the message types of
      [message.pb.go]. The wire format and the DEFLATE codec are the classes
      [ProtoCodec] and [GzipCodec].
    - [Wire], [MessagePb]: the encoding of [message.pb.go]: varints and fields as protocol
      buffers document them, a codec for each field as its struct tag declares it, and the
      four messages with their round trip; [wire_codec] is an instance of [ProtoCodec].
      The getters of the generated code.
    - [Transactions]: [p2p/transaction.go], with the objects in a heap, since
      goroutines keep a transaction after it left the map.
    - [Conflicts]: [p2p/conflicts_resolver.go].
    - [Responses], [Host]: [p2p/host.go]. A [node] is a running host with its
      goroutines as program counters: [listener] for [listen], [handlers] for the
      [handleTransaction] goroutines, [reps] for the running [Replicate] calls. Each
      event of [node_step] is the piece of one goroutine between two points where
      others can interfere. [NotifyChan] is unbuffered: a send and its receive are one
      event, [EvNotify]. The mirror is the class [MirrorI].
    - [Codecs]: concrete codecs and a concrete mirror, for the witnesses.
    - [HostFacts], [HostRuns], [ReplicateRun]: invariants of one host under every
      interleaving, and complete runs of [handleTransaction] and [Replicate].
    - [Network], [NetworkInv], [Agreement], [Verdicts], [Convergence]: all hosts of a
      configuration, with a network that loses, delays and reorders messages; the
      agreement theorems, one verdict per host and transaction, and the runs of the hosts
      put together into operations that reach everybody.
    - [Replicas]: the same network with a history of who asked for what and which calls of
      [Mirror] were made where ([world]); files may change meanwhile in any way.
    - [Path]: [path/filepath] [Clean] and [Join].
    - [Mirror]: [mirror/mirror.go], over the class [OS] of the system calls it uses;
      [mirror_instance] discharges the interface [MirrorI] that [Host] was proved
      against. A small in-memory file system is an instance of [OS] for the examples.
    - [Hostile]: hosts with that mirror and the encoding of [MessagePb]: the shortest
      message that ends a process.
    - [Rfs]: [rfs/replicate.go], [rfs/root.go], [rfs/root_file.go]. Every handler is a
      program on the local files; the mirror and the host are the record [services], the
      system calls and go-fuse's loopback operations the class [Local].
    - [Perspective]: [connection/perspective.go].
    - [Framing]: [connection/net_op.go].
    - [Backoff]: [connection/backoff.go], with the float arithmetic of binary64.
    - [Connection], [Pool]: [connection/connection.go] and [connection/pool.go], as
      the sections that run under a connection's mutex, and two abstract machines: the
      connections with their counter ([pool_step]), the counting of connection handlers
      ([handlers_step]).
    - [Counter]: the sections that move the counter of live connections, taken apart where
      they write the status, close the QUIC connection and move the counter.
    - [PoolRun], [PoolRunFacts], [Shutdown]: the goroutines of the pool. The state [sys]
      holds a program counter for [acceptConnections] and each connection it hands on,
      for [dial] and [Connection.Listen] of each peer, for each [watchConnection] and
      for [Pool.Close]; [pool_exec] moves one of them. [PoolRunFacts] proves its
      invariant and the refinement of the machines of [Pool], [Shutdown] the theorems.
    - [Config], [Settings]: [config/config.go]; the rules of the validation tags are
      [Config_rules], the validator library is the class [Validator].
    - [Logging]: [logging/logging.go], [protobuf/logging.go] and the log objects of the
      other packages; the levels of zerolog are the class [Zerolog].
    - [Descriptor]: the file descriptor embedded in [message.pb.go], byte by byte, a
      reader for it, the struct tags and the tables of the generated code.
    - [Tls]: [connection/tlsconf], [connection/cert] and the checks of a handshake.
    - [Fuse]: [rfs/fuse.go], and the descriptors and inode numbers of [rfs/root.go]; the
      class [FdTable] says what a table of descriptors promises.
    - [Main]: [main.go], [connection/quic.go], [connection/context.go]: flags, signals, and
      the parts put together as [run] does; the parser of the command line is the class
      [CliParser].

    ** What the theorems show

    - Agreement (C1 to C4): under any interleaving, loss and partial delivery, two
      hosts that reach a verdict on a transaction reach the same one; a commit needs
      the request or an ACK of every host; what is mirrored is the request of the
      initiator; no host decides a transaction twice. A verdict is reached where
      [handleTransaction] leaves its loop and where [Replicate] gets to
      [processResponses]. A call that ends earlier (time-out, conflict found before the
      broadcast, a failed send) has no verdict; [peers_commit_initiator_fails] shows the
      consequence, peers that commit what the initiator gave up.
    - Replicas (C5, C6): operations that do not overlap succeed and reach every replica in
      their order, whatever the local operation of the initiator does. However operations
      overlap, a host calls [Mirror] at most once in a transaction, with the very request
      another host's [Replicate] was called with. That replicas end equal is not a theorem:
      the local operation of the initiator is go-fuse's, not [Mirror] (rootFile.Write does
      not truncate, WRITE of the mirror does), and hosts mirror overlapping operations in
      different orders ([conflicting_writes_diverge]).
    - Progress (C8, C9, C37): both sides of a transaction run to their end for every number
      of peers and every order of messages; the initiator waits for the peers it reached.
    - Conflicts (C7, C12, C32): exactly one of several known conflicting requests is
      accepted, the same on every host, independently of map order. What detection does not
      give: it compares pairs of paths, so that operations that share one path but not both
      are all accepted (C32), and it gives no order of writes that are not in flight at the
      same time everywhere.
    - Life cycle of a host (C10, C11, C33 to C35, C38): no transaction leaks, so [Close] is
      not held up by one; two ways in which late answers stop a host, a message of two bytes
      that does, and the removal of a directory that does.
    - Refinement (C13, C16): [Put] and [Delete] implement an abstract map; the goroutines of
      the pool implement the abstract machines of [Pool].
    - The pool (C14, C15, C17 to C19, C36): [Close] waits for nothing but handshakes, which
      depend on the peers, and leaves no live connection; a lost connection is noticed; what
      the counter of live connections counts at every moment; the counters are in range.
      C36: a dialler that once failed and then succeeded never dials again.
    - Connections (C22 to C25): who is authenticated, both ends of a connection take the
      same decision, what becomes of two crossing dials, framing round-trips.
    - Start (C20, C21): a validated configuration is sound, and [main] builds from the
      arguments and the configuration the very host and pool the other theorems are about,
      or ends when the address cannot be listened on.
    - Wire format (C26): a request survives compression and encoding, for every codec of the
      messages that reads back what it wrote. The encoding of [MessagePb] is shown to be such
      a codec; [descriptor_matches_the_code] checks the embedded descriptor against the
      structs, the enums and the tables of the generated code.
    - Mirror and file system (C27 to C30, C39): [Consult] accepts exactly the requests its
      conditions describe, [Mirror] and [Consult] make no call outside the mirror directory,
      every handler runs its local operation only after replication, [Create] loses no
      descriptor, inode numbers differ.
    - Back-off (C31).

    Theorems that state a defect are about the code as it is; each has a concrete run.

    ** Assumptions and bounds

    The loops of the code are structural (over peers, responses, path components, bytes),
    and the polling loops and [select]s are steps that are enabled or not. Fuel appears in
    four places: a varint has at most ten bytes, as the format says; the parser of fields
    gets the length of its input, and every field takes a byte; the reader of the embedded
    descriptor goes four levels deep, and [descriptor_matches_the_code] shows that it needs no
    more; the file system
    in memory follows forty links, the limit of the kernel. Integers of the code are [Z] with their wrap-around
    written out ([u64], [i64], [byte]); lengths of in-memory lists are [nat].

    Code outside the repository is a parameter. The laws asked of it: what the
    marshaller produces is read back as the same message (Google protobuf), what gzip
    compressed is decompressed to the same bytes (the DEFLATE of [compress/gzip]).
    [uuid.New] draws ids that were not drawn before: the network step for [Replicate]
    requires it. The network does not forge or duplicate: every message has its own QUIC
    stream, and nobody but the peers speaks. That the second part needs honest addresses
    is shown by [dialled_peers_are_not_authenticated].

    The validator accepts exactly what the tags describe, zerolog knows the names of its
    levels; whether a chain is signed by an authority is an argument. In the pool a QUIC
    connection that is accepted or dialled is new, and its handshake ran
    [VerifyConnection]; where a counter must not wrap, fewer than 2^62 goroutines are
    assumed ([few]).

    A [Broadcast] is one step that puts the data in flight to any subset of the peers
    and reports any error. Answers that arrive before [Broadcast] returns are, in the
    model, delivered after it; the listener would block on [NotifyChan] until then, so
    no other goroutine can tell the difference. [DetectAndResolveConflict] is one step
    although it iterates the map without its mutex; a concurrent write there is a data
    race, outside any semantics of Go. Log statements are not steps of the host: what
    they evaluate, and when that panics, is in [Logging].

    A call of [Mirror] is one step of its goroutine, although it makes up to four system
    calls: the theorems on whole networks say which calls are made, not how the system calls
    of two of them interleave. [recv] fails to allocate above the address space only; a
    header that announces more than the machine has ends the process earlier. The result of
    the resolution's [recv] is an argument of a step that need not come: C14 says what
    follows when it does not. [Connection.Close] and the last part of [Establish] are whole
    in [Connection], [Pool] and [PoolRun], which is how goroutines see them that take the
    mutex; [Counter] is about [Broadcast], which does not, and there [closeConn] may never
    return.

    The command-line parser assigns only values of declared flags, the defaults first.

    ** Not modelled

    The JSON decoder, the contents of certificates, timers beyond the pending flag of the
    back-off, output of the logger. What go-fuse's loopback operations do is a
    parameter of the handlers. In [message.pb.go] the methods that hand over to the
    reflection of the protobuf library (String, ProtoReflect, Descriptor, the exporters
    without unsafe) and the lazily compressed copy of the descriptor, which nothing reads.

    ** Plan

    The protocol came first, since the other parts exist for it; then the goroutines of
    the pool, configuration, TLS, start-up and logging; then overlapping operations,
    the wire format, and the handlers of the file system as programs on the local files. What is left: laws of [OS] (parents, permissions, links) under which an
    accepted request is one that [Mirror] applies without error; liveness of a host whose
    answers are lost, by the time-out of the context. *)

From stdpp Require Export base gmap list strings numbers sorting.
From Stdlib Require Export ZArith Lia Permutation.
From Stdlib Require Strings.Byte.

#[export] Set Default Goal Selector "!".

(** ** Results of Go calls

    A Go function of type [(T, error)] returns a value with a nil error, returns
    a non-nil error, or panics; a panic is not an error value: it unwinds the
    goroutine and, as nothing in the program recovers, ends the process. *)

Inductive outcome (E A : Type) : Type :=
| Ok (a : A)
| Err (e : E)
| Panics (why : string).
Arguments Ok {E A} a.
Arguments Err {E A} e.
Arguments Panics {E A} why.

Definition outcome_bind {E A B} (m : outcome E A) (k : A -> outcome E B) : outcome E B :=
  match m with
  | Ok a => k a
  | Err e => Err e
  | Panics w => Panics w
  end.

Declare Scope rfs_scope.
Delimit Scope rfs_scope with rfs.
Notation "x <-! m ;; k" := (outcome_bind m (fun x => k))
  (at level 100, m at next level, right associativity) : rfs_scope.
Open Scope rfs_scope.

Definition is_panic {E A} (m : outcome E A) : bool :=
  match m with Panics _ => true | _ => false end.

Definition is_ok {E A} (m : outcome E A) : bool :=
  match m with Ok _ => true | _ => false end.

Lemma bind_ok {E A B} (m : outcome E A) (k : A -> outcome E B) b :
  outcome_bind m k = Ok b <-> exists a, m = Ok a /\ k a = Ok b.
Proof.
  destruct m; simpl; (split; [intros; simplify_eq; eauto|intros (?&?&?); simplify_eq; done]).
Qed.

(** ** Fixed-width integers: a [w]-bit Go integer is the [Z] it denotes, and the
    wrap-around of every arithmetic operation is written out. *)

Definition wrapU (w z : Z) : Z := z mod 2 ^ w.
Definition wrapS (w z : Z) : Z := (z + 2 ^ (w - 1)) mod 2 ^ w - 2 ^ (w - 1).

Definition u8 := wrapU 8.
Definition u32 := wrapU 32.
Definition u64 := wrapU 64.
Definition i64 := wrapS 64.

Lemma wrapU_range w z : (0 <= w)%Z -> (0 <= wrapU w z < 2 ^ w)%Z.
Proof. intros. apply Z.mod_pos_bound. lia. Qed.

Lemma wrapU_small w z : (0 <= z < 2 ^ w)%Z -> wrapU w z = z.
Proof. apply Z.mod_small. Qed.

Lemma wrapS_small w z : (0 < w)%Z -> (- 2 ^ (w - 1) <= z < 2 ^ (w - 1))%Z -> wrapS w z = z.
Proof.
  intros Hw Hz. unfold wrapS.
  assert (2 ^ w = 2 * 2 ^ (w - 1))%Z as E.
  { rewrite <- Z.pow_succ_r by lia. f_equal. lia. }
  rewrite Z.mod_small by lia. lia.
Qed.

(** ** Go's [<] on strings: bytewise, lexicographic *)

Definition str_lt (a b : string) : bool := String.ltb a b.

Lemma str_lt_irrefl a : str_lt a a = false.
Proof.
  unfold str_lt, String.ltb. pose proof (String.compare_antisym a a) as H.
  destruct (String.compare a a); simpl in H; congruence.
Qed.

Lemma str_lt_asym a b : str_lt a b = true -> str_lt b a = false.
Proof.
  unfold str_lt, String.ltb. rewrite (String.compare_antisym b a).
  destruct (String.compare a b); simpl; congruence.
Qed.

Lemma str_lt_total a b : a <> b -> str_lt a b = negb (str_lt b a).
Proof.
  intros Hne. unfold str_lt, String.ltb. rewrite (String.compare_antisym b a).
  destruct (String.compare a b) eqn:E; simpl; [|done|done].
  apply String.compare_eq_iff in E. congruence.
Qed.

Lemma str_lt_trans a b c : str_lt a b = true -> str_lt b c = true -> str_lt a c = true.
Proof.
  unfold str_lt, String.ltb. revert b c.
  induction a as [|x a IH]; intros [|y b] [|z c]; simpl; try done. unfold Ascii.compare.
  destruct (N.compare_spec (Ascii.N_of_ascii x) (Ascii.N_of_ascii y));
    destruct (N.compare_spec (Ascii.N_of_ascii y) (Ascii.N_of_ascii z));
    destruct (N.compare_spec (Ascii.N_of_ascii x) (Ascii.N_of_ascii z)); try done; try lia.
  apply IH.
Qed.

Lemma str_app_nil_r (s : string) : (s ++ "")%string = s.
Proof. induction s as [|c s IH]; [done|]. change (String c (s ++ "")%string = String c s). by rewrite IH. Qed.

Lemma string_app_assoc (a b c : string) : ((a ++ b) ++ c = a ++ (b ++ c))%string.
Proof. induction a as [|x a IH]; [done|]. change (String x ((a ++ b) ++ c) = String x (a ++ b ++ c))%string. by rewrite IH. Qed.

(** ** Bytes *)

Abbreviation byte := Byte.byte.

#[export] Instance byte_eq_dec : EqDecision byte.
Proof. intros x y. apply Byte.byte_eq_dec. Defined.

Definition byte_to_Z (b : byte) : Z := Z.of_N (Byte.to_N b).

(** [byte(z)] keeps the low eight bits. *)
Definition byte_of_Z (z : Z) : byte := default Byte.x00 (Byte.of_N (Z.to_N (u8 z))).

Lemma byte_to_Z_range b : (0 <= byte_to_Z b < 256)%Z.
Proof. unfold byte_to_Z. pose proof (Byte.to_N_bounded b). lia. Qed.

Lemma byte_to_of_Z z : byte_to_Z (byte_of_Z z) = u8 z.
Proof.
  unfold byte_to_Z, byte_of_Z.
  pose proof (wrapU_range 8 z ltac:(lia)) as Hr. change (2 ^ 8)%Z with 256%Z in Hr.
  destruct (Byte.of_N (Z.to_N (u8 z))) eqn:E; simpl.
  - apply Byte.to_of_N in E. rewrite E. unfold u8. lia.
  - apply Byte.of_N_None_iff in E. unfold u8 in E. lia.
Qed.

Lemma byte_of_to_Z b : byte_of_Z (byte_to_Z b) = b.
Proof.
  unfold byte_of_Z, byte_to_Z. pose proof (Byte.to_N_bounded b).
  unfold u8. rewrite wrapU_small by (change (2 ^ 8)%Z with 256%Z; lia).
  rewrite N2Z.id, Byte.of_to_N. done.
Qed.

(** ** Lists and counting *)

Lemma NoDup_fmap_filter {A B} (g : A -> B) (P : A -> Prop) `{!forall x, Decision (P x)} l :
  NoDup (g <$> l) -> NoDup (g <$> filter P l).
Proof.
  induction l as [|x l IH]; [done|]. rewrite fmap_cons. intros [Hx Hnd]%NoDup_cons. rewrite filter_cons.
  case_decide; [|by apply IH]. rewrite fmap_cons. apply NoDup_cons. split; [|by apply IH].
  intros (y & E & [_ Hy]%list_elem_of_filter)%list_elem_of_fmap. apply Hx. rewrite E. by apply list_elem_of_fmap_2.
Qed.

Definition count {A} (f : A -> bool) (l : list A) : nat := length (List.filter f l).

(** A duplicate-free list included in another of the same length lists the same
    elements. *)
Lemma NoDup_full {A} `{EqDecision A} (l k : list A) :
  NoDup l -> (forall x, x ∈ l -> x ∈ k) -> length k <= length l -> forall x, x ∈ k -> x ∈ l.
Proof.
  intros Hnd Hsub Hlen x Hx.
  assert (l ≡ₚ k) as ->; [|done].
  apply submseteq_length_Permutation; [by apply NoDup_submseteq|done].
Qed.

Lemma existsb_elem {A} (f : A -> bool) l : existsb f l = true <-> exists x, x ∈ l /\ f x = true.
Proof. rewrite existsb_exists. by setoid_rewrite list_elem_of_In. Qed.

Lemma existsb_elem_false {A} (f : A -> bool) l :
  existsb f l = false <-> forall x, x ∈ l -> f x = false.
Proof.
  rewrite <- not_true_iff_false, existsb_elem. setoid_rewrite <- not_true_iff_false.
  split; [eauto|]. intros H (x & Hx & Hf). exact (H x Hx Hf).
Qed.

Lemma existsb_perm {A} (f : A -> bool) l k : l ≡ₚ k -> existsb f l = existsb f k.
Proof.
  intros Hp. apply Bool.eq_iff_eq_true. rewrite !existsb_elem. by setoid_rewrite Hp.
Qed.

Lemma existsb_fmap {A B} (f : B -> bool) (g : A -> B) l :
  existsb f (g <$> l) = existsb (fun x => f (g x)) l.
Proof. induction l as [|x l IH]; [done|]. rewrite fmap_cons. simpl. by rewrite IH. Qed.

Lemma existsb_ext {A} (f g : A -> bool) l :
  (forall x, x ∈ l -> f x = g x) -> existsb f l = existsb g l.
Proof.
  intros H. apply Bool.eq_iff_eq_true. rewrite !existsb_elem.
  split; intros (x & Hx & Hf); exists x; (split; [done|]); [rewrite <- H|rewrite H]; done.
Qed.

(** ** Reflexive-transitive closure of a step relation *)

Section closure.
Context {S : Type} (step : S -> S -> Prop).

Inductive steps : S -> S -> Prop :=
| steps_refl s : steps s s
| steps_snoc s t u : steps s t -> step t u -> steps s u.

Lemma steps_trans s t u : steps s t -> steps t u -> steps s u.
Proof. intros H1 H2. induction H2; eauto using steps. Qed.

Lemma steps_one s t : step s t -> steps s t.
Proof. eauto using steps. Qed.

(** An invariant holds of every reachable state. *)
Lemma steps_invariant (I : S -> Prop) s t :
  I s -> (forall a b, I a -> step a b -> I b) -> steps s t -> I t.
Proof. intros H0 Hs H. induction H; eauto. Qed.
End closure.

Lemma omap_fmap_eq {A B C} (g : A -> B) (f : B -> option C) (y : A -> option C) (l : list A) :
  (forall a, f (g a) = y a) -> omap f (g <$> l) = omap y l.
Proof. intros H. induction l as [|a l IH]; [done|]. simpl. rewrite H. by destruct (y a); [f_equal|]. Qed.

(** ** Automation *)

Create HintDb rfs discriminated.
Create Rewrite HintDb rfs_rw.
#[export] Hint Constructors steps : rfs.
#[export] Hint Resolve steps_one steps_trans : rfs.

(** Case on the head [match] or [if] of the goal or a hypothesis and clean up. *)
Ltac split_match :=
  repeat (case_match; simplify_eq/=; try done).

(** The same without closing the goals. *)
Ltac cases := simplify_eq/=; repeat (case_match; simplify_eq/=).

(** Open a hypothesis [f x = Some r] where [f] is a chain of matches. *)
Ltac unroll H :=
  repeat (match type of H with
          | context [ match ?x with _ => _ end ] => destruct x eqn:?; simplify_eq/=; try done
          end).

(** Invert hypotheses of the option monad. *)
Ltac opt_inv :=
  repeat (match goal with
          | H : _ <$> _ = Some _ |- _ => apply fmap_Some in H as (? & ? & ?)
          | H : _ ≫= _ = Some _ |- _ => apply bind_Some in H as (? & ? & ?)
          end; simplify_eq/=).

(** A property of every entry of a concrete map, by computation. *)
Lemma map_check {K} `{Countable K} {A} (f : A -> bool) (m : gmap K A) :
  forallb (fun kv => f kv.2) (map_to_list m) = true -> forall k v, m !! k = Some v -> f v = true.
Proof.
  intros Hf k v Hk. rewrite forallb_forall in Hf. apply (Hf (k, v)).
  by apply list_elem_of_In, elem_of_map_to_list.
Qed.

(** ** Sums over the values of a map *)

Section map_sum.
Context {K : Type} `{Countable K} {A : Type} (f : A -> nat).

Definition map_sum (m : gmap K A) : nat := map_fold (fun _ a n => f a + n) 0 m.

Lemma map_sum_insert_new m k a : m !! k = None -> map_sum (<[k := a]> m) = f a + map_sum m.
Proof. intros Hk. unfold map_sum. rewrite map_fold_insert_L; [done|intros; lia|done]. Qed.

Lemma map_sum_delete m k a : m !! k = Some a -> map_sum m = f a + map_sum (delete k m).
Proof.
  intros Hk. rewrite <- (map_sum_insert_new (delete k m) k a) by apply lookup_delete_eq.
  by rewrite insert_delete_eq, insert_id.
Qed.

Lemma map_sum_update m k a b : m !! k = Some a -> map_sum (<[k := b]> m) + f a = map_sum m + f b.
Proof.
  intros Hk. rewrite (map_sum_delete m k a Hk), <- (insert_delete_eq m k b).
  rewrite map_sum_insert_new by apply lookup_delete_eq. lia.
Qed.

Lemma map_sum_pos m k a : m !! k = Some a -> f a <= map_sum m.
Proof. intros Hk. rewrite (map_sum_delete m k a Hk). lia. Qed.

Lemma map_sum_zero m : map_sum m = 0 -> forall k a, m !! k = Some a -> f a = 0.
Proof. intros H0 k a Hk. pose proof (map_sum_pos m k a Hk). lia. Qed.

Lemma map_sum_witness m : map_sum m <> 0 -> exists k a, m !! k = Some a /\ f a <> 0.
Proof.
  induction m as [|k a m Hk IH] using map_ind; [done|].
  rewrite map_sum_insert_new by done. intros Hne. destruct (decide (f a = 0)) as [H0|Hf].
  - destruct IH as (k' & a' & Hk' & Hf'); [lia|]. exists k', a'. split; [|done].
    rewrite lookup_insert_ne; [done|congruence].
  - exists k, a. by rewrite lookup_insert_eq.
Qed.
End map_sum.
