(* ===== verification/Errors.v ===== *)
(** * Error values

    The error values that travel between the components, and
    [connection/errors.go]: [MultiErr], which collects one error per peer, and
    the two families of QUIC application codes, [streamErr] and [connErr]. *)

From S2P Require Import Prelude.

(** ** [streamErr] and [connErr]: codes on the wire, named constants in the code.
    A code received from a peer can be any 62-bit number, so each type keeps the
    unnamed codes. *)

Inductive streamErr :=
| streamErrTimeout
| streamErrCancelled
| streamErrInvalidSizeHeader
| streamErrReadHeader
| streamErrReadBody
| streamErrWrite
| streamErrCode (n : Z).

Inductive connErr :=
| connErrUnspecified
| connErrAlreadyEstablished
| connErrClosed
| connErrCancelled
| connErrNotResolved
| connErrCode (n : Z).

#[export] Instance streamErr_eq_dec : EqDecision streamErr.
Proof. solve_decision. Defined.
#[export] Instance connErr_eq_dec : EqDecision connErr.
Proof. solve_decision. Defined.

(** The conversions [streamErr(code)] and [connErr(code)] and back. *)
Definition streamErr_of_code (n : Z) : streamErr :=
  match n with
  | 0%Z => streamErrTimeout
  | 1%Z => streamErrCancelled
  | 2%Z => streamErrInvalidSizeHeader
  | 3%Z => streamErrReadHeader
  | 4%Z => streamErrReadBody
  | 5%Z => streamErrWrite
  | _ => streamErrCode n
  end.

Definition streamErr_code (e : streamErr) : Z :=
  match e with
  | streamErrTimeout => 0
  | streamErrCancelled => 1
  | streamErrInvalidSizeHeader => 2
  | streamErrReadHeader => 3
  | streamErrReadBody => 4
  | streamErrWrite => 5
  | streamErrCode n => n
  end.

Definition connErr_of_code (n : Z) : connErr :=
  match n with
  | 0%Z => connErrUnspecified
  | 1%Z => connErrAlreadyEstablished
  | 2%Z => connErrClosed
  | 3%Z => connErrCancelled
  | 4%Z => connErrNotResolved
  | _ => connErrCode n
  end.

Definition connErr_code (e : connErr) : Z :=
  match e with
  | connErrUnspecified => 0
  | connErrAlreadyEstablished => 1
  | connErrClosed => 2
  | connErrCancelled => 3
  | connErrNotResolved => 4
  | connErrCode n => n
  end.

Definition streamErr_Error (e : streamErr) : string :=
  match e with
  | streamErrTimeout => "timed out"
  | streamErrCancelled => "context was cancelled"
  | streamErrInvalidSizeHeader => "invalid header size"
  | streamErrReadHeader => "failed to read size header"
  | streamErrReadBody => "failed to read body"
  | streamErrWrite => "failed to write data"
  | streamErrCode _ => "unknown stream error"
  end.

Definition connErr_Error (e : connErr) : string :=
  match e with
  | connErrAlreadyEstablished => "connection was already established"
  | connErrClosed => "connection is closed"
  | connErrCancelled => "context was cancelled"
  | connErrNotResolved => "connection was not resolved and both peers have agreed to close it"
  | connErrUnspecified | connErrCode _ => "unspecified connection error"
  end.

(** ** Error values

    An error is the tree of constructors the code applied: [errors.Wrap] around
    a cause, one of the program's sentinel values, or a value of a library's
    error type with what the code reads of it (its code, its text). An [ErrMulti]
    lists its entries in the order in which the map they come from is iterated. *)

#[warnings="-register-all"]
Inductive error :=
| ErrNew (msg : string)
| ErrWrap (cause : error) (msg : string)
| ErrStream (e : streamErr)
| ErrConn (e : connErr)
| ErrMulti (errs : list (string * error))
| ErrPeerIsDown
| errPoolClosed
| ErrTransactionConflict
| ErrNotPermitted
| context_Canceled
| context_DeadlineExceeded
| io_EOF
| ErrErrno (errno : Z) (text : string)
| net_OpError (temporary : bool) (text : string) (inner : option error)
| tls_permanentError (inner : error)
| os_PathError (op path : string) (inner : error)
| quic_StreamError (code : Z) (text : string)
| quic_ApplicationError (code : Z) (text : string).

(** [errors.Cause]: the innermost error below the wrappers. *)
Fixpoint Cause (e : error) : error :=
  match e with
  | ErrWrap c _ => Cause c
  | _ => e
  end.

(** [errors.Unwrap]: one level, by the [Unwrap] method of the error's type. *)
Definition Unwrap (e : error) : option error :=
  match e with
  | ErrWrap c _ => Some c
  | net_OpError _ _ inner => inner
  | tls_permanentError inner => Some inner
  | os_PathError _ _ inner => Some inner
  | _ => None
  end.

(** The chain of [Unwrap], the error itself first: what [errors.Is] and [errors.As]
    search. *)
Fixpoint chain (e : error) : list error :=
  e :: match e with
       | ErrWrap c _ => chain c
       | net_OpError _ _ (Some c) => chain c
       | tls_permanentError c => chain c
       | os_PathError _ _ c => chain c
       | _ => []
       end.

(** ** [MultiErr]: errors of [Broadcast] and [Close], by peer name. The map is nil
    until the first [Append]; a nil map and an empty one behave alike. *)

Record MultiErr := mkMultiErr { errs : gmap string error }.

Definition MultiErr_new : MultiErr := mkMultiErr ∅.

Definition MultiErr_Errors (e : MultiErr) : gmap string error := errs e.

Definition MultiErr_Append (peer : string) (err : error) (e : MultiErr) : MultiErr :=
  mkMultiErr (<[peer := err]> (errs e)).

Definition MultiErr_Empty (e : MultiErr) : bool := bool_decide (size (errs e) = 0).

(** The [(mErr.Empty() ? nil : mErr)] idiom at the end of [Broadcast] and [Close]. *)
Definition MultiErr_result (e : MultiErr) : option error :=
  if MultiErr_Empty e then None else Some (ErrMulti (map_to_list (errs e))).

(** [Error]: the entries in the order in which the run time iterates over the
    map, each followed by [", "], and the last two bytes cut off. *)
Definition MultiErr_entry (show : error -> string) (pe : string * error) : string :=
  (pe.1 ++ " > " ++ show pe.2 ++ ", ")%string.

Definition drop_last2 (s : string) : string := String.substring 0 (String.length s - 2) s.

Definition MultiErr_Error (show : error -> string) (order : list (string * error)) : string :=
  drop_last2 ("connection errors: " ++ foldr (fun pe b => (MultiErr_entry show pe ++ b)%string) "" order)%string.

(** The text of an error: a wrapper puts its message before the text of its cause. *)
Fixpoint Error (e : error) : string :=
  match e with
  | ErrNew msg => msg
  | ErrWrap c msg => (msg ++ ": " ++ Error c)%string
  | ErrStream c => streamErr_Error c
  | ErrConn c => connErr_Error c
  | ErrMulti l => MultiErr_Error Error l
  | ErrPeerIsDown => "one or more of the peers is down"
  | errPoolClosed => "pool is being shutdown"
  | ErrTransactionConflict => "transaction conflict detected and resolved in favor of other peer"
  | ErrNotPermitted => "operation was not permitted"
  | context_Canceled => "context canceled"
  | context_DeadlineExceeded => "context deadline exceeded"
  | io_EOF => "EOF"
  | tls_permanentError e => Error e
  | os_PathError op path e => (op ++ " " ++ path ++ ": " ++ Error e)%string
  | ErrErrno _ text | net_OpError _ text _ | quic_StreamError _ text
  | quic_ApplicationError _ text => text
  end.

(** ** Lemmas *)

Lemma streamErr_code_of n : streamErr_code (streamErr_of_code n) = n.
Proof. unfold streamErr_of_code. repeat case_match; done. Qed.

Lemma connErr_code_of n : connErr_code (connErr_of_code n) = n.
Proof. unfold connErr_of_code. repeat case_match; done. Qed.

Lemma Cause_idemp e : Cause (Cause e) = Cause e.
Proof. induction e; simpl; done. Qed.

Lemma MultiErr_Append_comm p q e1 e2 m :
  p <> q ->
  MultiErr_Append p e1 (MultiErr_Append q e2 m) = MultiErr_Append q e2 (MultiErr_Append p e1 m).
Proof. intros. unfold MultiErr_Append; simpl. by rewrite insert_insert_ne. Qed.

Lemma MultiErr_Append_nonempty p e m : MultiErr_Empty (MultiErr_Append p e m) = false.
Proof.
  apply bool_decide_eq_false. simpl. intros H%map_size_empty_inv.
  by apply insert_non_empty in H.
Qed.

Lemma MultiErr_result_None e : MultiErr_result e = None <-> errs e = ∅.
Proof.
  unfold MultiErr_result, MultiErr_Empty. case_bool_decide as H.
  - apply map_size_empty_inv in H. done.
  - split; [done|]. intros E. rewrite E in H. by rewrite map_size_empty in H.
Qed.

(** ** Rendering *)

Lemma string_length_app a b : String.length (a ++ b)%string = String.length a + String.length b.
Proof. induction a as [|ch a IH]; simpl; [done|]. by rewrite IH. Qed.

Lemma substring_prefix a b : String.substring 0 (String.length a) (a ++ b)%string = a.
Proof. induction a as [|ch a IH]; simpl; [by destruct b|]. by rewrite IH. Qed.

Lemma drop_last2_app s t : String.length t = 2 -> drop_last2 (s ++ t)%string = s.
Proof.
  intros Ht. unfold drop_last2. rewrite string_length_app, Ht.
  replace (String.length s + 2 - 2) with (String.length s) by lia. apply substring_prefix.
Qed.

(** The reference rendering: entries joined by [", "]. *)
Definition MultiErr_show (show : error -> string) (pe : string * error) : string :=
  (pe.1 ++ " > " ++ show pe.2)%string.

Lemma entries_join show pe order :
  foldr (fun pe b => (MultiErr_entry show pe ++ b)%string) "" (pe :: order)
  = (String.concat ", " (MultiErr_show show <$> (pe :: order)) ++ ", ")%string.
Proof.
  revert pe. induction order as [|pe' order IH]; intros pe.
  - unfold MultiErr_entry, MultiErr_show. cbn. by rewrite !string_app_assoc.
  - change (foldr (fun pe b => (MultiErr_entry show pe ++ b)%string) "" (pe :: pe' :: order))
      with (MultiErr_entry show pe
            ++ foldr (fun pe b => (MultiErr_entry show pe ++ b)%string) "" (pe' :: order))%string.
    rewrite IH. unfold MultiErr_entry, MultiErr_show. cbn. by rewrite !string_app_assoc.
Qed.

(** on a non-empty set of errors, [MultiErr.Error] cuts exactly the trailing
    separator: the text is the prefix followed by the entries joined by commas,
    in whatever order the map is iterated. *)
Theorem MultiErr_Error_joined show pe order :
  MultiErr_Error show (pe :: order)
  = ("connection errors: " ++ String.concat ", " (MultiErr_show show <$> (pe :: order)))%string.
Proof.
  unfold MultiErr_Error. rewrite entries_join, <- string_app_assoc. by apply drop_last2_app.
Qed.

#[export] Hint Rewrite streamErr_code_of connErr_code_of Cause_idemp : rfs_rw.
