(* ===== verification/Protobuf.v ===== *)
(** * Messages ([protobuf/])

    The message types of [message.proto] as [message.pb.go] declares them, the
    constructors and readers of [message.go] and the compression helpers of
    [gzip.go]. The wire format (google.golang.org/protobuf) and the DEFLATE
    codec are parameters: the classes [ProtoCodec] and [GzipCodec] state what the
    code relies on. *)

From S2P Require Import Prelude Errors.

(** ** Enumerations. A proto3 enum is an open [int32]: a received value outside
    the declared ones is kept in the last constructor. *)

Inductive Request_Type :=
| Request_CREATE
| Request_LINK
| Request_MKDIR
| Request_RENAME
| Request_RMDIR
| Request_SETATTR
| Request_SYMLINK
| Request_UNLINK
| Request_WRITE
| Request_COPY_FILE_RANGE
| Request_Unrecognised (n : Z).

Inductive Response_Type :=
| Response_ACK
| Response_NACK
| Response_Type_Unrecognised (n : Z).

Inductive Response_Error :=
| Response_ERR_UNKNOWN
| Response_ERR_ALREADY_EXISTS
| Response_ERR_DOES_NOT_EXIST
| Response_ERR_TRANSACTION_CONFLICT
| Response_ERR_NOT_A_DIRECTORY
| Response_ERR_NOT_A_FILE
| Response_ERR_INVALID_MODE
| Response_Error_Unrecognised (n : Z).

#[export] Instance Request_Type_eq_dec : EqDecision Request_Type.
Proof. solve_decision. Defined.
#[export] Instance Response_Type_eq_dec : EqDecision Response_Type.
Proof. solve_decision. Defined.
#[export] Instance Response_Error_eq_dec : EqDecision Response_Error.
Proof. solve_decision. Defined.

(** ** Structs. A pointer field that may be nil is an [option]. *)

Record Request_Metadata := mkMetadata {
  RelativePath : string;
  NewRelativePath : string;
  Mode : Z;
  WriteOffset : Z;
  ReadOffset : Z;
  WriteLen : Z;
}.

Record Request := mkRequest {
  req_Type : Request_Type;
  Metadata : option Request_Metadata;
  Clock : Z;
  Content : option (list byte);
}.

Record Response := mkResponse {
  resp_Type : Response_Type;
  resp_Error : option Response_Error;
  ErrorMsg : option string;
}.

(** The [oneof type] of a message. *)
Inductive isMessage_Type :=
| Message_Request (r : Request)
| Message_Response (r : Response).

Record Message := mkMessage {
  Tid : string;
  PeerName : string;
  msg_Type : option isMessage_Type;
}.

#[export] Instance Request_Metadata_eq_dec : EqDecision Request_Metadata.
Proof. solve_decision. Defined.
#[export] Instance Request_eq_dec : EqDecision Request.
Proof. solve_decision. Defined.
#[export] Instance Response_eq_dec : EqDecision Response.
Proof. solve_decision. Defined.
#[export] Instance isMessage_Type_eq_dec : EqDecision isMessage_Type.
Proof. solve_decision. Defined.
#[export] Instance Message_eq_dec : EqDecision Message.
Proof. solve_decision. Defined.

(** The zero values of the structs and the metadata of a request on one path. *)
Definition no_Metadata : Request_Metadata := mkMetadata "" "" 0 0 0 0.
Definition path_Metadata (p : string) : Request_Metadata := mkMetadata p "" 0 0 0 0.

Definition set_Content (c : option (list byte)) (r : Request) : Request :=
  mkRequest (req_Type r) (Metadata r) (Clock r) c.

(** ** Getters *)

Definition GetRequest (m : Message) : option Request :=
  match msg_Type m with
  | Some (Message_Request r) => Some r
  | _ => None
  end.

Definition GetResponse (m : Message) : option Response :=
  match msg_Type m with
  | Some (Message_Response r) => Some r
  | _ => None
  end.

(** [Response.GetType] is safe on a nil pointer. *)
Definition Response_GetType (r : option Response) : Response_Type :=
  match r with
  | Some r => resp_Type r
  | None => Response_ACK
  end.

(** ** [message.go]: constructors *)

Definition ACK : Response := mkResponse Response_ACK None None.

(** [NACK] calls [err.Error()]: a nil error is a nil dereference. *)
Definition NACK {E} (respErr : Response_Error) (err : option error) : outcome E Response :=
  match err with
  | Some e => Ok (mkResponse Response_NACK (Some respErr) (Some (Error e)))
  | None => Panics "nil error"
  end.

Inductive proto_Message :=
| pm_Request (r : Request)
| pm_Response (r : Response)
| pm_Message (m : Message).

Definition newMessage (tid peerName : string) (pm : proto_Message) : outcome error Message :=
  match pm with
  | pm_Request v => Ok (mkMessage tid peerName (Some (Message_Request v)))
  | pm_Response v => Ok (mkMessage tid peerName (Some (Message_Response v)))
  | pm_Message _ => Panics "invalid Message type provided, expected *Request or *Response"
  end.

Definition NewResponseMessage (tid peerName : string) (response : Response) : Message :=
  mkMessage tid peerName (Some (Message_Response response)).

(** ** [gzip.go] *)

(** The levels of [compress/gzip]. *)
Definition gzip_NoCompression : Z := 0.
Definition gzip_BestSpeed : Z := 1.
Definition gzip_BestCompression : Z := 9.
Definition gzip_DefaultCompression : Z := -1.
Definition gzip_HuffmanOnly : Z := -2.

(** [gzip.NewWriterLevel] accepts the levels from [HuffmanOnly] to [BestCompression]. *)
Definition gzip_valid_level (level : Z) : bool :=
  (gzip_HuffmanOnly <=? level)%Z && (level <=? gzip_BestCompression)%Z.

(** How a [gzip.Reader] ends: with the data, or with an error from [NewReader],
    from reading or from [Close]. *)
Inductive gzip_read :=
| gzip_data (d : list byte)
| gzip_bad_header (e : error)
| gzip_bad_body (e : error)
| gzip_bad_close (e : error).

(** The codec: what a writer of a valid level leaves in the buffer after [Write]
    and [Close], and what a reader makes of a buffer. *)
Class GzipCodec := {
  gzip_deflate : Z -> list byte -> list byte;
  gzip_inflate : list byte -> gzip_read;
  gzip_roundtrip : forall level d,
    gzip_valid_level level = true -> gzip_inflate (gzip_deflate level d) = gzip_data d;
}.

(** [SetCompression]: the level selected by name; an unknown name ends the
    process ([log.Fatal]), here [None]. *)
Definition SetCompression (cmp : string) : option Z :=
  if String.eqb cmp "NoCompression" then Some gzip_NoCompression
  else if String.eqb cmp "BestSpeed" then Some gzip_BestSpeed
  else if String.eqb cmp "BestCompression" then Some gzip_BestCompression
  else if String.eqb cmp "DefaultCompression" then Some gzip_DefaultCompression
  else if String.eqb cmp "HuffmanOnly" then Some gzip_HuffmanOnly
  else None.

Section gzip.
Context `{GzipCodec}.

Definition compress (compressionLevel : Z) (data : list byte) : outcome error (list byte) :=
  if gzip_valid_level compressionLevel
  then Ok (gzip_deflate compressionLevel data)
  else Err (ErrWrap (ErrNew "gzip: invalid compression level") "failed to create zlib.Writer").

Definition decompress (data : list byte) : outcome error (list byte) :=
  match gzip_inflate data with
  | gzip_bad_header e => Err (ErrWrap e "failed to create gzip.Reader for provided data")
  | gzip_bad_body e => Err (ErrWrap e "failed to read data through gzip.Reader")
  | gzip_bad_close e =>
      Err (ErrWrap e "failed to close gzip.Reader, can't finalize the decompression")
  | gzip_data d => Ok d
  end.

(** ** [NewRequestMessage]: it compresses [request.Content] in place, so the
    result carries the caller's request object after the call. *)
Definition NewRequestMessage (level : Z) (tid peerName : string) (request : Request) :
    Request * outcome error Message :=
  match Content request with
  | None => (request, newMessage tid peerName (pm_Request request))
  | Some c =>
      match compress level c with
      | Ok c' =>
          let request' := set_Content (Some c') request in
          (request', newMessage tid peerName (pm_Request request'))
      | Err e => (set_Content None request, Err (ErrWrap e "failed to compress Request.Content"))
      | Panics w => (request, Panics w)
      end
  end.
End gzip.

(** ** The wire format: [proto.Marshal] and [proto.Unmarshal]

    [Marshal] can fail (a string that is not UTF-8); what it produces is read back
    as the same message: the fields hold values of their machine types, and the
    optional ones keep their presence on the wire. *)

Class ProtoCodec := {
  proto_Marshal : Message -> error + list byte;
  proto_Unmarshal : list byte -> error + Message;
  proto_roundtrip : forall m raw, proto_Marshal m = inr raw -> proto_Unmarshal raw = inr m;
}.

Section wire.
Context `{GzipCodec} `{ProtoCodec}.

Definition ReadMessage (raw : list byte) : outcome error Message :=
  match proto_Unmarshal raw with
  | inl e => Err (ErrWrap e "failed to unmarshal Message")
  | inr msg =>
      match msg_Type msg with
      | Some (Message_Request req) =>
          match Content req with
          | None => Ok msg
          | Some c =>
              match decompress c with
              | Ok c' =>
                  Ok (mkMessage (Tid msg) (PeerName msg)
                        (Some (Message_Request (set_Content (Some c') req))))
              | Err e => Err (ErrWrap e "failed to decompress Request.Content")
              | Panics w => Panics w
              end
          end
      | _ => Ok msg
      end
  end.

(** ** Properties *)

Lemma SetCompression_valid cmp level :
  SetCompression cmp = Some level -> gzip_valid_level level = true.
Proof. unfold SetCompression. intros. split_match. Qed.

Lemma NewRequestMessage_ok level tid peer req :
  gzip_valid_level level = true ->
  exists req', NewRequestMessage level tid peer req
    = (req', Ok (mkMessage tid peer (Some (Message_Request req'))))
  /\ Metadata req' = Metadata req /\ req_Type req' = req_Type req /\ Clock req' = Clock req.
Proof.
  intros Hl. unfold NewRequestMessage, compress. rewrite Hl.
  destruct req as [ty md ck [c|]]; simpl; eauto.
Qed.

(** What the receiver reads of a request is what the sender passed in, content
    included, whatever the compression level in use. *)
Lemma request_roundtrip level tid peer req req' m raw :
  gzip_valid_level level = true ->
  NewRequestMessage level tid peer req = (req', Ok m) ->
  proto_Marshal m = inr raw ->
  ReadMessage raw = Ok (mkMessage tid peer (Some (Message_Request req))).
Proof.
  intros Hl HN HM. unfold ReadMessage. rewrite (proto_roundtrip _ _ HM). clear HM.
  unfold NewRequestMessage, compress in HN. rewrite Hl in HN.
  destruct req as [ty md ck [c|]]; simplify_eq/=; [|done].
  unfold decompress. by rewrite gzip_roundtrip.
Qed.

Lemma response_roundtrip tid peer resp raw :
  proto_Marshal (NewResponseMessage tid peer resp) = inr raw ->
  ReadMessage raw = Ok (NewResponseMessage tid peer resp).
Proof. intros HM. unfold ReadMessage. by rewrite (proto_roundtrip _ _ HM). Qed.

(** C26: Whatever compression the configuration names, a request can be put into a message,
    and if that can be marshalled, a peer reads from the wire exactly the request the
    caller passed in: its content is compressed on the way out and restored on the way
    in. *)
Theorem wire_roundtrip cmp level tid peer req :
  SetCompression cmp = Some level ->
  exists req' m, NewRequestMessage level tid peer req = (req', Ok m) /\
    forall raw, proto_Marshal m = inr raw ->
      ReadMessage raw = Ok (mkMessage tid peer (Some (Message_Request req))).
Proof.
  intros Hl%SetCompression_valid. destruct (NewRequestMessage_ok level tid peer req Hl) as (req' & HN & _).
  eexists _, _. split; [done|]. intros raw. by eapply request_roundtrip.
Qed.
End wire.
