(* ===== verification/Wire.v ===== *)
(** * The wire format of protocol buffers

    The encoding that the generated code of [message.pb.go] relies on, as the protocol
    buffers documentation describes it: a message is a sequence of fields, each a tag
    (field number and wire type, as a varint) and a payload. This file has the varints,
    the fields and the parser of a sequence of fields; [MessagePb] builds the messages
    of the program from them and [Descriptor] reads the embedded file descriptor. *)

From S2P Require Import Prelude.

(** ** Varints: seven bits per byte, least significant first, at most ten bytes. *)

Fixpoint put_varint (k : nat) (z : Z) : list byte :=
  match k with
  | 0 => []
  | S k => if (z <? 128)%Z then [byte_of_Z z] else byte_of_Z (128 + z mod 128) :: put_varint k (z / 128)
  end.

(** The last byte that fits carries one bit of a 64-bit value. *)
Fixpoint get_varint (k : nat) (l : list byte) : option (Z * list byte) :=
  match k, l with
  | S k, b :: l =>
      let v := byte_to_Z b in
      if (v <? 128)%Z then
        if (k =? 0)%nat && (2 <=? v)%Z then None else Some (v, l)
      else '(x, l) ← get_varint k l; Some (v - 128 + 128 * x, l)%Z
  | _, _ => None
  end.

Definition varint (z : Z) : list byte := put_varint 10 z.
Definition consume_varint (l : list byte) : option (Z * list byte) := get_varint 10 l.
Arguments varint : simpl never.
Arguments consume_varint : simpl never.

(** ** Fields *)

Inductive wire_value :=
| WVarint (z : Z)
| WFixed64 (b : list byte)
| WLen (b : list byte)
| WFixed32 (b : list byte).

#[export] Instance wire_value_eq_dec : EqDecision wire_value.
Proof. solve_decision. Defined.

Abbreviation wire_field := (Z * wire_value)%type.

Definition wire_type (v : wire_value) : Z :=
  match v with WVarint _ => 0 | WFixed64 _ => 1 | WLen _ => 2 | WFixed32 _ => 5 end.

Definition payload (v : wire_value) : list byte :=
  match v with
  | WVarint z => varint z
  | WLen b => varint (Z.of_nat (length b)) ++ b
  | WFixed64 b | WFixed32 b => b
  end.

Definition put_field (x : wire_field) : list byte := varint (8 * x.1 + wire_type x.2) ++ payload x.2.

Definition put_fields (l : list wire_field) : list byte := l ≫= put_field.

(** [n] bytes, if there are so many. *)
Definition get_bytes (n : Z) (l : list byte) : option (list byte * list byte) :=
  if (n <=? Z.of_nat (length l))%Z then Some (take (Z.to_nat n) l, drop (Z.to_nat n) l) else None.

Definition get_payload (wt : Z) (l : list byte) : option (wire_value * list byte) :=
  if (wt =? 0)%Z then '(z, l) ← consume_varint l; Some (WVarint z, l)
  else if (wt =? 1)%Z then '(b, l) ← get_bytes 8 l; Some (WFixed64 b, l)
  else if (wt =? 2)%Z then '(n, l) ← consume_varint l; '(b, l) ← get_bytes n l; Some (WLen b, l)
  else if (wt =? 5)%Z then '(b, l) ← get_bytes 4 l; Some (WFixed32 b, l)
  else None.

Definition max_field_number : Z := 2 ^ 29 - 1.

Definition get_field (l : list byte) : option (wire_field * list byte) :=
  '(tag, l) ← consume_varint l;
  if (1 <=? tag / 8)%Z && (tag / 8 <=? max_field_number)%Z
  then '(v, l) ← get_payload (tag mod 8) l; Some ((tag / 8, v)%Z, l)
  else None.

(** A field takes at least one byte, so the length of the input bounds their number. *)
Fixpoint get_fields_fuel (k : nat) (l : list byte) : option (list wire_field) :=
  match l, k with
  | [], _ => Some []
  | _, 0 => None
  | _, S k => '(x, l) ← get_field l; fs ← get_fields_fuel k l; Some (x :: fs)
  end.

Definition get_fields (l : list byte) : option (list wire_field) := get_fields_fuel (length l) l.

(** ** Strings: the format demands UTF-8 *)

Definition between (a b z : Z) : bool := (a <=? z)%Z && (z <=? b)%Z.

(** [utf8.Valid]: no overlong forms, no surrogates, nothing past U+10FFFF. *)
Fixpoint utf8_valid (l : list byte) : bool :=
  match l with
  | [] => true
  | b0 :: l =>
      let x := byte_to_Z b0 in
      if (x <? 128)%Z then utf8_valid l
      else match l with
      | b1 :: l =>
          let y := byte_to_Z b1 in
          if between 194 223 x then between 128 191 y && utf8_valid l
          else match l with
          | b2 :: l =>
              let z := byte_to_Z b2 in
              if between 224 239 x then
                between (if (x =? 224)%Z then 160 else 128) (if (x =? 237)%Z then 159 else 191) y
                && between 128 191 z && utf8_valid l
              else match l with
              | b3 :: l =>
                  between 240 244 x && between (if (x =? 240)%Z then 144 else 128) (if (x =? 244)%Z then 143 else 191) y
                  && between 128 191 z && between 128 191 (byte_to_Z b3) && utf8_valid l
              | [] => false
              end
          | [] => false
          end
      | [] => false
      end
  end.

Definition bytes_of_string (s : string) : list byte := String.list_byte_of_string s.
Definition string_of_bytes (l : list byte) : string := String.string_of_list_byte l.

Lemma string_of_bytes_of_string s : string_of_bytes (bytes_of_string s) = s.
Proof. apply String.string_of_list_byte_of_string. Qed.

(** ** Round trips *)

Lemma get_put_varint k z l :
  (0 <= z < 2 * 128 ^ Z.of_nat k)%Z -> get_varint (S k) (put_varint (S k) z ++ l) = Some (z, l).
Proof.
  revert z. induction k as [|k IH]; intros z Hz.
  - simpl in Hz. change (put_varint 1 z) with (if (z <? 128)%Z then [byte_of_Z z] else [byte_of_Z (128 + z mod 128)]).
    destruct (Z.ltb_spec z 128); [|lia]. simpl. rewrite byte_to_of_Z. unfold u8, wrapU. rewrite Z.mod_small by lia.
    destruct (Z.ltb_spec z 128); [|lia]. destruct (Z.leb_spec 2 z); [lia|done].
  - rewrite Nat2Z.inj_succ, Z.pow_succ_r in Hz by lia. change (put_varint (S (S k)) z) with
      (if (z <? 128)%Z then [byte_of_Z z] else byte_of_Z (128 + z mod 128) :: put_varint (S k) (z / 128)).
    destruct (Z.ltb_spec z 128).
    + simpl. rewrite byte_to_of_Z. unfold u8, wrapU. rewrite Z.mod_small by lia. by destruct (Z.ltb_spec z 128); [|lia].
    + pose proof (Z.mod_pos_bound z 128 ltac:(lia)) as Hm.
      change (get_varint (S (S k)) ((byte_of_Z (128 + z mod 128) :: put_varint (S k) (z / 128)) ++ l)) with
        (let v := byte_to_Z (byte_of_Z (128 + z mod 128)) in
         if (v <? 128)%Z then Some (v, put_varint (S k) (z / 128) ++ l)
         else '(x, l) ← get_varint (S k) (put_varint (S k) (z / 128) ++ l); Some (v - 128 + 128 * x, l)%Z).
      rewrite byte_to_of_Z. unfold u8, wrapU. rewrite Z.mod_small by lia. cbv zeta. destruct (Z.ltb_spec (128 + z mod 128) 128); [lia|].
      rewrite IH; [|split; [apply Z.div_pos; lia|apply Z.div_lt_upper_bound; lia]]. simpl. f_equal. f_equal.
      pose proof (Z.div_mod z 128 ltac:(lia)). lia.
Qed.

Lemma varint_roundtrip z l : (0 <= z < 2 ^ 64)%Z -> consume_varint (varint z ++ l) = Some (z, l).
Proof. intros Hz. apply (get_put_varint 9). exact Hz. Qed.

Lemma put_varint_nonempty k z : 0 < length (put_varint (S k) z).
Proof. simpl. case_match; simpl; lia. Qed.

Lemma varint_nonempty z : 0 < length (varint z).
Proof. apply put_varint_nonempty. Qed.

(** What can be written: a 64-bit value, a payload whose length is one, the bytes of a
    fixed-width value. *)
Definition value_ok (v : wire_value) : Prop :=
  match v with
  | WVarint z => (0 <= z < 2 ^ 64)%Z
  | WLen b => (Z.of_nat (length b) < 2 ^ 64)%Z
  | WFixed64 b => length b = 8
  | WFixed32 b => length b = 4
  end.

Definition field_ok (x : wire_field) : Prop := (1 <= x.1 <= max_field_number)%Z /\ value_ok x.2.

Lemma get_bytes_app b l : get_bytes (Z.of_nat (length b)) (b ++ l) = Some (b, l).
Proof.
  unfold get_bytes. rewrite length_app. destruct (Z.leb_spec (Z.of_nat (length b)) (Z.of_nat (length b + length l))); [|lia].
  by rewrite Nat2Z.id, take_app_length, drop_app_length.
Qed.

Lemma payload_roundtrip v l : value_ok v -> get_payload (wire_type v) (payload v ++ l) = Some (v, l).
Proof.
  destruct v as [z|b|b|b]; simpl; intros Hv; unfold get_payload; simpl.
  - by rewrite varint_roundtrip.
  - change 8%Z with (Z.of_nat 8). by rewrite <- Hv, get_bytes_app.
  - rewrite <- app_assoc, varint_roundtrip by lia. simpl. by rewrite get_bytes_app.
  - change 4%Z with (Z.of_nat 4). by rewrite <- Hv, get_bytes_app.
Qed.

Lemma field_roundtrip x l : field_ok x -> get_field (put_field x ++ l) = Some (x, l).
Proof.
  destruct x as [n v]. intros [Hn Hv]. unfold get_field, put_field, max_field_number in *. simpl in *.
  assert (0 <= wire_type v < 8)%Z as Ht by (destruct v; simpl; lia).
  rewrite <- app_assoc, varint_roundtrip by lia. simpl.
  assert ((8 * n + wire_type v) / 8 = n)%Z as -> by (symmetry; apply (Z.div_unique_pos _ _ _ (wire_type v)); lia).
  assert ((8 * n + wire_type v) mod 8 = wire_type v)%Z as -> by (symmetry; apply (Z.mod_unique_pos _ _ n); lia).
  destruct (Z.leb_spec 1 n), (Z.leb_spec n (2 ^ 29 - 1)); try lia. simpl. by rewrite payload_roundtrip.
Qed.

Lemma fields_roundtrip_fuel k l :
  Forall field_ok l -> length (put_fields l) <= k -> get_fields_fuel k (put_fields l) = Some l.
Proof.
  revert k. induction l as [|x l IH]; intros k Hl Hk; [by destruct k|]. apply Forall_cons in Hl as [Hx Hl].
  change (put_fields (x :: l)) with (put_field x ++ put_fields l) in *. rewrite length_app in Hk.
  assert (0 < length (put_field x)) as Hpos.
  { unfold put_field. rewrite length_app. pose proof (varint_nonempty (8 * x.1 + wire_type x.2)). lia. }
  destruct k as [|k]; [lia|]. simpl. destruct (put_field x ++ put_fields l) as [|b r] eqn:E.
  { apply (f_equal length) in E. rewrite length_app in E. simpl in E. lia. }
  rewrite <- E, field_roundtrip by done. simpl. rewrite IH; [done|done|lia].
Qed.

Lemma fields_roundtrip l : Forall field_ok l -> get_fields (put_fields l) = Some l.
Proof. intros Hl. by apply fields_roundtrip_fuel. Qed.
