(* ===== verification/MessagePb.v ===== *)
(** * The generated message types on the wire ([protobuf/message.pb.go])

    The struct tags of [message.pb.go] say how each field is written: its number, its wire
    type, and whether its presence is explicit. Here every field is a lens with a codec
    made from its tag, a message is the list of its fields, and the round trip of a message
    follows from that of its fields. The result is a [ProtoCodec]: the interface that
    [Protobuf] states for the library is met by the documented encoding of these structs.
    The getters of the generated code come last. *)

From S2P Require Import Prelude Errors Protobuf Wire.

(** ** Codecs of fields *)

(** A scalar: how it is written, and how a received value is read: [None] is a value of
    another wire type, [Some None] one the format forbids. *)
Record scalar (A : Type) := mkScalar {
  s_put : A -> wire_value;
  s_get : wire_value -> option (option A);
}.
Arguments mkScalar {A}.
Arguments s_put {A}.
Arguments s_get {A}.

(** The codec of a struct field: the numbers it owns, its zero value, what is written for a
    value, and how a received field changes the current value; [None] is an error. *)
Record codec (A : Type) := mkCodec {
  c_nums : list Z;
  c_zero : A;
  c_put : A -> list wire_field;
  c_set : Z -> wire_value -> A -> option A;
}.
Arguments mkCodec {A}.
Arguments c_nums {A}.
Arguments c_zero {A}.
Arguments c_put {A}.
Arguments c_set {A}.

(** A proto3 field without presence: the zero value is not written. *)
Definition implicit {A} `{EqDecision A} (n : Z) (zero : A) (s : scalar A) : codec A :=
  mkCodec [n] zero (fun a => if decide (a = zero) then [] else [(n, s_put s a)])
    (fun _ v a => match s_get s v with None => Some a | Some r => r end).

(** A field declared [optional]: a pointer, written when it is not nil. *)
Definition explicit {A} (n : Z) (s : scalar A) : codec (option A) :=
  mkCodec [n] None (fun o => match o with Some a => [(n, s_put s a)] | None => [] end)
    (fun _ v o => match s_get s v with None => Some o | Some r => Some <$> r end).

(** A field that holds a message; a second occurrence is merged into the first. *)
Definition embedded {A} (n : Z) (zero : A) (enc : A -> list byte) (dec : A -> list byte -> option A) : codec (option A) :=
  mkCodec [n] None (fun o => match o with Some a => [(n, WLen (enc a))] | None => [] end)
    (fun _ v o => match v with WLen b => Some <$> dec (default zero o) b | _ => Some o end).

(** ** Messages *)

Record field (M : Type) := mkField {
  f_nums : list Z;
  f_put : M -> list wire_field;
  f_set : Z -> wire_value -> M -> option M;
}.
Arguments mkField {M}.
Arguments f_nums {M}.
Arguments f_put {M}.
Arguments f_set {M}.

Definition at_field {M A} (get : M -> A) (upd : A -> M -> M) (c : codec A) : field M :=
  mkField (c_nums c) (fun m => c_put c (get m)) (fun n v m => (fun a => upd a m) <$> c_set c n v (get m)).

Fixpoint set_all {A} (set : Z -> wire_value -> A -> option A) (a : A) (l : list wire_field) : option A :=
  match l with
  | [] => Some a
  | (n, v) :: l => a' ← set n v a; set_all set a' l
  end.

(** A number that no field owns is skipped. *)
Definition set_field {M} (fs : list (field M)) (n : Z) (v : wire_value) (m : M) : option M :=
  match list_find (fun F => n ∈ f_nums F) fs with
  | Some (_, F) => f_set F n v m
  | None => Some m
  end.

Definition fields_of {M} (fs : list (field M)) (m : M) : list wire_field := fs ≫= (fun F => f_put F m).
Definition encode_message {M} (fs : list (field M)) (m : M) : list byte := put_fields (fields_of fs m).

Definition decode_message {M} (fs : list (field M)) (m : M) (b : list byte) : option M :=
  l ← get_fields b; set_all (set_field fs) m l.

(** ** Laws *)

Record scalar_ok {A} (s : scalar A) (valid : A -> Prop) : Prop := {
  so_value a : valid a -> value_ok (s_put s a);
  so_get a : valid a -> s_get s (s_put s a) = Some (Some a);
}.

Record codec_ok {A} (c : codec A) (valid : A -> Prop) : Prop := {
  co_fields a : valid a -> Forall (fun x => x.1 ∈ c_nums c /\ value_ok x.2) (c_put c a);
  co_set a : valid a -> set_all (c_set c) (c_zero c) (c_put c a) = Some a;
}.

Lemma implicit_ok {A} `{EqDecision A} n (zero : A) s valid : scalar_ok s valid -> codec_ok (implicit n zero s) valid.
Proof.
  intros S. split; intros a Ha; simpl; case_decide as E; try constructor; try done.
  - split; [by left|by apply S].
  - by rewrite E.
  - simpl. by rewrite (so_get _ _ S).
Qed.

Definition opt_valid {A} (valid : A -> Prop) (o : option A) : Prop := forall a, o = Some a -> valid a.

Lemma explicit_ok {A} n (s : scalar A) valid : scalar_ok s valid -> codec_ok (explicit n s) (opt_valid valid).
Proof.
  intros S. split; intros [a|] Ha; simpl; try constructor; try done.
  - split; [by left|by apply S, Ha].
  - rewrite (so_get _ _ S); [done|]. by apply Ha.
Qed.

Lemma embedded_ok {A} n (zero : A) enc dec valid :
  (forall a, valid a -> (Z.of_nat (length (enc a)) < 2 ^ 64)%Z /\ dec zero (enc a) = Some a) ->
  codec_ok (embedded n zero enc dec) (opt_valid valid).
Proof.
  intros S. split; intros [a|] Ha; simpl; try constructor; try done.
  - split; [by left|by apply S, Ha].
  - destruct (S a) as [_ ->]; [by apply Ha|done].
Qed.

Record lens_ok {M A} (get : M -> A) (upd : A -> M -> M) : Prop := {
  le_get a m : get (upd a m) = a;
  le_upd a a' m : upd a (upd a' m) = upd a m;
  le_same m : upd (get m) m = m;
}.

Lemma set_all_at {M A} (get : M -> A) upd (c : codec A) l acc :
  lens_ok get upd ->
  set_all (f_set (at_field get upd c)) acc l = (fun a => upd a acc) <$> set_all (c_set c) (get acc) l.
Proof.
  intros L. revert acc. induction l as [|[n v] l IH]; intros acc; simpl; [by rewrite (le_same _ _ L)|].
  destruct (c_set c n v (get acc)) as [a|]; [|done]. simpl. rewrite IH, (le_get _ _ L).
  destruct (set_all (c_set c) a l); [|done]. simpl. by rewrite (le_upd _ _ L).
Qed.

Lemma set_all_app {A} (set : Z -> wire_value -> A -> option A) a l k :
  set_all set a (l ++ k) = a' ← set_all set a l; set_all set a' k.
Proof. revert a. induction l as [|[n v] l IH]; intros a; [done|]. simpl. destruct (set n v a); [apply IH|done]. Qed.

(** The field that answers to its numbers. *)
Definition owns {M} (fs : list (field M)) (F : field M) : Prop :=
  forall n, n ∈ f_nums F -> snd <$> list_find (fun F => n ∈ f_nums F) fs = Some F.

Lemma set_all_owned {M} (fs : list (field M)) F acc l :
  owns fs F -> Forall (fun x => x.1 ∈ f_nums F) l -> set_all (set_field fs) acc l = set_all (f_set F) acc l.
Proof.
  intros Ho Hl. revert acc. induction Hl as [|[n v] l Hn _ IH]; intros acc; [done|]. simpl in *.
  assert (set_field fs n v acc = f_set F n v acc) as ->.
  { unfold set_field. specialize (Ho n Hn). destruct (list_find _ fs) as [[i G]|]; simplify_eq/=. done. }
  destruct (f_set F n v acc); [apply IH|done].
Qed.

(** What is written for one field of [m] restores it in a message that has its zero value. *)
Lemma field_step {M A} (fs gs : list (field M)) (get : M -> A) upd (c : codec A) valid m acc :
  codec_ok c valid -> valid (get m) -> lens_ok get upd -> owns fs (at_field get upd c) -> get acc = c_zero c ->
  set_all (set_field fs) acc (fields_of (at_field get upd c :: gs) m) = set_all (set_field fs) (upd (get m) acc) (fields_of gs m).
Proof.
  intros C V L O Z. change (fields_of (at_field get upd c :: gs) m) with (f_put (at_field get upd c) m ++ fields_of gs m).
  rewrite set_all_app, (set_all_owned fs (at_field get upd c)); [|done|].
  - simpl. rewrite (set_all_at get upd c), Z, (co_set _ _ C) by done. done.
  - eapply Forall_impl; [by apply C|]. by intros x [Hx _].
Qed.

Lemma fields_ok_cons {M A} (gs : list (field M)) (get : M -> A) upd (c : codec A) valid m :
  codec_ok c valid -> valid (get m) -> Forall (fun n => 1 <= n <= max_field_number)%Z (c_nums c) ->
  Forall field_ok (fields_of gs m) -> Forall field_ok (fields_of (at_field get upd c :: gs) m).
Proof.
  intros C V N G. apply Forall_app. split; [|done]. eapply Forall_impl; [by apply C|].
  intros x [Hn Hv]. split; [|done]. rewrite Forall_forall in N. by apply N.
Qed.

Lemma decode_encode {M} (fs : list (field M)) acc m :
  Forall field_ok (fields_of fs m) -> decode_message fs acc (encode_message fs m) = set_all (set_field fs) acc (fields_of fs m).
Proof. intros Hf. unfold decode_message, encode_message. by rewrite fields_roundtrip. Qed.

(** ** The scalars of the structs *)

(** A Go slice or string is shorter than this. *)
Definition short (b : list byte) : bool := (Z.of_nat (length b) <? 2 ^ 63)%Z.

Definition sc_string : scalar string :=
  mkScalar (fun s => WLen (bytes_of_string s))
    (fun v => match v with WLen b => Some (if utf8_valid b then Some (string_of_bytes b) else None) | _ => None end).

Definition sc_bytes : scalar (list byte) :=
  mkScalar WLen (fun v => match v with WLen b => Some (Some b) | _ => None end).

(** An unsigned integer of [w] bits; what is longer on the wire is cut. *)
Definition sc_uint (w : Z) : scalar Z :=
  mkScalar WVarint (fun v => match v with WVarint z => Some (Some (wrapU w z)) | _ => None end).

Definition sc_int64 : scalar Z :=
  mkScalar (fun z => WVarint (u64 z)) (fun v => match v with WVarint z => Some (Some (i64 z)) | _ => None end).

(** An enum is an [int32], sign-extended on the wire. *)
Definition sc_enum {A} (to : A -> Z) (from : Z -> A) : scalar A :=
  mkScalar (fun a => WVarint (u64 (to a))) (fun v => match v with WVarint z => Some (Some (from (wrapS 32 z))) | _ => None end).

Definition string_ok (s : string) : bool := utf8_valid (bytes_of_string s) && short (bytes_of_string s).
Definition uint_ok (w z : Z) : bool := (0 <=? z)%Z && (z <? 2 ^ w)%Z.
Definition int_ok (w z : Z) : bool := (- 2 ^ (w - 1) <=? z)%Z && (z <? 2 ^ (w - 1))%Z.
Definition enum_ok {A} `{EqDecision A} (to : A -> Z) (from : Z -> A) (a : A) : bool := int_ok 32 (to a) && bool_decide (from (to a) = a).

Lemma short_lt b : short b = true -> (Z.of_nat (length b) < 2 ^ 64)%Z.
Proof. unfold short. lia. Qed.

Lemma u64_range z : (0 <= u64 z < 2 ^ 64)%Z.
Proof. apply wrapU_range. lia. Qed.

(** A signed value read back from its 64-bit pattern. *)
Lemma wrapS_u64 w z : (0 < w <= 64)%Z -> int_ok w z = true -> wrapS w (u64 z) = z.
Proof.
  unfold int_ok. intros Hw [Hz1%Z.leb_le Hz2%Z.ltb_lt]%andb_true_iff. rewrite <- (wrapS_small w z) at 2 by lia.
  unfold wrapS, u64, wrapU. f_equal. rewrite Zplus_mod, Z.mod_mod_divide, <- Zplus_mod; [done|].
  exists (2 ^ (64 - w))%Z. rewrite <- Z.pow_add_r by lia. f_equal. lia.
Qed.

Lemma string_scalar : scalar_ok sc_string (fun s => string_ok s = true).
Proof.
  split; intros s Hs; apply andb_true_iff in Hs as [Hu Hl]; simpl; [by apply short_lt|].
  by rewrite Hu, string_of_bytes_of_string.
Qed.

Lemma bytes_scalar : scalar_ok sc_bytes (fun b => short b = true).
Proof. split; intros b Hb; [by apply short_lt|done]. Qed.

Lemma uint_scalar w : (0 <= w <= 64)%Z -> scalar_ok (sc_uint w) (fun z => uint_ok w z = true).
Proof.
  intros Hw. pose proof (Z.pow_le_mono_r 2 w 64 ltac:(lia) ltac:(lia)).
  split; intros z [Hz1%Z.leb_le Hz2%Z.ltb_lt]%andb_true_iff; simpl; [lia|]. by rewrite wrapU_small.
Qed.

Lemma int64_scalar : scalar_ok sc_int64 (fun z => int_ok 64 z = true).
Proof. split; intros z Hz; simpl; [apply u64_range|]. unfold i64. by rewrite wrapS_u64. Qed.

Lemma enum_scalar {A} `{EqDecision A} (to : A -> Z) from : scalar_ok (sc_enum to from) (fun a => enum_ok to from a = true).
Proof.
  split; intros a [Hr Ha%bool_decide_eq_true]%andb_true_iff; simpl; [apply u64_range|]. by rewrite wrapS_u64, Ha.
Qed.

(** ** Enum numbers *)

Definition Request_Type_Number (t : Request_Type) : Z :=
  match t with
  | Request_CREATE => 0
  | Request_LINK => 1
  | Request_MKDIR => 2
  | Request_RENAME => 3
  | Request_RMDIR => 4
  | Request_SETATTR => 5
  | Request_SYMLINK => 6
  | Request_UNLINK => 7
  | Request_WRITE => 8
  | Request_COPY_FILE_RANGE => 9
  | Request_Unrecognised n => n
  end.

Definition declared_Request_Types : list Request_Type :=
  [Request_CREATE; Request_LINK; Request_MKDIR; Request_RENAME; Request_RMDIR; Request_SETATTR; Request_SYMLINK;
   Request_UNLINK; Request_WRITE; Request_COPY_FILE_RANGE].

Definition Response_Type_Number (t : Response_Type) : Z :=
  match t with
  | Response_ACK => 0
  | Response_NACK => 1
  | Response_Type_Unrecognised n => n
  end.

Definition declared_Response_Types : list Response_Type := [Response_ACK; Response_NACK].

Definition Response_Error_Number (e : Response_Error) : Z :=
  match e with
  | Response_ERR_UNKNOWN => 0
  | Response_ERR_ALREADY_EXISTS => 1
  | Response_ERR_DOES_NOT_EXIST => 2
  | Response_ERR_TRANSACTION_CONFLICT => 3
  | Response_ERR_NOT_A_DIRECTORY => 4
  | Response_ERR_NOT_A_FILE => 5
  | Response_ERR_INVALID_MODE => 6
  | Response_Error_Unrecognised n => n
  end.

Definition declared_Response_Errors : list Response_Error :=
  [Response_ERR_UNKNOWN; Response_ERR_ALREADY_EXISTS; Response_ERR_DOES_NOT_EXIST; Response_ERR_TRANSACTION_CONFLICT;
   Response_ERR_NOT_A_DIRECTORY; Response_ERR_NOT_A_FILE; Response_ERR_INVALID_MODE].

(** The constant with a number, or the number itself. *)
Definition of_number {A} (number : A -> Z) (declared : list A) (unrecognised : Z -> A) (z : Z) : A :=
  match list_find (fun a => number a = z) declared with Some (_, a) => a | None => unrecognised z end.

Definition Request_Type_of_number : Z -> Request_Type := of_number Request_Type_Number declared_Request_Types Request_Unrecognised.
Definition Response_Type_of_number : Z -> Response_Type :=
  of_number Response_Type_Number declared_Response_Types Response_Type_Unrecognised.
Definition Response_Error_of_number : Z -> Response_Error :=
  of_number Response_Error_Number declared_Response_Errors Response_Error_Unrecognised.

(** ** The messages, field by field as the struct tags declare them *)

Definition Metadata_wire : list (field Request_Metadata) :=
  [at_field RelativePath (fun a m => mkMetadata a (NewRelativePath m) (Mode m) (WriteOffset m) (ReadOffset m) (WriteLen m))
     (implicit 1 "" sc_string);
   at_field NewRelativePath (fun a m => mkMetadata (RelativePath m) a (Mode m) (WriteOffset m) (ReadOffset m) (WriteLen m))
     (implicit 2 "" sc_string);
   at_field Mode (fun a m => mkMetadata (RelativePath m) (NewRelativePath m) a (WriteOffset m) (ReadOffset m) (WriteLen m))
     (implicit 3 0%Z (sc_uint 32));
   at_field WriteOffset (fun a m => mkMetadata (RelativePath m) (NewRelativePath m) (Mode m) a (ReadOffset m) (WriteLen m))
     (implicit 4 0%Z sc_int64);
   at_field ReadOffset (fun a m => mkMetadata (RelativePath m) (NewRelativePath m) (Mode m) (WriteOffset m) a (WriteLen m))
     (implicit 5 0%Z sc_int64);
   at_field WriteLen (fun a m => mkMetadata (RelativePath m) (NewRelativePath m) (Mode m) (WriteOffset m) (ReadOffset m) a)
     (implicit 6 0%Z sc_int64)].

Definition Request_wire : list (field Request) :=
  [at_field req_Type (fun a m => mkRequest a (Metadata m) (Clock m) (Content m))
     (implicit 1 Request_CREATE (sc_enum Request_Type_Number Request_Type_of_number));
   at_field Metadata (fun a m => mkRequest (req_Type m) a (Clock m) (Content m))
     (embedded 2 no_Metadata (encode_message Metadata_wire) (decode_message Metadata_wire));
   at_field Clock (fun a m => mkRequest (req_Type m) (Metadata m) a (Content m)) (implicit 3 0%Z (sc_uint 64));
   at_field Content (fun a m => mkRequest (req_Type m) (Metadata m) (Clock m) a) (explicit 4 sc_bytes)].

Definition Response_wire : list (field Response) :=
  [at_field resp_Type (fun a m => mkResponse a (resp_Error m) (ErrorMsg m))
     (implicit 1 Response_ACK (sc_enum Response_Type_Number Response_Type_of_number));
   at_field resp_Error (fun a m => mkResponse (resp_Type m) a (ErrorMsg m))
     (explicit 2 (sc_enum Response_Error_Number Response_Error_of_number));
   at_field ErrorMsg (fun a m => mkResponse (resp_Type m) (resp_Error m) a) (explicit 3 sc_string)].

Definition no_Request : Request := mkRequest Request_CREATE None 0 None.
Definition no_Response : Response := mkResponse Response_ACK None None.
Definition no_Message : Message := mkMessage "" "" None.

(** The [oneof]: the last alternative received wins, the same one twice is merged. *)
Definition Type_codec : codec (option isMessage_Type) :=
  mkCodec [3; 4]%Z None
    (fun o => match o with
              | Some (Message_Request r) => [(3%Z, WLen (encode_message Request_wire r))]
              | Some (Message_Response r) => [(4%Z, WLen (encode_message Response_wire r))]
              | None => []
              end)
    (fun n v o => match v with
                  | WLen b =>
                      if (n =? 3)%Z
                      then (fun r => Some (Message_Request r)) <$>
                             decode_message Request_wire (match o with Some (Message_Request r) => r | _ => no_Request end) b
                      else (fun r => Some (Message_Response r)) <$>
                             decode_message Response_wire (match o with Some (Message_Response r) => r | _ => no_Response end) b
                  | _ => Some o
                  end).

Definition Message_wire : list (field Message) :=
  [at_field Tid (fun a m => mkMessage a (PeerName m) (msg_Type m)) (implicit 1 "" sc_string);
   at_field PeerName (fun a m => mkMessage (Tid m) a (msg_Type m)) (implicit 2 "" sc_string);
   at_field msg_Type (fun a m => mkMessage (Tid m) (PeerName m) a) Type_codec].

(** ** What a Go value of these types is: integers within their types, constants rather
    than their numbers; and what [proto.Marshal] checks of it: strings are UTF-8. *)

Definition Metadata_ok (md : Request_Metadata) : bool :=
  string_ok (RelativePath md) && string_ok (NewRelativePath md) && uint_ok 32 (Mode md) &&
  int_ok 64 (WriteOffset md) && int_ok 64 (ReadOffset md) && int_ok 64 (WriteLen md) &&
  short (encode_message Metadata_wire md).

Definition opt_ok {A} (f : A -> bool) (o : option A) : bool := match o with Some a => f a | None => true end.

Definition Request_ok (r : Request) : bool :=
  enum_ok Request_Type_Number Request_Type_of_number (req_Type r) && opt_ok Metadata_ok (Metadata r) &&
  uint_ok 64 (Clock r) && opt_ok short (Content r) && short (encode_message Request_wire r).

Definition Response_ok (r : Response) : bool :=
  enum_ok Response_Type_Number Response_Type_of_number (resp_Type r) &&
  opt_ok (enum_ok Response_Error_Number Response_Error_of_number) (resp_Error r) && opt_ok string_ok (ErrorMsg r) &&
  short (encode_message Response_wire r).

Definition Type_ok (t : isMessage_Type) : bool :=
  match t with Message_Request r => Request_ok r | Message_Response r => Response_ok r end.

Definition Message_ok (m : Message) : bool := string_ok (Tid m) && string_ok (PeerName m) && opt_ok Type_ok (msg_Type m).

Lemma opt_ok_valid {A} (f : A -> bool) o : opt_ok f o = true -> opt_valid (fun a => f a = true) o.
Proof. by intros H a ->. Qed.

(** ** Round trips *)

Create HintDb codecs.
#[export] Hint Resolve implicit_ok explicit_ok string_scalar bytes_scalar int64_scalar enum_scalar opt_ok_valid : codecs.
#[export] Hint Extern 1 (scalar_ok (sc_uint _) _) => apply uint_scalar; lia : codecs.

(** The round trip of a message, given that its values are valid: the fields are well
    formed, and each of them restores its value. *)
Ltac owned := let Hn := fresh in
  intros ? Hn; simpl in Hn; repeat (apply elem_of_cons in Hn as [->|Hn]; [reflexivity|]); inversion Hn.

Ltac message_roundtrip fs :=
  rewrite decode_encode; unfold fs;
  [repeat (erewrite field_step;
     [|by eauto with codecs|by eauto with codecs|split; [done|done|by intros []]|owned|reflexivity])
  |repeat (eapply fields_ok_cons;
     [by eauto with codecs|by eauto with codecs|repeat constructor; unfold max_field_number; simpl; lia|]); constructor].

Lemma Metadata_roundtrip md :
  Metadata_ok md = true -> decode_message Metadata_wire no_Metadata (encode_message Metadata_wire md) = Some md.
Proof.
  unfold Metadata_ok. rewrite !andb_true_iff. intros [[[[[[V1 V2] V3] V4] V5] V6] _].
  message_roundtrip Metadata_wire. by destruct md.
Qed.

Lemma Metadata_codec n :
  codec_ok (embedded n no_Metadata (encode_message Metadata_wire) (decode_message Metadata_wire))
    (opt_valid (fun md => Metadata_ok md = true)).
Proof.
  apply embedded_ok. intros md V. split; [|by apply Metadata_roundtrip]. apply short_lt.
  by apply andb_true_iff in V as [_ V].
Qed.
#[export] Hint Resolve Metadata_codec : codecs.

Lemma Request_roundtrip r :
  Request_ok r = true -> decode_message Request_wire no_Request (encode_message Request_wire r) = Some r.
Proof.
  unfold Request_ok. rewrite !andb_true_iff. intros [[[[V1 V2] V3] V4] _].
  message_roundtrip Request_wire. by destruct r.
Qed.

Lemma Response_roundtrip r :
  Response_ok r = true -> decode_message Response_wire no_Response (encode_message Response_wire r) = Some r.
Proof.
  unfold Response_ok. rewrite !andb_true_iff. intros [[[V1 V2] V3] _].
  message_roundtrip Response_wire. by destruct r.
Qed.

Lemma Type_codec_ok : codec_ok Type_codec (opt_valid (fun t => Type_ok t = true)).
Proof.
  split; intros [[r|r]|] V; simpl; try constructor; try done; specialize (V _ eq_refl); simpl in V.
  - split; [by left|]. apply short_lt. by apply andb_true_iff in V as [_ V].
  - split; [by right; left|]. apply short_lt. by apply andb_true_iff in V as [_ V].
  - by rewrite Request_roundtrip.
  - by rewrite Response_roundtrip.
Qed.
#[export] Hint Resolve Type_codec_ok : codecs.

Lemma message_roundtrip m :
  Message_ok m = true -> decode_message Message_wire no_Message (encode_message Message_wire m) = Some m.
Proof.
  unfold Message_ok. rewrite !andb_true_iff. intros [[V1 V2] V3].
  message_roundtrip Message_wire. by destruct m.
Qed.

(** Fields that the receiver does not know change nothing. *)
Lemma unknown_fields {M} (fs : list (field M)) m b m0 extra :
  decode_message fs m0 b = Some m -> Forall field_ok extra ->
  Forall (fun x => Forall (fun F => x.1 ∉ f_nums F) fs) extra ->
  (exists l, Forall field_ok l /\ b = put_fields l) ->
  decode_message fs m0 (b ++ put_fields extra) = Some m.
Proof.
  intros E Hok Hun (l & Hl & ->). unfold decode_message in *. rewrite fields_roundtrip in E by done. simpl in E.
  assert (put_fields l ++ put_fields extra = put_fields (l ++ extra)) as -> by (unfold put_fields; by rewrite bind_app).
  rewrite fields_roundtrip by (by apply Forall_app). simpl. rewrite set_all_app, E. simpl. clear E.
  induction Hun as [|[n v] extra Hx _ IH]; [done|]. apply Forall_cons in Hok as [_ Hok]. simpl in *.
  assert (set_field fs n v m = Some m) as ->; [|by apply IH].
  unfold set_field. destruct (list_find _ fs) as [[i F]|] eqn:E; [|done]. apply list_find_Some in E as (HF & Hn & _).
  rewrite Forall_lookup in Hx. by destruct (Hx i F HF).
Qed.

(** ** [proto.Marshal] and [proto.Unmarshal] on these structs *)

Definition wire_Marshal (m : Message) : error + list byte :=
  if Message_ok m then inr (encode_message Message_wire m)
  else inl (ErrNew "string field contains invalid UTF-8").

Definition wire_Unmarshal (raw : list byte) : error + Message :=
  match decode_message Message_wire no_Message raw with
  | Some m => inr m
  | None => inl (ErrNew "proto: cannot parse invalid wire-format data")
  end.

Lemma wire_codec_roundtrip m raw : wire_Marshal m = inr raw -> wire_Unmarshal raw = inr m.
Proof.
  unfold wire_Marshal, wire_Unmarshal. destruct (Message_ok m) eqn:V; [|done]. intros [= <-]. by rewrite message_roundtrip.
Qed.

(** The encoding is an instance of the interface; it is passed by name. *)
Definition wire_codec : ProtoCodec :=
  {| proto_Marshal := wire_Marshal; proto_Unmarshal := wire_Unmarshal; proto_roundtrip := wire_codec_roundtrip |}.

(** A field of a later version of the message. *)
Definition foreign (x : wire_field) : Prop := field_ok x /\ x.1 ∉ [1; 2; 3; 4]%Z.

Lemma Message_wire_ok m : Message_ok m = true -> Forall field_ok (fields_of Message_wire m).
Proof.
  unfold Message_ok. rewrite !andb_true_iff. intros [[V1 V2] V3]. unfold Message_wire.
  repeat (eapply fields_ok_cons;
    [by eauto with codecs|by eauto with codecs|repeat constructor; unfold max_field_number; simpl; lia|]). constructor.
Qed.

(** In this encoding, whatever compression the configuration names, a request whose numbers
    are those of Go's types and whose strings are UTF-8 can be marshalled, and a peer reads
    exactly the request the caller passed in, also when a later version of the program adds
    fields. *)
Theorem request_survives_the_wire `{GzipCodec} cmp level tid peer req extra :
  SetCompression cmp = Some level -> string_ok tid = true -> string_ok peer = true ->
  Request_ok (NewRequestMessage level tid peer req).1 = true -> Forall foreign extra ->
  exists m raw, (NewRequestMessage level tid peer req).2 = Ok m /\ proto_Marshal (ProtoCodec := wire_codec) m = inr raw /\
    ReadMessage (H0 := wire_codec) (raw ++ put_fields extra) = Ok (mkMessage tid peer (Some (Message_Request req))).
Proof.
  intros Hl%SetCompression_valid Ht Hp Hr Hx. destruct (NewRequestMessage_ok level tid peer req Hl) as (req' & HN & _).
  rewrite HN in Hr |- *. simpl in Hr |- *. set (m := mkMessage tid peer (Some (Message_Request req'))).
  assert (Message_ok m = true) as V by (unfold Message_ok; simpl; by rewrite Ht, Hp, Hr).
  assert (wire_Marshal m = inr (encode_message Message_wire m)) as HM by (unfold wire_Marshal; by rewrite V).
  exists m, (encode_message Message_wire m). split; [done|]. split; [done|].
  pose proof (request_roundtrip (H0 := wire_codec) level tid peer req req' m _ Hl HN HM) as R.
  unfold ReadMessage in R |- *. simpl in *. unfold wire_Unmarshal in *. rewrite message_roundtrip in R by done.
  rewrite (unknown_fields Message_wire m); [done|by apply message_roundtrip| | |].
  - eapply Forall_impl; [exact Hx|]. by intros x [? _].
  - eapply Forall_impl; [exact Hx|]. intros x [_ Hn]. repeat constructor; simpl; set_solver.
  - exists (fields_of Message_wire m). split; [by apply Message_wire_ok|done].
Qed.

(** ** Getters: safe on nil, with the zero value of an unset pointer *)

Definition GetTid (x : option Message) : string := from_option Tid "" x.
Definition GetPeerName (x : option Message) : string := from_option PeerName "" x.
Definition Message_GetType (m : option Message) : option isMessage_Type := m ≫= msg_Type.
Definition Request_GetType (x : option Request) : Request_Type := from_option req_Type Request_CREATE x.
Definition GetMetadata (x : option Request) : option Request_Metadata := x ≫= Metadata.
Definition GetClock (x : option Request) : Z := from_option Clock 0%Z x.
Definition GetContent (x : option Request) : option (list byte) := x ≫= Content.
Definition GetError (x : option Response) : Response_Error := default Response_ERR_UNKNOWN (x ≫= resp_Error).
Definition GetErrorMsg (x : option Response) : string := default "" (x ≫= ErrorMsg).
Definition GetRelativePath (x : option Request_Metadata) : string := from_option RelativePath "" x.
Definition GetNewRelativePath (x : option Request_Metadata) : string := from_option NewRelativePath "" x.
Definition GetMode (x : option Request_Metadata) : Z := from_option Mode 0%Z x.
Definition GetWriteOffset (x : option Request_Metadata) : Z := from_option WriteOffset 0%Z x.
Definition GetReadOffset (x : option Request_Metadata) : Z := from_option ReadOffset 0%Z x.
Definition GetWriteLen (x : option Request_Metadata) : Z := from_option WriteLen 0%Z x.

(** A nil pointer answers like the zero value of its struct. *)
Lemma getters_of_nil :
  (GetTid None, GetPeerName None, Message_GetType None) = (GetTid (Some no_Message), GetPeerName (Some no_Message), Message_GetType (Some no_Message)) /\
  (Request_GetType None, GetMetadata None, GetClock None, GetContent None) =
    (Request_GetType (Some no_Request), GetMetadata (Some no_Request), GetClock (Some no_Request), GetContent (Some no_Request)) /\
  (Response_GetType None, GetError None, GetErrorMsg None) =
    (Response_GetType (Some no_Response), GetError (Some no_Response), GetErrorMsg (Some no_Response)) /\
  (GetRelativePath None, GetNewRelativePath None, GetMode None, GetWriteOffset None, GetReadOffset None, GetWriteLen None) =
    (GetRelativePath (Some no_Metadata), GetNewRelativePath (Some no_Metadata), GetMode (Some no_Metadata),
     GetWriteOffset (Some no_Metadata), GetReadOffset (Some no_Metadata), GetWriteLen (Some no_Metadata)).
Proof. done. Qed.
