(* ===== verification/Transactions.v ===== *)
(** * The transaction cache ([p2p/transaction.go])

    [transactions] maps a transaction id to a {e pointer}: a goroutine that
    obtained a transaction keeps using it after [Delete] removed it from the map,
    and a later [Put] for the same id creates another object. The model keeps
    the objects in a heap. The channel [NotifyChan] of an object is identified
    with the object's location; who sends and receives on it is modelled in
    [Host]. Both operations run under the mutex, so each is one step. *)

From S2P Require Import Prelude Errors Protobuf.

Abbreviation loc := nat.

Record transaction := mkTransaction {
  t_Tid : string;
  InitiatorName : string;
  t_Request : option Request;
  Responses : list Response;
}.

Record transactions := mkTransactions {
  ts : gmap string loc;
  heap : gmap loc transaction;
  next : loc;
}.

Definition newTransactions : transactions := mkTransactions ∅ ∅ 0.

(** The object [&transaction{Tid: tid}]. *)
Definition new_transaction (tid : string) : transaction := mkTransaction tid "" None [].

(** The type switch of [Put]. *)
Definition record_message (message : Message) (trans : transaction) : transaction :=
  match msg_Type message with
  | Some (Message_Request v) =>
      mkTransaction (t_Tid trans) (PeerName message) (Some v) (Responses trans)
  | Some (Message_Response v) =>
      mkTransaction (t_Tid trans) (InitiatorName trans) (t_Request trans) (Responses trans ++ [v])
  | None => trans
  end.

Definition ensure (tid : string) (t : transactions) : transactions * loc * bool :=
  match ts t !! tid with
  | Some l => (t, l, false)
  | None =>
      (mkTransactions (<[tid := next t]> (ts t))
         (<[next t := new_transaction tid]> (heap t)) (S (next t)), next t, true)
  end.

Definition Put (message : Message) (t : transactions) : transactions * loc * bool :=
  let '(t1, l, created) := ensure (Tid message) t in
  (mkTransactions (ts t1) (alter (record_message message) l (heap t1)) (next t1), l, created).

Definition Delete (tid : string) (t : transactions) : transactions :=
  mkTransactions (delete tid (ts t)) (heap t) (next t).

(** The transactions a [range] over the map visits, with their ids. *)
Definition live (t : transactions) : list (string * transaction) :=
  omap (fun '(k, l) => (fun tr => (k, tr)) <$> heap t !! l) (map_to_list (ts t)).

(** ** Well-formedness: every entry points to an allocated object that carries the
    id it is filed under, and [next] is fresh. *)

Definition wf (t : transactions) : Prop :=
  (forall k l, ts t !! k = Some l -> exists tr, heap t !! l = Some tr /\ t_Tid tr = k) /\
  (forall l, is_Some (heap t !! l) -> l < next t).

Lemma wf_new : wf newTransactions.
Proof. split; simpl; intros *; [by rewrite lookup_empty|]. by rewrite lookup_empty; intros [? ?]. Qed.

Lemma record_message_Tid m tr : t_Tid (record_message m tr) = t_Tid tr.
Proof. unfold record_message. by repeat case_match. Qed.

Lemma ensure_wf tid t t' l b : wf t -> ensure tid t = (t', l, b) -> wf t' /\ ts t' !! tid = Some l.
Proof.
  intros [H1 H2] E. unfold ensure in E. destruct (ts t !! tid) as [l0|] eqn:Hl; simplify_eq/=.
  { done. }
  split; [|by rewrite lookup_insert_eq]. split; simpl.
  - intros k l' Hk. destruct (decide (k = tid)) as [->|Hne].
    + rewrite lookup_insert_eq in Hk; simplify_eq. exists (new_transaction tid).
      by rewrite lookup_insert_eq.
    + rewrite lookup_insert_ne in Hk by done. destruct (H1 _ _ Hk) as (tr & Htr & Ht).
      exists tr. rewrite lookup_insert_ne; [done|]. intros <-.
      specialize (H2 (next t) (mk_is_Some _ _ Htr)). lia.
  - intros l' Hl'. destruct (decide (l' = next t)) as [->|Hne]; [lia|].
    rewrite lookup_insert_ne in Hl' by done. specialize (H2 _ Hl'). lia.
Qed.

Lemma alter_record_wf m l t :
  wf t -> wf (mkTransactions (ts t) (alter (record_message m) l (heap t)) (next t)).
Proof.
  intros [H1 H2]. split; simpl.
  - intros k l' Hk. destruct (H1 _ _ Hk) as (tr & Htr & Ht). rewrite lookup_alter. case_decide.
    + subst. rewrite Htr. simpl. eexists. split; [done|]. apply record_message_Tid.
    + eauto.
  - intros l'. rewrite lookup_alter. case_decide; subst; rewrite ?fmap_is_Some; apply H2.
Qed.

Lemma Put_wf m t t' l b : wf t -> Put m t = (t', l, b) -> wf t'.
Proof.
  intros Hwf E. unfold Put in E. destruct (ensure (Tid m) t) as [[t1 l1] b1] eqn:Ee.
  destruct (ensure_wf _ _ _ _ _ Hwf Ee) as [Hwf1 _]. simplify_eq/=. by apply alter_record_wf.
Qed.

Lemma Delete_wf t k : wf t -> wf (Delete k t).
Proof.
  intros [H1 H2]. split; simpl; [|done]. intros k' l Hk.
  apply lookup_delete_Some in Hk as [_ Hk]. eauto.
Qed.

#[export] Hint Resolve wf_new Put_wf Delete_wf : rfs.

(** ** What [Put] does *)

(** The object a live id denotes. *)
Definition lookup_tid (tid : string) (t : transactions) : option transaction :=
  l ← ts t !! tid; heap t !! l.

Lemma lookup_tid_wf tid t l : wf t -> ts t !! tid = Some l ->
  exists tr, heap t !! l = Some tr /\ lookup_tid tid t = Some tr /\ t_Tid tr = tid.
Proof. intros [H1 _] Hl. destruct (H1 _ _ Hl) as (tr & Htr & ?). exists tr.
  unfold lookup_tid. by rewrite Hl. Qed.

(** The object [Put] writes to: the one filed under the id, or a fresh one. *)
Definition target (tid : string) (t : transactions) : transaction :=
  default (new_transaction tid) (lookup_tid tid t).

Lemma Put_spec m t t' l created :
  wf t -> Put m t = (t', l, created) ->
  created = negb (bool_decide (is_Some (ts t !! Tid m))) /\
  ts t' = <[Tid m := l]> (ts t) /\
  heap t' = <[l := record_message m (target (Tid m) t)]> (heap t) /\
  (ts t !! Tid m = None -> l = next t).
Proof.
  intros Hwf. unfold Put, ensure, target, lookup_tid.
  destruct (ts t !! Tid m) as [l0|] eqn:Hl; intros E; simplify_eq/=.
  - destruct (lookup_tid_wf _ _ _ Hwf Hl) as (tr & Htr & _).
    rewrite Htr; simpl. repeat split; try done.
    + by rewrite insert_id.
    + apply map_eq. intros i. rewrite lookup_alter, lookup_insert.
      case_decide; [|done]. subst. by rewrite Htr.
  - repeat split; try done. apply map_eq. intros i.
    destruct (decide (next t = i)) as [->|Hne].
    + by rewrite lookup_alter_eq, !lookup_insert_eq.
    + by rewrite lookup_alter_ne, !lookup_insert_ne.
Qed.

(** The object of an id after [Put]: the message recorded in the object of that
    id, every other id and every other object untouched. *)
Lemma Put_lookup m t t' l b k :
  wf t -> Put m t = (t', l, b) ->
  lookup_tid k t' =
    (if decide (k = Tid m) then Some (record_message m (target k t)) else lookup_tid k t).
Proof.
  intros Hwf E. pose proof (Put_spec _ _ _ _ _ Hwf E) as (_ & Hts & Hh & Hn).
  unfold lookup_tid at 1. rewrite Hts, Hh. case_decide as Hk.
  { subst. by rewrite lookup_insert_eq; simpl; rewrite lookup_insert_eq. }
  rewrite lookup_insert_ne by done. unfold lookup_tid.
  destruct (ts t !! k) as [lk|] eqn:Hlk; simpl; [|done].
  rewrite lookup_insert_ne; [done|]. intros <-.
  destruct Hwf as [H1 H2]. destruct (H1 _ _ Hlk) as (tr & Htr & Ht).
  destruct (ts t !! Tid m) as [l'|] eqn:Hm.
  - unfold Put, ensure in E. rewrite Hm in E. simplify_eq/=.
    destruct (H1 _ _ Hm) as (tr' & Htr' & Ht'). congruence.
  - specialize (Hn eq_refl). specialize (H2 l (mk_is_Some _ _ Htr)). lia.
Qed.

Lemma Put_heap_other m t t' l b l' :
  wf t -> Put m t = (t', l, b) -> l' <> l -> heap t' !! l' = heap t !! l'.
Proof.
  intros Hwf E Hne. pose proof (Put_spec _ _ _ _ _ Hwf E) as (_ & _ & -> & _).
  by rewrite lookup_insert_ne.
Qed.

Lemma Delete_lookup k tid t :
  lookup_tid k (Delete tid t) = (if decide (k = tid) then None else lookup_tid k t).
Proof.
  unfold lookup_tid, Delete; simpl. case_decide; subst.
  - by rewrite lookup_delete_eq.
  - by rewrite lookup_delete_ne.
Qed.

(** ** The contract of the cache: a map from ids to what was said about them *)

Module Spec.
(** What the peers said in a transaction. *)
Record entry := mkEntry { request : option (string * Request); responses : list Response }.

Definition put (m : Message) (s : gmap string entry) : gmap string entry :=
  let e := default (mkEntry None []) (s !! Tid m) in
  <[Tid m := match msg_Type m with
             | Some (Message_Request r) => mkEntry (Some (PeerName m, r)) (responses e)
             | Some (Message_Response r) => mkEntry (request e) (responses e ++ [r])
             | None => e
             end]> s.
End Spec.

Definition entry_of (tr : transaction) : Spec.entry :=
  Spec.mkEntry ((fun r => (InitiatorName tr, r)) <$> t_Request tr) (Responses tr).

(** The abstraction relation. *)
Definition represents (t : transactions) (s : gmap string Spec.entry) : Prop :=
  forall k, s !! k = entry_of <$> lookup_tid k t.

Lemma represents_new : represents newTransactions ∅.
Proof. intros k. by rewrite lookup_empty. Qed.

Lemma entry_of_record m tr s :
  default (Spec.mkEntry None []) s = entry_of tr ->
  entry_of (record_message m tr)
  = (let e := default (Spec.mkEntry None []) s in
     match msg_Type m with
     | Some (Message_Request r) => Spec.mkEntry (Some (PeerName m, r)) (Spec.responses e)
     | Some (Message_Response r) => Spec.mkEntry (Spec.request e) (Spec.responses e ++ [r])
     | None => e
     end).
Proof. intros ->. unfold record_message, entry_of. by repeat case_match. Qed.

(** C13: [Put] and [Delete] refine the abstract cache: [Put] adds the message to
    the entry of its id (a request replaces the request and names the initiator,
    a response is appended), reports a created transaction exactly when the id was
    unknown, and [Delete] forgets the id; no other id changes. *)
Theorem transactions_refine_spec t s m t' l created k :
  wf t -> represents t s -> Put m t = (t', l, created) ->
  represents t' (Spec.put m s) /\ represents (Delete k t') (delete k (Spec.put m s)) /\
  (created = true <-> s !! Tid m = None) /\ wf t' /\ wf (Delete k t').
Proof.
  intros Hwf HR E.
  assert (represents t' (Spec.put m s)) as HR'.
  { intros k'. rewrite (Put_lookup _ _ _ _ _ _ Hwf E). unfold Spec.put. rewrite lookup_insert.
    destruct (decide (Tid m = k')) as [<-|Hne].
    - rewrite decide_True by done. simpl. symmetry. f_equal. apply entry_of_record.
      rewrite HR. unfold target. by destruct (lookup_tid (Tid m) t).
    - rewrite decide_False by done. apply HR. }
  split; [done|]. split; [|split; [|split; eauto with rfs]].
  - intros k'. rewrite Delete_lookup, lookup_delete. repeat case_decide; first [congruence | done | apply HR'].
  - pose proof (Put_spec _ _ _ _ _ Hwf E) as (-> & _). rewrite HR, negb_true_iff, bool_decide_eq_false.
    unfold lookup_tid. destruct (ts t !! Tid m) as [l0|] eqn:Hl; simpl.
    + destruct (lookup_tid_wf _ _ _ Hwf Hl) as (tr & -> & _). naive_solver.
    + split; [done|]. by intros _ [? ?].
Qed.

Lemma live_lookup k t tr : (k, tr) ∈ live t <-> lookup_tid k t = Some tr.
Proof.
  unfold live, lookup_tid. rewrite list_elem_of_omap. split.
  - intros ([k' l] & Hin%elem_of_map_to_list & E). opt_inv. by rewrite Hin.
  - intros (l & Hts & Hh)%bind_Some. exists (k, l). split; [by apply elem_of_map_to_list|].
    by rewrite Hh.
Qed.

(** What a sequence of responses leaves in an object. *)
Lemma record_responses msgs tr :
  Forall (fun m => GetRequest m = None) msgs ->
  let tr' := fold_left (fun tr m => record_message m tr) msgs tr in
  t_Tid tr' = t_Tid tr /\ t_Request tr' = t_Request tr /\ InitiatorName tr' = InitiatorName tr /\
  Responses tr' = Responses tr ++ omap GetResponse msgs.
Proof.
  intros HF. revert tr. induction HF as [|m msgs Hm HF IH]; intros tr; simpl.
  { by rewrite app_nil_r. }
  destruct (IH (record_message m tr)) as (-> & -> & -> & ->).
  unfold record_message, GetRequest, GetResponse in *. destruct (msg_Type m) as [[]|]; try done.
  simpl. by rewrite <- app_assoc.
Qed.

(** ** The refinement on a concrete cache *)

Lemma transactions_refine_spec_witness :
  let m := mkMessage "7" "Gimli" (Some (Message_Response ACK)) in
  let r := Put m newTransactions in
  represents r.1.1 (Spec.put m ∅) /\ represents (Delete "7" r.1.1) (delete "7" (Spec.put m ∅)) /\
  (r.2 = true <-> (∅ : gmap string Spec.entry) !! "7" = None) /\ wf r.1.1 /\ wf (Delete "7" r.1.1).
Proof.
  apply (transactions_refine_spec newTransactions ∅ (mkMessage "7" "Gimli" (Some (Message_Response ACK)))
    _ 0 true "7" wf_new represents_new).
  reflexivity.
Defined.
