(* ===== verification/Conflicts.v ===== *)
(** * Conflict detection ([p2p/conflicts_resolver.go])

    [DetectAndResolveConflict] ranges over the live transactions and rejects the
    incoming request when one of them, started by another peer on the same paths,
    has precedence. The order of a [range] over a Go map is unspecified: the loop
    is defined on a list, and the theorems quantify over the order. *)

From S2P Require Import Prelude Errors Protobuf Transactions.

Record conflictsResolver := mkResolver {
  clock : Z;
  conflicts : list (Request_Type * Z);
}.

(** The map of per-operation counters is created and never read. *)
Definition newConflictsResolver : conflictsResolver :=
  mkResolver 0
    ((fun op => (op, 0%Z)) <$>
      [Request_CREATE; Request_LINK; Request_MKDIR; Request_RENAME; Request_RMDIR;
       Request_SETATTR; Request_SYMLINK; Request_UNLINK; Request_WRITE;
       Request_COPY_FILE_RANGE]).

Definition IncrementClock (c : conflictsResolver) : conflictsResolver :=
  mkResolver (u64 (clock c + 1)) (conflicts c).

(** [SetConflictsClock] of the host stores a value, [LoadConflictsClock] reads it. *)
Definition SetClock (v : Z) (c : conflictsResolver) : conflictsResolver :=
  mkResolver (u64 v) (conflicts c).

Definition same_paths (a b : Request_Metadata) : bool :=
  String.eqb (RelativePath a) (RelativePath b)
  && String.eqb (NewRelativePath a) (NewRelativePath b).

(** One iteration of the loop: [Ok tt] continues, [Err _] returns, and a request
    without metadata is dereferenced. *)
Definition check_transaction (msg : Message) (req : Request) (t : transaction) :
    outcome error unit :=
  match t_Request t with
  | None => Ok tt
  | Some r =>
      if String.eqb (InitiatorName t) (PeerName msg) then Ok tt
      else
        match Metadata r, Metadata req with
        | Some a, Some b =>
            if negb (same_paths a b) then Ok tt
            else if (Clock req <? Clock r)%Z then Err ErrTransactionConflict
            else if (Clock req =? Clock r)%Z && str_lt (PeerName msg) (InitiatorName t)
            then Err ErrTransactionConflict
            else Ok tt
        | _, _ => Panics "nil Metadata"
        end
  end.

Fixpoint check_all (msg : Message) (req : Request) (order : list transaction) :
    outcome error unit :=
  match order with
  | [] => Ok tt
  | t :: order => _ <-! check_transaction msg req t ;; check_all msg req order
  end.

Definition detect (order : list transaction) (msg : Message) : outcome error unit :=
  match GetRequest msg with
  | None => Panics "BUG: expected protobuf.Request in the message, fix the code!"
  | Some req => check_all msg req order
  end.

Definition DetectAndResolveConflict (trans : transactions) (msg : Message) : outcome error unit :=
  detect (snd <$> live trans) msg.

(** ** Precedence: a request with clock [c] of peer [n] gives way to one with clock
    [c'] of peer [n']. *)

Definition yields (c : Z) (n : string) (c' : Z) (n' : string) : bool :=
  (c <? c')%Z || ((c =? c')%Z && str_lt n n').

Lemma yields_irrefl c n : yields c n c n = false.
Proof. unfold yields. rewrite Z.ltb_irrefl, str_lt_irrefl. by rewrite andb_false_r. Qed.

Lemma yields_trans c1 n1 c2 n2 c3 n3 :
  yields c1 n1 c2 n2 = true -> yields c2 n2 c3 n3 = true -> yields c1 n1 c3 n3 = true.
Proof.
  unfold yields. rewrite !orb_true_iff, !andb_true_iff, !Z.ltb_lt, !Z.eqb_eq.
  intros [H1|[H1 L1]] [H2|[H2 L2]]; [left; lia..|].
  right. split; [lia|]. by apply str_lt_trans with n2.
Qed.

Lemma yields_total c n c' n' : n <> n' -> yields c n c' n' = negb (yields c' n' c n).
Proof.
  intros Hne. unfold yields. rewrite (str_lt_total n n' Hne).
  destruct (Z.ltb_spec c c'), (Z.ltb_spec c' c), (Z.eqb_spec c c'), (Z.eqb_spec c' c);
    simpl; try lia; try done; by rewrite ?negb_involutive.
Qed.

(** The transaction [t] stands against the request: started by another peer, on
    the same paths. *)
Definition opposes (t : transaction) (msg : Message) (req : Request) : bool :=
  match t_Request t with
  | None => false
  | Some r =>
      negb (String.eqb (InitiatorName t) (PeerName msg)) &&
      match Metadata r, Metadata req with
      | Some a, Some b =>
          bool_decide (RelativePath a = RelativePath b /\ NewRelativePath a = NewRelativePath b)
      | _, _ => false
      end
  end.

Definition defeats (t : transaction) (msg : Message) (req : Request) : bool :=
  opposes t msg req &&
  yields (Clock req) (PeerName msg) (from_option Clock 0%Z (t_Request t)) (InitiatorName t).

(** Every live request carries its metadata: what [rfs] and the peers send. *)
Definition has_metadata (t : transaction) : Prop :=
  forall r, t_Request t = Some r -> is_Some (Metadata r).

Lemma same_paths_spec a b :
  same_paths a b = bool_decide (RelativePath a = RelativePath b /\ NewRelativePath a = NewRelativePath b).
Proof.
  unfold same_paths. apply eq_true_iff_eq.
  by rewrite andb_true_iff, !String.eqb_eq, bool_decide_eq_true.
Qed.

Lemma check_transaction_spec msg req t :
  is_Some (Metadata req) -> has_metadata t ->
  check_transaction msg req t = if defeats t msg req then Err ErrTransactionConflict else Ok tt.
Proof.
  intros [b Hb] Ht. unfold check_transaction, defeats, opposes, yields.
  destruct (t_Request t) as [r|] eqn:Hr; [|done].
  destruct (String.eqb_spec (InitiatorName t) (PeerName msg)); [done|].
  destruct (Ht r Hr) as [a Ha]. rewrite Ha, Hb, same_paths_spec. simpl.
  destruct (bool_decide (_ /\ _)); simpl; [|done].
  destruct (Clock req <? Clock r)%Z; simpl; [done|]. by destruct (_ && _).
Qed.

Lemma check_all_spec msg req order :
  is_Some (Metadata req) -> Forall has_metadata order ->
  check_all msg req order
  = if existsb (fun t => defeats t msg req) order then Err ErrTransactionConflict else Ok tt.
Proof.
  intros Hm. induction 1 as [|t order Ht Ho IH]; simpl; [done|].
  rewrite check_transaction_spec by done. by destruct (defeats t msg req); simpl.
Qed.

Lemma detect_accepts trans msg req :
  GetRequest msg = Some req -> is_Some (Metadata req) ->
  (forall k t, (k, t) ∈ live trans -> has_metadata t /\ defeats t msg req = false) ->
  DetectAndResolveConflict trans msg = Ok tt.
Proof.
  intros Hr Hm Hall. unfold DetectAndResolveConflict, detect. rewrite Hr, check_all_spec; [|done|].
  - rewrite (proj2 (existsb_elem_false _ _)); [done|].
    intros t ([k t'] & -> & Hin)%list_elem_of_fmap. by apply (Hall k).
  - apply Forall_forall. intros t ([k t'] & -> & Hin)%list_elem_of_fmap. by apply (Hall k).
Qed.

(** C12: whatever the iteration order of the map, the request is rejected with
    [ErrTransactionConflict] exactly when some live transaction of another peer on
    the same paths has precedence over it, and otherwise accepted; the loop never
    panics as long as the requests carry metadata. *)
Theorem detect_any_order trans msg req order :
  GetRequest msg = Some req -> is_Some (Metadata req) ->
  Forall has_metadata (snd <$> live trans) ->
  order ≡ₚ (snd <$> live trans) ->
  detect order msg = DetectAndResolveConflict trans msg /\
  (detect order msg = Err ErrTransactionConflict <->
    exists k t, (k, t) ∈ live trans /\ defeats t msg req = true) /\
  (detect order msg = Ok tt <->
    forall k t, (k, t) ∈ live trans -> defeats t msg req = false).
Proof.
  intros Hr Hm Hall Hp. unfold DetectAndResolveConflict, detect. rewrite Hr.
  assert (Forall has_metadata order) as Ho by (by rewrite Hp).
  rewrite !check_all_spec by done.
  rewrite (existsb_perm _ _ _ Hp). split; [done|].
  destruct (existsb _ (snd <$> live trans)) eqn:E; split; split; try done.
  - intros _. apply existsb_elem in E as (t & ([k t'] & -> & Hin)%list_elem_of_fmap & Hd).
    by exists k, t'.
  - intros Hn. apply existsb_elem in E as (t & ([k t'] & -> & Hin)%list_elem_of_fmap & Hd).
    simpl in Hd. rewrite (Hn _ _ Hin) in Hd. done.
  - intros (k & t & Hin & Hd). rewrite existsb_elem_false in E.
    rewrite (E t) in Hd; [done|]. apply list_elem_of_fmap. by exists (k, t).
  - intros _ k t Hin. rewrite existsb_elem_false in E. apply E, list_elem_of_fmap. by exists (k, t).
Qed.

(** ** Who wins among concurrent requests on the same paths *)

(** The object [Put] creates for a request. *)
Definition trans_of (m : Message) : transaction := record_message m (new_transaction (Tid m)).

Definition msg_clock (m : Message) : Z := from_option Clock 0%Z (GetRequest m).

(** The message carries a request on the paths [p] and [q]. *)
Definition request_on (p q : string) (m : Message) : Prop :=
  exists r md, GetRequest m = Some r /\ Metadata r = Some md /\
    RelativePath md = p /\ NewRelativePath md = q.

Definition msg_yields (m w : Message) : bool :=
  yields (msg_clock m) (PeerName m) (msg_clock w) (PeerName w).

Lemma trans_of_request p q m : request_on p q m ->
  exists r md, GetRequest m = Some r /\ Metadata r = Some md /\ RelativePath md = p /\
    NewRelativePath md = q /\ t_Request (trans_of m) = Some r /\ InitiatorName (trans_of m) = PeerName m.
Proof.
  intros (r & md & Hr & Hmd & Hp & Hq). exists r, md. repeat split; try done.
  all: unfold GetRequest, trans_of, record_message in *; by repeat case_match; simplify_eq.
Qed.

Lemma trans_of_metadata p q m : request_on p q m -> has_metadata (trans_of m).
Proof. intros (r & md & _ & Hmd & _ & _ & Ht & _)%trans_of_request r' Hr'. simplify_eq. eauto. Qed.

Lemma defeats_trans_of p q m w r :
  request_on p q m -> request_on p q w -> GetRequest m = Some r ->
  defeats (trans_of w) m r = negb (String.eqb (PeerName w) (PeerName m)) && msg_yields m w.
Proof.
  intros Hm Hw Hr.
  apply trans_of_request in Hm as (r1 & md1 & Hr1 & Hmd1 & Hp1 & Hq1 & _).
  apply trans_of_request in Hw as (r2 & md2 & Hr2 & Hmd2 & Hp2 & Hq2 & Ht & Hi).
  unfold defeats, opposes, msg_yields, msg_clock. simplify_eq. rewrite Ht, Hi, Hmd2, Hmd1, Hr1, Hr2.
  rewrite Hp2, Hq2, bool_decide_true by done. by rewrite andb_true_r.
Qed.

(** A finite set of requests of distinct peers has one that all others give way to. *)
Lemma winner_exists (ms : list Message) :
  ms <> [] -> NoDup (PeerName <$> ms) ->
  exists w, w ∈ ms /\ forall m, m ∈ ms -> m <> w -> msg_yields m w = true.
Proof.
  induction ms as [|m ms IH]; [done|]. intros _ [Hm Hnd]%NoDup_cons.
  destruct ms as [|m' ms].
  { exists m. split; [by left|]. by intros x ->%list_elem_of_singleton. }
  destruct IH as (w & Hw & Hmax); [done..|].
  assert (PeerName m <> PeerName w) as Hne.
  { intros E. apply Hm. rewrite E. exact (list_elem_of_fmap_2 PeerName _ _ Hw). }
  destruct (msg_yields m w) eqn:Hy.
  - exists w. split; [by right|]. intros x [->|Hx]%elem_of_cons Hxw; [done|]. by apply Hmax.
  - exists m. split; [by left|].
    assert (msg_yields w m = true) as Hwm.
    { unfold msg_yields in *. rewrite yields_total in Hy by done. by apply negb_false_iff in Hy. }
    intros x [->|Hx]%elem_of_cons Hxm; [done|].
    destruct (decide (x = w)) as [->|Hxw]; [done|]. eapply yields_trans; [by apply Hmax|done].
Qed.

Lemma detect_outcome p q (ms : list Message) (others order : list transaction) m :
  Forall (request_on p q) ms -> request_on p q m ->
  (forall t r, t ∈ others -> GetRequest m = Some r -> has_metadata t /\ opposes t m r = false) ->
  order ≡ₚ (trans_of <$> ms) ++ others ->
  detect order m =
    if existsb (fun w => negb (String.eqb (PeerName w) (PeerName m)) && msg_yields m w) ms
    then Err ErrTransactionConflict else Ok tt.
Proof.
  intros Hall Hm Hothers Hp. rewrite Forall_forall in Hall.
  destruct (Hm) as (r & md & Hr & Hmd & _).
  unfold detect. rewrite Hr, check_all_spec; [|eauto|].
  - rewrite (existsb_perm _ _ _ Hp), existsb_app.
    assert (existsb (fun t => defeats t m r) others = false) as ->.
    { apply existsb_elem_false. intros t Ht. unfold defeats. by destruct (Hothers t r Ht Hr) as [_ ->]. }
    rewrite orb_false_r, existsb_fmap.
    rewrite (existsb_ext _ (fun w => negb (PeerName w =? PeerName m)%string && msg_yields m w) ms); [done|].
    intros w Hw. apply (defeats_trans_of p q); auto.
  - rewrite Hp, Forall_app. split; apply Forall_forall.
    + intros t (w & -> & Hw)%list_elem_of_fmap. apply (trans_of_metadata p q), Hall, Hw.
    + intros t Ht. by apply (Hothers t r).
Qed.

Lemma detect_one p q m w :
  request_on p q m -> request_on p q w ->
  detect [trans_of w] m =
    if negb (String.eqb (PeerName w) (PeerName m)) && msg_yields m w
    then Err ErrTransactionConflict else Ok tt.
Proof.
  intros Hm Hw. rewrite (detect_outcome p q [w] [] [trans_of w] m); [|by constructor|done| |done].
  - simpl. by rewrite orb_false_r.
  - intros t r Ht. by apply elem_of_nil in Ht.
Qed.

(** Among concurrent requests on the same paths one is accepted. *)
Lemma one_winner p q (ms : list Message) :
  ms <> [] -> NoDup (PeerName <$> ms) -> Forall (request_on p q) ms ->
  exists w, w ∈ ms /\
    forall others order,
      (forall m t r, m ∈ ms -> t ∈ others -> GetRequest m = Some r ->
         has_metadata t /\ opposes t m r = false) ->
      order ≡ₚ (trans_of <$> ms) ++ others ->
      detect order w = Ok tt /\
      forall m, m ∈ ms -> m <> w -> detect order m = Err ErrTransactionConflict.
Proof.
  intros Hne Hnd Hall. destruct (winner_exists ms Hne Hnd) as (w & Hw & Hmax).
  exists w. split; [done|]. intros others order Ho Hp.
  pose proof (proj1 (Forall_forall _ _) Hall) as Hreq. split.
  - rewrite (detect_outcome p q ms others order w) by eauto.
    rewrite (proj2 (existsb_elem_false _ ms)); [done|]. intros x Hx.
    destruct (String.eqb_spec (PeerName x) (PeerName w)) as [E|E]; [done|]. simpl.
    assert (x <> w) as Hxw by congruence. specialize (Hmax x Hx Hxw).
    unfold msg_yields in *. by rewrite yields_total, Hmax by congruence.
  - intros m Hm Hmw. rewrite (detect_outcome p q ms others order m) by eauto.
    rewrite (proj2 (existsb_elem _ ms)); [done|]. exists w. split; [done|].
    rewrite (Hmax m Hm Hmw), andb_true_r. apply negb_true_iff, String.eqb_neq. intros E.
    apply Hmw. apply list_elem_of_lookup in Hm as [i Hi]. apply list_elem_of_lookup in Hw as [j Hj].
    assert (i = j) as ->; [|congruence].
    eapply (NoDup_lookup (PeerName <$> ms)); [done|..].
    + by rewrite list_lookup_fmap, Hi.
    + rewrite list_lookup_fmap, Hj. simpl. by rewrite E.
Qed.

(** C7: among any number of concurrent requests of distinct peers on the same
    paths, a host that knows them all (and any transactions on other paths, in any
    iteration order) accepts exactly one and rejects every other one with
    [ErrTransactionConflict]; the accepted one depends only on the requests, so
    all hosts that know them accept the same. *)
Theorem exactly_one_winner p q (ms : list Message) :
  ms <> [] -> NoDup (PeerName <$> ms) -> Forall (request_on p q) ms ->
  exists w, w ∈ ms /\
    forall others order,
      (forall m t r, m ∈ ms -> t ∈ others -> GetRequest m = Some r ->
         has_metadata t /\ opposes t m r = false) ->
      order ≡ₚ (trans_of <$> ms) ++ others ->
      detect order w = Ok tt /\
      forall m, m ∈ ms -> m <> w -> detect order m = Err ErrTransactionConflict.
Proof. apply one_winner. Qed.

(** ** Requests on different paths *)

(** What detection compares: both paths of a request. *)
Definition paths_of (m : Message) : option (string * string) :=
  r ← GetRequest m; md ← Metadata r; Some (RelativePath md, NewRelativePath md).

Lemma paths_of_request m p q : paths_of m = Some (p, q) <-> request_on p q m.
Proof.
  unfold paths_of, request_on. split.
  - intros (r & Hr & (md & Hmd & [= <- <-])%bind_Some)%bind_Some. eauto 10.
  - intros (r & md & Hr & Hmd & <- & <-). by rewrite Hr; simpl; rewrite Hmd.
Qed.

Lemma other_paths_do_not_oppose m w p q r :
  paths_of m = Some (p, q) -> is_Some (paths_of w) -> paths_of w <> Some (p, q) -> GetRequest m = Some r ->
  has_metadata (trans_of w) /\ opposes (trans_of w) m r = false.
Proof.
  intros Hm [[p' q'] Hw] Hne Hr. pose proof Hw as Hw'. apply paths_of_request in Hm, Hw'.
  split; [by eapply trans_of_metadata|].
  apply trans_of_request in Hm as (r1 & md1 & Hr1 & Hmd1 & Hp1 & Hq1 & _).
  apply trans_of_request in Hw' as (r2 & md2 & Hr2 & Hmd2 & Hp2 & Hq2 & Ht & Hi). simplify_eq.
  unfold opposes. rewrite Ht, Hmd2, Hmd1. apply andb_false_iff. right. apply bool_decide_eq_false.
  intros [E1 E2]. apply Hne. by rewrite Hw, E1, E2.
Qed.

(** C32: Detection sees nothing but equal pairs of paths: among any number of concurrent
    requests of distinct peers, known to a host in any iteration order, exactly one is
    accepted for each pair (RelativePath, NewRelativePath) that occurs among them, and
    all others are rejected. Two requests with different pairs never conflict, even when
    they are about the same file, as when one peer renames the file another one writes
    to. *)
Theorem one_winner_per_pair_of_paths (ms : list Message) order :
  NoDup (PeerName <$> ms) -> Forall (fun m => is_Some (paths_of m)) ms -> order ≡ₚ trans_of <$> ms ->
  forall m, m ∈ ms -> exists w, w ∈ ms /\ paths_of w = paths_of m /\ detect order w = Ok tt /\
    forall x, x ∈ ms -> paths_of x = paths_of m -> x <> w -> detect order x = Err ErrTransactionConflict.
Proof.
  intros Hnd Hall Hp m Hm. rewrite Forall_forall in Hall. destruct (Hall m Hm) as [[p q] Hpq]. rewrite Hpq.
  set (same := fun x => paths_of x = Some (p, q)). destruct (one_winner p q (filter same ms)) as (w & Hw & Hwin).
  - intros E. assert (m ∈ filter same ms) as Hx by (by apply list_elem_of_filter). rewrite E in Hx. inversion Hx.
  - apply (NoDup_fmap_filter PeerName same ms Hnd).
  - apply Forall_forall. intros x [Hx _]%list_elem_of_filter. by apply paths_of_request.
  - apply list_elem_of_filter in Hw as [Hsame Hw]. exists w. split; [done|]. split; [done|].
    destruct (Hwin (trans_of <$> filter (fun x => ~ same x) ms) order) as [Hok Hrej].
    + intros x t r [Hx _]%list_elem_of_filter (y & -> & Hy)%list_elem_of_fmap Hr. apply list_elem_of_filter in Hy as [Hy Hin].
      by eapply other_paths_do_not_oppose; [exact Hx|by apply Hall|..].
    + rewrite Hp, <- fmap_app. apply Permutation_map. symmetry. apply filter_app_complement.
    + split; [done|]. intros x Hx Hsx Hne. apply Hrej; [by apply list_elem_of_filter|done].
Qed.

(** the tie-break is fair: a request that lost to [w] with an equal clock wins
    against it when it is repeated with the clock incremented by the lost
    conflict, unless the 64-bit clock wraps around. *)
Theorem loser_wins_next p q m w r c :
  request_on p q m -> request_on p q w -> PeerName m <> PeerName w ->
  GetRequest m = Some r -> (0 <= Clock r < 2 ^ 64 - 1)%Z -> Clock r = msg_clock w ->
  clock c = Clock r ->
  let r' := mkRequest (req_Type r) (Metadata r) (clock (IncrementClock c)) (Content r) in
  let m' := mkMessage (Tid m) (PeerName m) (Some (Message_Request r')) in
  detect [trans_of w] m' = Ok tt /\ detect [trans_of m'] w = Err ErrTransactionConflict.
Proof.
  intros Hm Hw Hne Hr Hrange Hck Hc r' m'.
  assert (request_on p q m') as Hm'.
  { destruct Hm as (r0 & md & Hr0 & Hmd & Hp & Hq). simplify_eq. by exists r', md. }
  assert (msg_clock m' = Clock r + 1)%Z as Hck'.
  { unfold msg_clock. simpl. unfold u64. rewrite wrapU_small; lia. }
  assert (msg_yields w m' = true) as Hy.
  { unfold msg_yields, yields. apply orb_true_iff. left. lia. }
  assert (PeerName m' <> PeerName w) as Hne' by done.
  rewrite (detect_one p q m' w), (detect_one p q w m') by done.
  rewrite Hy, (proj2 (String.eqb_neq _ _) Hne'). simpl.
  unfold msg_yields in *. by rewrite yields_total, Hy, andb_false_r by done.
Qed.

(** ** The theorems on concrete requests *)

Definition mkdir_of (peer : string) (c : Z) : Message :=
  mkMessage ("t" ++ peer) peer (Some (Message_Request (mkRequest Request_MKDIR (Some (path_Metadata "/a")) c None))).

Lemma mkdir_request_on peer c : request_on "/a" "" (mkdir_of peer c).
Proof. by eexists _, _. Qed.

Definition three_requests : list Message := [mkdir_of "Aragorn" 0; mkdir_of "Legolas" 0; mkdir_of "Gimli" 0].

(** A cache that holds the three of them. *)
Definition three_live : transactions :=
  foldl (fun t m => (Put m t).1.1) newTransactions three_requests.

Lemma detect_any_order_witness :
  detect (trans_of <$> three_requests) (mkdir_of "Gimli" 0) = DetectAndResolveConflict three_live (mkdir_of "Gimli" 0) /\
  (detect (trans_of <$> three_requests) (mkdir_of "Gimli" 0) = Err ErrTransactionConflict <->
    exists k t, (k, t) ∈ live three_live /\
      defeats t (mkdir_of "Gimli" 0) (mkRequest Request_MKDIR (Some (path_Metadata "/a")) 0 None) = true) /\
  (detect (trans_of <$> three_requests) (mkdir_of "Gimli" 0) = Ok tt <->
    forall k t, (k, t) ∈ live three_live ->
      defeats t (mkdir_of "Gimli" 0) (mkRequest Request_MKDIR (Some (path_Metadata "/a")) 0 None) = false).
Proof.
  assert ((trans_of <$> three_requests) ≡ₚ (snd <$> live three_live)) as HP.
  { apply NoDup_Permutation.
    - vm_compute. repeat constructor; set_solver.
    - vm_compute. repeat constructor; set_solver.
    - intros x. vm_compute. set_solver. }
  apply (detect_any_order three_live (mkdir_of "Gimli" 0) (mkRequest Request_MKDIR (Some (path_Metadata "/a")) 0 None)).
  - reflexivity.
  - by eexists.
  - rewrite <- HP. repeat constructor; intros r [= <-]; by eexists.
  - exact HP.
Defined.

Lemma exactly_one_winner_witness :
  exists w, w ∈ three_requests /\
    forall others order,
      (forall m t r, m ∈ three_requests -> t ∈ others -> GetRequest m = Some r ->
         has_metadata t /\ opposes t m r = false) ->
      order ≡ₚ (trans_of <$> three_requests) ++ others ->
      detect order w = Ok tt /\
      forall m, m ∈ three_requests -> m <> w -> detect order m = Err ErrTransactionConflict.
Proof.
  apply (exactly_one_winner "/a" "" three_requests).
  - discriminate.
  - by apply (bool_decide_eq_true_1 (NoDup (PeerName <$> three_requests))).
  - repeat constructor; apply mkdir_request_on.
Defined.

Lemma loser_wins_next_witness :
  detect [trans_of (mkdir_of "Legolas" 0)]
    (mkMessage "tAragorn" "Aragorn" (Some (Message_Request (mkRequest Request_MKDIR (Some (path_Metadata "/a")) 1 None))))
  = Ok tt /\
  detect [trans_of (mkMessage "tAragorn" "Aragorn"
    (Some (Message_Request (mkRequest Request_MKDIR (Some (path_Metadata "/a")) 1 None))))] (mkdir_of "Legolas" 0)
  = Err ErrTransactionConflict.
Proof.
  refine (loser_wins_next "/a" "" (mkdir_of "Aragorn" 0) (mkdir_of "Legolas" 0)
    (mkRequest Request_MKDIR (Some (path_Metadata "/a")) 0 None) newConflictsResolver _ _ _ _ _ _ _).
  - apply mkdir_request_on.
  - apply mkdir_request_on.
  - discriminate.
  - reflexivity.
  - simpl. lia.
  - reflexivity.
  - reflexivity.
Defined.

Definition gimli_write : Message :=
  mkMessage "V" "Gimli" (Some (Message_Request (mkRequest Request_WRITE (Some (path_Metadata "/a")) 0 (Some [])))).

(** Aragorn renames the file Legolas writes to, Gimli writes to it as well. *)
Definition overlapping : list Message :=
  [mkMessage "T" "Aragorn" (Some (Message_Request (mkRequest Request_RENAME (Some (mkMetadata "/a" "/b" 0 0 0 0)) 0 None)));
   mkMessage "U" "Legolas" (Some (Message_Request (mkRequest Request_WRITE (Some (path_Metadata "/a")) 0 (Some []))));
   gimli_write].

Example overlapping_outcome :
  detect (trans_of <$> overlapping) <$> overlapping = [Ok tt; Ok tt; Err ErrTransactionConflict].
Proof. reflexivity. Qed.

Lemma one_winner_per_pair_of_paths_witness :
  exists w, w ∈ overlapping /\ paths_of w = paths_of gimli_write /\
    detect (trans_of <$> overlapping) w = Ok tt /\
    forall x, x ∈ overlapping -> paths_of x = paths_of gimli_write -> x <> w ->
      detect (trans_of <$> overlapping) x = Err ErrTransactionConflict.
Proof.
  apply (one_winner_per_pair_of_paths overlapping (trans_of <$> overlapping)).
  - by apply (bool_decide_eq_true_1 (NoDup (PeerName <$> overlapping))).
  - repeat constructor; by eexists.
  - reflexivity.
  - by repeat constructor.
Defined.
