(* ===== verification/Responses.v ===== *)
(** * The verdict of the initiator ([p2p/host.go], [processResponses])

    The counting loop of the code, over a map keyed by the error of each NACK, and
    its equivalence with a one-line reading of the responses. *)

From S2P Require Import Prelude Errors Protobuf Conflicts.

(** Keys of the counter map. *)
Definition Response_Error_key (e : Response_Error) : nat + Z :=
  match e with
  | Response_ERR_UNKNOWN => inl 0
  | Response_ERR_ALREADY_EXISTS => inl 1
  | Response_ERR_DOES_NOT_EXIST => inl 2
  | Response_ERR_TRANSACTION_CONFLICT => inl 3
  | Response_ERR_NOT_A_DIRECTORY => inl 4
  | Response_ERR_NOT_A_FILE => inl 5
  | Response_ERR_INVALID_MODE => inl 6
  | Response_Error_Unrecognised n => inr n
  end.

Definition Response_Error_unkey (k : nat + Z) : Response_Error :=
  match k with
  | inl 0 => Response_ERR_UNKNOWN
  | inl 1 => Response_ERR_ALREADY_EXISTS
  | inl 2 => Response_ERR_DOES_NOT_EXIST
  | inl 3 => Response_ERR_TRANSACTION_CONFLICT
  | inl 4 => Response_ERR_NOT_A_DIRECTORY
  | inl 5 => Response_ERR_NOT_A_FILE
  | inl _ => Response_ERR_INVALID_MODE
  | inr n => Response_Error_Unrecognised n
  end.

#[export] Instance Response_Error_countable : Countable Response_Error.
Proof. refine (inj_countable' Response_Error_key Response_Error_unkey _). by intros []. Defined.

Definition is_NACK (r : Response) : bool := bool_decide (resp_Type r = Response_NACK).

(** The first loop: [errorsCtr[*resp.Error]++] for every NACK. *)
Fixpoint count_errors (rs : list Response) (ctr : gmap Response_Error nat) :
    outcome error (gmap Response_Error nat) :=
  match rs with
  | [] => Ok ctr
  | resp :: rs =>
      if is_NACK resp then
        match resp_Error resp with
        | None => Panics "nil Response.Error"
        | Some e => count_errors rs (<[e := S (default 0 (ctr !! e))]> ctr)
        end
      else count_errors rs ctr
  end.

(** The second loop: the errors other than a conflict. *)
Definition other_errors (ctr : gmap Response_Error nat) : nat :=
  foldr (fun '(e, n) acc =>
    if bool_decide (e = Response_ERR_TRANSACTION_CONFLICT) then acc else n + acc)
    0 (map_to_list ctr).

Definition processResponses (rs : list Response) (c : conflictsResolver) :
    conflictsResolver * outcome error unit :=
  match count_errors rs ∅ with
  | Ok ctr =>
      let c' :=
        if bool_decide (is_Some (ctr !! Response_ERR_TRANSACTION_CONFLICT))
           && bool_decide (other_errors ctr = 0)
        then IncrementClock c else c in
      (c', if existsb is_NACK rs then Err ErrNotPermitted else Ok tt)
  | Err e => (c, Err e)
  | Panics w => (c, Panics w)
  end.

(** ** Reading of the responses *)

Definition nack_error (r : Response) : option Response_Error :=
  if is_NACK r then resp_Error r else None.

(** Every NACK names its error: what [protobuf.NACK] builds. *)
Definition nacks_named (rs : list Response) : Prop :=
  forall r, r ∈ rs -> is_NACK r = true -> is_Some (resp_Error r).

(** The only reason for the rejection is a conflict. *)
Definition only_conflicts (rs : list Response) : bool :=
  existsb is_NACK rs &&
  forallb (fun r => negb (is_NACK r)
             || bool_decide (resp_Error r = Some Response_ERR_TRANSACTION_CONFLICT)) rs.

Definition occurrences (e : Response_Error) (rs : list Response) : nat :=
  count (fun r => bool_decide (nack_error r = Some e)) rs.

Lemma nacks_named_cons r rs : nacks_named (r :: rs) -> nacks_named rs.
Proof. intros H x Hx. apply H. by right. Qed.

Lemma count_errors_spec rs ctr :
  nacks_named rs ->
  exists ctr', count_errors rs ctr = Ok ctr' /\
    forall e, default 0 (ctr' !! e) = default 0 (ctr !! e) + occurrences e rs /\
      (is_Some (ctr' !! e) <-> is_Some (ctr !! e) \/ occurrences e rs <> 0).
Proof.
  revert ctr. induction rs as [|r rs IH]; intros ctr Hn.
  { exists ctr. split; [done|]. intros e. split; [unfold occurrences; cbn; lia|]. tauto. }
  specialize (IH) as IH0. simpl. destruct (is_NACK r) eqn:Hr.
  - destruct (Hn r) as [e0 He0]; [by left|done|]. rewrite He0.
    destruct (IH (<[e0 := S (default 0 (ctr !! e0))]> ctr)) as (ctr' & Hc & Hs).
    { by eapply nacks_named_cons. }
    exists ctr'. split; [done|]. intros e. destruct (Hs e) as [Hs1 Hs2].
    rewrite Hs1, Hs2. unfold occurrences, count, nack_error. simpl. rewrite Hr, He0.
    destruct (decide (e0 = e)) as [->|Hne].
    + rewrite lookup_insert_eq, bool_decide_true by done. simpl. split; [lia|].
      split; [|eauto]. intros _. right. lia.
    + rewrite lookup_insert_ne, bool_decide_false by congruence. done.
  - destruct (IH ctr) as (ctr' & Hc & Hs); [by eapply nacks_named_cons|].
    exists ctr'. split; [done|]. intros e. destruct (Hs e) as [Hs1 Hs2]. rewrite Hs1, Hs2.
    unfold occurrences, count, nack_error. simpl. rewrite Hr.
    by rewrite bool_decide_false by done.
Qed.

Lemma other_errors_zero ctr :
  (forall e n, ctr !! e = Some n -> n <> 0) ->
  other_errors ctr = 0 <->
  forall e, is_Some (ctr !! e) -> e = Response_ERR_TRANSACTION_CONFLICT.
Proof.
  intros Hpos. unfold other_errors.
  assert (forall l : list (Response_Error * nat), (forall e n, (e, n) ∈ l -> n <> 0) ->
    foldr (fun '(e, n) acc => if bool_decide (e = Response_ERR_TRANSACTION_CONFLICT)
                              then acc else n + acc) 0 l = 0 <->
    forall e n, (e, n) ∈ l -> e = Response_ERR_TRANSACTION_CONFLICT) as Hl.
  { induction l as [|[e n] l IH]; intros Hp; simpl.
    { split; [|done]. intros _ e n H. by apply elem_of_nil in H. }
    specialize (IH ltac:(intros; eapply Hp; by right)).
    assert (n <> 0) by (eapply Hp; by left).
    case_bool_decide as Hc; [rewrite IH|]; split; intros HH.
    - intros e' n' [Heq|Hin]%elem_of_cons; [congruence|eauto].
    - intros e' n' Hin. apply (HH e' n'). by right.
    - lia.
    - destruct Hc. apply (HH e n). by left. }
  rewrite Hl.
  - split; intros HH.
    + intros e [n Hn]. apply (HH e n). by apply elem_of_map_to_list.
    + intros e n Hin%elem_of_map_to_list. eauto.
  - intros e n Hin%elem_of_map_to_list. eauto.
Qed.

Lemma occurrences_zero e rs : occurrences e rs = 0 <-> forall r, r ∈ rs -> nack_error r <> Some e.
Proof.
  unfold occurrences, count. induction rs as [|r rs IH]; simpl.
  { split; [|done]. intros _ r Hr. by apply elem_of_nil in Hr. }
  case_bool_decide as Hc; simpl.
  - split; [lia|]. intros H. destruct (H r); [by left|done].
  - rewrite IH. split; intros H.
    + intros x [->|Hx]%elem_of_cons; auto.
    + intros x Hx. apply H. by right.
Qed.

Lemma only_conflicts_spec rs :
  nacks_named rs ->
  only_conflicts rs = true <->
  occurrences Response_ERR_TRANSACTION_CONFLICT rs <> 0 /\
  forall e, occurrences e rs <> 0 -> e = Response_ERR_TRANSACTION_CONFLICT.
Proof.
  intros Hn. unfold only_conflicts. rewrite andb_true_iff, existsb_elem, forallb_forall.
  setoid_rewrite <- list_elem_of_In. setoid_rewrite occurrences_zero. split.
  - intros [(r & Hr & Hnack) Hall].
    assert (forall r e, r ∈ rs -> nack_error r = Some e -> e = Response_ERR_TRANSACTION_CONFLICT) as H.
    { intros r' e Hr' He. unfold nack_error in He. specialize (Hall r' Hr').
      destruct (is_NACK r'); [|done]. simpl in Hall. apply bool_decide_eq_true in Hall. congruence. }
    split.
    + intros HH. destruct (Hn r Hr Hnack) as [e He].
      assert (nack_error r = Some e) as He' by (unfold nack_error; by rewrite Hnack).
      apply (HH r Hr). rewrite He'. f_equal. by apply (H r).
    + intros e He. destruct (decide (e = Response_ERR_TRANSACTION_CONFLICT)) as [|Hne]; [done|].
      destruct He. intros r' Hr' Heq. by apply Hne, (H r').
  - intros [H1 H2]. split.
    + destruct (existsb is_NACK rs) eqn:E; [by apply existsb_elem in E|].
      destruct H1. intros r Hr. rewrite existsb_elem_false in E.
      unfold nack_error. by rewrite (E r Hr).
    + intros r Hr. destruct (is_NACK r) eqn:E; [|done]. simpl. apply bool_decide_eq_true.
      destruct (Hn r Hr E) as [e He]. rewrite He. f_equal. apply H2.
      intros HH. apply (HH r Hr). unfold nack_error. by rewrite E.
Qed.

Lemma processResponses_outcome rs c :
  nacks_named rs ->
  processResponses rs c
  = (if only_conflicts rs then IncrementClock c else c,
     if existsb is_NACK rs then Err ErrNotPermitted else Ok tt).
Proof.
  intros Hn. unfold processResponses.
  destruct (count_errors_spec rs ∅ Hn) as (ctr & -> & Hs).
  assert (forall e, default 0 (ctr !! e) = occurrences e rs) as Hd.
  { intros e. destruct (Hs e) as [-> _]. by rewrite lookup_empty. }
  assert (forall e, is_Some (ctr !! e) <-> occurrences e rs <> 0) as Hi.
  { intros e. destruct (Hs e) as [_ ->]. rewrite lookup_empty.
    split; [intros [[? ?]|]; done|by right]. }
  f_equal. rewrite (proj2 (Bool.eq_iff_eq_true _ (only_conflicts rs))); [done|].
  rewrite andb_true_iff, !bool_decide_eq_true, only_conflicts_spec, Hi by done.
  rewrite other_errors_zero.
  - by setoid_rewrite Hi.
  - intros e n He ->. specialize (Hd e). rewrite He in Hd. simpl in Hd.
    apply (proj1 (Hi e)); [eauto|done].
Qed.

(** [processResponses] permits the operation exactly when no response is a
    NACK, and increments the conflicts clock exactly when there is a rejection and
    every NACK is a transaction conflict; with NACKs built by [protobuf.NACK] it
    does not panic. *)
Theorem processResponses_spec rs c :
  nacks_named rs ->
  processResponses rs c
  = (if only_conflicts rs then IncrementClock c else c,
     if existsb is_NACK rs then Err ErrNotPermitted else Ok tt).
Proof. apply processResponses_outcome. Qed.

(** ** The theorem on concrete answers *)

Definition conflict_NACK : Response :=
  mkResponse Response_NACK (Some Response_ERR_TRANSACTION_CONFLICT) (Some (Error ErrTransactionConflict)).

Lemma processResponses_spec_witness :
  processResponses [ACK; conflict_NACK; conflict_NACK] newConflictsResolver
  = (IncrementClock newConflictsResolver, Err ErrNotPermitted).
Proof.
  apply (processResponses_spec [ACK; conflict_NACK; conflict_NACK] newConflictsResolver).
  intros r Hr Hn. repeat (apply elem_of_cons in Hr as [->|Hr]; [first [discriminate Hn|by eexists]|]). inversion Hr.
Defined.
