(* ===== verification/Host.v ===== *)
(** * The host ([p2p/host.go])

    A [node] is a running host: the [Host] struct, the goroutine of [listen], one
    goroutine of [handleTransaction] per transaction object that [listen]
    created, and one running [Replicate] call per transaction the host started.
    Each function below is one atomic piece of a goroutine, from one point where
    another goroutine can observe or change shared state to the next; an [event]
    says which goroutine moves and what its environment answers (a message on a
    channel, the end of a context, the result of a broadcast). [node_step] runs
    one event, so a sequence of events is an interleaving. *)

From S2P Require Import Prelude Errors Protobuf Transactions Conflicts Responses.

(** ** The interface [Mirror] of the host. [Consult] returns a pointer ([None] is
    nil) and may panic; [Mirror] receives the pointer stored in the transaction. *)
Class MirrorI (FS : Type) := {
  Consult : FS -> Request -> outcome Empty_set (option Response);
  MirrorOp : FS -> option Request -> FS * outcome error unit;
}.

(** ** Goroutines *)

(** A running [Replicate] call: the object it obtained from [Put] and where it is. *)
Inductive rep_pc :=
| RDetect (message : Message)                      (** before [DetectAndResolveConflict] *)
| RBroadcast (message : Message)                   (** before [broadcast] *)
| RWait (remaining : nat) (err : option error)     (** in the receive loop *)
| RDelete (result : outcome error unit)            (** before the deferred [Delete] *)
| RReturned (result : outcome error unit).

(** A [handleTransaction] goroutine. [remaining] receives are left in its loop. *)
Inductive hand_pc :=
| HWait (remaining : nat) (ourResponse : Response_Type)
| HConsult (remaining : nat) (msg : Message) (request : Request)
| HDetect (remaining : nat) (msg : Message) (response : Response)
| HReply (remaining : nat) (msg : Message) (response : Response)
| HDelete (result : outcome error unit)
| HGone (result : outcome error unit).

(** The [listen] goroutine: at its [select], blocked in the send on the
    [NotifyChan] of an object, or returned. *)
Inductive listen_pc :=
| LSelect
| LSend (l : loc) (msg : Message)
| LReturned.

(** A value received on [Conn.ReceiveC()]. *)
Inductive conn_message :=
| conn_Err (e : error)
| conn_Data (raw : list byte).

Record node (FS : Type) := mkNode {
  Name : string;
  peers : list string;
  trans : transactions;
  resolver : conflictsResolver;
  listener : listen_pc;
  handlers : gmap loc hand_pc;
  reps : gmap string (loc * rep_pc);
  fs : FS;
  cancelled : bool;
  crashed : option string;
}.
Arguments mkNode {FS}.
Arguments Name {FS}.
Arguments peers {FS}.
Arguments trans {FS}.
Arguments resolver {FS}.
Arguments listener {FS}.
Arguments handlers {FS}.
Arguments reps {FS}.
Arguments fs {FS}.
Arguments cancelled {FS}.
Arguments crashed {FS}.

(** [defaultReplicationTimeout], in nanoseconds, and the timeout a host uses. *)
Definition defaultReplicationTimeout : Z := 5 * 60 * 1000000000.

Definition effective_timeout (replicationTimeout : Z) : Z :=
  if (replicationTimeout =? 0)%Z then defaultReplicationTimeout else replicationTimeout.

(** [NewHost] followed by [Run]: [listen] is started, nothing else runs. *)
Definition NewHost {FS} (name : string) (ps : list string) (f : FS) : node FS :=
  mkNode name ps newTransactions newConflictsResolver LSelect ∅ ∅ f false None.

Section setters.
Context {FS : Type}.
Implicit Types n : node FS.

Definition set_trans t n := mkNode (Name n) (peers n) t (resolver n) (listener n)
  (handlers n) (reps n) (fs n) (cancelled n) (crashed n).
Definition set_resolver c n := mkNode (Name n) (peers n) (trans n) c (listener n)
  (handlers n) (reps n) (fs n) (cancelled n) (crashed n).
Definition set_listener l n := mkNode (Name n) (peers n) (trans n) (resolver n) l
  (handlers n) (reps n) (fs n) (cancelled n) (crashed n).
Definition set_handler l pc n := mkNode (Name n) (peers n) (trans n) (resolver n) (listener n)
  (<[l := pc]> (handlers n)) (reps n) (fs n) (cancelled n) (crashed n).
Definition set_rep tid l pc n := mkNode (Name n) (peers n) (trans n) (resolver n) (listener n)
  (handlers n) (<[tid := (l, pc)]> (reps n)) (fs n) (cancelled n) (crashed n).
Definition set_fs (f : FS) n := mkNode (Name n) (peers n) (trans n) (resolver n) (listener n)
  (handlers n) (reps n) f (cancelled n) (crashed n).
Definition set_cancelled n := mkNode (Name n) (peers n) (trans n) (resolver n) (listener n)
  (handlers n) (reps n) (fs n) true (crashed n).
Definition crash w n := mkNode (Name n) (peers n) (trans n) (resolver n) (listener n)
  (handlers n) (reps n) (fs n) (cancelled n) (Some w).
End setters.

(** ** Decisions of [Replicate] and [handleTransaction] *)

(** The check after [broadcast]: return the error, or wait for this many answers. *)
Definition after_broadcast (npeers : nat) (err : option error) : outcome error nat :=
  match err with
  | None => Ok npeers
  | Some (ErrMulti es) =>
      if (length es =? npeers)%nat then Err (ErrMulti es) else Ok (npeers - length es)
  | Some e => Err e
  end.

(** The verdict of [handleTransaction]. *)
Definition permitted (ourResponse : Response_Type) (responses : list Response) : bool :=
  bool_decide (ourResponse = Response_ACK) && negb (existsb is_NACK responses).

(** What follows from a response once it is consulted: a conflict turns an ACK into
    a NACK. *)
Definition conflict_response (response : Response) (r : outcome error unit) :
    outcome Empty_set Response :=
  match r with
  | Ok _ => Ok response
  | Err err => NACK Response_ERR_TRANSACTION_CONFLICT (Some err)
  | Panics w => Panics w
  end.

Section host.
Context {FS : Type} {GZ : GzipCodec} {PC : ProtoCodec} {MI : MirrorI FS}.
Context (level : Z).
Implicit Types n : node FS.

(** [broadcast]: what goes out and the error the caller sees. [berr] is the result
    of [Conn.Broadcast]. *)
Definition broadcast (msg : Message) (berr : option error) : option (list byte) * option error :=
  match proto_Marshal msg with
  | inr raw => (Some raw, berr)
  | inl e => (None, Some (ErrWrap e "failed to marshal protobuf message"))
  end.

(** ** [Replicate] *)

Definition replicate_start (tid : string) (request : Request) n : option (node FS) :=
  match reps n !! tid with
  | Some _ => None
  | None =>
      match (NewRequestMessage level tid (Name n) request).2 with
      | Ok message =>
          let '(t', l, _) := Put message (trans n) in
          Some (set_rep tid l (RDetect message) (set_trans t' n))
      | Err e => Some (set_rep tid (next (trans n)) (RReturned (Err e)) n)
      | Panics w => Some (crash w n)
      end
  end.

Definition replicate_detect (tid : string) n : option (node FS) :=
  match reps n !! tid with
  | Some (l, RDetect message) =>
      Some match DetectAndResolveConflict (trans n) message with
           | Ok _ => set_rep tid l (RBroadcast message) n
           | Err err =>
               set_rep tid l (RDelete (Err err)) (set_resolver (IncrementClock (resolver n)) n)
           | Panics w => crash w n
           end
  | _ => None
  end.

Definition replicate_broadcast (tid : string) (berr : option error) n :
    option (node FS * option (list byte)) :=
  match reps n !! tid with
  | Some (l, RBroadcast message) =>
      let '(out, err) := broadcast message berr in
      Some (match after_broadcast (length (peers n)) err with
            | Ok sent => set_rep tid l (RWait sent err) n
            | Err e => set_rep tid l (RDelete (Err e)) n
            | Panics w => crash w n
            end, out)
  | _ => None
  end.

(** The [<-ctx.Done()] case of the loop, with [ctx.Err()]. *)
Definition replicate_ctx_done (tid : string) (e : error) n : option (node FS) :=
  match reps n !! tid with
  | Some (l, RWait (S _) _) => Some (set_rep tid l (RDelete (Err e)) n)
  | _ => None
  end.

(** After the loop. *)
Definition replicate_finish (tid : string) n : option (node FS) :=
  match reps n !! tid with
  | Some (l, RWait 0 (Some e)) => Some (set_rep tid l (RDelete (Err e)) n)
  | Some (l, RWait 0 None) =>
      rs ← Responses <$> heap (trans n) !! l;
      let '(c', res) := processResponses rs (resolver n) in
      Some match res with
           | Panics w => crash w n
           | _ => set_rep tid l (RDelete res) (set_resolver c' n)
           end
  | _ => None
  end.

Definition replicate_delete (tid : string) n : option (node FS) :=
  match reps n !! tid with
  | Some (l, RDelete res) => Some (set_rep tid l (RReturned res) (set_trans (Delete tid (trans n)) n))
  | _ => None
  end.

(** ** [listen] *)

Definition listen_receive (m : conn_message) n : option (node FS) :=
  match listener n with
  | LSelect =>
      match m with
      | conn_Err _ => Some n
      | conn_Data raw =>
          match ReadMessage raw with
          | Err _ => Some n
          | Panics w => Some (crash w n)
          | Ok msg =>
              let '(t', l, created) := Put msg (trans n) in
              let n' := set_listener (LSend l msg) (set_trans t' n) in
              Some (if created then set_handler l (HWait (length (peers n)) Response_ACK) n' else n')
          end
      end
  | _ => None
  end.

(** The receive of the message by the goroutine that waits on the channel. The log line of
    the received request is not part of it; it reads the metadata, so that for a request
    without metadata the process ends there when the level is enabled, and in [Consult] or
    [DetectAndResolveConflict] when it is not. *)
Definition received (k : nat) (ours : Response_Type) (msg : Message) : hand_pc :=
  match GetRequest msg with
  | Some request => HConsult k msg request
  | None => HWait k ours
  end.

(** The rendezvous on [NotifyChan]. *)
Definition notify n : option (node FS) :=
  match listener n with
  | LSend l msg =>
      match handlers n !! l, reps n !! Tid msg with
      | Some (HWait (S k) ours), _ =>
          Some (set_handler l (received k ours msg) (set_listener LSelect n))
      | _, Some (l', RWait (S k) err) =>
          if (l' =? l)%nat then Some (set_rep (Tid msg) l (RWait k err) (set_listener LSelect n))
          else None
      | _, _ => None
      end
  | _ => None
  end.

(** The [<-ctx.Done()] case of [listen], enabled once [Close] cancelled the context. *)
Definition listen_ctx_done n : option (node FS) :=
  match listener n, cancelled n with
  | LSelect, true => Some (set_listener LReturned n)
  | _, _ => None
  end.

(** [Close] leaves its polling loop when no transaction is left and cancels. *)
Definition Close n : option (node FS) :=
  if bool_decide (size (ts (trans n)) = 0) then Some (set_cancelled n) else None.

(** ** [handleTransaction] *)

Definition handle_ctx_done (l : loc) (e : error) n : option (node FS) :=
  match handlers n !! l with
  | Some (HWait (S _) _) => Some (set_handler l (HDelete (Err e)) n)
  | _ => None
  end.

Definition handle_consult (l : loc) n : option (node FS) :=
  match handlers n !! l with
  | Some (HConsult k msg request) =>
      Some match Consult (fs n) request with
           | Ok (Some response) =>
               if bool_decide (resp_Type response = Response_ACK)
               then set_handler l (HDetect k msg response) n
               else set_handler l (HReply k msg response) n
           | Ok None => crash "nil Response" n
           | Err e => match e with end
           | Panics w => crash w n
           end
  | _ => None
  end.

Definition handle_detect (l : loc) n : option (node FS) :=
  match handlers n !! l with
  | Some (HDetect k msg response) =>
      Some match conflict_response response (DetectAndResolveConflict (trans n) msg) with
           | Ok response' => set_handler l (HReply k msg response') n
           | Err e => match e with end
           | Panics w => crash w n
           end
  | _ => None
  end.

(** The broadcast of the response; its error is only logged. *)
Definition handle_reply (l : loc) (berr : option error) n :
    option (node FS * option (list byte)) :=
  match handlers n !! l with
  | Some (HReply k msg response) =>
      let '(out, _) := broadcast (NewResponseMessage (Tid msg) (Name n) response) berr in
      Some (set_handler l (HWait k (resp_Type response)) n, out)
  | _ => None
  end.

(** After the loop: the verdict and, if permitted, [Mirror]. The files are replaced in one
    step; what others do to them between the system calls of [Mirror] is an [EvLocal]
    before or after it, and the theorems on the network hold for any files. *)
Definition handle_finish (l : loc) n : option (node FS) :=
  match handlers n !! l with
  | Some (HWait 0 ours) =>
      tr ← heap (trans n) !! l;
      Some (if permitted ours (Responses tr) then
              let '(f', res) := MirrorOp (fs n) (t_Request tr) in
              match res with
              | Panics w => crash w n
              | _ => set_handler l (HDelete res) (set_fs f' n)
              end
            else set_handler l (HDelete (Err ErrNotPermitted)) n)
  | _ => None
  end.

Definition handle_delete (l : loc) n : option (node FS) :=
  match handlers n !! l with
  | Some (HDelete res) =>
      tr ← heap (trans n) !! l;
      Some (set_handler l (HGone res) (set_trans (Delete (t_Tid tr) (trans n)) n))
  | _ => None
  end.

(** ** Interleaving *)

Inductive event :=
| EvReplicate (tid : string) (request : Request)
| EvRepDetect (tid : string)
| EvRepBroadcast (tid : string) (berr : option error)
| EvRepCtxDone (tid : string) (e : error)
| EvRepFinish (tid : string)
| EvRepDelete (tid : string)
| EvReceive (m : conn_message)
| EvNotify
| EvListenDone
| EvClose
| EvHandCtxDone (l : loc) (e : error)
| EvHandConsult (l : loc)
| EvHandDetect (l : loc)
| EvHandReply (l : loc) (berr : option error)
| EvHandFinish (l : loc)
| EvHandDelete (l : loc)
| EvLocal (f : FS).

Definition quiet (r : option (node FS)) : option (node FS * option (list byte)) :=
  (fun n' => (n', None)) <$> r.

(** One step of the host; the second component is what it sends to its peers. The
    files change also by hands other than the host's ([EvLocal]). A crashed
    process makes no step. *)
Definition node_step (n : node FS) (e : event) : option (node FS * option (list byte)) :=
  match crashed n with
  | Some _ => None
  | None =>
      match e with
      | EvReplicate tid request => quiet (replicate_start tid request n)
      | EvRepDetect tid => quiet (replicate_detect tid n)
      | EvRepBroadcast tid berr => replicate_broadcast tid berr n
      | EvRepCtxDone tid e => quiet (replicate_ctx_done tid e n)
      | EvRepFinish tid => quiet (replicate_finish tid n)
      | EvRepDelete tid => quiet (replicate_delete tid n)
      | EvReceive m => quiet (listen_receive m n)
      | EvNotify => quiet (notify n)
      | EvListenDone => quiet (listen_ctx_done n)
      | EvClose => quiet (Close n)
      | EvHandCtxDone l e => quiet (handle_ctx_done l e n)
      | EvHandConsult l => quiet (handle_consult l n)
      | EvHandDetect l => quiet (handle_detect l n)
      | EvHandReply l berr => handle_reply l berr n
      | EvHandFinish l => quiet (handle_finish l n)
      | EvHandDelete l => quiet (handle_delete l n)
      | EvLocal f => Some (set_fs f n, None)
      end
  end.

(** A run of events; it stops with [None] if one of them is not enabled. *)
Fixpoint run (n : node FS) (es : list event) : option (node FS * list (list byte)) :=
  match es with
  | [] => Some (n, [])
  | e :: es =>
      '(n1, out) ← node_step n e;
      '(n2, outs) ← run n1 es;
      Some (n2, option_list out ++ outs)
  end.
End host.
