(* ===== verification/Codecs.v ===== *)
(** * Concrete codecs and a concrete mirror

    The codecs of [Protobuf] and the mirror of [Host] are parameters of the model.
    This file builds instances that satisfy their laws, on which the theorems are
    applied to concrete messages. *)

From S2P Require Import Prelude Errors Protobuf Responses Host.

(** ** Gzip: the magic byte followed by the data. *)
Definition stored_inflate (d : list byte) : gzip_read :=
  match d with
  | Byte.x1f :: d => gzip_data d
  | _ => gzip_bad_header (ErrNew "gzip: invalid header")
  end.

#[export] Instance stored_gzip : GzipCodec.
Proof.
  refine {| gzip_deflate := fun _ d => Byte.x1f :: d; gzip_inflate := stored_inflate |}. done.
Defined.

(** ** Messages as positive numbers, and positive numbers as bytes *)

#[export] Instance byte_countable : Countable byte.
Proof. exact (inj_countable Byte.to_N Byte.of_N Byte.of_to_N). Defined.

Definition Request_Type_key (t : Request_Type) : nat + Z :=
  match t with
  | Request_CREATE => inl 0
  | Request_LINK => inl 1
  | Request_MKDIR => inl 2
  | Request_RENAME => inl 3
  | Request_RMDIR => inl 4
  | Request_SETATTR => inl 5
  | Request_SYMLINK => inl 6
  | Request_UNLINK => inl 7
  | Request_WRITE => inl 8
  | Request_COPY_FILE_RANGE => inl 9
  | Request_Unrecognised n => inr n
  end.

Definition Request_Type_unkey (k : nat + Z) : Request_Type :=
  match k with
  | inl 0 => Request_CREATE
  | inl 1 => Request_LINK
  | inl 2 => Request_MKDIR
  | inl 3 => Request_RENAME
  | inl 4 => Request_RMDIR
  | inl 5 => Request_SETATTR
  | inl 6 => Request_SYMLINK
  | inl 7 => Request_UNLINK
  | inl 8 => Request_WRITE
  | inl _ => Request_COPY_FILE_RANGE
  | inr n => Request_Unrecognised n
  end.

Definition Response_Type_key (t : Response_Type) : bool + Z :=
  match t with
  | Response_ACK => inl true
  | Response_NACK => inl false
  | Response_Type_Unrecognised n => inr n
  end.

Definition Response_Type_unkey (k : bool + Z) : Response_Type :=
  match k with
  | inl true => Response_ACK
  | inl false => Response_NACK
  | inr n => Response_Type_Unrecognised n
  end.

#[export] Instance Request_Type_countable : Countable Request_Type.
Proof. refine (inj_countable' Request_Type_key Request_Type_unkey _). by intros []. Defined.
#[export] Instance Response_Type_countable : Countable Response_Type.
Proof. refine (inj_countable' Response_Type_key Response_Type_unkey _). by intros []. Defined.

#[export] Instance Request_Metadata_countable : Countable Request_Metadata.
Proof.
  refine (inj_countable'
    (fun m => (RelativePath m, NewRelativePath m, Mode m, WriteOffset m, ReadOffset m, WriteLen m))
    (fun '(a, b, c, d, e, f) => mkMetadata a b c d e f) _). by intros [].
Defined.

#[export] Instance Request_countable : Countable Request.
Proof.
  refine (inj_countable' (fun r => (req_Type r, Metadata r, Clock r, Content r))
    (fun '(a, b, c, d) => mkRequest a b c d) _). by intros [].
Defined.

#[export] Instance Response_countable : Countable Response.
Proof.
  refine (inj_countable' (fun r => (resp_Type r, resp_Error r, ErrorMsg r))
    (fun '(a, b, c) => mkResponse a b c) _). by intros [].
Defined.

#[export] Instance isMessage_Type_countable : Countable isMessage_Type.
Proof.
  refine (inj_countable'
    (fun t => match t with Message_Request r => inl r | Message_Response r => inr r end)
    (fun s => match s with inl r => Message_Request r | inr r => Message_Response r end) _).
  by intros [].
Defined.

#[export] Instance Message_countable : Countable Message.
Proof.
  refine (inj_countable' (fun m => (Tid m, PeerName m, msg_Type m))
    (fun '(a, b, c) => mkMessage a b c) _). by intros [].
Defined.

Fixpoint bits_of (p : positive) : list byte :=
  match p with
  | xH => []
  | xO p => Byte.x00 :: bits_of p
  | xI p => Byte.x01 :: bits_of p
  end.

Fixpoint of_bits (l : list byte) : positive :=
  match l with
  | [] => xH
  | Byte.x00 :: l => xO (of_bits l)
  | _ :: l => xI (of_bits l)
  end.

Lemma of_bits_of p : of_bits (bits_of p) = p.
Proof. induction p; simpl; congruence. Qed.

#[export] Instance bits_proto : ProtoCodec.
Proof.
  refine {| proto_Marshal := fun m => inr (bits_of (encode m));
            proto_Unmarshal := fun raw =>
              match decode (of_bits raw) with
              | Some m => inr m
              | None => inl (ErrNew "proto: cannot parse invalid wire-format data")
              end |}.
  intros m raw [= <-]. by rewrite of_bits_of, decode_encode.
Defined.

Definition wire (m : Message) : list byte := bits_of (encode m).

Lemma wire_marshal m : proto_Marshal m = inr (wire m).
Proof. done. Qed.

(** ** A mirror that agrees to everything and logs what it is asked to mirror. As
    in the real one, a nil request is dereferenced. *)
Definition agreeing_mirror (f : list Request) (r : option Request) :
    list Request * outcome error unit :=
  match r with
  | Some r => (f ++ [r], Ok tt)
  | None => (f, Panics "nil Request")
  end.

#[export] Instance log_mirror : MirrorI (list Request) :=
  {| Consult := fun _ _ => Ok (Some ACK); MirrorOp := agreeing_mirror |}.

(** ** Sample data: a host with two peers, requests and answers. *)

Definition sample_request (p : string) (c : Z) : Request :=
  mkRequest Request_CREATE (Some (path_Metadata p)) c None.

Definition request_msg (tid peer p : string) (c : Z) : Message :=
  mkMessage tid peer (Some (Message_Request (sample_request p c))).

Definition ack_msg (tid peer : string) : Message := NewResponseMessage tid peer ACK.

Definition sample_host : node (list Request) := NewHost "Aragorn" ["Legolas"; "Gimli"] [].

Definition sample_write (p : string) (data : list byte) : Request :=
  mkRequest Request_WRITE (Some (path_Metadata p)) 0 (Some data).

Lemma wire_roundtrip_witness :
  exists req' m, NewRequestMessage gzip_BestSpeed "7" "Gimli" (sample_write "/a" [Byte.x61]) = (req', Ok m) /\
    forall raw, proto_Marshal m = inr raw ->
      ReadMessage raw = Ok (mkMessage "7" "Gimli" (Some (Message_Request (sample_write "/a" [Byte.x61])))).
Proof.
  exact (wire_roundtrip "BestSpeed" gzip_BestSpeed "7" "Gimli" (sample_write "/a" [Byte.x61]) eq_refl).
Defined.
