(* ===== verification/HostFacts.v ===== *)
(** * Invariants of a host

    What every interleaving of the goroutines of a host preserves, and how its
    calls end: who owns the live transactions, when [Close] gets past its polling
    loop, and how the unbuffered [NotifyChan] can stop [listen] for good. *)

From S2P Require Import Prelude Errors Protobuf Transactions Conflicts Responses Host Codecs.

Section facts.
Context {FS : Type} {GZ : GzipCodec} {PC : ProtoCodec} {MI : MirrorI FS}.
Context (level : Z) (Hlevel : gzip_valid_level level = true).
Implicit Types n : node FS.

Definition running_handler (pc : hand_pc) : bool :=
  match pc with HGone _ => false | _ => true end.

Definition running_rep (pc : rep_pc) : bool :=
  match pc with RReturned _ => false | _ => true end.

(** Every goroutine works on an allocated object of its own transaction, and every
    live transaction has a goroutine that will delete it. *)
Record node_wf (n : node FS) : Prop := {
  nw_trans : wf (trans n);
  nw_handlers l pc : handlers n !! l = Some pc -> is_Some (heap (trans n) !! l);
  nw_reps tid l pc : reps n !! tid = Some (l, pc) ->
    handlers n !! l = None /\ exists tr, heap (trans n) !! l = Some tr /\ t_Tid tr = tid;
  nw_listener l msg : listener n = LSend l msg ->
    exists tr, heap (trans n) !! l = Some tr /\ t_Tid tr = Tid msg;
  nw_owner tid l : ts (trans n) !! tid = Some l ->
    (exists pc, handlers n !! l = Some pc /\ running_handler pc = true) \/
    (exists pc, reps n !! tid = Some (l, pc) /\ running_rep pc = true);
}.

(** [uuid.New] does not repeat an id that is in use. *)
Definition fresh_event (n : node FS) (e : event (FS := FS)) : Prop :=
  match e with
  | EvReplicate tid _ => ts (trans n) !! tid = None
  | _ => True
  end.

Lemma NewHost_wf name ps (f : FS) : node_wf (NewHost name ps f).
Proof.
  split; simpl; intros *; try done; rewrite ?lookup_empty; try done. apply wf_new.
Qed.

Lemma Put_heap_eq m t t' l b : wf t -> Put m t = (t', l, b) ->
  exists tr, heap t' !! l = Some tr /\ t_Tid tr = Tid m.
Proof.
  intros Hwf E. pose proof (Put_wf _ _ _ _ _ Hwf E) as [H1 _].
  pose proof (Put_spec _ _ _ _ _ Hwf E) as (_ & Hts & _). apply H1.
  by rewrite Hts, lookup_insert_eq.
Qed.

(** Objects are never freed and keep their id. *)
Lemma Put_heap_mono m t t' l b l' tr : wf t -> Put m t = (t', l, b) ->
  heap t !! l' = Some tr -> exists tr', heap t' !! l' = Some tr' /\ t_Tid tr' = t_Tid tr.
Proof.
  intros Hwf E Htr. destruct (decide (l' = l)) as [->|Hne].
  - pose proof (Put_spec _ _ _ _ _ Hwf E) as (_ & _ & -> & Hn). rewrite lookup_insert_eq.
    eexists; split; [done|]. rewrite record_message_Tid. unfold target, lookup_tid.
    destruct (ts t !! Tid m) as [l0|] eqn:Hl; simpl.
    + unfold Put, ensure in E. rewrite Hl in E. simplify_eq/=. by rewrite Htr.
    + specialize (Hn eq_refl). subst. destruct Hwf as [_ H2].
      specialize (H2 _ (mk_is_Some _ _ Htr)). lia.
  - exists tr. by rewrite (Put_heap_other _ _ _ _ _ _ Hwf E).
Qed.

Lemma Put_fresh m t t' l : wf t -> Put m t = (t', l, true) -> heap t !! l = None /\ ts t !! Tid m = None.
Proof.
  intros Hwf E. pose proof (Put_spec _ _ _ _ _ Hwf E) as (Hc & _ & _ & Hn).
  destruct (ts t !! Tid m) eqn:Hl; [done|]. split; [|done]. rewrite (Hn eq_refl).
  destruct (heap t !! next t) eqn:Hh; [|done]. destruct Hwf as [_ H2].
  specialize (H2 _ (mk_is_Some _ _ Hh)). lia.
Qed.

Lemma Put_existing m t t' l : wf t -> Put m t = (t', l, false) ->
  ts t !! Tid m = Some l /\ ts t' = ts t.
Proof.
  intros Hwf E. pose proof (Put_spec _ _ _ _ _ Hwf E) as (Hc & Hts & _).
  destruct (ts t !! Tid m) as [l0|] eqn:Hl; [|done].
  unfold Put, ensure in E. rewrite Hl in E. by simplify_eq/=.
Qed.

(** ** Preservation, goroutine by goroutine *)

(** Moving one handler that stays running. *)
Lemma set_handler_wf l pc pc0 n :
  node_wf n -> handlers n !! l = Some pc0 -> running_handler pc = true ->
  node_wf (set_handler l pc n).
Proof.
  intros [Ht Hh Hr Hl Ho] Hl0 Hpc. split; simpl; try done.
  - intros l' pc' [[<- <-]|[Hne Hl']]%lookup_insert_Some; eauto.
  - intros tid l' pc' Hrep. destruct (Hr _ _ _ Hrep) as [Hn Htr]. split; [|done].
    rewrite lookup_insert_ne; [done|]. congruence.
  - intros tid l' Hts. destruct (Ho _ _ Hts) as [(pc' & Hpc' & Hrun)|Hrep]; [left|by right].
    destruct (decide (l = l')) as [->|Hne].
    + exists pc. by rewrite lookup_insert_eq.
    + exists pc'. by rewrite lookup_insert_ne.
Qed.

(** Moving one [Replicate] call that stays running. *)
Lemma set_rep_wf tid l pc pc0 n :
  node_wf n -> reps n !! tid = Some (l, pc0) -> running_rep pc = true ->
  node_wf (set_rep tid l pc n).
Proof.
  intros [Ht Hh Hr Hl Ho] Hl0 Hpc. split; simpl; try done.
  - intros tid' l' pc' [[<- Heq]|[Hne Hl']]%lookup_insert_Some; simplify_eq; eauto.
  - intros tid' l' Hts. destruct (Ho _ _ Hts) as [Hh'|(pc' & Hpc' & Hrun)]; [by left|right].
    destruct (decide (tid = tid')) as [->|Hne].
    + exists pc. rewrite lookup_insert_eq. by simplify_eq.
    + exists pc'. by rewrite lookup_insert_ne.
Qed.

Lemma set_resolver_wf c n : node_wf n -> node_wf (set_resolver c n).
Proof. by intros []; split. Qed.
Lemma set_fs_wf f n : node_wf n -> node_wf (set_fs f n).
Proof. by intros []; split. Qed.
Lemma set_cancelled_wf n : node_wf n -> node_wf (set_cancelled n).
Proof. by intros []; split. Qed.
Lemma crash_wf w n : node_wf n -> node_wf (crash w n).
Proof. by intros []; split. Qed.
Lemma set_listener_wf n : node_wf n -> node_wf (set_listener LSelect n).
Proof. by intros []; split. Qed.
Lemma set_listener_returned_wf n : node_wf n -> node_wf (set_listener LReturned n).
Proof. by intros []; split. Qed.

#[local] Hint Resolve set_handler_wf set_rep_wf set_resolver_wf set_fs_wf set_cancelled_wf
  crash_wf set_listener_wf set_listener_returned_wf : rfs.

Lemma replicate_start_wf tid req n n' :
  node_wf n -> ts (trans n) !! tid = None -> replicate_start level tid req n = Some n' -> node_wf n'.
Proof.
  intros Hwf Hfresh E. unfold replicate_start in E. destruct (reps n !! tid) eqn:Hrep; [done|].
  destruct (NewRequestMessage_ok level tid (Name n) req Hlevel) as (req' & HN & _).
  rewrite HN in E. simpl in E.
  destruct (Put _ (trans n)) as [[t' l] b] eqn:HP. simplify_eq/=.
  destruct Hwf as [Ht Hh Hr Hl Ho].
  pose proof (Put_spec _ _ _ _ _ Ht HP) as (Hb & Hts & _). simpl in Hts, Hb.
  rewrite Hfresh in Hb. simpl in Hb. subst b.
  pose proof (Put_fresh _ _ _ _ Ht HP) as [Hlf _].
  split; simpl.
  - by eapply Put_wf.
  - intros l' pc Hl'. destruct (Hh _ _ Hl') as [tr Htr].
    destruct (Put_heap_mono _ _ _ _ _ _ _ Ht HP Htr) as (tr' & -> & _). done.
  - intros tid' l' pc' [[<- Heq]|[Hne Hl']]%lookup_insert_Some; simplify_eq.
    + split; [|by destruct (Put_heap_eq _ _ _ _ _ Ht HP) as (tr & ? & ?); eauto].
      destruct (handlers n !! l') as [pc|] eqn:E; [|done]. destruct (Hh _ _ E). congruence.
    + destruct (Hr _ _ _ Hl') as (Hn & tr & Htr & Htid). split; [done|].
      destruct (Put_heap_mono _ _ _ _ _ _ _ Ht HP Htr) as (tr' & ? & ?). exists tr'. split; congruence.
  - intros l' msg Hm. destruct (Hl _ _ Hm) as (tr & Htr & Htid).
    destruct (Put_heap_mono _ _ _ _ _ _ _ Ht HP Htr) as (tr' & ? & ?). exists tr'. split; congruence.
  - intros tid' l'. rewrite Hts. intros [[<- <-]|[Hne Hl']]%lookup_insert_Some.
    + right. eexists. by rewrite lookup_insert_eq.
    + destruct (Ho _ _ Hl') as [?|(pc & ? & ?)]; [by left|right]. exists pc.
      by rewrite lookup_insert_ne.
Qed.

Lemma listen_receive_wf m n n' : node_wf n -> listen_receive m n = Some n' -> node_wf n'.
Proof.
  intros Hwf E. unfold listen_receive in E. destruct (listener n) eqn:Hls; try done.
  destruct m as [e|raw]; simplify_eq; [done|].
  destruct (ReadMessage raw) as [msg|e|w]; simplify_eq; eauto with rfs.
  destruct (Put msg (trans n)) as [[t' l] b] eqn:HP. simplify_eq/=.
  destruct Hwf as [Ht Hh Hr Hl Ho].
  assert (forall l' tr, heap (trans n) !! l' = Some tr ->
    exists tr', heap t' !! l' = Some tr' /\ t_Tid tr' = t_Tid tr) as Hmono.
  { intros. by eapply Put_heap_mono. }
  assert (forall tid l' pc, reps n !! tid = Some (l', pc) ->
    exists tr, heap t' !! l' = Some tr /\ t_Tid tr = tid) as Hr'.
  { intros tid l' pc Hrep. destruct (Hr _ _ _ Hrep) as (Hn & tr & Htr & Htid).
    destruct (Hmono _ _ Htr) as (tr' & ? & ?). exists tr'. split; congruence. }
  pose proof (Put_heap_eq _ _ _ _ _ Ht HP) as Hnew.
  pose proof (Put_wf _ _ _ _ _ Ht HP) as Ht'.
  destruct b.
  - pose proof (Put_fresh _ _ _ _ Ht HP) as [Hlf Htf].
    pose proof (Put_spec _ _ _ _ _ Ht HP) as (_ & Hts & _).
    split; simpl; [done| | | |].
    + intros l' pc [[<- <-]|[Hne Hl']]%lookup_insert_Some.
      * destruct Hnew as (tr & ? & _). eauto.
      * destruct (Hh _ _ Hl') as [tr Htr]. destruct (Hmono _ _ Htr) as (tr' & ? & _). eauto.
    + intros tid l' pc Hrep. split; [|by eapply Hr'].
      destruct (Hr _ _ _ Hrep) as (Hn & tr & Htr & _). rewrite lookup_insert_ne; congruence.
    + intros l' m' Hm. by simplify_eq.
    + intros tid l'. rewrite Hts. intros [[<- <-]|[Hne Hl']]%lookup_insert_Some.
      * left. eexists. by rewrite lookup_insert_eq.
      * destruct (Ho _ _ Hl') as [(pc & Hpc & Hrun)|?]; [left|by right]. exists pc.
        rewrite lookup_insert_ne; [done|]. intros <-. destruct (Hh _ _ Hpc). congruence.
  - pose proof (Put_existing _ _ _ _ Ht HP) as [_ Hts].
    split; simpl; [done| | | |].
    + intros l' pc Hl'. destruct (Hh _ _ Hl') as [tr Htr]. destruct (Hmono _ _ Htr) as (tr' & ? & _). eauto.
    + intros tid l' pc Hrep. split; [|by eapply Hr']. by destruct (Hr _ _ _ Hrep).
    + intros l' m' Hm. by simplify_eq.
    + rewrite Hts. done.
Qed.

Lemma replicate_delete_wf tid n n' : node_wf n -> replicate_delete tid n = Some n' -> node_wf n'.
Proof.
  intros [Ht Hh Hr Hl Ho] E. unfold replicate_delete in E.
  destruct (reps n !! tid) as [[l []]|] eqn:Hrep; simplify_eq/=.
  split; simpl; [by apply Delete_wf|done| |done|].
  - intros tid' l' pc' [[<- Heq]|[Hne Hl']]%lookup_insert_Some; simplify_eq; eauto.
  - intros tid' l' [Hne Hts]%lookup_delete_Some. rewrite lookup_insert_ne by done. by apply Ho.
Qed.

Lemma handle_delete_wf l n n' : node_wf n -> handle_delete l n = Some n' -> node_wf n'.
Proof.
  intros [Ht Hh Hr Hl Ho] E. unfold handle_delete in E.
  destruct (handlers n !! l) as [[]|] eqn:Hpc; try done.
  destruct (heap (trans n) !! l) as [tr|] eqn:Htr; simplify_eq/=.
  split; simpl; [by apply Delete_wf| | |done|].
  - intros l' pc [[<- <-]|[Hne Hl']]%lookup_insert_Some; eauto.
  - intros tid l' pc Hrep. destruct (Hr _ _ _ Hrep) as (Hn & Hex). split; [|done].
    rewrite lookup_insert_ne; congruence.
  - intros tid l' [Hne Hts]%lookup_delete_Some.
    destruct (Ho _ _ Hts) as [(pc & Hpc' & Hrun)|?]; [left|by right]. exists pc.
    rewrite lookup_insert_ne; [done|]. intros <-.
    destruct Ht as [H1 _]. destruct (H1 _ _ Hts) as (tr' & Htr' & Htid). congruence.
Qed.

Lemma notify_wf n n' : node_wf n -> notify n = Some n' -> node_wf n'.
Proof.
  intros Hwf E. unfold notify in E. destruct (listener n) as [|l msg|]; try done.
  assert (forall k ours, running_handler (received k ours msg) = true) as Hrun.
  { intros. unfold received. by destruct (GetRequest msg). }
  destruct (handlers n !! l) as [[[|k] ours| | | | |]|] eqn:Hpc; simplify_eq;
    try (eapply set_handler_wf; eauto using set_listener_wf);
    destruct (reps n !! Tid msg) as [[l' [| |[|]| |]]|] eqn:Hrep; simplify_eq;
    destruct (l' =? l)%nat eqn:El; simplify_eq; apply Nat.eqb_eq in El; subst;
    eapply set_rep_wf; eauto using set_listener_wf.
Qed.

Lemma handler_step_wf n n' (e : event (FS := FS)) out :
  node_wf n -> node_step level n e = Some (n', out) ->
  match e with
  | EvHandCtxDone _ _ | EvHandConsult _ | EvHandDetect _ | EvHandReply _ _ | EvHandFinish _ =>
      node_wf n'
  | _ => True
  end.
Proof.
  intros Hwf E. unfold node_step in E. destruct (crashed n); [done|].
  destruct e; try done; simpl in E.
  all: unfold quiet, handle_ctx_done, handle_consult, handle_detect, handle_reply, handle_finish in E;
    repeat case_match; simplify_eq/=; opt_inv; repeat case_match; simplify_eq/=; eauto using crash_wf, set_fs_wf;
    try (eapply set_handler_wf; eauto using set_fs_wf); done.
Qed.

Lemma rep_step_wf n n' (e : event (FS := FS)) out :
  node_wf n -> node_step level n e = Some (n', out) ->
  match e with
  | EvRepDetect _ | EvRepBroadcast _ _ | EvRepCtxDone _ _ | EvRepFinish _ => node_wf n'
  | _ => True
  end.
Proof.
  intros Hwf E. unfold node_step in E. destruct (crashed n); [done|].
  destruct e; try done; simpl in E.
  all: unfold quiet, replicate_detect, replicate_broadcast, replicate_ctx_done, replicate_finish in E;
    repeat case_match; simplify_eq/=; opt_inv; repeat case_match; simplify_eq/=; eauto using crash_wf, set_resolver_wf;
    try (eapply set_rep_wf; eauto using set_resolver_wf); done.
Qed.

(** Every step of every goroutine preserves the invariant. *)
Lemma node_step_keeps_wf n n' (e : event (FS := FS)) out :
  node_wf n -> fresh_event n e -> node_step level n e = Some (n', out) -> node_wf n'.
Proof.
  intros Hwf Hf E.
  pose proof (handler_step_wf _ _ _ _ Hwf E) as Hh. pose proof (rep_step_wf _ _ _ _ Hwf E) as Hr.
  unfold node_step in E. destruct (crashed n); [done|].
  destruct e; try done; simpl in E; unfold quiet in E; try apply fmap_Some in E as (n1 & E & ?);
    simplify_eq/=.
  - by eapply replicate_start_wf.
  - by eapply replicate_delete_wf.
  - by eapply listen_receive_wf.
  - by eapply notify_wf.
  - unfold listen_ctx_done in E. repeat case_match; simplify_eq. by apply set_listener_returned_wf.
  - unfold Close in E. case_bool_decide; simplify_eq. by apply set_cancelled_wf.
  - by eapply handle_delete_wf.
  - by apply set_fs_wf.
Qed.

(** One step of the host, of any goroutine, under any answer of its environment. *)
Definition host_moves n n' : Prop :=
  exists (e : event (FS := FS)) out, fresh_event n e /\ node_step level n e = Some (n', out).

Lemma host_steps_wf n n' : node_wf n -> steps host_moves n n' -> node_wf n'.
Proof.
  intros Hwf. apply steps_invariant; [done|]. intros a b Ha (e & out & Hf & He).
  by eapply node_step_keeps_wf.
Qed.

(** C10: in every state a host reaches, whatever the order of its goroutines and the
    answers of its environment, objects and goroutines are in correspondence: each
    goroutine has an allocated object of its transaction, [Replicate] calls and
    handlers share none, and no transaction is in the cache without a goroutine
    that will delete it. *)
Theorem reachable_host_wf name ps (f : FS) n :
  steps host_moves (NewHost name ps f) n -> node_wf n.
Proof. apply host_steps_wf, NewHost_wf. Qed.

(** C11: when every goroutine of a reachable host has finished, the cache is empty,
    so [Close] leaves its polling loop: no outcome of a transaction (commit,
    rejection, time-out, conflict, failed broadcast) leaks its entry. *)
Theorem Close_not_blocked_by_leak name ps (f : FS) n :
  steps host_moves (NewHost name ps f) n ->
  (forall l pc, handlers n !! l = Some pc -> running_handler pc = false) ->
  (forall tid l pc, reps n !! tid = Some (l, pc) -> running_rep pc = false) ->
  ts (trans n) = ∅ /\ Close n = Some (set_cancelled n).
Proof.
  intros Hs Hh Hr. apply host_steps_wf in Hs; [|apply NewHost_wf].
  assert (ts (trans n) = ∅) as He.
  { apply map_eq. intros k. rewrite lookup_empty. apply eq_None_not_Some. intros [l Hl].
    destruct (nw_owner _ Hs _ _ Hl) as [(pc & Hpc & Hrun)|(pc & Hpc & Hrun)].
    - rewrite (Hh _ _ Hpc) in Hrun. done.
    - rewrite (Hr _ _ _ Hpc) in Hrun. done. }
  split; [done|]. unfold Close. by rewrite He, map_size_empty.
Qed.

(** ** The channel nobody receives from *)

(** The goroutine of the object will not receive again. *)
Definition hand_deaf (pc : hand_pc) : bool :=
  match pc with HWait 0 _ | HDelete _ | HGone _ => true | _ => false end.

Definition rep_deaf (pc : rep_pc) : bool :=
  match pc with RWait 0 _ | RDelete _ | RReturned _ => true | _ => false end.

Definition deaf n (l : loc) : Prop :=
  is_Some (heap (trans n) !! l) /\
  (forall pc, handlers n !! l = Some pc -> hand_deaf pc = true) /\
  (forall tid pc, reps n !! tid = Some (l, pc) -> rep_deaf pc = true).

Lemma deaf_set_handler l l' pc n :
  deaf n l -> (l' = l -> hand_deaf pc = true) -> deaf (set_handler l' pc n) l.
Proof.
  intros (Ha & Hh & Hr) Hpc. split; [done|]. split; simpl; [|done].
  intros pc' [[-> <-]|[Hne Hl]]%lookup_insert_Some; eauto.
Qed.

Lemma deaf_set_rep l tid l' pc n :
  deaf n l -> (l' = l -> rep_deaf pc = true) -> deaf (set_rep tid l' pc n) l.
Proof.
  intros (Ha & Hh & Hr) Hpc. split; [done|]. split; simpl; [done|].
  intros tid' pc' [[-> Heq]|[Hne Hl]]%lookup_insert_Some; simplify_eq; eauto.
Qed.

Lemma replicate_start_deaf tid req n n' l :
  node_wf n -> ts (trans n) !! tid = None -> replicate_start level tid req n = Some n' ->
  deaf n l -> deaf n' l /\ listener n' = listener n.
Proof.
  intros Hwf Hf E (Ha & Hh & Hr). unfold replicate_start in E.
  destruct (reps n !! tid) eqn:Hrep; [done|].
  destruct (NewRequestMessage_ok level tid (Name n) req Hlevel) as (req' & HN & _).
  rewrite HN in E. simpl in E. destruct (Put _ (trans n)) as [[t' l0] b] eqn:HP. simplify_eq/=.
  pose proof (Put_spec _ _ _ _ _ (nw_trans _ Hwf) HP) as (Hb & _). simpl in Hb.
  rewrite Hf in Hb. simpl in Hb. subst b.
  pose proof (Put_fresh _ _ _ _ (nw_trans _ Hwf) HP) as [Hl0 _]. destruct Ha as [tr Htr].
  split; [|done]. split; simpl.
  - destruct (Put_heap_mono _ _ _ _ _ _ _ (nw_trans _ Hwf) HP Htr) as (? & ? & _). eauto.
  - split; [done|]. intros tid' pc' [[<- Heq]|[Hne Hl']]%lookup_insert_Some; simplify_eq; eauto.
Qed.

Lemma deaf_step n n' l msg (e : event (FS := FS)) out :
  node_wf n -> fresh_event n e -> node_step level n e = Some (n', out) ->
  deaf n l -> listener n = LSend l msg -> deaf n' l /\ listener n' = LSend l msg.
Proof.
  intros Hwf Hf E Hd Hls. unfold node_step in E. destruct (crashed n); [done|].
  pose proof Hd as (Ha & Hh & Hr).
  assert (forall c, deaf (set_resolver c n) l) as Hc by done.
  assert (forall f, deaf (set_fs f n) l) as Hfs by done.
  assert (forall k, deaf (set_trans (Delete k (trans n)) n) l) as Hdel by done.
  destruct e; simpl in E; try (unfold quiet in E; apply fmap_Some in E as (n1 & E & [= -> ->])).
  all: try (unfold replicate_detect, replicate_broadcast, replicate_ctx_done, replicate_finish,
    replicate_delete, listen_receive, listen_ctx_done, Close, handle_ctx_done, handle_consult,
    handle_detect, handle_reply, handle_finish, handle_delete in E;
    rewrite ?Hls in E; repeat case_match; simplify_eq/=; opt_inv; repeat case_match; simplify_eq/=;
    (split; [|done]); try done;
    first [ apply deaf_set_handler; [done|] | apply deaf_set_rep; [done|] ]; intros ->;
    try done;
    match goal with
    | H : handlers _ !! _ = Some _ |- _ => specialize (Hh _ H); done
    | H : reps _ !! _ = Some _ |- _ => specialize (Hr _ _ H); done
    end).
  - destruct (replicate_start_deaf _ _ _ _ _ Hwf Hf E Hd) as [? Hls']. split; [done|]. congruence.
  - unfold notify in E. rewrite Hls in E.
    destruct (handlers n !! l) as [pc|] eqn:Hpc.
    + specialize (Hh _ eq_refl). destruct pc as [[|k] ours| | | | |]; try done;
        destruct (reps n !! Tid msg) as [[l' [| |[|]| |]]|] eqn:Hrep; try done;
        destruct (l' =? l)%nat eqn:El; try done; apply Nat.eqb_eq in El; subst;
        specialize (Hr _ _ Hrep); done.
    + destruct (reps n !! Tid msg) as [[l' [| |[|]| |]]|] eqn:Hrep; try done.
      destruct (l' =? l)%nat eqn:El; try done. apply Nat.eqb_eq in El. subst.
      specialize (Hr _ _ Hrep). done.
Qed.

(** C34: [listen] sends on the unbuffered [NotifyChan] of the transaction. If the
    goroutine of that transaction has already left its receive loop, the send never
    completes: from then on no message of any transaction is received, whatever
    else happens on the host. *)
Theorem listen_blocks_forever n n' l msg :
  node_wf n -> deaf n l -> listener n = LSend l msg ->
  steps host_moves n n' -> listener n' = LSend l msg.
Proof.
  intros Hwf Hd Hls Hs.
  cut (node_wf n' /\ deaf n' l /\ listener n' = LSend l msg); [tauto|].
  induction Hs as [|n m m' Hs IH (e & out & Hf & He)]; [done|].
  destruct (IH Hwf Hd Hls) as (Hwf1 & Hd1 & Hls1). split; [by eapply node_step_keeps_wf|].
  by eapply deaf_step.
Qed.

(** ** Runs of events as sequences of moves *)

Definition fresh_eventb n (e : event (FS := FS)) : bool :=
  match e with
  | EvReplicate tid _ => bool_decide (ts (trans n) !! tid = None)
  | _ => true
  end.

Fixpoint fresh_run n (es : list (event (FS := FS))) : bool :=
  match es with
  | [] => true
  | e :: es =>
      fresh_eventb n e &&
      match node_step level n e with Some (n', _) => fresh_run n' es | None => true end
  end.

Lemma run_moves n n' es outs :
  run level n es = Some (n', outs) -> fresh_run n es = true -> steps host_moves n n'.
Proof.
  revert n outs. induction es as [|e es IH]; intros n outs Hr Hf; simpl in *.
  { simplify_eq. constructor. }
  destruct (node_step level n e) as [[n1 out]|] eqn:E; simpl in Hr; [|done].
  destruct (run level n1 es) as [[n2 outs']|] eqn:Er; simpl in Hr; [|done]. simplify_eq.
  apply andb_true_iff in Hf as [He Hf]. apply steps_trans with n1; [|by eapply IH].
  apply steps_one. exists e, out. split; [|done].
  destruct e; simpl in *; try done. by apply bool_decide_eq_true in He.
Qed.
End facts.

(** ** The theorems on concrete runs *)

Lemma reachable_host_wf_witness :
  exists n, run gzip_DefaultCompression sample_host
      [EvReceive (conn_Data (wire (ack_msg "123" "Gimli"))); EvNotify;
       EvReplicate "7" (sample_request "/a" 0); EvRepDetect "7"] = Some (n, []) /\ node_wf n.
Proof.
  eexists. split; [vm_compute; reflexivity|].
  apply (reachable_host_wf gzip_DefaultCompression eq_refl "Aragorn" ["Legolas"; "Gimli"] []).
  eapply (run_moves gzip_DefaultCompression sample_host _
    [EvReceive (conn_Data (wire (ack_msg "123" "Gimli"))); EvNotify;
     EvReplicate "7" (sample_request "/a" 0); EvRepDetect "7"]); vm_compute; reflexivity.
Defined.

(** A replication that is rejected with a conflict: the call has returned, so the
    cache is empty. *)
Lemma Close_not_blocked_by_leak_witness :
  exists n, run gzip_DefaultCompression sample_host
      [EvReplicate "7" (sample_request "/a" 0); EvRepDetect "7"; EvRepBroadcast "7" (Some ErrPeerIsDown);
       EvRepDelete "7"] = Some (n, [wire (request_msg "7" "Aragorn" "/a" 0)]) /\
    Close n = Some (set_cancelled n).
Proof.
  eexists. split; [vm_compute; reflexivity|].
  refine (proj2 (Close_not_blocked_by_leak gzip_DefaultCompression eq_refl "Aragorn"
    ["Legolas"; "Gimli"] [] _ _ _ _)).
  - eapply (run_moves gzip_DefaultCompression sample_host _
      [EvReplicate "7" (sample_request "/a" 0); EvRepDetect "7"; EvRepBroadcast "7" (Some ErrPeerIsDown);
       EvRepDelete "7"]); vm_compute; reflexivity.
  - intros l pc Hl. apply negb_true_iff.
    eapply (map_check (fun pc => negb (running_handler pc))); [|exact Hl]. vm_compute. reflexivity.
  - intros tid l pc Hl. apply negb_true_iff.
    refine (map_check (fun v => negb (running_rep v.2)) _ _ tid (l, pc) Hl). vm_compute. reflexivity.
Defined.

(** The broadcast fails for Legolas only after the data went out: both peers answer,
    but [Replicate] waits for one answer. *)
Definition blocked_run : list (event (FS := list Request)) :=
  [EvReplicate "7" (sample_request "/a" 0); EvRepDetect "7";
   EvRepBroadcast "7" (Some (ErrMulti [("Legolas", ErrStream streamErrTimeout)]));
   EvReceive (conn_Data (wire (ack_msg "7" "Gimli"))); EvNotify;
   EvReceive (conn_Data (wire (ack_msg "7" "Legolas")))].

Lemma listen_blocks_forever_witness :
  exists n, run gzip_DefaultCompression sample_host blocked_run
      = Some (n, [wire (request_msg "7" "Aragorn" "/a" 0)]) /\
    forall n', steps (host_moves gzip_DefaultCompression) n n' ->
      listener n' = LSend 0 (ack_msg "7" "Legolas").
Proof.
  eexists. split; [vm_compute; reflexivity|].
  intros n' Hs.
  eapply (listen_blocks_forever gzip_DefaultCompression eq_refl _ n' 0 (ack_msg "7" "Legolas"));
    [| | |exact Hs].
  - eapply (host_steps_wf gzip_DefaultCompression eq_refl); [apply (NewHost_wf "Aragorn" ["Legolas"; "Gimli"] [])|].
    eapply (run_moves gzip_DefaultCompression sample_host _ blocked_run); vm_compute; reflexivity.
  - split; [by eexists|]. split.
    + intros pc Hl. eapply (map_check hand_deaf); [|exact Hl]. vm_compute. reflexivity.
    + intros tid pc Hl. refine (map_check (fun v => rep_deaf v.2) _ _ tid (0, pc) Hl). vm_compute. reflexivity.
  - reflexivity.
Defined.
