(* ===== verification/HostRuns.v ===== *)
(** * Complete runs of [handleTransaction]

    What a host does with a whole transaction of another peer: for every number of
    peers and every order in which the request and the responses arrive. *)

From S2P Require Import Prelude Errors Protobuf Transactions Conflicts Responses Host Codecs HostFacts.

Section runs.
Context {FS : Type} {GZ : GzipCodec} {PC : ProtoCodec} {MI : MirrorI FS}.
Context (level : Z).
Implicit Types n : node FS.

Lemma run_app n n1 n2 es1 es2 o1 o2 :
  run level n es1 = Some (n1, o1) -> run level n1 es2 = Some (n2, o2) ->
  run level n (es1 ++ es2) = Some (n2, o1 ++ o2).
Proof.
  revert n o1. induction es1 as [|e es1 IH]; intros n o1 H1 H2; simpl in *; [by simplify_eq|].
  destruct (node_step level n e) as [[n' out]|]; simpl in *; [|done].
  destruct (run level n' es1) as [[n'' outs]|] eqn:E; simpl in *; [|done]. simplify_eq.
  rewrite (IH _ _ E H2). simpl. by rewrite app_assoc.
Qed.

(** The transaction [tid] between two receives of its handler: [k] receives are
    left, the object of the transaction is [tr], and nothing but this transaction
    changed since [n0]. Before the first message the object does not exist. *)
Record waiting (n0 : node FS) (tid : string) (k : nat) (ours : Response_Type)
    (tr : transaction) (n : node FS) : Prop := {
  w_crashed : crashed n = None;
  w_listener : listener n = LSelect;
  w_static : Name n = Name n0 /\ peers n = peers n0 /\ fs n = fs n0;
  w_wf : wf (trans n);
  w_others k' : k' <> tid -> lookup_tid k' (trans n) = lookup_tid k' (trans n0);
  w_target : target tid (trans n) = tr;
  w_handler :
    (ts (trans n) !! tid = None /\ next (trans n) = next (trans n0) /\
       k = length (peers n0) /\ ours = Response_ACK) \/
    (ts (trans n) !! tid = Some (next (trans n0)) /\
       handlers n !! next (trans n0) = Some (HWait k ours));
}.

(** The same, with the handler at [pc] instead of in its [select]. *)
Record busy (n0 : node FS) (tid : string) (pc : hand_pc) (tr : transaction) (n : node FS) : Prop := {
  b_crashed : crashed n = None;
  b_listener : listener n = LSelect;
  b_static : Name n = Name n0 /\ peers n = peers n0 /\ fs n = fs n0;
  b_wf : wf (trans n);
  b_others k' : k' <> tid -> lookup_tid k' (trans n) = lookup_tid k' (trans n0);
  b_ts : ts (trans n) !! tid = Some (next (trans n0));
  b_heap : heap (trans n) !! next (trans n0) = Some tr;
  b_handler : handlers n !! next (trans n0) = Some pc;
}.

Lemma busy_set_handler n0 tid pc pc' tr n :
  busy n0 tid pc tr n -> busy n0 tid pc' tr (set_handler (next (trans n0)) pc' n).
Proof. intros []. split; simpl; try done. apply lookup_insert_eq. Qed.

Lemma busy_waiting n0 tid k ours tr n :
  busy n0 tid (HWait k ours) tr n -> waiting n0 tid k ours tr n.
Proof.
  intros []. split; try done; [|by right]. unfold target, lookup_tid. by rewrite b_ts0; simpl; rewrite b_heap0.
Qed.

Definition receive_events (raw : list byte) : list (event (FS := FS)) :=
  [EvReceive (conn_Data raw); EvNotify].

(** A message of the transaction arrives and the handler picks it up. *)
Lemma receive_busy n0 n tid k ours tr raw msg :
  ReadMessage raw = Ok msg -> Tid msg = tid ->
  waiting n0 tid (S k) ours tr n ->
  exists n', run level n (receive_events raw) = Some (n', []) /\
    busy n0 tid (received k ours msg) (record_message msg tr) n'.
Proof.
  intros Hraw Htid W. destruct W as [Hc Hl (HN & HP & HF) Hwf Hoth Htgt Hh].
  destruct (Put msg (trans n)) as [[t' l] b] eqn:HPut.
  pose proof (Put_spec _ _ _ _ _ Hwf HPut) as (Hb & Hts & Hheap & Hnext).
  assert (l = next (trans n0) /\
    (if b then S k = length (peers n0) /\ ours = Response_ACK
     else handlers n !! l = Some (HWait (S k) ours))) as [-> Hcase].
  { destruct Hh as [(Hnone & Hn & Hk & Ho)|(Hsome & Hh)].
    - rewrite <- Htid in Hnone. rewrite Hnone in Hb. simpl in Hb. subst b.
      rewrite (Hnext Hnone), Hn. done.
    - rewrite <- Htid in Hsome. rewrite Hsome in Hb.
      rewrite bool_decide_true in Hb by eauto. simpl in Hb. subst b.
      destruct (Put_existing _ _ _ _ Hwf HPut) as [Heq _]. simplify_eq. done. }
  set (n1 := set_listener (LSend (next (trans n0)) msg) (set_trans t' n)).
  set (n2 := if b then set_handler (next (trans n0)) (HWait (length (peers n)) Response_ACK) n1 else n1).
  assert (handlers n2 !! next (trans n0) = Some (HWait (S k) ours)) as Hn2.
  { subst n2 n1. destruct b; simpl; [|done]. rewrite lookup_insert_eq, HP.
    by destruct Hcase as [-> ->]. }
  assert (listener n2 = LSend (next (trans n0)) msg /\ crashed n2 = None /\ Name n2 = Name n0 /\
    peers n2 = peers n0 /\ fs n2 = fs n0 /\ trans n2 = t') as (L2 & C2 & N2 & P2 & F2 & T2).
  { subst n2 n1. by destruct b. }
  exists (set_handler (next (trans n0)) (received k ours msg) (set_listener LSelect n2)).
  split.
  - unfold receive_events, run, node_step, quiet, listen_receive, notify.
    rewrite Hc, Hl, Hraw, HPut. simpl. fold n1. fold n2.
    rewrite C2, L2, Hn2. simpl. done.
  - split; simpl; rewrite ?T2; try done.
    + by eapply Put_wf.
    + intros k' Hk'. rewrite (Put_lookup _ _ _ _ _ _ Hwf HPut), decide_False by congruence.
      by apply Hoth.
    + by rewrite Hts, Htid, lookup_insert_eq.
    + by rewrite Hheap, lookup_insert_eq, Htid, Htgt.
    + by rewrite lookup_insert_eq.
Qed.

(** A response only moves the loop on. *)
Lemma receive_response n0 n tid k ours tr raw msg :
  ReadMessage raw = Ok msg -> Tid msg = tid -> GetRequest msg = None ->
  waiting n0 tid (S k) ours tr n ->
  exists n', run level n (receive_events raw) = Some (n', []) /\
    waiting n0 tid k ours (record_message msg tr) n'.
Proof.
  intros Hraw Htid Hnr W. destruct (receive_busy _ _ _ _ _ _ _ _ Hraw Htid W) as (n' & Hr & B).
  exists n'. split; [done|]. apply busy_waiting. unfold received in B. by rewrite Hnr in B.
Qed.

Lemma receive_responses n0 n tid k ours tr raws msgs :
  Forall2 (fun raw msg => ReadMessage raw = Ok msg) raws msgs ->
  Forall (fun msg => Tid msg = tid /\ GetRequest msg = None) msgs ->
  waiting n0 tid (length msgs + k) ours tr n ->
  exists n', run level n (flat_map receive_events raws) = Some (n', []) /\
    waiting n0 tid k ours (fold_left (fun tr m => record_message m tr) msgs tr) n'.
Proof.
  intros Hraws. revert n tr. induction Hraws as [|raw msg raws msgs Hraw Hraws IH]; intros n tr HF W.
  { by exists n. }
  apply Forall_cons in HF as [[Ht Hg] HF].
  destruct (receive_response _ _ _ _ _ _ _ _ Hraw Ht Hg W) as (n1 & Hr1 & W1).
  destruct (IH _ _ HF W1) as (n2 & Hr2 & W2).
  exists n2. split; [|done]. cbn [flat_map]. by rewrite (run_app _ _ _ _ _ _ _ Hr1 Hr2).
Qed.

(** Consulting, conflict detection and the reply to a request that is agreed to. *)
Lemma busy_reply n0 n tid k tr msg r resp out berr :
  busy n0 tid (HConsult k msg r) tr n ->
  GetRequest msg = Some r -> Tid msg = tid -> is_Some (Metadata r) ->
  t_Request tr = Some r -> InitiatorName tr = PeerName msg ->
  Consult (fs n0) r = Ok (Some resp) -> resp_Type resp = Response_ACK ->
  (forall k' t', lookup_tid k' (trans n0) = Some t' -> has_metadata t' /\ defeats t' msg r = false) ->
  proto_Marshal (NewResponseMessage tid (Name n0) resp) = inr out ->
  exists n', run level n [EvHandConsult (next (trans n0)); EvHandDetect (next (trans n0));
                          EvHandReply (next (trans n0)) berr] = Some (n', [out]) /\
    busy n0 tid (HWait k Response_ACK) tr n'.
Proof.
  intros B Hr Htid Hmd Htr Hin Hc Hack Hoth Hout.
  assert (DetectAndResolveConflict (trans n) msg = Ok tt) as Hd.
  { assert (forall k' t', (k', t') ∈ live (trans n) -> has_metadata t' /\ defeats t' msg r = false) as HL.
    { intros k' t' Hl%live_lookup. destruct (decide (k' = tid)) as [->|Hne].
      - unfold lookup_tid in Hl. rewrite (b_ts _ _ _ _ _ B) in Hl. simpl in Hl.
        rewrite (b_heap _ _ _ _ _ B) in Hl. simplify_eq. split; [intros ? ?; by simplify_eq|].
        unfold defeats, opposes. by rewrite Htr, Hin, String.eqb_refl.
      - rewrite (b_others _ _ _ _ _ B) in Hl by done. eauto. }
    by eapply detect_accepts. }
  exists (set_handler (next (trans n0)) (HWait k Response_ACK)
    (set_handler (next (trans n0)) (HReply k msg resp)
      (set_handler (next (trans n0)) (HDetect k msg resp) n))).
  split; [|by repeat eapply busy_set_handler].
  destruct B as [C L (HN & HP & HF) W O T Hh Hpc].
  unfold run, node_step, quiet, handle_consult, handle_detect, handle_reply, broadcast.
  rewrite C, Hpc, HF, Hc. simpl. rewrite bool_decide_true by done. simpl.
  rewrite C, lookup_insert_eq, Hd. simpl. rewrite C, lookup_insert_eq. simpl.
  rewrite HN, Htid, Hout, Hack. done.
Qed.

(** The transaction is over: its entry is gone, the others are as they were, and the
    host is back at its [select]. *)
Record at_rest_again (n0 : node FS) (tid : string) (n : node FS) : Prop := {
  ar_gone : ts (trans n) !! tid = None;
  ar_crashed : crashed n = None;
  ar_listener : listener n = LSelect;
  ar_others k' : k' <> tid -> lookup_tid k' (trans n) = lookup_tid k' (trans n0);
}.

Lemma deleted_at_rest n0 tid k ours tr n l pc f :
  waiting n0 tid k ours tr n -> t_Tid tr = tid ->
  at_rest_again n0 tid (set_handler l pc (set_trans (Delete (t_Tid tr) (trans n)) (set_fs f n))).
Proof.
  intros [C L S W O T Hh] Htid. rewrite Htid. split; simpl; try done; [apply lookup_delete_eq|].
  intros k' Hk'. by rewrite Delete_lookup, decide_False, O by done.
Qed.

(** The verdict and the clean-up. *)
Lemma waiting_finish n0 n tid ours tr :
  waiting n0 tid 0 ours tr n -> t_Tid tr = tid -> peers n0 <> [] ->
  let l := next (trans n0) in
  (permitted ours (Responses tr) = false ->
     exists n', run level n [EvHandFinish l; EvHandDelete l] = Some (n', []) /\
       fs n' = fs n0 /\ handlers n' !! l = Some (HGone (Err ErrNotPermitted)) /\
       at_rest_again n0 tid n') /\
  (forall f' res, permitted ours (Responses tr) = true -> is_panic res = false ->
     MirrorOp (fs n0) (t_Request tr) = (f', res) ->
     exists n', run level n [EvHandFinish l; EvHandDelete l] = Some (n', []) /\
       fs n' = f' /\ handlers n' !! l = Some (HGone res) /\
       at_rest_again n0 tid n') /\
  (forall f' w, permitted ours (Responses tr) = true ->
     MirrorOp (fs n0) (t_Request tr) = (f', Panics w) ->
     exists n', run level n [EvHandFinish l] = Some (n', []) /\ crashed n' = Some w).
Proof.
  intros HW Htid Hne l. pose proof HW as [C L (HN & HP & HF) W O T Hh].
  destruct Hh as [(_ & _ & Hk & _)|(Hts & Hpc)].
  { by destruct (peers n0). }
  assert (heap (trans n) !! l = Some tr) as Hheap.
  { destruct (lookup_tid_wf _ _ _ W Hts) as (tr' & Hl & Ht & _).
    unfold target in T. rewrite Ht in T. simpl in T. by subst. }
  fold l in Hpc. repeat split.
  - intros Hp. eexists. split.
    { unfold run, node_step, quiet, handle_finish, handle_delete.
      rewrite C, Hpc, Hheap. simpl. rewrite Hp. simpl.
      rewrite C, lookup_insert_eq. simpl. rewrite Hheap. simpl. done. }
    split; [done|]. split; [apply lookup_insert_eq|]. by destruct (deleted_at_rest n0 tid 0 ours tr n l (HGone (Err ErrNotPermitted)) (fs n) HW Htid).
  - intros f' res Hp Hnp HM. rewrite <- HF in HM. eexists. split.
    { unfold run, node_step, quiet, handle_finish, handle_delete.
      rewrite C, Hpc, Hheap. simpl. rewrite Hp, HM. destruct res; try done; simpl;
      rewrite C, lookup_insert_eq; simpl; rewrite Hheap; simpl; done. }
    destruct (deleted_at_rest n0 tid 0 ours tr n l (HGone res) f' HW Htid).
    destruct res; try done; (split; [done|]; split; [apply lookup_insert_eq|done]).
  - intros f' w Hp HM. rewrite <- HF in HM. eexists. split.
    { unfold run, node_step, quiet, handle_finish.
      rewrite C, Hpc, Hheap. simpl. rewrite Hp, HM. simpl. done. }
    done.
Qed.

Definition nacked (msgs : list Message) : bool := existsb is_NACK (omap GetResponse msgs).

(** The events of a whole transaction: some responses, the request with the work it
    causes, the remaining responses, the verdict. *)
Definition transaction_events (l : loc) (pre : list (list byte)) (rreq : list byte)
    (post : list (list byte)) (berr : option error) : list (event (FS := FS)) :=
  flat_map receive_events pre ++
  (receive_events rreq ++ [EvHandConsult l; EvHandDetect l; EvHandReply l berr]) ++
  flat_map receive_events post ++ [EvHandFinish l; EvHandDelete l].

Lemma waiting_initial n tid :
  crashed n = None -> listener n = LSelect -> wf (trans n) -> ts (trans n) !! tid = None ->
  waiting n tid (length (peers n)) Response_ACK (new_transaction tid) n.
Proof.
  intros. split; try done; [|by left]. unfold target, lookup_tid. by rewrite H2.
Qed.

(** The request arrives at the handler, which agrees to it. *)
Lemma answer_request n0 n tid k tr rreq msg r resp out berr :
  waiting n0 tid (S k) Response_ACK tr n ->
  ReadMessage rreq = Ok msg -> Tid msg = tid -> GetRequest msg = Some r -> is_Some (Metadata r) ->
  Consult (fs n0) r = Ok (Some resp) -> resp_Type resp = Response_ACK ->
  (forall k' t, lookup_tid k' (trans n0) = Some t -> has_metadata t /\ defeats t msg r = false) ->
  proto_Marshal (NewResponseMessage tid (Name n0) resp) = inr out ->
  exists n' tr', run level n (receive_events rreq ++ [EvHandConsult (next (trans n0)); EvHandDetect (next (trans n0));
                          EvHandReply (next (trans n0)) berr]) = Some (n', [out]) /\
    waiting n0 tid k Response_ACK tr' n' /\
    t_Tid tr' = t_Tid tr /\ t_Request tr' = Some r /\ Responses tr' = Responses tr.
Proof.
  intros W1 Hreq Htid Hr Hmd Hcons Hack Hconf Hout.
  destruct (receive_busy _ _ _ _ _ _ _ _ Hreq Htid W1) as (n2 & R2 & B2).
  unfold received in B2. rewrite Hr in B2. set (tr2 := record_message msg tr) in B2.
  assert (t_Tid tr2 = t_Tid tr /\ t_Request tr2 = Some r /\ InitiatorName tr2 = PeerName msg /\
          Responses tr2 = Responses tr) as (Ht2 & Hq2 & Hi2 & Hs2).
  { subst tr2. unfold record_message, GetRequest in *. destruct (msg_Type msg) as [[]|]; by simplify_eq. }
  destruct (busy_reply n0 n2 tid _ tr2 msg r resp out berr B2) as (n3 & R3 & B3); try done.
  exists n3, tr2. split; [exact (run_app _ _ _ _ _ _ _ R2 R3)|]. split; [by apply busy_waiting|done].
Qed.

(** The remaining answers arrive, and the verdict is carried out. *)
Lemma conclude n0 n tid tr raws msgs r f' res :
  waiting n0 tid (length msgs) Response_ACK tr n -> peers n0 <> [] ->
  t_Tid tr = tid -> t_Request tr = Some r ->
  Forall2 (fun raw m => ReadMessage raw = Ok m) raws msgs ->
  Forall (fun m => Tid m = tid /\ GetRequest m = None) msgs ->
  MirrorOp (fs n0) (Some r) = (f', res) -> is_panic res = false ->
  let l := next (trans n0) in
  exists n', run level n (flat_map receive_events raws ++ [EvHandFinish l; EvHandDelete l]) = Some (n', []) /\
    (if existsb is_NACK (Responses tr) || nacked msgs
     then fs n' = fs n0 /\ handlers n' !! l = Some (HGone (Err ErrNotPermitted))
     else fs n' = f' /\ handlers n' !! l = Some (HGone res)) /\ at_rest_again n0 tid n'.
Proof.
  intros W Hne Ht Hq Hraws HF HM Hnp l. rewrite <- (Nat.add_0_r (length msgs)) in W.
  destruct (receive_responses n0 n tid _ _ _ _ _ Hraws HF W) as (n1 & R1 & W1).
  set (tr1 := fold_left _ msgs _) in W1.
  destruct (record_responses msgs tr) as (Ht1 & Hq1 & _ & Hs1).
  { eapply Forall_impl; [done|]. by intros ? []. }
  fold tr1 in Ht1, Hq1, Hs1.
  destruct (waiting_finish n0 n1 tid _ tr1 W1) as (Hno & Hyes & _); [congruence|done|].
  assert (permitted Response_ACK (Responses tr1) = negb (existsb is_NACK (Responses tr) || nacked msgs)) as Hp.
  { unfold permitted, nacked. by rewrite Hs1, existsb_app. }
  destruct (existsb is_NACK (Responses tr) || nacked msgs).
  - destruct (Hno Hp) as (n2 & R2 & ? & ? & ?). exists n2. split; [exact (run_app _ _ _ _ _ _ _ R1 R2)|done].
  - rewrite Hq1, Hq in Hyes. destruct (Hyes f' res Hp Hnp HM) as (n2 & R2 & ? & ? & ?).
    exists n2. split; [exact (run_app _ _ _ _ _ _ _ R1 R2)|done].
Qed.

(** C8: a host that agrees to a request answers every order of arrival alike: it
    broadcasts its ACK once, waits for one message per peer, and then mirrors the
    request exactly once if no peer sent a NACK, or changes nothing and reports
    [ErrNotPermitted] otherwise; in both cases the transaction is deleted and the
    host is ready for the next message, even if its own broadcast failed. *)
Theorem handle_transaction_run n tid pre post msgs_pre msgs_post rreq msg r resp out berr f' res :
  crashed n = None -> listener n = LSelect -> wf (trans n) -> ts (trans n) !! tid = None ->
  length msgs_pre + S (length msgs_post) = length (peers n) ->
  Forall2 (fun raw m => ReadMessage raw = Ok m) pre msgs_pre ->
  Forall2 (fun raw m => ReadMessage raw = Ok m) post msgs_post ->
  Forall (fun m => Tid m = tid /\ GetRequest m = None) (msgs_pre ++ msgs_post) ->
  ReadMessage rreq = Ok msg -> Tid msg = tid -> GetRequest msg = Some r -> is_Some (Metadata r) ->
  Consult (fs n) r = Ok (Some resp) -> resp_Type resp = Response_ACK ->
  (forall k t, lookup_tid k (trans n) = Some t -> has_metadata t /\ defeats t msg r = false) ->
  proto_Marshal (NewResponseMessage tid (Name n) resp) = inr out ->
  MirrorOp (fs n) (Some r) = (f', res) -> is_panic res = false ->
  exists n', run level n (transaction_events (next (trans n)) pre rreq post berr) = Some (n', [out]) /\
    (if nacked (msgs_pre ++ msgs_post)
     then fs n' = fs n /\ handlers n' !! next (trans n) = Some (HGone (Err ErrNotPermitted))
     else fs n' = f' /\ handlers n' !! next (trans n) = Some (HGone res)) /\
    ts (trans n') !! tid = None /\ crashed n' = None /\ listener n' = LSelect.
Proof.
  intros HC HL HW Hts Hlen Hpre Hpost HF Hreq Htid Hr Hmd Hcons Hack Hconf Hout HM Hnp.
  apply Forall_app in HF as [HFpre HFpost].
  pose proof (waiting_initial n tid HC HL HW Hts) as W0. rewrite <- Hlen in W0.
  destruct (receive_responses n n tid _ _ _ _ _ Hpre HFpre W0) as (n1 & R1 & W1).
  set (tr1 := fold_left _ msgs_pre _) in W1.
  destruct (record_responses msgs_pre (new_transaction tid)) as (Ht1 & _ & _ & Hs1).
  { eapply Forall_impl; [done|]. by intros ? []. }
  fold tr1 in Ht1, Hs1. simpl in Ht1, Hs1.
  destruct (answer_request n n1 tid _ tr1 rreq msg r resp out berr W1) as (n2 & tr2 & R2 & W2 & Ht2 & Hq2 & Hs2); try done.
  destruct (conclude n n2 tid tr2 post msgs_post r f' res W2) as (n3 & R3 & V & [? ? ? ?]); try done; [|congruence|].
  { intros E. rewrite E in Hlen. simpl in Hlen. lia. }
  exists n3. split; [|split; [|done]].
  - unfold transaction_events. pose proof (run_app _ _ _ _ _ _ _ R2 R3) as R23. exact (run_app _ _ _ _ _ _ _ R1 R23).
  - unfold nacked at 1. rewrite omap_app, existsb_app. by rewrite Hs2, Hs1 in V.
Qed.

(** C33: a transaction that collects one ACK per peer and no request passes the
    verdict, because [ourResponse] starts at the zero value [Response_ACK], and
    [Mirror] is called with a nil request. This is what happens to the late answers
    to a [Replicate] call that was cancelled before the first of them arrived: the
    answers open a new transaction on the initiator, whose handler then crashes the
    process. *)
Theorem late_answers_crash n tid raws msgs f' w :
  crashed n = None -> listener n = LSelect -> wf (trans n) -> ts (trans n) !! tid = None ->
  peers n <> [] -> length msgs = length (peers n) ->
  Forall2 (fun raw m => ReadMessage raw = Ok m) raws msgs ->
  Forall (fun m => Tid m = tid /\ GetRequest m = None) msgs -> nacked msgs = false ->
  MirrorOp (fs n) None = (f', Panics w) ->
  exists n', run level n (flat_map receive_events raws ++ [EvHandFinish (next (trans n))])
      = Some (n', []) /\ crashed n' = Some w.
Proof.
  intros HC HL HW Hts Hne Hlen Hraws HF Hn HM.
  pose proof (waiting_initial n tid HC HL HW Hts) as W0.
  rewrite <- Hlen, <- (Nat.add_0_r (length msgs)) in W0.
  destruct (receive_responses n n tid _ _ _ _ _ Hraws HF W0) as (n1 & R1 & W1).
  set (tr1 := fold_left _ msgs _) in W1.
  destruct (record_responses msgs (new_transaction tid)) as (Ht1 & Hq1 & _ & Hs1).
  { eapply Forall_impl; [done|]. by intros ? []. }
  fold tr1 in Ht1, Hq1, Hs1. simpl in Ht1, Hq1, Hs1.
  destruct (waiting_finish n n1 tid _ tr1 W1) as (_ & _ & Hp); [done..|].
  destruct (Hp f' w) as (n2 & R2 & Hcr).
  - unfold permitted. rewrite Hs1. unfold nacked in Hn. by rewrite Hn.
  - by rewrite Hq1.
  - exists n2. split; [|done]. exact (run_app _ _ _ _ _ _ _ R1 R2).
Qed.
End runs.

(** ** The theorems on concrete messages *)

Lemma handle_transaction_run_witness :
  exists n', run gzip_DefaultCompression sample_host
    (transaction_events 0 [wire (ack_msg "123" "Gimli")]
       (wire (request_msg "123" "Legolas" "/somewhere" 0)) [] None)
    = Some (n', [wire (ack_msg "123" "Aragorn")]) /\ fs n' = [sample_request "/somewhere" 0].
Proof.
  destruct (handle_transaction_run gzip_DefaultCompression sample_host "123"
    [wire (ack_msg "123" "Gimli")] [] [ack_msg "123" "Gimli"] []
    (wire (request_msg "123" "Legolas" "/somewhere" 0)) (request_msg "123" "Legolas" "/somewhere" 0)
    (sample_request "/somewhere" 0) ACK (wire (ack_msg "123" "Aragorn")) None
    [sample_request "/somewhere" 0] (Ok tt)) as (n' & R & V & _).
  all: try (vm_compute; reflexivity).
  - apply wf_new.
  - repeat constructor; vm_compute; reflexivity.
  - constructor.
  - repeat constructor.
  - by eexists.
  - intros k t Hk. done.
  - exists n'. split; [exact R|]. exact (proj1 V).
Defined.

Lemma late_answers_crash_witness :
  exists n', run gzip_DefaultCompression sample_host
    (flat_map receive_events [wire (ack_msg "123" "Gimli"); wire (ack_msg "123" "Legolas")]
       ++ [EvHandFinish 0]) = Some (n', []) /\ crashed n' = Some "nil Request".
Proof.
  apply (late_answers_crash gzip_DefaultCompression sample_host "123"
    [wire (ack_msg "123" "Gimli"); wire (ack_msg "123" "Legolas")]
    [ack_msg "123" "Gimli"; ack_msg "123" "Legolas"] []).
  all: try (vm_compute; reflexivity).
  - apply wf_new.
  - done.
  - repeat constructor; vm_compute; reflexivity.
  - repeat constructor.
Defined.
