(* ===== verification/ReplicateRun.v ===== *)
(** * Complete runs of [Replicate]

    The initiator's side of a transaction, for every number of peers and every order
    in which their answers arrive; the counterpart of [HostRuns]. *)

From S2P Require Import Prelude Errors Protobuf Transactions Conflicts Responses Host Codecs HostFacts HostRuns.

Section replicate.
Context {FS : Type} {GZ : GzipCodec} {PC : ProtoCodec} {MI : MirrorI FS}.
Context (level : Z) (Hlevel : gzip_valid_level level = true).
Implicit Types n : node FS.

(** The message [Replicate] builds: the content of the request is compressed. *)
Definition request_message (tid peer : string) (req : Request) : Message :=
  mkMessage tid peer (Some (Message_Request (NewRequestMessage level tid peer req).1)).

Lemma request_message_ok tid peer req :
  (NewRequestMessage level tid peer req).2 = Ok (request_message tid peer req).
Proof.
  unfold request_message. by destruct (NewRequestMessage_ok level tid peer req Hlevel) as (req' & -> & _).
Qed.

(** [Replicate] in its receive loop: [k] answers are to come, the object of the
    transaction is [tr], and nothing but this transaction changed since [n0]. *)
Record awaiting (n0 : node FS) (tid : string) (k : nat) (err : option error) (tr : transaction) (n : node FS) : Prop := {
  a_crashed : crashed n = None;
  a_listener : listener n = LSelect;
  a_static : Name n = Name n0 /\ peers n = peers n0 /\ fs n = fs n0 /\ resolver n = resolver n0;
  a_wf : wf (trans n);
  a_others k' : k' <> tid -> lookup_tid k' (trans n) = lookup_tid k' (trans n0);
  a_ts : ts (trans n) !! tid = Some (next (trans n0));
  a_heap : heap (trans n) !! next (trans n0) = Some tr;
  a_rep : reps n !! tid = Some (next (trans n0), RWait k err);
  a_free : handlers n !! next (trans n0) = None;
}.

(** A host that can start the transaction [tid]: it is at its [select], the id is new,
    and no live transaction has precedence over the request. *)
Record ready (n : node FS) (tid : string) (m : Message) : Prop := {
  r_crashed : crashed n = None;
  r_listener : listener n = LSelect;
  r_wf : wf (trans n);
  r_ts : ts (trans n) !! tid = None;
  r_rep : reps n !! tid = None;
  r_free : handlers n !! next (trans n) = None;
  r_detect k t r : lookup_tid k (trans n) = Some t -> GetRequest m = Some r -> has_metadata t /\ defeats t m r = false;
}.

Lemma ready_message n tid m m' r r' :
  ready n tid m -> GetRequest m = Some r -> GetRequest m' = Some r' -> PeerName m = PeerName m' ->
  Metadata r = Metadata r' -> Clock r = Clock r' -> ready n tid m'.
Proof.
  intros [C L W T R F D] Hr Hr' Hp Hmd Hck. split; try done. intros k t x Hk Hx. simplify_eq.
  destruct (D k t r Hk Hr) as [H1 H2]. split; [done|]. rewrite <- H2. unfold defeats, opposes. by rewrite Hp, Hmd, Hck.
Qed.

Definition replicate_events (tid : string) (req : Request) (berr : option error) : list (event (FS := FS)) :=
  [EvReplicate tid req; EvRepDetect tid; EvRepBroadcast tid berr].

(** Up to and with the broadcast. *)
Lemma replicate_starts n tid req raw berr k :
  ready n tid (request_message tid (Name n) req) -> is_Some (Metadata req) ->
  proto_Marshal (request_message tid (Name n) req) = inr raw ->
  after_broadcast (length (peers n)) berr = Ok k ->
  exists n' tr, run level n (replicate_events tid req berr) = Some (n', [raw]) /\
    awaiting n tid k berr tr n' /\ t_Tid tr = tid /\ Responses tr = [].
Proof.
  intros [C L W T R F D] Hmd Hraw Hk. pose proof (request_message_ok tid (Name n) req) as Hm.
  destruct (NewRequestMessage_ok level tid (Name n) req Hlevel) as (req' & Hnew & Hmd' & _).
  set (m := request_message tid (Name n) req) in *.
  assert (GetRequest m = Some req' /\ Tid m = tid /\ PeerName m = Name n) as (Hr & Ht & Hp).
  { subst m. unfold request_message. by rewrite Hnew. }
  destruct (Put m (trans n)) as [[t' l] b] eqn:HPut.
  pose proof (Put_spec _ _ _ _ _ W HPut) as (_ & Hts & Hheap & Hnext). rewrite Ht in Hts, Hheap, Hnext.
  specialize (Hnext T) as ->. unfold target, lookup_tid in Hheap. rewrite T in Hheap. simpl in Hheap.
  set (tr := record_message m (new_transaction tid)) in *.
  assert (InitiatorName tr = Name n /\ t_Request tr = Some req' /\ Responses tr = [] /\ t_Tid tr = tid) as (Hi & Hq & Hrs & Htt).
  { subst tr. unfold record_message, GetRequest in *. by destruct (msg_Type m) as [[]|]; simplify_eq/=. }
  assert (DetectAndResolveConflict t' m = Ok tt) as Hdet.
  { eapply detect_accepts; [done|by rewrite Hmd'|]. intros k' x Hl%live_lookup.
    rewrite (Put_lookup _ _ _ _ _ _ W HPut) in Hl. case_decide as Hkt; [|by eapply D].
    subst k'. rewrite Ht in Hl. unfold target, lookup_tid in Hl. rewrite T in Hl. simpl in Hl. fold tr in Hl. injection Hl as <-.
    split; [intros x Hx; rewrite Hq in Hx; injection Hx as <-; by rewrite Hmd'|]. unfold defeats, opposes. by rewrite Hq, Hi, Hp, String.eqb_refl. }
  exists (set_rep tid (next (trans n)) (RWait k berr) (set_rep tid (next (trans n)) (RBroadcast m)
    (set_rep tid (next (trans n)) (RDetect m) (set_trans t' n)))), tr.
  split; [|split; [|done]].
  - unfold replicate_events, run, node_step, quiet, replicate_start, replicate_detect, replicate_broadcast, broadcast.
    rewrite C, R, Hm, HPut. simpl. rewrite C, lookup_insert_eq, Hdet. simpl.
    rewrite C, lookup_insert_eq, Hraw. simpl. by rewrite Hk.
  - split; simpl; try done; [|..|by rewrite lookup_insert_eq].
    + by eapply Put_wf.
    + intros k' Hk'. by rewrite (Put_lookup _ _ _ _ _ _ W HPut), decide_False by congruence.
    + by rewrite Hts, lookup_insert_eq.
    + by rewrite Hheap, lookup_insert_eq.
Qed.

(** One answer. *)
Lemma await_answer n0 n tid k err tr raw msg :
  ReadMessage raw = Ok msg -> Tid msg = tid -> awaiting n0 tid (S k) err tr n ->
  exists n', run level n (receive_events raw) = Some (n', []) /\
    awaiting n0 tid k err (record_message msg tr) n'.
Proof.
  intros Hraw Htid [C L S W O T H R F]. destruct (Put msg (trans n)) as [[t' l] b] eqn:HPut.
  pose proof (Put_spec _ _ _ _ _ W HPut) as (Hb & Hts & Hheap & _). rewrite Htid in Hb, Hts, Hheap.
  rewrite T in Hb. rewrite bool_decide_true in Hb by eauto. simpl in Hb. subst b.
  destruct (Put_existing _ _ _ _ W HPut) as [Heq _]. rewrite Htid, T in Heq. injection Heq as <-.
  unfold target, lookup_tid in Hheap. rewrite T in Hheap. simpl in Hheap. rewrite H in Hheap. simpl in Hheap.
  eexists. split.
  - unfold receive_events, run, node_step, quiet, listen_receive, notify.
    rewrite C, L, Hraw, HPut. simpl. rewrite C, F, Htid, R. simpl. rewrite Nat.eqb_refl. simpl. done.
  - split; simpl; try done.
    + by eapply Put_wf.
    + intros k' Hk'. rewrite (Put_lookup _ _ _ _ _ _ W HPut), decide_False by congruence. by apply O.
    + by rewrite Hts, lookup_insert_eq.
    + by rewrite Hheap, lookup_insert_eq.
    + by rewrite lookup_insert_eq.
Qed.

Lemma await_answers n0 n tid k err tr raws msgs :
  Forall2 (fun raw msg => ReadMessage raw = Ok msg) raws msgs -> Forall (fun msg => Tid msg = tid) msgs ->
  awaiting n0 tid (length msgs + k) err tr n ->
  exists n', run level n (flat_map receive_events raws) = Some (n', []) /\
    awaiting n0 tid k err (fold_left (fun tr m => record_message m tr) msgs tr) n'.
Proof.
  intros Hraws. revert n tr. induction Hraws as [|raw msg raws msgs Hraw Hraws IH]; intros n tr HF A.
  { by exists n. }
  apply Forall_cons in HF as [Ht HF]. destruct (await_answer _ _ _ _ _ _ _ _ Hraw Ht A) as (n1 & R1 & A1).
  destruct (IH _ _ HF A1) as (n2 & R2 & A2). exists n2. split; [|done]. cbn [flat_map].
  by rewrite (run_app level _ _ _ _ _ _ _ R1 R2).
Qed.

(** What the call returns and where it leaves the clock. *)
Definition replicate_result (berr : option error) (rs : list Response) : outcome error unit :=
  match berr with
  | Some e => Err e
  | None => if existsb is_NACK rs then Err ErrNotPermitted else Ok tt
  end.

Definition replicate_clock (berr : option error) (rs : list Response) (c : conflictsResolver) : conflictsResolver :=
  match berr with
  | Some _ => c
  | None => if only_conflicts rs then IncrementClock c else c
  end.

Lemma await_finish n0 n tid berr tr :
  awaiting n0 tid 0 berr tr n -> nacks_named (Responses tr) ->
  exists n', run level n [EvRepFinish tid; EvRepDelete tid] = Some (n', []) /\
    reps n' !! tid = Some (next (trans n0), RReturned (replicate_result berr (Responses tr))) /\
    resolver n' = replicate_clock berr (Responses tr) (resolver n0) /\
    fs n' = fs n0 /\ at_rest_again n0 tid n'.
Proof.
  intros [C L (HN & HP & HF & HR) W O T H R F] Hn.
  assert (forall c pc, at_rest_again n0 tid (set_rep tid (next (trans n0)) pc (set_trans (Delete tid (trans n)) (set_resolver c n)))) as HO.
  { intros c pc. split; simpl; try done; [apply lookup_delete_eq|]. intros k Hk. by rewrite Delete_lookup, decide_False, O by done. }
  unfold run, node_step, quiet, replicate_finish, replicate_delete. rewrite C, R. destruct berr as [e|]; simpl.
  - rewrite C, lookup_insert_eq. simpl. eexists. split; [done|]. simpl.
    rewrite lookup_insert_eq. split_and!; try done. by destruct (HO (resolver n) (RReturned (Err e))).
  - rewrite H. simpl. rewrite (processResponses_outcome _ _ Hn), HR.
    set (c := if only_conflicts _ then _ else _). destruct (existsb is_NACK (Responses tr)); simpl;
      rewrite C, lookup_insert_eq; simpl; (eexists; split; [done|]); simpl; rewrite lookup_insert_eq;
      (split_and!; try done); [by destruct (HO c (RReturned (Err ErrNotPermitted)))|by destruct (HO c (RReturned (Ok tt)))].
Qed.

(** C9: [Replicate] from its first to its last statement. The request goes out exactly
    once; one answer is awaited per peer the broadcast reached. The call returns nil
    exactly when the broadcast succeeded and no answer is a NACK, the error of the
    broadcast or [ErrNotPermitted] otherwise. The clock moves exactly when conflicts
    were the only objection. The transaction is deleted, the files are untouched, and
    the host is ready for the next message. *)
Theorem replicate_run n tid req raw berr raws msgs :
  ready n tid (request_message tid (Name n) req) -> is_Some (Metadata req) ->
  proto_Marshal (request_message tid (Name n) req) = inr raw ->
  after_broadcast (length (peers n)) berr = Ok (length msgs) ->
  Forall2 (fun raw m => ReadMessage raw = Ok m) raws msgs ->
  Forall (fun m => Tid m = tid /\ GetRequest m = None) msgs -> nacks_named (omap GetResponse msgs) ->
  exists n', run level n (replicate_events tid req berr ++ flat_map receive_events raws ++ [EvRepFinish tid; EvRepDelete tid])
      = Some (n', [raw]) /\
    reps n' !! tid = Some (next (trans n), RReturned (replicate_result berr (omap GetResponse msgs))) /\
    resolver n' = replicate_clock berr (omap GetResponse msgs) (resolver n) /\
    ts (trans n') !! tid = None /\ fs n' = fs n /\ crashed n' = None /\ listener n' = LSelect.
Proof.
  intros Hready Hmd Hraw Hb Hraws HF Hn.
  destruct (replicate_starts n tid req raw berr _ Hready Hmd Hraw Hb) as (n1 & tr & R1 & A1 & _ & Hrs).
  rewrite <- (Nat.add_0_r (length msgs)) in A1.
  destruct (await_answers n n1 tid 0 berr tr raws msgs Hraws) as (n2 & R2 & A2); [|done|].
  { eapply Forall_impl; [done|]. by intros ? []. }
  destruct (record_responses msgs tr) as (_ & _ & _ & Hs).
  { eapply Forall_impl; [done|]. by intros ? []. }
  rewrite Hrs in Hs. simpl in Hs.
  destruct (await_finish n n2 tid berr _ A2) as (n3 & R3 & Hend). { by rewrite Hs. }
  rewrite Hs in Hend. destruct Hend as (? & ? & ? & [? ? ? ?]). exists n3. split; [|done].
  pose proof (run_app level _ _ _ _ _ _ _ R2 R3) as R23. exact (run_app level _ _ _ _ _ _ _ R1 R23).
Qed.
End replicate.

(** ** The theorem on concrete messages *)

Lemma replicate_run_witness :
  exists n', run gzip_DefaultCompression sample_host
    (replicate_events "123" (sample_request "/a" 0) None ++
     flat_map receive_events [wire (ack_msg "123" "Gimli"); wire (NewResponseMessage "123" "Legolas" conflict_NACK)] ++
     [EvRepFinish "123"; EvRepDelete "123"]) = Some (n', [wire (request_msg "123" "Aragorn" "/a" 0)]) /\
    reps n' !! "123" = Some (0, RReturned (Err ErrNotPermitted)) /\
    resolver n' = IncrementClock newConflictsResolver.
Proof.
  destruct (replicate_run gzip_DefaultCompression eq_refl sample_host "123" (sample_request "/a" 0)
    (wire (request_msg "123" "Aragorn" "/a" 0)) None
    [wire (ack_msg "123" "Gimli"); wire (NewResponseMessage "123" "Legolas" conflict_NACK)]
    [ack_msg "123" "Gimli"; NewResponseMessage "123" "Legolas" conflict_NACK]) as (n' & R & Hret & Hclock & _).
  - split; try reflexivity; [apply wf_new|]. intros k t r Hk. discriminate Hk.
  - by eexists.
  - reflexivity.
  - reflexivity.
  - repeat constructor; vm_compute; reflexivity.
  - repeat constructor.
  - intros r Hr Hn. repeat (apply elem_of_cons in Hr as [->|Hr]; [first [discriminate Hn|by eexists]|]). inversion Hr.
  - exists n'. split; [exact R|]. split; [exact Hret|exact Hclock].
Defined.
