(* ===== verification/Network.v ===== *)
(** * The peer network

    The hosts of one configuration, connected by a network that loses, delays and
    reorders messages but does not forge or duplicate them. A [Broadcast] reaches
    any subset of the peers, whatever error it reports. Next to the hosts and the
    messages in flight the state keeps the history the theorems speak about: ids
    drawn, messages broadcast, messages delivered and verdicts reached. *)

From S2P Require Import Prelude Errors Protobuf Transactions Conflicts Responses Host HostFacts.

(** A message that reached an object of a host: the host, the object, the sender. *)
Abbreviation delivery := (string * loc * (string * Message))%type.

Section network.
Context {FS : Type} {GZ : GzipCodec} {PC : ProtoCodec} {MI : MirrorI FS}.
Context (level : Z) (names : list string).
Implicit Types n : node FS.

Record net := mkNet {
  nodes : gmap string (node FS);
  flight : list (string * string * list byte);
  used : gset string;
  sent : list (string * Message);
  delivered : list delivery;
  decided : list (string * string * bool);
}.

(** The peers of a host: what [Peers.Pop] leaves of the configuration. *)
Definition others (p : string) : list string := filter (fun q => q <> p) names.

Definition net_init (f : string -> FS) : net :=
  mkNet (list_to_map ((fun p => (p, NewHost p (others p) (f p))) <$> names)) [] ∅ [] [] [].

(** What a peer makes of the bytes of a broadcast. *)
Definition readable (raw : list byte) : list Message :=
  match ReadMessage raw with Ok m => [m] | _ => [] end.

(** The verdict an event reaches: [handleTransaction] after its loop, [Replicate]
    when the broadcast succeeded and all answers are in. *)
Definition verdict (p : string) n (e : event (FS := FS)) : list (string * string * bool) :=
  match e with
  | EvHandFinish l =>
      match handlers n !! l, heap (trans n) !! l with
      | Some (HWait 0 ours), Some tr => [(p, t_Tid tr, permitted ours (Responses tr))]
      | _, _ => []
      end
  | EvRepFinish tid =>
      match reps n !! tid with
      | Some (l, RWait 0 None) =>
          match heap (trans n) !! l with
          | Some tr => [(p, tid, negb (existsb is_NACK (Responses tr)))]
          | None => []
          end
      | _ => []
      end
  | _ => []
  end.

(** Events that involve neither a new id nor the network. *)
Definition internal (e : event (FS := FS)) : bool :=
  match e with
  | EvReplicate _ _ | EvReceive (conn_Data _) => false
  | _ => true
  end.

Definition arrival (dst src : string) n : list delivery :=
  match listener n with
  | LSend l msg => [(dst, l, (src, msg))]
  | _ => []
  end.

Inductive net_step (s : net) : net -> Prop :=
| net_local p n n' e :
    nodes s !! p = Some n -> internal e = true -> node_step level n e = Some (n', None) ->
    net_step s (mkNet (<[p := n']> (nodes s)) (flight s) (used s) (sent s) (delivered s)
                  (decided s ++ verdict p n e))
| net_replicate p n n' tid req :
    nodes s !! p = Some n -> tid ∉ used s ->
    node_step level n (EvReplicate tid req) = Some (n', None) ->
    net_step s (mkNet (<[p := n']> (nodes s)) (flight s) ({[tid]} ∪ used s) (sent s) (delivered s)
                  (decided s))
| net_broadcast p n n' e raw dests :
    nodes s !! p = Some n -> node_step level n e = Some (n', Some raw) ->
    NoDup dests -> dests ⊆ peers n ->
    net_step s (mkNet (<[p := n']> (nodes s)) (flight s ++ ((fun q => (p, q, raw)) <$> dests)) (used s)
                  (sent s ++ ((fun m => (p, m)) <$> readable raw)) (delivered s) (decided s))
| net_deliver f1 f2 src dst raw n n' :
    flight s = f1 ++ (src, dst, raw) :: f2 -> nodes s !! dst = Some n ->
    node_step level n (EvReceive (conn_Data raw)) = Some (n', None) ->
    net_step s (mkNet (<[dst := n']> (nodes s)) (f1 ++ f2) (used s) (sent s)
                  (delivered s ++ arrival dst src n') (decided s))
| net_drop f1 f2 x :
    flight s = f1 ++ x :: f2 ->
    net_step s (mkNet (nodes s) (f1 ++ f2) (used s) (sent s) (delivered s) (decided s)).

(** ** The invariant *)

(** The messages an object received, in order, and those of them that its goroutine
    took from the channel: all but the one [listen] is holding. *)
Definition box (q : string) (l : loc) (d : list delivery) : list (string * Message) :=
  omap (fun '(q', l', x) => if decide (q' = q /\ l' = l) then Some x else None) d.

Definition pending n (l : loc) : nat :=
  match listener n with LSend l' _ => if decide (l' = l) then 1 else 0 | _ => 0 end.

Definition done_box (q : string) n (l : loc) (d : list delivery) : list (string * Message) :=
  take (length (box q l d) - pending n l) (box q l d).

Definition is_vote (t : Response_Type) : Prop := t = Response_ACK \/ t = Response_NACK.

(** [Replicate] got past its broadcast. *)
Definition rep_past (pc : rep_pc) : bool :=
  match pc with RDetect _ | RBroadcast _ => false | _ => true end.

Definition rep_message (pc : rep_pc) : option Message :=
  match pc with RDetect m | RBroadcast m => Some m | _ => None end.

Definition remaining (pc : hand_pc) : option nat :=
  match pc with
  | HWait k _ | HConsult k _ _ | HDetect k _ _ | HReply k _ _ => Some k
  | _ => None
  end.

(** The request a handler is working on, with its own answer so far. *)
Definition working (pc : hand_pc) : option (Message * option Response) :=
  match pc with
  | HConsult _ m _ => Some (m, None)
  | HDetect _ m r | HReply _ m r => Some (m, Some r)
  | _ => None
  end.

Definition is_request (m : Message) : Prop := is_Some (GetRequest m).

(** [ourResponse] of a handler: its answer once it took the request, the zero value
    before. *)
Definition ours_ok (q : string) (dn : list (string * Message)) (snt : list (string * Message))
    (ours : Response_Type) : Prop :=
  is_vote ours /\
  ((forall src m, (src, m) ∈ dn -> ~ is_request m) -> ours = Response_ACK) /\
  (forall src m m' r', (src, m) ∈ dn -> is_request m -> (q, m') ∈ snt -> Tid m' = Tid m ->
     GetResponse m' = Some r' -> resp_Type r' = ours).

(** What holds of one host, given the history. *)
Record node_inv (usd : gset string) (snt : list (string * Message)) (d : list delivery)
    (q : string) (n : node FS) : Prop := {
  ni_name : Name n = q;
  ni_peers : peers n = others q;
  ni_mem : q ∈ names;
  ni_wf : node_wf n;
  ni_used l tr : heap (trans n) !! l = Some tr -> t_Tid tr ∈ usd;
  ni_msg tid l pc m : reps n !! tid = Some (l, pc) -> rep_message pc = Some m ->
    Tid m = tid /\ is_request m;
  ni_obj l tr : heap (trans n) !! l = Some tr ->
    Responses tr = omap (fun x => GetResponse x.2) (box q l d);
  ni_obj_req l tr pc : handlers n !! l = Some pc -> heap (trans n) !! l = Some tr ->
    t_Request tr = last (omap (fun x => GetRequest x.2) (box q l d));
  ni_listen l msg : listener n = LSend l msg -> exists src b, box q l d = b ++ [(src, msg)];
  ni_taken l pc : handlers n !! l = Some pc -> box q l d <> [];
  ni_count l pc k : handlers n !! l = Some pc -> remaining pc = Some k ->
    length (box q l d) + k = length (others q) + pending n l;
  ni_count_rep tid l k : reps n !! tid = Some (l, RWait k None) ->
    length (box q l d) + k = length (others q) + pending n l;
  ni_wait l k ours : handlers n !! l = Some (HWait k ours) -> ours_ok q (done_box q n l d) snt ours;
  ni_working l pc m o : handlers n !! l = Some pc -> working pc = Some (m, o) ->
    (exists src, (src, m) ∈ done_box q n l d) /\ is_request m /\
    (forall m', (q, m') ∈ snt -> Tid m' <> Tid m) /\
    (forall r, o = Some r -> is_vote (resp_Type r));
}.

(** The key under which a message travels: sender, receiver, transaction. *)
Definition flight_key (x : string * string * list byte) : option (string * string * string) :=
  match ReadMessage x.2 with Ok m => Some (x.1.1, x.1.2, Tid m) | _ => None end.

Definition delivery_key (x : delivery) : string * string * string :=
  (x.2.1, x.1.1, Tid x.2.2).

(** What a verdict rests on: an own vote [o] (ACK for the initiator), a message of
    every other host, and agreement of the verdict with the votes. *)
Definition verdict_ok (snt : list (string * Message)) (p tid : string) (b : bool) : Prop :=
  exists o, is_vote o /\
    (forall q, q ∈ names -> q <> p -> exists m, (q, m) ∈ snt /\ Tid m = tid) /\
    (b = true <-> o = Response_ACK /\
       forall q m r, q <> p -> (q, m) ∈ snt -> Tid m = tid -> GetResponse m = Some r ->
         resp_Type r = Response_ACK) /\
    (forall m r, (p, m) ∈ snt -> Tid m = tid -> GetResponse m = Some r -> resp_Type r = o) /\
    (forall m, (p, m) ∈ snt -> Tid m = tid -> is_request m -> o = Response_ACK).

(** The host started the transaction, or took its request. *)
Definition took_part (p : string) n (d : list delivery) (tid : string) : Prop :=
  (exists l pc, reps n !! tid = Some (l, pc) /\ rep_past pc = true) \/
  (exists l src mq, (src, mq) ∈ done_box p n l d /\ is_request mq /\ Tid mq = tid).

Record inv (s : net) : Prop := {
  v_node p n : nodes s !! p = Some n -> node_inv (used s) (sent s) (delivered s) p n;
  v_initiator p q n n' tid x y : nodes s !! p = Some n -> nodes s !! q = Some n' ->
    reps n !! tid = Some x -> reps n' !! tid = Some y -> p = q;
  v_used p m : (p, m) ∈ sent s -> Tid m ∈ used s;
  v_once : NoDup ((fun x => (x.1, Tid x.2)) <$> sent s);
  v_request p m : (p, m) ∈ sent s -> is_request m ->
    exists n l pc, nodes s !! p = Some n /\ reps n !! Tid m = Some (l, pc) /\ rep_past pc = true;
  v_response p m : (p, m) ∈ sent s -> ~ is_request m ->
    (exists r, GetResponse m = Some r /\ is_vote (resp_Type r)) /\
    exists n l src mq, nodes s !! p = Some n /\ (src, mq) ∈ done_box p n l (delivered s) /\
      is_request mq /\ Tid mq = Tid m;
  v_flight src dst raw m : (src, dst, raw) ∈ flight s -> ReadMessage raw = Ok m ->
    (src, m) ∈ sent s /\ src <> dst;
  v_delivered q l src m : (q, l, (src, m)) ∈ delivered s ->
    (src, m) ∈ sent s /\ src <> q /\
    exists n tr, nodes s !! q = Some n /\ heap (trans n) !! l = Some tr /\ t_Tid tr = Tid m;
  v_keys : NoDup (omap flight_key (flight s) ++ (delivery_key <$> delivered s));
  v_decided p tid b : (p, tid, b) ∈ decided s -> verdict_ok (sent s) p tid b;
  v_quiet p tid b n : (p, tid, b) ∈ decided s -> nodes s !! p = Some n ->
    (forall l pc m o, handlers n !! l = Some pc -> working pc = Some (m, o) -> Tid m <> tid) /\
    took_part p n (delivered s) tid;
}.
End network.
