(* ===== verification/NetworkInv.v ===== *)
(** * Agreement of the peers

    The invariant of [Network] holds in every reachable state; the hosts that
    reach a verdict on a transaction reach the same one, and it is the conjunction
    of the votes. *)

From S2P Require Import Prelude Errors Protobuf Transactions Conflicts Responses Host Codecs HostFacts Network.

(** The interface the network needs of a mirror: [Consult] answers ACK or NACK. *)
Class VotingMirror (FS : Type) {MI : MirrorI FS} :=
  consult_votes f r resp : Consult (FS := FS) f r = Ok (Some resp) -> is_vote (resp_Type resp).

(** ** Boxes *)

Section boxes.
Context {FS : Type}.
Implicit Types (n : node FS) (d : list delivery).

Lemma elem_of_box q l d x : x ∈ box q l d <-> (q, l, x) ∈ d.
Proof.
  unfold box. rewrite list_elem_of_omap. split.
  - intros ([[q' l'] y] & Hin & E). case_decide as H; simplify_eq. by destruct H as [-> ->].
  - intros Hin. exists (q, l, x). split; [done|]. by rewrite decide_True.
Qed.

Lemma box_app q l d d' : box q l (d ++ d') = box q l d ++ box q l d'.
Proof. unfold box. by rewrite omap_app. Qed.

Lemma box_one q l q' l' x : box q l [(q', l', x)] = if decide (q' = q /\ l' = l) then [x] else [].
Proof. unfold box. simpl. by case_decide. Qed.

Lemma done_sub q n l d x : x ∈ done_box q n l d -> x ∈ box q l d.
Proof. unfold done_box. apply subseteq_take. Qed.

Lemma pending_le n l : pending n l <= 1.
Proof. unfold pending. repeat case_match; lia. Qed.

Lemma done_all q n l d : pending n l = 0 -> done_box q n l d = box q l d.
Proof. intros E. unfold done_box. rewrite E, Nat.sub_0_r. by apply take_ge. Qed.

Lemma done_last q n l d b x : pending n l = 1 -> box q l d = b ++ [x] -> done_box q n l d = b.
Proof.
  intros E Hb. unfold done_box. rewrite E, Hb, length_app. simpl.
  rewrite Nat.add_sub. by rewrite take_app_length.
Qed.

Lemma done_listener q n n' l d : listener n' = listener n -> done_box q n' l d = done_box q n l d.
Proof. intros E. unfold done_box, pending. by rewrite E. Qed.

(** Distinct keys: one message per sender in the box of an object. *)
Lemma box_sources_NoDup q l d tid :
  NoDup (delivery_key <$> d) -> (forall x, x ∈ box q l d -> Tid x.2 = tid) ->
  NoDup (fst <$> box q l d).
Proof.
  induction d as [|[[q' l'] x] d IH]; intros Hnd Ht; [constructor|].
  rewrite fmap_cons in Hnd. apply NoDup_cons in Hnd as [Hx Hnd].
  change ((q', l', x) :: d) with ([(q', l', x)] ++ d) in *. rewrite box_app, box_one in *.
  case_decide as E; simpl in *; [|by apply IH]. destruct E as [-> ->].
  apply NoDup_cons. split; [|apply IH; [done|]; intros y Hy; apply Ht; by right].
  intros (y & Hy & Hin)%list_elem_of_fmap. apply Hx.
  apply list_elem_of_fmap. exists (q, l, y). split; [|by apply elem_of_box].
  unfold delivery_key. simpl. rewrite Hy, (Ht x) by (by left). rewrite (Ht y) by (by right). done.
Qed.

(** Two deliveries of one sender to one host in one transaction are one. *)
Lemma delivery_unique d q l l' src m m' :
  NoDup (delivery_key <$> d) -> (q, l, (src, m)) ∈ d -> (q, l', (src, m')) ∈ d ->
  Tid m = Tid m' -> l = l' /\ m = m'.
Proof.
  intros Hnd [i Hi]%list_elem_of_lookup [j Hj]%list_elem_of_lookup Ht.
  assert (i = j) as ->.
  { eapply NoDup_lookup; [exact Hnd|..]; rewrite list_lookup_fmap; [by rewrite Hi|].
    rewrite Hj. unfold delivery_key. simpl. by rewrite Ht. }
  by simplify_eq.
Qed.

Lemma ours_ok_more_sent q dn snt snt' ours :
  (forall m', (q, m') ∈ snt' -> (q, m') ∈ snt) -> ours_ok q dn snt ours -> ours_ok q dn snt' ours.
Proof.
  intros Hs (Hv & H0 & H1). split; [done|]. split; [done|].
  intros src m m' r' Hd Hm Hs'. eapply H1; eauto.
Qed.
End boxes.

Section agreement.
Context {FS : Type} {GZ : GzipCodec} {PC : ProtoCodec} {MI : MirrorI FS} {VM : VotingMirror FS}.
Context (level : Z) (Hlevel : gzip_valid_level level = true).
Context (names : list string).
Implicit Types (n nq : node FS) (s : net (FS := FS)).

Abbreviation inv := (inv names).
Abbreviation node_inv := (node_inv names).
Abbreviation others := (others names).

(** ** Consequences of the invariant *)

Lemma elem_of_others p q : q ∈ others p <-> q ∈ names /\ q <> p.
Proof. unfold Network.others. rewrite list_elem_of_filter. tauto. Qed.

Lemma sent_mem s p m : inv s -> (p, m) ∈ sent s -> p ∈ names.
Proof.
  intros I Hs. destruct (GetRequest m) eqn:E.
  - destruct (v_request _ _ I p m Hs) as (n & l & pc & Hn & _); [by eexists|].
    by apply (ni_mem _ _ _ _ _ _ (v_node _ _ I _ _ Hn)).
  - destruct (v_response _ _ I p m Hs) as (_ & n & l & src & mq & Hn & _).
    { intros [? H]. congruence. }
    by apply (ni_mem _ _ _ _ _ _ (v_node _ _ I _ _ Hn)).
Qed.

Lemma request_sender_unique s p p' m m' :
  inv s -> (p, m) ∈ sent s -> (p', m') ∈ sent s -> is_request m -> is_request m' ->
  Tid m = Tid m' -> p = p'.
Proof.
  intros I H1 H2 R1 R2 E.
  destruct (v_request _ _ I p m H1 R1) as (n & l & pc & Hn & Hr & _).
  destruct (v_request _ _ I p' m' H2 R2) as (n' & l' & pc' & Hn' & Hr' & _).
  rewrite <- E in Hr'. by eapply (v_initiator _ _ I).
Qed.

Lemma keys_delivered s : inv s -> NoDup (delivery_key <$> delivered s).
Proof. intros I. apply v_keys in I. by apply NoDup_app in I as (_ & _ & ?). Qed.

Lemma box_delivered s q n l x :
  inv s -> nodes s !! q = Some n -> x ∈ box q l (delivered s) ->
  (x.1, x.2) ∈ sent s /\ x.1 ∈ others q /\
  forall tr, heap (trans n) !! l = Some tr -> t_Tid tr = Tid x.2.
Proof.
  intros I Hn Hx%elem_of_box. destruct x as [src m].
  destruct (v_delivered _ _ I _ _ _ _ Hx) as (Hs & Hne & n' & tr' & Hn' & Htr' & Ht').
  split; [done|]. split; [apply elem_of_others; split; [by eapply sent_mem|done]|].
  intros tr Htr. simplify_eq. done.
Qed.

Lemma box_bound s q n l tr :
  inv s -> nodes s !! q = Some n -> heap (trans n) !! l = Some tr ->
  NoDup (fst <$> box q l (delivered s)) /\
  length (box q l (delivered s)) <= length (others q).
Proof.
  intros I Hn Htr.
  assert (NoDup (fst <$> box q l (delivered s))) as Hnd.
  { apply (box_sources_NoDup _ _ _ (t_Tid tr)); [by apply keys_delivered|].
    intros x Hx. destruct (box_delivered _ _ _ _ _ I Hn Hx) as (_ & _ & H). by rewrite (H tr). }
  split; [done|]. rewrite <- (length_fmap fst). apply submseteq_length, NoDup_submseteq; [done|].
  intros src (x & -> & Hx)%list_elem_of_fmap. by eapply box_delivered.
Qed.

(** An object that received as many messages as there are peers heard every peer. *)
Lemma box_hears s q n l tr :
  inv s -> nodes s !! q = Some n -> heap (trans n) !! l = Some tr ->
  length (others q) <= length (box q l (delivered s)) ->
  forall p, p ∈ names -> p <> q -> exists m, (p, m) ∈ box q l (delivered s) /\ Tid m = t_Tid tr.
Proof.
  intros I Hn Htr Hlen p Hp Hne. destruct (box_bound _ _ _ _ _ I Hn Htr) as [Hnd Hle].
  assert (p ∈ fst <$> box q l (delivered s)) as Hin.
  { apply (NoDup_full _ (others q)); [done| |rewrite length_fmap; lia|by apply elem_of_others].
    intros src (x & -> & Hx)%list_elem_of_fmap. by eapply box_delivered. }
  apply list_elem_of_fmap in Hin as ([p' m] & -> & Hx). exists m. split; [done|].
  destruct (box_delivered _ _ _ _ _ I Hn Hx) as (_ & _ & Ht). by rewrite (Ht tr).
Qed.

Lemma box_full s q n l tr :
  inv s -> nodes s !! q = Some n -> heap (trans n) !! l = Some tr ->
  length (box q l (delivered s)) = length (others q) + pending n l ->
  pending n l = 0 /\
  forall p, p ∈ names -> p <> q -> exists m, (p, m) ∈ box q l (delivered s) /\ Tid m = t_Tid tr.
Proof.
  intros I Hn Htr Hlen. destruct (box_bound _ _ _ _ _ I Hn Htr) as [_ Hle].
  split; [lia|]. eapply box_hears; eauto. lia.
Qed.

Lemma pending_listener n l msg : listener n = LSend l msg -> pending n l = 1.
Proof. intros E. unfold pending. by rewrite E, decide_True. Qed.

(** A request that [listen] is about to hand over is new to the host. *)
Lemma pending_request_new s q n l msg :
  inv s -> nodes s !! q = Some n -> listener n = LSend l msg -> is_request msg ->
  reps n !! Tid msg = None /\
  forall l' src mq, (src, mq) ∈ done_box q n l' (delivered s) -> is_request mq -> Tid mq <> Tid msg.
Proof.
  intros I Hn Hl Hreq. pose proof (v_node _ _ I _ _ Hn) as N.
  destruct (ni_listen _ _ _ _ _ _ N _ _ Hl) as (src & b & Hb).
  assert ((src, msg) ∈ box q l (delivered s)) as Hin by (rewrite Hb; set_solver).
  destruct (box_delivered _ _ _ _ _ I Hn Hin) as (Hs & Ho & _). simpl in Hs, Ho.
  apply elem_of_others in Ho as [_ Hne]. split.
  - destruct (reps n !! Tid msg) as [x|] eqn:Hr; [|done].
    destruct (v_request _ _ I _ _ Hs Hreq) as (n' & l' & pc & Hn' & Hr' & _).
    destruct Hne. by eapply (v_initiator _ _ I).
  - intros l' src' mq Hd Hq Ht. pose proof (done_sub _ _ _ _ _ Hd) as Hbox'.
    destruct (box_delivered _ _ _ _ _ I Hn Hbox') as (Hs' & _).
    assert (src' = src) as -> by (by eapply request_sender_unique).
    destruct (delivery_unique (delivered s) q l' l src mq msg) as [-> ->];
      [by apply keys_delivered|by apply elem_of_box..|done|].
    rewrite (done_last _ _ _ _ _ _ (pending_listener _ _ _ Hl) Hb) in Hd.
    destruct (nw_listener _ (ni_wf _ _ _ _ _ _ N) _ _ Hl) as (tr & Htr & _).
    destruct (box_bound _ _ _ _ _ I Hn Htr) as [Hnd _]. rewrite Hb, fmap_app in Hnd.
    apply NoDup_app in Hnd as (_ & Hdis & _). apply (Hdis src); [|set_solver].
    by apply (list_elem_of_fmap_2 fst b (src, msg)).
Qed.

Lemma pending_request_unanswered s q n l msg m' :
  inv s -> nodes s !! q = Some n -> listener n = LSend l msg -> is_request msg ->
  (q, m') ∈ sent s -> Tid m' <> Tid msg.
Proof.
  intros I Hn Hl Hreq Hs Ht. destruct (pending_request_new _ _ _ _ _ I Hn Hl Hreq) as [Hr Hd].
  destruct (GetRequest m') eqn:E.
  - destruct (v_request _ _ I q m' Hs) as (n' & l' & pc & Hn' & Hr' & _); [by eexists|].
    simplify_eq. congruence.
  - destruct (v_response _ _ I q m' Hs) as (_ & n' & l' & src & mq & Hn' & Hin & Hq & Ht').
    { intros [? H]. congruence. }
    simplify_eq. apply (Hd l' src mq); [done|done|congruence].
Qed.

(** A host that is working on a request did not start the transaction, and no other
    of its handlers works on it. *)
Lemma working_unique s q n l l' pc pc' m m' o o' :
  inv s -> nodes s !! q = Some n ->
  handlers n !! l = Some pc -> working pc = Some (m, o) ->
  handlers n !! l' = Some pc' -> working pc' = Some (m', o') -> Tid m = Tid m' -> l = l'.
Proof.
  intros I Hn Hh Hw Hh' Hw' Ht. pose proof (v_node _ _ I _ _ Hn) as N.
  destruct (ni_working _ _ _ _ _ _ N _ _ _ _ Hh Hw) as ([src Hd] & Hq & _).
  destruct (ni_working _ _ _ _ _ _ N _ _ _ _ Hh' Hw') as ([src' Hd'] & Hq' & _).
  apply done_sub in Hd, Hd'.
  destruct (box_delivered _ _ _ _ _ I Hn Hd) as (Hs & _).
  destruct (box_delivered _ _ _ _ _ I Hn Hd') as (Hs' & _).
  assert (src = src') as -> by (by eapply request_sender_unique).
  by destruct (delivery_unique (delivered s) q l l' src' m m') as [-> _];
    [by apply keys_delivered|by apply elem_of_box..|done|].
Qed.

Lemma working_not_initiator s q n l pc m o :
  inv s -> nodes s !! q = Some n -> handlers n !! l = Some pc -> working pc = Some (m, o) ->
  reps n !! Tid m = None.
Proof.
  intros I Hn Hh Hw. destruct (reps n !! Tid m) as [x|] eqn:Hr; [|done].
  destruct (ni_working _ _ _ _ _ _ (v_node _ _ I _ _ Hn) _ _ _ _ Hh Hw) as ([src Hd] & Hq & _).
  apply done_sub in Hd. destruct (box_delivered _ _ _ _ _ I Hn Hd) as (Hs & Ho & _).
  apply elem_of_others in Ho as [_ Hne]. simpl in *.
  destruct (v_request _ _ I _ _ Hs Hq) as (n' & l' & pc' & Hn' & Hr' & _).
  destruct Hne. by eapply (v_initiator _ _ I).
Qed.

(** ** One host moves on *)

(** What every step keeps: objects and their ids, who started which transaction,
    what was taken from the channels. [d] is the list of deliveries afterwards. *)
Record advance s p n n' d : Prop := {
  ad_heap l tr : heap (trans n) !! l = Some tr ->
    exists tr', heap (trans n') !! l = Some tr' /\ t_Tid tr' = t_Tid tr;
  ad_reps tid x q nq : reps n' !! tid = Some x -> nodes s !! q = Some nq ->
    is_Some (reps nq !! tid) -> q = p;
  ad_past tid l pc : reps n !! tid = Some (l, pc) -> rep_past pc = true ->
    exists l' pc', reps n' !! tid = Some (l', pc') /\ rep_past pc' = true;
  ad_done l x : x ∈ done_box p n l (delivered s) -> x ∈ done_box p n' l d;
  ad_other q l : q <> p -> box q l d = box q l (delivered s);
}.

Lemma done_other_host s p n n' d q nq l :
  advance s p n n' d -> q <> p -> done_box q nq l d = done_box q nq l (delivered s).
Proof. intros A Hne. unfold done_box. by rewrite (ad_other _ _ _ _ _ A). Qed.

Lemma advance_took_part s p n n' d tid :
  advance s p n n' d -> took_part p n (delivered s) tid -> took_part p n' d tid.
Proof.
  intros A [(l & pc & H1 & H2)|(l & src & mq & H1 & H2 & H3)]; [left; by eapply (ad_past _ _ _ _ _ A)|right].
  exists l, src, mq. split; [by apply (ad_done _ _ _ _ _ A)|done].
Qed.

(** A broadcast of [p]: the first one in its transaction, before a verdict; a
    request of its initiator, or the vote of a host that took the request. *)
Record new_broadcast s p n' d (usd : gset string) (m : Message) : Prop := {
  nb_used : Tid m ∈ usd;
  nb_first m' : (p, m') ∈ sent s -> Tid m' <> Tid m;
  nb_early b : (p, Tid m, b) ∉ decided s;
  nb_request : is_request m -> exists l pc, reps n' !! Tid m = Some (l, pc) /\ rep_past pc = true;
  nb_response : ~ is_request m ->
    (exists r, GetResponse m = Some r /\ is_vote (resp_Type r)) /\
    exists l src mq, (src, mq) ∈ done_box p n' l d /\ is_request mq /\ Tid mq = Tid m;
}.

(** The other hosts do not notice. *)
Lemma node_inv_other s p n n' d q nq usd new :
  advance s p n n' d -> q <> p -> used s ⊆ usd ->
  node_inv (used s) (sent s) (delivered s) q nq ->
  node_inv usd (sent s ++ ((fun m => (p, m)) <$> new)) d q nq.
Proof.
  intros A Hne Hu N. pose proof (fun l => ad_other _ _ _ _ _ A q l Hne) as Hb.
  pose proof (fun l => done_other_host _ _ _ _ _ q nq l A Hne) as Hd.
  assert (forall m, (q, m) ∈ sent s ++ ((fun m => (p, m)) <$> new) -> (q, m) ∈ sent s) as Hs.
  { intros m [?|(? & ? & _)%list_elem_of_fmap]%elem_of_app; [done|congruence]. }
  split; try by apply N.
  - intros l tr Htr. apply Hu. by eapply (ni_used _ _ _ _ _ _ N).
  - intros l. rewrite Hb. apply N.
  - intros l. rewrite Hb. apply N.
  - intros l. rewrite Hb. apply N.
  - intros l. rewrite Hb. apply N.
  - intros l. rewrite Hb. apply N.
  - intros tid l. rewrite Hb. apply N.
  - intros l k ours Hh. rewrite Hd. eapply ours_ok_more_sent; [exact Hs|]. by eapply (ni_wait _ _ _ _ _ _ N).
  - intros l pc m o Hh Hw. rewrite Hd.
    destruct (ni_working _ _ _ _ _ _ N _ _ _ _ Hh Hw) as (H1 & H2 & H3 & H4). eauto 10.
Qed.

(** A verdict stands: whoever broadcasts for the first time was not heard yet. *)
Lemma verdict_ok_more snt p tid b q m :
  verdict_ok names snt p tid b -> q ∈ names -> (forall m', (q, m') ∈ snt -> Tid m' <> Tid m) ->
  (p = q -> Tid m <> tid) -> verdict_ok names (snt ++ [(q, m)]) p tid b.
Proof.
  intros (o & Hv & Hall & Hb & Hown & Hreq) Hq Hfirst Hpq.
  assert (Tid m <> tid) as Hne.
  { destruct (decide (q = p)) as [->|Hqp]; [by apply Hpq|]. intros <-.
    destruct (Hall q Hq Hqp) as (m' & Hs & Ht). by apply (Hfirst m'). }
  assert (forall x m', (x, m') ∈ snt ++ [(q, m)] -> Tid m' = tid -> (x, m') ∈ snt) as Hold.
  { intros x m' [?|[= -> ->]%list_elem_of_singleton]%elem_of_app Ht; [done|congruence]. }
  exists o. split; [done|]. split.
  { intros x Hx Hxp. destruct (Hall x Hx Hxp) as (m' & ? & ?). exists m'. rewrite elem_of_app. auto. }
  split; [|split; eauto]. rewrite Hb. split; intros [H1 H2]; (split; [done|]); intros x m' r Hx Hs.
  - intros Ht. apply (H2 x m' r Hx); auto.
  - apply (H2 x m' r Hx), elem_of_app. by left.
Qed.

(** What the messages already sent and delivered rest on, after the host moved. *)
Lemma advance_request s p n n' d q m :
  inv s -> nodes s !! p = Some n -> advance s p n n' d -> (q, m) ∈ sent s -> is_request m ->
  exists nq l pc, <[p := n']> (nodes s) !! q = Some nq /\ reps nq !! Tid m = Some (l, pc) /\ rep_past pc = true.
Proof.
  intros I Hn A Hs Hreq. destruct (v_request _ _ I q m Hs Hreq) as (nq & l & pc & Hq & Hr & Hp).
  destruct (decide (q = p)) as [->|Hne].
  - simplify_eq. destruct (ad_past _ _ _ _ _ A _ _ _ Hr Hp) as (l' & pc' & ? & ?).
    exists n', l', pc'. by rewrite lookup_insert_eq.
  - exists nq, l, pc. by rewrite lookup_insert_ne.
Qed.

Lemma advance_response s p n n' d q m :
  inv s -> nodes s !! p = Some n -> advance s p n n' d -> (q, m) ∈ sent s -> ~ is_request m ->
  (exists r, GetResponse m = Some r /\ is_vote (resp_Type r)) /\
  exists nq l src mq, <[p := n']> (nodes s) !! q = Some nq /\ (src, mq) ∈ done_box q nq l d /\
    is_request mq /\ Tid mq = Tid m.
Proof.
  intros I Hn A Hs Hreq.
  destruct (v_response _ _ I q m Hs Hreq) as (Hr & nq & l & src & mq & Hq & Hd & Hx).
  split; [done|]. destruct (decide (q = p)) as [->|Hne].
  - simplify_eq. exists n', l, src, mq. rewrite lookup_insert_eq. split; [done|].
    split; [by apply (ad_done _ _ _ _ _ A)|done].
  - exists nq, l, src, mq. rewrite lookup_insert_ne by done.
    by rewrite (done_other_host _ _ _ _ _ q nq l A).
Qed.

Lemma advance_delivered s p n n' d q l src m :
  inv s -> nodes s !! p = Some n -> advance s p n n' d -> (q, l, (src, m)) ∈ delivered s ->
  (src, m) ∈ sent s /\ src <> q /\
  exists nq tr, <[p := n']> (nodes s) !! q = Some nq /\ heap (trans nq) !! l = Some tr /\ t_Tid tr = Tid m.
Proof.
  intros I Hn A Hold. destruct (v_delivered _ _ I q l src m Hold) as (Hs & Hne & nq & tr & Hq & Htr & Ht).
  split; [done|]. split; [done|]. destruct (decide (q = p)) as [->|Hqp].
  - simplify_eq. destruct (ad_heap _ _ _ _ _ A _ _ Htr) as (tr' & ? & ?). exists n', tr'.
    rewrite lookup_insert_eq. split; [done|]. split; congruence.
  - exists nq, tr. by rewrite lookup_insert_ne.
Qed.

Lemma inv_advance s p n n' fl usd new d :
  inv s -> nodes s !! p = Some n -> advance s p n n' d -> used s ⊆ usd ->
  node_inv usd (sent s ++ ((fun m => (p, m)) <$> option_list new)) d p n' ->
  (forall m, new = Some m -> new_broadcast s p n' d usd m) ->
  (forall tid b l pc m o, (p, tid, b) ∈ decided s -> handlers n' !! l = Some pc ->
     working pc = Some (m, o) -> Tid m <> tid) ->
  (forall src dst raw m, (src, dst, raw) ∈ fl -> ReadMessage raw = Ok m ->
     (src, m) ∈ sent s ++ ((fun m => (p, m)) <$> option_list new) /\ src <> dst) ->
  (forall q l src m, (q, l, (src, m)) ∈ d -> (q, l, (src, m)) ∈ delivered s \/
     (q = p /\ (src, m) ∈ sent s /\ src <> q /\ exists tr, heap (trans n') !! l = Some tr /\ t_Tid tr = Tid m)) ->
  NoDup (omap flight_key fl ++ (delivery_key <$> d)) ->
  inv (mkNet (<[p := n']> (nodes s)) fl usd (sent s ++ ((fun m => (p, m)) <$> option_list new)) d (decided s)).
Proof.
  intros I Hn A Hu N Hnew Hquiet Hfl Hd Hkeys.
  pose proof (ni_mem _ _ _ _ _ _ (v_node _ _ I _ _ Hn)) as Hmem.
  assert (forall q nq, <[p := n']> (nodes s) !! q = Some nq ->
    (q = p /\ nq = n') \/ (q <> p /\ nodes s !! q = Some nq)) as Hcase.
  { intros q nq [[<- <-]|[? ?]]%lookup_insert_Some; [by left|by right]. }
  assert (forall q m, (q, m) ∈ sent s ++ ((fun m => (p, m)) <$> option_list new) ->
    (q, m) ∈ sent s \/ (q = p /\ new_broadcast s p n' d usd m)) as Hsent.
  { intros q m [?|(m' & Heq & Hm)%list_elem_of_fmap]%elem_of_app; [by left|right].
    simplify_eq. split; [done|]. apply Hnew. by destruct new; [apply list_elem_of_singleton in Hm as ->|inversion Hm]. }
  split; simpl; try done.
  - intros q nq [[-> ->]|[Hne Hq]]%Hcase; [done|]. eapply node_inv_other; try done. by apply (v_node _ _ I).
  - intros q q' nq nq' tid x y [[-> ->]|[Hne Hq]]%Hcase [[-> ->]|[Hne' Hq']]%Hcase Hx Hy; [done|..].
    + symmetry. by eapply (ad_reps _ _ _ _ _ A).
    + by eapply (ad_reps _ _ _ _ _ A).
    + by eapply (v_initiator _ _ I q q' nq nq').
  - intros q m [Hs|[-> B]]%Hsent; [apply Hu; by eapply (v_used _ _ I)|apply B].
  - destruct new as [m|]; simpl; [|rewrite app_nil_r; apply I].
    rewrite fmap_app. apply NoDup_app. split; [apply I|]. split; [|apply NoDup_singleton].
    intros [q tid] ([q' m'] & Heq & Hs)%list_elem_of_fmap Hin%list_elem_of_singleton. simplify_eq/=.
    by apply (nb_first _ _ _ _ _ _ (Hnew m eq_refl) m').
  - intros q m [Hs|[-> B]]%Hsent Hreq.
    + by eapply advance_request.
    + exists n'. rewrite lookup_insert_eq.
      destruct (nb_request _ _ _ _ _ _ B Hreq) as (l & pc & ? & ?). by exists l, pc.
  - intros q m [Hs|[-> B]]%Hsent Hreq.
    + by eapply advance_response.
    + destruct (nb_response _ _ _ _ _ _ B Hreq) as (Hr & l & src & mq & Hx). split; [done|].
      exists n', l, src, mq. by rewrite lookup_insert_eq.
  - intros q l src m [Hold|(-> & Hs & Hne & tr & Htr & Ht)]%Hd.
    + rewrite elem_of_app. destruct (advance_delivered _ _ _ _ _ _ _ _ _ I Hn A Hold) as (? & ? & ?). auto.
    + split; [apply elem_of_app; by left|]. split; [done|]. exists n', tr. by rewrite lookup_insert_eq.
  - intros q tid b Hdec. pose proof (v_decided _ _ I _ _ _ Hdec) as HV.
    destruct new as [m|]; simpl; [|by rewrite app_nil_r].
    pose proof (Hnew m eq_refl) as B. apply verdict_ok_more; [done|done|apply B|].
    intros -> <-. by apply (nb_early _ _ _ _ _ _ B b).
  - intros q tid b nq Hdec [[-> ->]|[Hne Hq]]%Hcase.
    + destruct (v_quiet _ _ I _ _ _ _ Hdec Hn) as [_ Ht]. split; [by eauto|]. by eapply advance_took_part.
    + destruct (v_quiet _ _ I _ _ _ _ Hdec Hq) as [H1 H2]. split; [done|].
      destruct H2 as [?|(l & src & mq & ? & ?)]; [by left|right]. exists l, src, mq.
      by rewrite (done_other_host _ _ _ _ _ q nq l A).
Qed.

(** ** Steps that leave the history alone *)

Definition upd (p : string) n s : net :=
  mkNet (<[p := n]> (nodes s)) (flight s) (used s) (sent s) (delivered s) (decided s).

Lemma inv_upd s p n n' :
  inv s -> nodes s !! p = Some n -> node_inv (used s) (sent s) (delivered s) p n' ->
  (forall l tr, heap (trans n) !! l = Some tr ->
     exists tr', heap (trans n') !! l = Some tr' /\ t_Tid tr' = t_Tid tr) ->
  (forall tid x, reps n' !! tid = Some x -> is_Some (reps n !! tid)) ->
  (forall tid l pc, reps n !! tid = Some (l, pc) -> rep_past pc = true ->
     exists l' pc', reps n' !! tid = Some (l', pc') /\ rep_past pc' = true) ->
  (forall l x, x ∈ done_box p n l (delivered s) -> x ∈ done_box p n' l (delivered s)) ->
  (forall tid b l pc m o, (p, tid, b) ∈ decided s -> handlers n' !! l = Some pc ->
     working pc = Some (m, o) -> Tid m <> tid) ->
  inv (upd p n' s).
Proof.
  intros I Hn N Hheap Hreps Hpast Hdone Hquiet. unfold upd.
  rewrite <- (app_nil_r (sent s)).
  apply (inv_advance s p n n' (flight s) (used s) None (delivered s)); simpl; rewrite ?app_nil_r; try done.
  - split; try done. intros tid x q nq Hx Hq [y Hy]. destruct (Hreps _ _ Hx). by eapply (v_initiator _ _ I).
  - apply I.
  - by left.
  - apply I.
Qed.

(** The fields the invariant reads, with the goroutines replaced. *)
Record core n n' (hs : gmap loc hand_pc) (rs : gmap string (loc * rep_pc)) : Prop := {
  c_name : Name n' = Name n;
  c_peers : peers n' = peers n;
  c_heap : heap (trans n') = heap (trans n);
  c_pending l : pending n' l = pending n l;
  c_sends l msg : listener n' = LSend l msg -> listener n = LSend l msg;
  c_handlers : handlers n' = hs;
  c_reps : reps n' = rs;
}.

Lemma core_done n n' hs rs q l d : core n n' hs rs -> done_box q n' l d = done_box q n l d.
Proof. intros C. unfold done_box. by rewrite (c_pending _ _ _ _ C). Qed.

(** A [Replicate] call moves on. *)
Lemma inv_rep s p n n' tid l pc pc' :
  inv s -> nodes s !! p = Some n -> reps n !! tid = Some (l, pc) -> node_wf n' ->
  core n n' (handlers n) (<[tid := (l, pc')]> (reps n)) ->
  (rep_past pc = true -> rep_past pc' = true) ->
  (forall m, rep_message pc' = Some m -> rep_message pc = Some m) ->
  (forall k, pc' = RWait k None ->
     length (box p l (delivered s)) + k = length (others p) + pending n l) ->
  inv (upd p n' s).
Proof.
  intros I Hn Hr Hwf C Hpast Hmsg Hcount. pose proof (v_node _ _ I _ _ Hn) as N.
  apply (inv_upd s p n n'); try done.
  - destruct N as [ni_name0 ni_peers0 ni_mem0 ni_wf0 ni_used0 ni_msg0 ni_obj0 ni_obj_req0 ni_listen0 ni_taken0 ni_count0 ni_count_rep0 ni_wait0 ni_working0],
      C as [c_name0 c_peers0 c_heap0 c_pending0 c_sends0 c_handlers0 c_reps0]. split.
    all: try (rewrite ?c_name0, ?c_peers0, ?c_heap0, ?c_handlers0; done).
    all: try (by intros ? ? ?%c_sends0; eauto).
    + intros tid' l' pc0 m. rewrite c_reps0.
      intros [[<- Heq]|[Hne Hl]]%lookup_insert_Some Hm; [|by eapply ni_msg0].
      simplify_eq. eapply ni_msg0; [done|]. by apply Hmsg.
    + intros l' pc0 k. rewrite c_handlers0. rewrite c_pending0.
      eauto.
    + intros tid' l' k. rewrite c_reps0. rewrite c_pending0.
      intros [[<- Heq]|[Hne Hl]]%lookup_insert_Some; [|by eapply ni_count_rep0].
      simplify_eq. by apply Hcount.
    + intros l' k ours. rewrite c_handlers0. rewrite (core_done n n' (handlers n') (reps n')) by done. eauto.
    + intros l' pc0 m o. rewrite c_handlers0. rewrite (core_done n n' (handlers n') (reps n')) by done. eauto.
  - intros l' tr Htr. exists tr. by rewrite (c_heap _ _ _ _ C).
  - intros tid' x. rewrite (c_reps _ _ _ _ C).
    intros [[<- _]|[_ Hl]]%lookup_insert_Some; eauto.
  - intros tid' l' pc0 Hr0 Hp0. rewrite (c_reps _ _ _ _ C).
    destruct (decide (tid = tid')) as [<-|Hne]; [rewrite lookup_insert_eq|rewrite lookup_insert_ne by done; eauto].
    simplify_eq. eauto.
  - intros l' x. by rewrite (core_done _ _ _ _ _ _ _ C).
  - intros tid' b l' pc0 m o Hdec. rewrite (c_handlers _ _ _ _ C). 
    by eapply (proj1 (v_quiet _ _ I _ _ _ _ Hdec Hn)).
Qed.

(** A handler moves on. *)
Lemma inv_handler s p n n' l pc pc' :
  inv s -> nodes s !! p = Some n -> handlers n !! l = Some pc -> node_wf n' ->
  core n n' (<[l := pc']> (handlers n)) (reps n) ->
  (forall k, remaining pc' = Some k -> remaining pc = Some k) ->
  (forall k ours, pc' = HWait k ours -> ours_ok p (done_box p n l (delivered s)) (sent s) ours) ->
  (forall m o, working pc' = Some (m, o) ->
     (exists o', working pc = Some (m, o')) /\ forall r, o = Some r -> is_vote (resp_Type r)) ->
  inv (upd p n' s).
Proof.
  intros I Hn Hh Hwf C Hrem Hours Hwork. pose proof (v_node _ _ I _ _ Hn) as N.
  apply (inv_upd s p n n'); try done.
  - destruct N as [ni_name0 ni_peers0 ni_mem0 ni_wf0 ni_used0 ni_msg0 ni_obj0 ni_obj_req0 ni_listen0 ni_taken0 ni_count0 ni_count_rep0 ni_wait0 ni_working0],
      C as [c_name0 c_peers0 c_heap0 c_pending0 c_sends0 c_handlers0 c_reps0]. split.
    all: try (rewrite ?c_name0, ?c_peers0, ?c_heap0, ?c_reps0; done).
    all: try (by intros ? ? ?%c_sends0; eauto).
    + intros l' tr pc0. rewrite c_handlers0, c_heap0.
      intros [[<- <-]|[Hne Hl]]%lookup_insert_Some Htr; eauto.
    + intros l' pc0. rewrite c_handlers0. intros [[<- <-]|[Hne Hl]]%lookup_insert_Some; eauto.
    + intros l' pc0 k. rewrite c_handlers0. rewrite c_pending0.
      intros [[<- <-]|[Hne Hl]]%lookup_insert_Some Hk; [|eauto]. eapply ni_count0; [done|]. by apply Hrem.
    + intros tid l' k. rewrite c_reps0. rewrite c_pending0. eauto.
    + intros l' k ours. rewrite c_handlers0. rewrite (core_done n n' (handlers n') (reps n')) by done.
      intros [[<- Heq]|[Hne Hl]]%lookup_insert_Some; [|eauto]. by eapply Hours.
    + intros l' pc0 m o. rewrite c_handlers0. rewrite (core_done n n' (handlers n') (reps n')) by done.
      intros [[<- <-]|[Hne Hl]]%lookup_insert_Some Hw; [|eauto].
      destruct (Hwork _ _ Hw) as [[o' Ho'] Hv].
      destruct (ni_working0 _ _ _ _ Hh Ho') as (H1 & H2 & H3 & _). done.
  - intros l' tr Htr. exists tr. by rewrite (c_heap _ _ _ _ C).
  - intros tid x. rewrite (c_reps _ _ _ _ C). eauto.
  - intros tid l' pc0. rewrite (c_reps _ _ _ _ C). eauto.
  - intros l' x. by rewrite (core_done _ _ _ _ _ _ _ C).
  - intros tid b l' pc0 m o Hdec. rewrite (c_handlers _ _ _ _ C).
    destruct (v_quiet _ _ I _ _ _ _ Hdec Hn) as [Hq _].
    intros [[<- <-]|[Hne Hl]]%lookup_insert_Some Hw; [|by eapply Hq].
    destruct (Hwork _ _ Hw) as [[o' Ho'] _]. by eapply Hq.
Qed.

(** Nothing the invariant reads changes. *)
Lemma inv_same s p n n' :
  inv s -> nodes s !! p = Some n -> node_wf n' -> core n n' (handlers n) (reps n) -> inv (upd p n' s).
Proof.
  intros I Hn Hwf C. pose proof (v_node _ _ I _ _ Hn) as N. apply (inv_upd s p n n'); try done.
  - destruct N as [ni_name0 ni_peers0 ni_mem0 ni_wf0 ni_used0 ni_msg0 ni_obj0 ni_obj_req0 ni_listen0 ni_taken0 ni_count0 ni_count_rep0 ni_wait0 ni_working0],
      C as [c_name0 c_peers0 c_heap0 c_pending0 c_sends0 c_handlers0 c_reps0]. split; try (rewrite ?c_name0, ?c_peers0, ?c_heap0, ?c_reps0, ?c_handlers0; done);
      intros *; rewrite ?c_handlers0, ?c_reps0; rewrite ?c_pending0;
      rewrite ?(core_done n n' (handlers n') (reps n')) by done; first [intros ?%c_sends0; by eauto|by eauto].
  - intros l' tr Htr. exists tr. by rewrite (c_heap _ _ _ _ C).
  - intros tid x. rewrite (c_reps _ _ _ _ C). eauto.
  - intros tid l' pc0. rewrite (c_reps _ _ _ _ C). eauto.
  - intros l' x. by rewrite (core_done _ _ _ _ _ _ _ C).
  - intros tid b l' pc0 m o Hdec. rewrite (c_handlers _ _ _ _ C).
    by eapply (proj1 (v_quiet _ _ I _ _ _ _ Hdec Hn)).
Qed.

(** ** The goroutines, one move at a time *)

(** The setters keep what the invariant reads. *)
Lemma core_set_rep n n0 tid l pc :
  core n n0 (handlers n) (reps n) -> core n (set_rep tid l pc n0) (handlers n) (<[tid := (l, pc)]> (reps n)).
Proof. intros [? ? ? ? ? ? Hr]. split; simpl; try done. by rewrite Hr. Qed.

Lemma core_set_handler n n0 l pc :
  core n n0 (handlers n) (reps n) -> core n (set_handler l pc n0) (<[l := pc]> (handlers n)) (reps n).
Proof. intros [? ? ? ? ? Hh ?]. split; simpl; try done. by rewrite Hh. Qed.

Lemma core_refl n : core n n (handlers n) (reps n).
Proof. done. Qed.

Lemma replicate_detect_inv s p n n' tid :
  inv s -> nodes s !! p = Some n -> node_wf n' -> replicate_detect tid n = Some n' -> inv (upd p n' s).
Proof.
  intros I Hn Hwf E. unfold replicate_detect in E.
  destruct (reps n !! tid) as [[l [m| | | |]]|] eqn:Hr; simplify_eq. destruct (DetectAndResolveConflict _ _).
  - by eapply inv_rep; [..|apply core_set_rep, core_refl| | |].
  - by eapply inv_rep; [..|apply core_set_rep; split| | |].
  - by eapply inv_same.
Qed.

Lemma replicate_mute_inv s p n n' tid berr :
  inv s -> nodes s !! p = Some n -> node_wf n' -> replicate_broadcast tid berr n = Some (n', None) ->
  inv (upd p n' s).
Proof.
  intros I Hn Hwf E. unfold replicate_broadcast, broadcast in E.
  destruct (reps n !! tid) as [[l [|m| | |]]|] eqn:Hr; simplify_eq.
  destruct (proto_Marshal m); simplify_eq/=.
  by eapply inv_rep; [..|apply core_set_rep, core_refl| | |].
Qed.

Lemma replicate_ctx_done_inv s p n n' tid e :
  inv s -> nodes s !! p = Some n -> node_wf n' -> replicate_ctx_done tid e n = Some n' -> inv (upd p n' s).
Proof.
  intros I Hn Hwf E. unfold replicate_ctx_done in E.
  destruct (reps n !! tid) as [[l [| |[|k]| |]]|] eqn:Hr; simplify_eq.
  by eapply inv_rep; [..|apply core_set_rep, core_refl| | |].
Qed.

Lemma replicate_finish_inv s p n n' tid :
  inv s -> nodes s !! p = Some n -> node_wf n' -> replicate_finish tid n = Some n' -> inv (upd p n' s).
Proof.
  intros I Hn Hwf E. unfold replicate_finish in E.
  destruct (reps n !! tid) as [[l [| |[|k] [e|]| |]]|] eqn:Hr; simplify_eq.
  - by eapply inv_rep; [..|apply core_set_rep, core_refl| | |].
  - apply bind_Some in E as (rs & _ & E). destruct (processResponses rs _) as [c res].
    simplify_eq. destruct res.
    1, 2: by eapply inv_rep; [..|apply core_set_rep; split| | |].
    by eapply inv_same.
Qed.

Lemma replicate_delete_inv s p n n' tid :
  inv s -> nodes s !! p = Some n -> node_wf n' -> replicate_delete tid n = Some n' -> inv (upd p n' s).
Proof.
  intros I Hn Hwf E. unfold replicate_delete in E.
  destruct (reps n !! tid) as [[l [| | |res|]]|] eqn:Hr; simplify_eq.
  by eapply inv_rep; [..|apply core_set_rep; split| | |].
Qed.

Lemma handle_ctx_done_inv s p n n' l e :
  inv s -> nodes s !! p = Some n -> node_wf n' -> handle_ctx_done l e n = Some n' -> inv (upd p n' s).
Proof.
  intros I Hn Hwf E. unfold handle_ctx_done in E.
  destruct (handlers n !! l) as [[[|k] ours| | | | |]|] eqn:Hh; simplify_eq.
  by eapply inv_handler; [..|apply core_set_handler, core_refl| | |].
Qed.

Lemma handle_consult_inv s p n n' l :
  inv s -> nodes s !! p = Some n -> node_wf n' -> handle_consult l n = Some n' -> inv (upd p n' s).
Proof.
  intros I Hn Hwf E. unfold handle_consult in E.
  destruct (handlers n !! l) as [[|k m r| | | |]|] eqn:Hh; simplify_eq.
  destruct (Consult (fs n) r) as [[resp|]|[]|] eqn:HC; [|by eapply inv_same..].
  pose proof (consult_votes _ _ _ HC) as Hv.
  case_bool_decide; (eapply inv_handler; [done..|apply core_set_handler, core_refl|done|done|]);
    intros m' o [=]; subst; split; [by eexists|intros r' [=]; by subst|by eexists|intros r' [=]; by subst].
Qed.

Lemma conflict_response_vote resp r resp' :
  is_vote (resp_Type resp) -> conflict_response resp r = Ok resp' -> is_vote (resp_Type resp').
Proof. intros Hv E. destruct r; simplify_eq/=; [done|by right]. Qed.

Lemma handle_detect_inv s p n n' l :
  inv s -> nodes s !! p = Some n -> node_wf n' -> handle_detect l n = Some n' -> inv (upd p n' s).
Proof.
  intros I Hn Hwf E. unfold handle_detect in E.
  destruct (handlers n !! l) as [[| |k m r| | |]|] eqn:Hh; simplify_eq.
  destruct (conflict_response _ _) as [resp|[]|] eqn:HC; [|by eapply inv_same].
  destruct (ni_working _ _ _ _ _ _ (v_node _ _ I _ _ Hn) _ _ _ _ Hh eq_refl) as (_ & _ & _ & Hv).
  pose proof (conflict_response_vote _ _ _ (Hv _ eq_refl) HC).
  eapply inv_handler; [done..|apply core_set_handler, core_refl|done|done|].
  intros m' o [=]; subst; split; [by eexists|intros r' [=]; by subst].
Qed.

(** The vote a handler remembers after its reply. *)
Lemma replied_ours_ok s p n l pc m r snt :
  inv s -> nodes s !! p = Some n -> handlers n !! l = Some pc -> working pc = Some (m, Some r) ->
  (forall m' r', (p, m') ∈ snt -> Tid m' = Tid m -> GetResponse m' = Some r' -> resp_Type r' = resp_Type r) ->
  ours_ok p (done_box p n l (delivered s)) snt (resp_Type r).
Proof.
  intros I Hn Hh Hw Hs. pose proof (v_node _ _ I _ _ Hn) as N.
  destruct (ni_working _ _ _ _ _ _ N _ _ _ _ Hh Hw) as ([src Hd] & Hq & _ & Hv).
  split; [by apply Hv|]. split; [intros H; by destruct (H _ _ Hd)|].
  intros src' m1 m' r' Hd' Hq1 Hs' Ht. apply Hs; [done|]. rewrite Ht.
  destruct (nw_handlers _ (ni_wf _ _ _ _ _ _ N) _ _ Hh) as [tr Htr].
  destruct (box_delivered _ _ _ _ _ I Hn (done_sub _ _ _ _ _ Hd)) as (_ & _ & H1).
  destruct (box_delivered _ _ _ _ _ I Hn (done_sub _ _ _ _ _ Hd')) as (_ & _ & H2).
  specialize (H1 _ Htr). specialize (H2 _ Htr). simpl in *. congruence.
Qed.

Lemma handle_mute_inv s p n n' l berr :
  inv s -> nodes s !! p = Some n -> node_wf n' -> handle_reply l berr n = Some (n', None) -> inv (upd p n' s).
Proof.
  intros I Hn Hwf E. unfold handle_reply, broadcast in E.
  destruct (handlers n !! l) as [[| | |k m r| |]|] eqn:Hh; simplify_eq.
  destruct (proto_Marshal _); simplify_eq/=.
  eapply inv_handler; [done..|apply core_set_handler, core_refl|done| |done].
  intros k' ours [=]; subst. eapply replied_ours_ok; [done..|].
  intros m' r' Hs Ht. destruct (ni_working _ _ _ _ _ _ (v_node _ _ I _ _ Hn) _ _ _ _ Hh eq_refl) as (_ & _ & Hns & _).
  by destruct (Hns _ Hs).
Qed.

Lemma handle_finish_inv s p n n' l :
  inv s -> nodes s !! p = Some n -> node_wf n' -> handle_finish l n = Some n' -> inv (upd p n' s).
Proof.
  intros I Hn Hwf E. unfold handle_finish in E.
  destruct (handlers n !! l) as [[[|k] ours| | | | |]|] eqn:Hh; simplify_eq.
  apply bind_Some in E as (tr & _ & E). simplify_eq. case_match.
  - destruct (MirrorOp _ _) as [f' [?|?|?]]; [..|by eapply inv_same].
    all: by eapply inv_handler; [..|apply core_set_handler; split| | |].
  - by eapply inv_handler; [..|apply core_set_handler, core_refl| | |].
Qed.

Lemma handle_delete_inv s p n n' l :
  inv s -> nodes s !! p = Some n -> node_wf n' -> handle_delete l n = Some n' -> inv (upd p n' s).
Proof.
  intros I Hn Hwf E. unfold handle_delete in E.
  destruct (handlers n !! l) as [[| | | |res|]|] eqn:Hh; simplify_eq.
  apply bind_Some in E as (tr & _ & E). simplify_eq.
  by eapply inv_handler; [..|apply core_set_handler; split| | |].
Qed.

Lemma listen_ctx_done_inv s p n n' :
  inv s -> nodes s !! p = Some n -> node_wf n' -> listen_ctx_done n = Some n' -> inv (upd p n' s).
Proof.
  intros I Hn Hwf E. unfold listen_ctx_done in E.
  destruct (listener n) eqn:Hl; simplify_eq. destruct (cancelled n); simplify_eq.
  eapply inv_same; [done..|]. split; try done. intros l. unfold pending. by rewrite Hl.
Qed.

Lemma Close_inv s p n n' :
  inv s -> nodes s !! p = Some n -> node_wf n' -> Close n = Some n' -> inv (upd p n' s).
Proof. intros I Hn Hwf E. unfold Close in E. case_bool_decide; simplify_eq. by eapply inv_same. Qed.

(** ** The rendezvous on [NotifyChan] *)

Lemma pending_other n l msg l0 : listener n = LSend l msg -> l0 <> l -> pending n l0 = 0.
Proof. intros E Hne. unfold pending. rewrite E, decide_False; congruence. Qed.

Lemma pending_select n l : listener n = LSelect -> pending n l = 0.
Proof. intros E. unfold pending. by rewrite E. Qed.

Lemma done_other q n l msg l0 d : listener n = LSend l msg -> l0 <> l -> done_box q n l0 d = box q l0 d.
Proof. intros E Hne. by eapply done_all, pending_other. Qed.

(** The goroutine that takes the message: what it does not touch. *)
Lemma notified_node_inv s p n n' l msg :
  inv s -> nodes s !! p = Some n -> listener n = LSend l msg -> node_wf n' ->
  Name n' = Name n -> peers n' = peers n -> trans n' = trans n -> listener n' = LSelect ->
  (forall l0, is_Some (handlers n' !! l0) -> is_Some (handlers n !! l0)) ->
  (forall l0, l0 <> l -> handlers n' !! l0 = handlers n !! l0) ->
  (forall tid l0 pc, reps n' !! tid = Some (l0, pc) -> l0 <> l -> reps n !! tid = Some (l0, pc)) ->
  (forall pc, handlers n' !! l = Some pc -> exists k ours,
     handlers n !! l = Some (HWait (S k) ours) /\ pc = received k ours msg) ->
  (forall tid pc, reps n' !! tid = Some (l, pc) -> exists k err,
     reps n !! tid = Some (l, RWait (S k) err) /\ pc = RWait k err) ->
  node_inv (used s) (sent s) (delivered s) p n'.
Proof.
  intros I Hn Hl Hwf Hnm Hps Htr Hl' Hh Hh_other Hr_other Hh_l Hr_l.
  pose proof (v_node _ _ I _ _ Hn) as N.
  destruct (ni_listen _ _ _ _ _ _ N _ _ Hl) as (src & b & Hb).
  pose proof (pending_listener _ _ _ Hl) as Hp1.
  assert (forall l0, pending n' l0 = 0) as Hp0 by (intros; by apply pending_select).
  assert (forall l0, l0 <> l -> pending n l0 = 0) as Hpo by (intros; by eapply pending_other).
  split; rewrite ?Hnm, ?Hps, ?Htr; try by apply N.
  - done.
  - intros tid l0 pc m Hr Hm. destruct (decide (l0 = l)) as [->|Hne].
    + by destruct (Hr_l _ _ Hr) as (k & err & _ & ->).
    + eapply (ni_msg _ _ _ _ _ _ N); eauto.
  - intros l0 tr pc Hpc. destruct (Hh l0 (mk_is_Some _ _ Hpc)). by eapply (ni_obj_req _ _ _ _ _ _ N).
  - intros l0 msg0. by rewrite Hl'.
  - intros l0 pc Hpc. destruct (Hh l0 (mk_is_Some _ _ Hpc)). by eapply (ni_taken _ _ _ _ _ _ N).
  - intros l0 pc k Hpc Hk. rewrite Hp0. destruct (decide (l0 = l)) as [->|Hne].
    + destruct (Hh_l _ Hpc) as (k' & ours & Hold & ->).
      pose proof (ni_count _ _ _ _ _ _ N _ _ _ Hold eq_refl) as Hc.
      assert (k = k') as -> by (unfold received in Hk; case_match; simplify_eq/=; done). lia.
    + rewrite Hh_other in Hpc by done. pose proof (ni_count _ _ _ _ _ _ N _ _ _ Hpc Hk) as Hc.
      rewrite Hpo in Hc by done. lia.
  - intros tid l0 k Hr. rewrite Hp0. destruct (decide (l0 = l)) as [->|Hne].
    + destruct (Hr_l _ _ Hr) as (k' & err & Hold & [=]). subst.
      pose proof (ni_count_rep _ _ _ _ _ _ N _ _ _ Hold). lia.
    + pose proof (ni_count_rep _ _ _ _ _ _ N _ _ _ (Hr_other _ _ _ Hr Hne)) as Hc.
      rewrite Hpo in Hc by done. lia.
  - intros l0 k ours Hpc. rewrite done_all by done. destruct (decide (l0 = l)) as [->|Hne].
    + destruct (Hh_l _ Hpc) as (k' & ours' & Hold & Heq). unfold received in Heq.
      destruct (GetRequest msg) eqn:Hreq; simplify_eq.
      pose proof (ni_wait _ _ _ _ _ _ N _ _ _ Hold) as (Hv & H0 & H1).
      rewrite (done_last _ _ _ _ _ _ Hp1 Hb) in H0, H1. rewrite Hb.
      assert (~ is_request msg) as Hnr by (intros [? ?]; congruence).
      split; [done|]. split; [intros H; apply H0; intros; apply (H src0); set_solver|].
      intros src' m m' r' Hin Hq. apply elem_of_app in Hin as [Hin|[= -> ->]%list_elem_of_singleton]; [eauto|done].
    + rewrite Hh_other in Hpc by done. pose proof (ni_wait _ _ _ _ _ _ N _ _ _ Hpc) as Hw.
      by rewrite (done_all p n) in Hw by auto.
  - intros l0 pc m o Hpc Hw. rewrite done_all by done. destruct (decide (l0 = l)) as [->|Hne].
    + destruct (Hh_l _ Hpc) as (k' & ours' & Hold & ->). unfold received in Hw.
      destruct (GetRequest msg) eqn:Hreq; simplify_eq/=.
      split; [exists src; rewrite Hb; set_solver|]. split; [by eexists|]. split; [|done].
      intros m' Hs. eapply pending_request_unanswered; [done..|by eexists|done].
    + rewrite Hh_other in Hpc by done. pose proof (ni_working _ _ _ _ _ _ N _ _ _ _ Hpc Hw) as Hx.
      by rewrite (done_all p n) in Hx by auto.
Qed.

Lemma notified_inv s p n n' l msg :
  inv s -> nodes s !! p = Some n -> listener n = LSend l msg ->
  trans n' = trans n -> listener n' = LSelect ->
  (forall l0, l0 <> l -> handlers n' !! l0 = handlers n !! l0) ->
  (forall pc, handlers n' !! l = Some pc -> exists k ours,
     handlers n !! l = Some (HWait (S k) ours) /\ pc = received k ours msg) ->
  (forall tid x, reps n' !! tid = Some x -> is_Some (reps n !! tid)) ->
  (forall tid l0 pc, reps n !! tid = Some (l0, pc) -> rep_past pc = true ->
     exists l' pc', reps n' !! tid = Some (l', pc') /\ rep_past pc' = true) ->
  node_inv (used s) (sent s) (delivered s) p n' -> inv (upd p n' s).
Proof.
  intros I Hn Hl Htr Hl' Hother Hh Hr Hpast N'. apply (inv_upd s p n n'); try done.
  - rewrite Htr. eauto.
  - intros l0 x Hx. rewrite done_all by (by apply pending_select). by eapply done_sub.
  - intros tid b l0 pc m o Hdec Hpc Hw Ht. destruct (v_quiet _ _ I _ _ _ _ Hdec Hn) as [Hq Htook].
    destruct (decide (l0 = l)) as [->|Hne]; [|rewrite Hother in Hpc by done; by eapply Hq].
    destruct (Hh _ Hpc) as (k & ours & Hold & ->). unfold received in Hw.
    destruct (GetRequest msg) as [r|] eqn:Hreq; simplify_eq/=.
    destruct (pending_request_new _ _ _ _ _ I Hn Hl) as [Hnr Hnd]; [by eexists|].
    destruct Htook as [(l1 & pc & Hr1 & _)|(l1 & src & mq & Hd & Hqr & Htq)]; [congruence|].
    by apply (Hnd l1 src mq).
Qed.

Lemma notify_inv s p n n' :
  inv s -> nodes s !! p = Some n -> node_wf n' -> notify n = Some n' -> inv (upd p n' s).
Proof.
  intros I Hn Hwf E. unfold notify in E. destruct (listener n) as [|l msg|] eqn:Hl; [done| |done].
  pose proof (ni_wf _ _ _ _ _ _ (v_node _ _ I _ _ Hn)) as W.
  assert ((exists k ours, handlers n !! l = Some (HWait (S k) ours) /\
             n' = set_handler l (received k ours msg) (set_listener LSelect n)) \/
          (exists k err, reps n !! Tid msg = Some (l, RWait (S k) err) /\
             n' = set_rep (Tid msg) l (RWait k err) (set_listener LSelect n)))
    as [(k & ours & Hh & ->)|(k & err & Hr & ->)].
  { repeat case_match; simplify_eq; try done; eauto 10.
    all: match goal with H : (_ =? _) = true |- _ => apply Nat.eqb_eq in H; subst end; eauto 10. }
  - assert (forall tid l0 pc, reps n !! tid = Some (l0, pc) -> l0 <> l) as Hne.
    { intros tid l0 pc Hr ->. destruct (nw_reps _ W _ _ _ Hr). congruence. }
    eapply notified_inv; try done; [..|eapply notified_node_inv; try done]; simpl.
    all: try (intros l0 Hne0; by rewrite lookup_insert_ne).
    all: try (intros pc; rewrite lookup_insert_eq; intros [= <-]; by eauto).
    all: try (by eauto).
    + intros l0. rewrite lookup_insert_is_Some. intros [<-|[_ ?]]; eauto.
    + intros tid pc Hr. by destruct (Hne _ _ _ Hr).
  - destruct (nw_reps _ W _ _ _ Hr) as (Hh & tr & Htr & Ht).
    assert (forall tid pc, reps n !! tid = Some (l, pc) -> tid = Tid msg) as Huniq.
    { intros tid pc Hr'. destruct (nw_reps _ W _ _ _ Hr') as (_ & tr' & Htr' & <-). congruence. }
    eapply notified_inv; try done; [..|eapply notified_node_inv; try done]; simpl.
    all: try (intros pc Hpc; congruence).
    + intros tid x. rewrite lookup_insert_Some. intros [[<- _]|[_ ?]]; eauto.
    + intros tid l0 pc Hr0 Hp0. destruct (decide (Tid msg = tid)) as [<-|Hne].
      * rewrite lookup_insert_eq. eauto.
      * rewrite lookup_insert_ne by done. eauto.
    + intros tid l0 pc [[<- [= <- <-]]|[_ ?]]%lookup_insert_Some; [done|eauto].
    + intros tid pc [[<- [= <-]]|[Hne Hr']]%lookup_insert_Some; [eauto|].
      by destruct Hne; symmetry; eapply Huniq.
Qed.

(** ** Verdicts *)

Lemma response_not_request m r : GetResponse m = Some r -> ~ is_request m.
Proof. unfold GetResponse, is_request, GetRequest. intros E [? ?]. by repeat case_match. Qed.

(** A host broadcasts once per transaction. *)
Lemma sent_unique s p m m' :
  inv s -> (p, m) ∈ sent s -> (p, m') ∈ sent s -> Tid m = Tid m' -> m = m'.
Proof.
  intros I [i Hi]%list_elem_of_lookup [j Hj]%list_elem_of_lookup Ht.
  assert (i = j) as ->; [|by simplify_eq].
  eapply NoDup_lookup; [apply (v_once _ _ I)|..]; rewrite list_lookup_fmap; [by rewrite Hi|].
  rewrite Hj. simpl. by rewrite Ht.
Qed.

(** An initiator does not answer its own transaction. *)
Lemma initiator_no_response s p n tid x m r :
  inv s -> nodes s !! p = Some n -> reps n !! tid = Some x -> (p, m) ∈ sent s -> Tid m = tid ->
  GetResponse m = Some r -> False.
Proof.
  intros I Hn Hr Hs Ht Hresp.
  destruct (v_response _ _ I _ _ Hs (response_not_request _ _ Hresp)) as (_ & n' & l & src & mq & Hn' & Hd & Hq & Htq).
  simplify_eq. apply done_sub in Hd. destruct (box_delivered _ _ _ _ _ I Hn Hd) as (Hs' & Ho & _). simpl in *.
  apply elem_of_others in Ho as [_ Hne].
  destruct (v_request _ _ I _ _ Hs' Hq) as (n' & l' & pc & Hn' & Hr' & _). rewrite Htq in Hr'.
  destruct Hne. by eapply (v_initiator _ _ I).
Qed.

(** What the responses of a full box say. *)
Lemma full_box_votes s p n l tr :
  inv s -> nodes s !! p = Some n -> heap (trans n) !! l = Some tr ->
  length (box p l (delivered s)) = length (others p) + pending n l ->
  existsb is_NACK (Responses tr) = false <->
  forall q m r, q <> p -> (q, m) ∈ sent s -> Tid m = t_Tid tr -> GetResponse m = Some r ->
    resp_Type r = Response_ACK.
Proof.
  intros I Hn Htr Hlen. destruct (box_full _ _ _ _ _ I Hn Htr Hlen) as [_ Hfull].
  rewrite (ni_obj _ _ _ _ _ _ (v_node _ _ I _ _ Hn) _ _ Htr), existsb_elem_false. split.
  - intros H q m r Hne Hs Ht Hresp.
    destruct (Hfull q) as (m' & Hin & Ht'); [by eapply sent_mem|done|].
    destruct (box_delivered _ _ _ _ _ I Hn Hin) as (Hs' & _). simpl in Hs'.
    assert (m' = m) as -> by (eapply sent_unique; eauto; congruence).
    destruct (v_response _ _ I _ _ Hs (response_not_request _ _ Hresp)) as ((r' & Hr' & Hv) & _).
    simplify_eq. destruct Hv as [|Hv]; [done|].
    assert (is_NACK r = false) as Hf; [|unfold is_NACK in Hf; by rewrite Hv in Hf].
    apply H, list_elem_of_omap. by exists (q, m).
  - intros H r ([q m] & Hin & Hresp)%list_elem_of_omap. simpl in Hresp.
    destruct (box_delivered _ _ _ _ _ I Hn Hin) as (Hs & Ho & Ht). simpl in *.
    apply elem_of_others in Ho as [_ Hne]. unfold is_NACK.
    rewrite (H q m r); [done..|symmetry; by apply Ht|done].
Qed.

(** Every message of a transaction leads back to its initiator. *)
Lemma sent_initiator s q m :
  inv s -> (q, m) ∈ sent s ->
  exists p mq, (p, mq) ∈ sent s /\ is_request mq /\ Tid mq = Tid m.
Proof.
  intros I Hs. destruct (GetRequest m) eqn:E.
  - exists q, m. split; [done|]. split; [by eexists|done].
  - destruct (v_response _ _ I q m Hs) as (_ & n & l & src & mq & Hn & Hd & Hq & Ht).
    { intros [? H]. congruence. }
    destruct (box_delivered _ _ _ _ _ I Hn (done_sub _ _ _ _ _ Hd)) as (Hs' & _). eauto.
Qed.

(** A host that heard all others started the transaction or took its request. *)
Lemma full_box_took_part s p n l tr :
  inv s -> nodes s !! p = Some n -> heap (trans n) !! l = Some tr -> box p l (delivered s) <> [] ->
  length (box p l (delivered s)) = length (others p) + pending n l ->
  took_part p n (delivered s) (t_Tid tr).
Proof.
  intros I Hn Htr Hne Hlen. destruct (box_full _ _ _ _ _ I Hn Htr Hlen) as [Hp0 Hfull].
  destruct (box p l (delivered s)) as [|[q m] b] eqn:Hb; [done|].
  assert ((q, m) ∈ box p l (delivered s)) as Hin by (rewrite Hb; left).
  destruct (box_delivered _ _ _ _ _ I Hn Hin) as (Hs & _ & Ht). simpl in *. specialize (Ht _ Htr).
  destruct (sent_initiator _ _ _ I Hs) as (src & mq & Hs' & Hq & Htq).
  destruct (decide (src = p)) as [->|Hsp].
  - left. destruct (v_request _ _ I _ _ Hs' Hq) as (n' & l' & pc & Hn' & Hr' & Hpc).
    simplify_eq. exists l', pc. by rewrite Ht, <- Htq.
  - right. destruct (Hfull src) as (m' & Hin' & Ht'); [by eapply sent_mem|done|].
    rewrite <- Hb in Hin'. destruct (box_delivered _ _ _ _ _ I Hn Hin') as (Hs'' & _). simpl in *.
    assert (m' = mq) as -> by (eapply sent_unique; eauto; congruence).
    exists l, src, mq. rewrite done_all by done. split; [done|]. split; [done|congruence].
Qed.

(** A handler that heard everybody has its own request, if any, in its box. *)
Lemma full_box_request s p n l tr l' src mq :
  inv s -> nodes s !! p = Some n -> heap (trans n) !! l = Some tr ->
  length (box p l (delivered s)) = length (others p) + pending n l ->
  (src, mq) ∈ done_box p n l' (delivered s) -> Tid mq = t_Tid tr -> l' = l.
Proof.
  intros I Hn Htr Hlen Hd Ht. destruct (box_full _ _ _ _ _ I Hn Htr Hlen) as [_ Hfull].
  apply done_sub in Hd. destruct (box_delivered _ _ _ _ _ I Hn Hd) as (Hs & Ho & _). simpl in *.
  apply elem_of_others in Ho as [Hmem Hne]. destruct (Hfull src Hmem Hne) as (m' & Hin & Ht').
  by destruct (delivery_unique (delivered s) p l' l src mq m') as [-> _];
    [by apply keys_delivered|by apply elem_of_box..|congruence|].
Qed.

Lemma full_box_heard s p n l tr :
  inv s -> nodes s !! p = Some n -> heap (trans n) !! l = Some tr ->
  length (box p l (delivered s)) = length (others p) + pending n l ->
  forall q, q ∈ names -> q <> p -> exists m, (q, m) ∈ sent s /\ Tid m = t_Tid tr.
Proof.
  intros I Hn Htr Hlen q Hq Hne. destruct (box_full _ _ _ _ _ I Hn Htr Hlen) as [_ Hfull].
  destruct (Hfull q Hq Hne) as (m & Hin & Ht). exists m. split; [|done].
  by destruct (box_delivered _ _ _ _ _ I Hn Hin).
Qed.

Lemma handler_verdict s p n l tr ours :
  inv s -> nodes s !! p = Some n -> handlers n !! l = Some (HWait 0 ours) ->
  heap (trans n) !! l = Some tr ->
  verdict_ok names (sent s) p (t_Tid tr) (permitted ours (Responses tr)) /\
  (forall l' pc m o, handlers n !! l' = Some pc -> working pc = Some (m, o) -> Tid m <> t_Tid tr) /\
  took_part p n (delivered s) (t_Tid tr).
Proof.
  intros I Hn Hh Htr. pose proof (v_node _ _ I _ _ Hn) as N.
  pose proof (ni_count _ _ _ _ _ _ N _ _ _ Hh eq_refl) as Hlen. rewrite Nat.add_0_r in Hlen.
  destruct (ni_wait _ _ _ _ _ _ N _ _ _ Hh) as (Hv & H0 & H1).
  split; [|split].
  - exists ours. split; [done|]. split; [by eapply full_box_heard|]. split; [|split].
    + unfold permitted. rewrite andb_true_iff, bool_decide_eq_true, negb_true_iff.
      by rewrite full_box_votes.
    + intros m r Hs Ht Hr.
      destruct (v_response _ _ I _ _ Hs (response_not_request _ _ Hr)) as (_ & n' & l' & src & mq & Hn' & Hd & Hq & Htq).
      simplify_eq. assert (l' = l) as -> by (eapply full_box_request; eauto; congruence).
      eapply H1; eauto.
    + intros m Hs Ht Hq. apply H0. intros src mq Hd Hq'.
      destruct (box_delivered _ _ _ _ _ I Hn (done_sub _ _ _ _ _ Hd)) as (Hs' & Ho & Ht'). simpl in *.
      apply elem_of_others in Ho as [_ Hne]. apply Hne.
      eapply request_sender_unique; [done|exact Hs'|exact Hs|done|done|]. rewrite Ht. symmetry. by apply Ht'.
  - intros l' pc m o Hpc Hw Ht.
    destruct (ni_working _ _ _ _ _ _ N _ _ _ _ Hpc Hw) as ([src Hd] & _).
    assert (l' = l) as -> by (by eapply full_box_request). by simplify_eq.
  - eapply full_box_took_part; eauto. by eapply (ni_taken _ _ _ _ _ _ N).
Qed.

Lemma initiator_verdict s p n l tr tid :
  inv s -> nodes s !! p = Some n -> reps n !! tid = Some (l, RWait 0 None) ->
  heap (trans n) !! l = Some tr ->
  verdict_ok names (sent s) p tid (negb (existsb is_NACK (Responses tr))) /\
  (forall l' pc m o, handlers n !! l' = Some pc -> working pc = Some (m, o) -> Tid m <> tid) /\
  took_part p n (delivered s) tid.
Proof.
  intros I Hn Hr Htr. pose proof (v_node _ _ I _ _ Hn) as N.
  pose proof (ni_count_rep _ _ _ _ _ _ N _ _ _ Hr) as Hlen. rewrite Nat.add_0_r in Hlen.
  destruct (nw_reps _ (ni_wf _ _ _ _ _ _ N) _ _ _ Hr) as (_ & tr' & Htr' & Ht). simplify_eq.
  split; [|split].
  - exists Response_ACK. split; [by left|]. split; [by eapply full_box_heard|]. split; [|split; [|done]].
    + rewrite negb_true_iff. rewrite full_box_votes by done. tauto.
    + intros m r Hs Ht Hresp. exfalso. by eapply initiator_no_response.
  - intros l' pc m o Hpc Hw Ht. pose proof (working_not_initiator _ _ _ _ _ _ _ I Hn Hpc Hw). congruence.
  - left. by exists l, (RWait 0 None).
Qed.

(** ** Steps of the network *)

Lemma inv_decide s p n tid b :
  inv s -> nodes s !! p = Some n -> verdict_ok names (sent s) p tid b ->
  (forall l pc m o, handlers n !! l = Some pc -> working pc = Some (m, o) -> Tid m <> tid) ->
  took_part p n (delivered s) tid ->
  inv (mkNet (nodes s) (flight s) (used s) (sent s) (delivered s) (decided s ++ [(p, tid, b)])).
Proof.
  intros I Hn Hv Hq Ht. split; simpl; try by apply I.
  - intros q tid' b' [?|[= -> -> ->]%list_elem_of_singleton]%elem_of_app; [by apply I|done].
  - intros q tid' b' nq [Hd|[= -> -> ->]%list_elem_of_singleton]%elem_of_app Hnq; [by eapply (v_quiet _ _ I)|].
    by simplify_eq.
Qed.

Lemma inv_verdict s p n e :
  inv s -> nodes s !! p = Some n ->
  inv (mkNet (nodes s) (flight s) (used s) (sent s) (delivered s) (decided s ++ verdict p n e)).
Proof.
  intros I Hn. assert (forall s, inv s -> inv (mkNet (nodes s) (flight s) (used s) (sent s) (delivered s) (decided s ++ []))) as Hnil.
  { intros s0 I0. rewrite app_nil_r. by destruct s0. }
  destruct e; simpl; try by apply Hnil.
  - destruct (reps n !! tid) as [[l [| |[|k] [e|]| |]]|] eqn:Hr; try by apply Hnil.
    destruct (heap (trans n) !! l) as [tr|] eqn:Htr; [|by apply Hnil].
    destruct (initiator_verdict _ _ _ _ _ _ I Hn Hr Htr) as (H1 & H2 & H3). by eapply inv_decide.
  - destruct (handlers n !! l) as [[[|k] ours| | | | |]|] eqn:Hh; try by apply Hnil.
    destruct (heap (trans n) !! l) as [tr|] eqn:Htr; [|by apply Hnil].
    destruct (handler_verdict _ _ _ _ _ _ I Hn Hh Htr) as (H1 & H2 & H3). by eapply inv_decide.
Qed.

Lemma quiet_Some (r : option (node FS)) n' out : quiet r = Some (n', out) -> r = Some n'.
Proof. unfold quiet. intros (n1 & -> & E)%fmap_Some. by simplify_eq. Qed.

(** A step that neither starts a transaction nor touches the network. *)
Lemma internal_inv s p n n' e :
  inv s -> nodes s !! p = Some n -> internal e = true -> node_step level n e = Some (n', None) ->
  inv (upd p n' s).
Proof.
  intros I Hn Hint E.
  assert (node_wf n') as Hwf.
  { eapply (node_step_keeps_wf level Hlevel); [by eapply ni_wf, (v_node _ _ I)| |done]. by destruct e. }
  unfold node_step in E. destruct (crashed n); [done|].
  destruct e; try done; try apply quiet_Some in E.
  - by eapply replicate_detect_inv.
  - by eapply replicate_mute_inv.
  - by eapply replicate_ctx_done_inv.
  - by eapply replicate_finish_inv.
  - by eapply replicate_delete_inv.
  - destruct m; [|done]. unfold listen_receive in E. destruct (listener n); simplify_eq. by eapply inv_same.
  - by eapply notify_inv.
  - by eapply listen_ctx_done_inv.
  - by eapply Close_inv.
  - by eapply handle_ctx_done_inv.
  - by eapply handle_consult_inv.
  - by eapply handle_detect_inv.
  - by eapply handle_mute_inv.
  - by eapply handle_finish_inv.
  - by eapply handle_delete_inv.
  - simplify_eq. by eapply inv_same.
Qed.

Lemma local_inv s p n n' e :
  inv s -> nodes s !! p = Some n -> internal e = true -> node_step level n e = Some (n', None) ->
  inv (mkNet (<[p := n']> (nodes s)) (flight s) (used s) (sent s) (delivered s) (decided s ++ verdict p n e)).
Proof. intros I Hn Hint E. by apply (internal_inv _ p n n' e (inv_verdict s p n e I Hn)). Qed.

Lemma drop_inv s f1 f2 x :
  inv s -> flight s = f1 ++ x :: f2 ->
  inv (mkNet (nodes s) (f1 ++ f2) (used s) (sent s) (delivered s) (decided s)).
Proof.
  intros I Hf. split; simpl; try by apply I.
  - intros src dst raw m Hin. apply (v_flight _ _ I). rewrite Hf.
    rewrite elem_of_app in Hin. rewrite elem_of_app, elem_of_cons. tauto.
  - pose proof (v_keys _ _ I) as Hk. rewrite Hf, omap_app in Hk. rewrite omap_app.
    eapply sublist_NoDup; [exact Hk|]. apply sublist_app; [|done]. apply sublist_app; [done|].
    simpl. by case_match; [apply sublist_cons|].
Qed.

(** A new id: no object of any host carries it. *)
Lemma unused_tid s p n l tr tid :
  inv s -> nodes s !! p = Some n -> tid ∉ used s -> heap (trans n) !! l = Some tr -> t_Tid tr <> tid.
Proof. intros I Hn Hu Htr <-. apply Hu. by eapply ni_used; [apply (v_node _ _ I)|]. Qed.

Lemma unused_rep s p n tid : inv s -> nodes s !! p = Some n -> tid ∉ used s -> reps n !! tid = None.
Proof.
  intros I Hn Hu. destruct (reps n !! tid) as [[l pc]|] eqn:Hr; [|done].
  destruct (nw_reps _ (ni_wf _ _ _ _ _ _ (v_node _ _ I _ _ Hn)) _ _ _ Hr) as (_ & tr & Htr & Ht).
  by destruct (unused_tid _ _ _ _ _ _ I Hn Hu Htr).
Qed.

(** Nothing was delivered to an object that does not exist. *)
Lemma box_unallocated s p n l :
  inv s -> nodes s !! p = Some n -> heap (trans n) !! l = None -> box p l (delivered s) = [].
Proof.
  intros I Hn Hl. destruct (box p l (delivered s)) as [|[src m] b] eqn:Hb; [done|].
  assert ((p, l, (src, m)) ∈ delivered s) as Hd by (apply elem_of_box; rewrite Hb; left).
  destruct (v_delivered _ _ I _ _ _ _ Hd) as (_ & _ & n' & tr & Hn' & Htr & _). simplify_eq.
Qed.

(** [Replicate] starts under a new id. *)
Lemma replicate_start_inv s p n n' tid req :
  inv s -> nodes s !! p = Some n -> tid ∉ used s -> node_wf n' ->
  replicate_start level tid req n = Some n' ->
  inv (mkNet (<[p := n']> (nodes s)) (flight s) ({[tid]} ∪ used s) (sent s) (delivered s) (decided s)).
Proof.
  intros I Hn Hu Hwf' E. unfold replicate_start in E. pose proof (v_node _ _ I _ _ Hn) as N.
  pose proof (ni_wf _ _ _ _ _ _ N) as W. rewrite (unused_rep _ _ _ _ I Hn Hu) in E.
  destruct (NewRequestMessage_ok level tid (Name n) req Hlevel) as (req' & HN & _).
  rewrite HN in E. simpl in E. destruct (Put _ _) as [[t' l] b] eqn:HP. simplify_eq.
  assert (ts (trans n) !! tid = None) as Hts.
  { destruct (ts (trans n) !! tid) as [l'|] eqn:Hl; [|done].
    destruct (proj1 (nw_trans _ W) _ _ Hl) as (tr & Htr & Ht). by destruct (unused_tid _ _ _ _ _ _ I Hn Hu Htr). }
  pose proof (Put_spec _ _ _ _ _ (nw_trans _ W) HP) as (Hb & _ & Hheap & Hl). simpl in *.
  rewrite Hts in Hb. simpl in Hb. subst b.
  destruct (Put_fresh _ _ _ _ (nw_trans _ W) HP) as [Hnone _].
  assert (forall l' tr, heap t' !! l' = Some tr ->
    (l' = l /\ t_Tid tr = tid /\ Responses tr = []) \/ heap (trans n) !! l' = Some tr) as Hcase.
  { intros l' tr. rewrite Hheap. intros [[<- <-]|[_ ?]]%lookup_insert_Some; [left|by right].
    unfold target, lookup_tid. by rewrite Hts. }
  rewrite <- (app_nil_r (sent s)).
  apply (inv_advance s p n _ (flight s) _ None (delivered s)); simpl; rewrite ?app_nil_r; try done; try by apply I.
  - split; simpl; try done.
    + intros l' tr Htr. exists tr. rewrite (Put_heap_other _ _ _ _ _ _ (nw_trans _ W) HP); [done|]. congruence.
    + intros tid' x q nq [[<- <-]|[_ Hx]]%lookup_insert_Some Hq [y Hy].
      * by rewrite (unused_rep _ _ _ _ I Hq Hu) in Hy.
      * by eapply (v_initiator _ _ I).
    + intros tid' l' pc Hr Hp. exists l', pc. rewrite lookup_insert_ne; [done|]. intros <-.
      by rewrite (unused_rep _ _ _ _ I Hn Hu) in Hr.
  - set_solver.
  - split; simpl; try by apply N.
    + done.
    + intros l' tr [(-> & -> & _)|Htr]%Hcase; [set_solver|]. apply elem_of_union_r. by eapply (ni_used _ _ _ _ _ _ N).
    + intros tid' l' pc m [[<- [= <- <-]]|[_ Hr]]%lookup_insert_Some Hm; [|by eapply (ni_msg _ _ _ _ _ _ N)].
      simplify_eq/=. by split; [|eexists].
    + intros l' tr [(-> & _ & ->)|Htr]%Hcase; [|by apply (ni_obj _ _ _ _ _ _ N)].
      by rewrite (box_unallocated _ _ _ _ I Hn Hnone).
    + intros l' tr pc Hh [(-> & _)|Htr]%Hcase; [|by eapply (ni_obj_req _ _ _ _ _ _ N)].
      destruct (nw_handlers _ W _ _ Hh). congruence.
    + intros tid' l' k [[<- ?]|[_ Hr]]%lookup_insert_Some; [done|]. by eapply (ni_count_rep _ _ _ _ _ _ N).
  - intros tid' b l' pc m o Hdec. by eapply (proj1 (v_quiet _ _ I _ _ _ _ Hdec Hn)).
  - by left.
Qed.

(** What a peer reads of a message that was sent. *)
Lemma read_marshal m raw m' :
  proto_Marshal m = inr raw -> ReadMessage raw = Ok m' ->
  Tid m' = Tid m /\ (is_request m' <-> is_request m) /\ GetResponse m' = GetResponse m.
Proof.
  intros HM HR. unfold ReadMessage in HR. rewrite (proto_roundtrip _ _ HM) in HR.
  unfold is_request, GetRequest, GetResponse.
  destruct (msg_Type m) as [[req|resp]|] eqn:Ht; simplify_eq; try by rewrite Ht.
  destruct (Content req); [|simplify_eq; by rewrite Ht].
  destruct (decompress _); simplify_eq/=. split; [done|]. split; [|done]. by split; eexists.
Qed.

Lemma readable_option raw : readable raw = option_list (match ReadMessage raw with Ok m => Some m | _ => None end).
Proof. unfold readable. by destruct (ReadMessage raw). Qed.

(** The keys of a first broadcast are new. *)
Lemma broadcast_keys s p m raw dests :
  inv s -> (forall m', (p, m') ∈ sent s -> Tid m' <> Tid m) -> ReadMessage raw = Ok m -> NoDup dests ->
  NoDup (omap flight_key (flight s ++ ((fun q => (p, q, raw)) <$> dests)) ++ (delivery_key <$> delivered s)).
Proof.
  intros I Hfirst HR Hnd. rewrite omap_app.
  assert (omap flight_key ((fun q => (p, q, raw)) <$> dests) = (fun q => (p, q, Tid m)) <$> dests) as ->.
  { rewrite omap_fmap_eq with (y := fun q => Some (p, q, Tid m)).
    - clear Hnd. by induction dests as [|q dests IH]; simpl; [|f_equal].
    - intros q. unfold flight_key. simpl. by rewrite HR. }
  rewrite <- app_assoc. rewrite (Permutation_app_comm ((fun q => _) <$> dests)), app_assoc.
  apply NoDup_app. split; [apply I|]. split.
  - intros x [Hx|Hx]%elem_of_app (q & -> & _)%list_elem_of_fmap.
    + apply list_elem_of_omap in Hx as ([[src dst] raw'] & Hin & Hk). unfold flight_key in Hk. simpl in Hk.
      destruct (ReadMessage raw') as [m'| |] eqn:HR'; simplify_eq.
      destruct (v_flight _ _ I _ _ _ _ Hin HR') as [Hs _]. by apply (Hfirst m').
    + apply list_elem_of_fmap in Hx as ([[q' l] [src m']] & Hk & Hin). unfold delivery_key in Hk. simplify_eq/=.
      destruct (v_delivered _ _ I _ _ _ _ Hin) as [Hs _]. by apply (Hfirst m').
  - assert (Inj eq eq (fun q : string => (p, q, Tid m))) by (intros ? ? [=]; done). by apply NoDup_fmap_2.
Qed.

Lemma unreadable_keys s p raw dests :
  inv s -> (forall m, ReadMessage raw <> Ok m) ->
  NoDup (omap flight_key (flight s ++ ((fun q => (p, q, raw)) <$> dests)) ++ (delivery_key <$> delivered s)).
Proof.
  intros I Hno. rewrite omap_app.
  assert (omap flight_key ((fun q => (p, q, raw)) <$> dests) = []) as ->; [|rewrite app_nil_r; apply I].
  rewrite omap_fmap_eq with (y := fun _ => None).
  - by induction dests.
  - intros q. unfold flight_key. simpl. destruct (ReadMessage raw) eqn:HR; [by destruct (Hno a)|done..].
Qed.

(** A broadcast reaches any of the peers. *)
Lemma inv_send s p n n' raw dests :
  inv s -> nodes s !! p = Some n -> NoDup dests -> dests ⊆ peers n ->
  advance s p n n' (delivered s) ->
  node_inv (used s) (sent s ++ ((fun m => (p, m)) <$> readable raw)) (delivered s) p n' ->
  (forall m, ReadMessage raw = Ok m -> new_broadcast s p n' (delivered s) (used s) m) ->
  (forall tid b l pc m o, (p, tid, b) ∈ decided s -> handlers n' !! l = Some pc ->
     working pc = Some (m, o) -> Tid m <> tid) ->
  inv (mkNet (<[p := n']> (nodes s)) (flight s ++ ((fun q => (p, q, raw)) <$> dests)) (used s)
         (sent s ++ ((fun m => (p, m)) <$> readable raw)) (delivered s) (decided s)).
Proof.
  intros I Hn Hnd Hsub A N' Hnew Hquiet.
  assert (NoDup (omap flight_key (flight s ++ ((fun q => (p, q, raw)) <$> dests)) ++ (delivery_key <$> delivered s))) as Hk.
  { destruct (ReadMessage raw) as [m| |] eqn:HR; [|by apply unreadable_keys; rewrite ?HR..].
    eapply broadcast_keys; [done| |done|done]. by apply (Hnew m). }
  rewrite readable_option in *. apply (inv_advance s p n); try done.
  - intros m Hm. apply Hnew. by destruct (ReadMessage raw); simplify_eq.
  - intros src dst raw' m [Hin|(q & [= -> -> ->] & Hq)%list_elem_of_fmap]%elem_of_app HR.
    + destruct (v_flight _ _ I _ _ _ _ Hin HR). split; [apply elem_of_app; by left|done].
    + rewrite HR. split; [apply elem_of_app; right; simpl; left|].
      apply Hsub in Hq. rewrite (ni_peers _ _ _ _ _ _ (v_node _ _ I _ _ Hn)) in Hq.
      apply elem_of_others in Hq as [_ ?]. congruence.
  - by left.
Qed.

(** An initiator that has not broadcast has heard nothing about its transaction,
    and nothing was said or decided. *)
Lemma unannounced s p n tid l pc m :
  inv s -> nodes s !! p = Some n -> reps n !! tid = Some (l, pc) -> rep_past pc = false ->
  forall q, (q, m) ∈ sent s -> Tid m <> tid.
Proof.
  intros I Hn Hr Hpc q Hs Ht. destruct (sent_initiator _ _ _ I Hs) as (p0 & mq & Hs0 & Hq & Ht0).
  destruct (v_request _ _ I _ _ Hs0 Hq) as (n0 & l0 & pc0 & Hn0 & Hr0 & Hp0).
  rewrite Ht0, Ht in Hr0. assert (p0 = p) as -> by (by eapply (v_initiator _ _ I)).
  simplify_eq. congruence.
Qed.

Lemma unannounced_box s p n tid l pc :
  inv s -> nodes s !! p = Some n -> reps n !! tid = Some (l, pc) -> rep_past pc = false ->
  box p l (delivered s) = [] /\ pending n l = 0.
Proof.
  intros I Hn Hr Hpc.
  destruct (nw_reps _ (ni_wf _ _ _ _ _ _ (v_node _ _ I _ _ Hn)) _ _ _ Hr) as (_ & tr & Htr & Ht).
  assert (box p l (delivered s) = []) as Hb.
  { destruct (box p l (delivered s)) as [|[src m] b] eqn:Hb; [done|].
    assert ((src, m) ∈ box p l (delivered s)) as Hin by (rewrite Hb; left).
    destruct (box_delivered _ _ _ _ _ I Hn Hin) as (Hs & _ & Htm). simpl in *.
    exfalso. eapply (unannounced s p n tid l pc m I Hn Hr Hpc); [exact Hs|]. by rewrite <- (Htm tr), Ht. }
  split; [done|]. unfold pending. destruct (listener n) as [|l' msg|] eqn:Hl; try done. case_decide; [|done].
  subst. destruct (ni_listen _ _ _ _ _ _ (v_node _ _ I _ _ Hn) _ _ Hl) as (src & b & Hb').
  rewrite Hb in Hb'. by destruct b.
Qed.

Lemma unannounced_undecided s p n tid l pc b :
  inv s -> nodes s !! p = Some n -> reps n !! tid = Some (l, pc) -> rep_past pc = false ->
  (p, tid, b) ∉ decided s.
Proof.
  intros I Hn Hr Hpc Hdec. destruct (v_quiet _ _ I _ _ _ _ Hdec Hn) as [_ [(l' & pc' & Hr' & Hp')|(l' & src & mq & Hd & Hq & Ht)]].
  - simplify_eq. congruence.
  - destruct (box_delivered _ _ _ _ _ I Hn (done_sub _ _ _ _ _ Hd)) as (Hs & _).
    by eapply unannounced; [..|exact Hs|].
Qed.

Lemma announce_inv s p n tid l m pc' raw dests :
  inv s -> nodes s !! p = Some n -> NoDup dests -> dests ⊆ peers n ->
  reps n !! tid = Some (l, RBroadcast m) -> proto_Marshal m = inr raw ->
  rep_past pc' = true -> (forall k, pc' = RWait k None -> k = length (peers n)) ->
  node_wf (set_rep tid l pc' n) ->
  inv (mkNet (<[p := set_rep tid l pc' n]> (nodes s)) (flight s ++ ((fun q => (p, q, raw)) <$> dests)) (used s)
         (sent s ++ ((fun m => (p, m)) <$> readable raw)) (delivered s) (decided s)).
Proof.
  intros I Hn Hnd Hsub Hr HM Hpast Hk Hwf. pose proof (v_node _ _ I _ _ Hn) as N.
  destruct (ni_msg _ _ _ _ _ _ N _ _ _ _ Hr eq_refl) as [Htid Hreq].
  destruct (nw_reps _ (ni_wf _ _ _ _ _ _ N) _ _ _ Hr) as (Hnh & tr & Htr & Ht).
  assert (forall m', m' ∈ readable raw -> Tid m' = tid /\ is_request m') as Hread.
  { intros m'. unfold readable. destruct (ReadMessage raw) as [m0| |] eqn:HR; [|by intros H; inversion H..].
    intros ->%list_elem_of_singleton. destruct (read_marshal _ _ _ HM HR) as (-> & -> & _). done. }
  assert (forall q m', (q, m') ∈ sent s ++ ((fun m => (p, m)) <$> readable raw) ->
    (q, m') ∈ sent s \/ (Tid m' = tid /\ is_request m')) as Hsent.
  { intros q m' [?|(m0 & [= -> ->] & Hm0)%list_elem_of_fmap]%elem_of_app; [by left|right; by apply Hread]. }
  apply (inv_send s p n); try done.
  - split; simpl; try done; [eauto|..].
    + intros tid' x q nq Hx Hq [y Hy]. destruct (decide (tid = tid')) as [<-|Hne].
      * by eapply (v_initiator _ _ I).
      * rewrite lookup_insert_ne in Hx by done. by eapply (v_initiator _ _ I).
    + intros tid' l' pc Hr' Hp'. destruct (decide (tid = tid')) as [<-|Hne].
      * exists l, pc'. by rewrite lookup_insert_eq.
      * exists l', pc. by rewrite lookup_insert_ne.
  - split; simpl; try by apply N.
    + done.
    + intros tid' l' pc m' [[<- [= <- <-]]|[_ Hr']]%lookup_insert_Some Hm'; [by destruct pc'|].
      by eapply (ni_msg _ _ _ _ _ _ N).
    + intros tid' l' k [[<- [= <- ->]]|[_ Hr']]%lookup_insert_Some; [|by eapply (ni_count_rep _ _ _ _ _ _ N)].
      destruct (unannounced_box _ _ _ _ _ _ I Hn Hr eq_refl) as [-> Hp]. simpl.
      rewrite (Hk _ eq_refl), (ni_peers _ _ _ _ _ _ N). unfold pending in *. simpl. lia.
    + intros l' k ours Hh. destruct (ni_wait _ _ _ _ _ _ N _ _ _ Hh) as (Hv & H0 & H1).
      split; [done|]. split; [done|]. intros src m1 m' r' Hd Hq [Hs|[_ Hq']]%Hsent Htm Hresp; [by eapply H1|].
      by destruct (response_not_request _ _ Hresp).
    + intros l' pc m0 o Hh Hw. destruct (ni_working _ _ _ _ _ _ N _ _ _ _ Hh Hw) as (H1 & H2 & H3 & H4).
      split; [done|]. split; [done|]. split; [|done]. intros m' [Hs|[-> _]]%Hsent; [by apply H3|].
      intros ->. pose proof (working_not_initiator _ _ _ _ _ _ _ I Hn Hh Hw). congruence.
  - intros m' HR. assert (m' ∈ readable raw) as [Htm Hqm]%Hread by (unfold readable; rewrite HR; left).
    split; rewrite ?Htm; simpl; try done.
    + rewrite <- Ht. by eapply (ni_used _ _ _ _ _ _ N).
    + intros m0. by eapply unannounced.
    + intros b. by eapply unannounced_undecided.
    + intros _. exists l, pc'. by rewrite lookup_insert_eq.
  - intros tid' b l' pc m0 o Hdec. by eapply (proj1 (v_quiet _ _ I _ _ _ _ Hdec Hn)).
Qed.

Lemma replicate_broadcast_inv s p n n' tid berr raw dests :
  inv s -> nodes s !! p = Some n -> NoDup dests -> dests ⊆ peers n -> node_wf n' ->
  replicate_broadcast tid berr n = Some (n', Some raw) ->
  inv (mkNet (<[p := n']> (nodes s)) (flight s ++ ((fun q => (p, q, raw)) <$> dests)) (used s)
         (sent s ++ ((fun m => (p, m)) <$> readable raw)) (delivered s) (decided s)).
Proof.
  intros I Hn Hnd Hsub Hwf E. unfold replicate_broadcast, broadcast in E.
  destruct (reps n !! tid) as [[l [|m| | |]]|] eqn:Hr; simplify_eq.
  destruct (proto_Marshal m) as [|raw'] eqn:HM; simplify_eq/=.
  destruct (after_broadcast (length (peers n)) berr) as [k|e|w] eqn:HA.
  - eapply announce_inv; try done. intros k' [= <- ->]. simpl in HA. by simplify_eq.
  - by eapply announce_inv.
  - exfalso. unfold after_broadcast in HA. by repeat case_match.
Qed.

(** A request reaches one object of a host. *)
Lemma request_object_unique s p n l l' src src' m m' :
  inv s -> nodes s !! p = Some n -> (src, m) ∈ done_box p n l (delivered s) ->
  (src', m') ∈ done_box p n l' (delivered s) -> is_request m -> is_request m' -> Tid m = Tid m' -> l = l'.
Proof.
  intros I Hn Hd%done_sub Hd'%done_sub Hq Hq' Ht.
  destruct (box_delivered _ _ _ _ _ I Hn Hd) as (Hs & _).
  destruct (box_delivered _ _ _ _ _ I Hn Hd') as (Hs' & _). simpl in *.
  assert (src = src') as -> by (by eapply request_sender_unique).
  by destruct (delivery_unique (delivered s) p l l' src' m m') as [-> _];
    [by apply keys_delivered|by apply elem_of_box..|done|].
Qed.

Lemma handle_reply_inv s p n n' l berr raw dests :
  inv s -> nodes s !! p = Some n -> NoDup dests -> dests ⊆ peers n -> node_wf n' ->
  handle_reply l berr n = Some (n', Some raw) ->
  inv (mkNet (<[p := n']> (nodes s)) (flight s ++ ((fun q => (p, q, raw)) <$> dests)) (used s)
         (sent s ++ ((fun m => (p, m)) <$> readable raw)) (delivered s) (decided s)).
Proof.
  intros I Hn Hnd Hsub Hwf E. unfold handle_reply, broadcast in E.
  destruct (handlers n !! l) as [[| | |k m r| |]|] eqn:Hh; simplify_eq.
  destruct (proto_Marshal _) as [|raw'] eqn:HM; simplify_eq/=. pose proof (v_node _ _ I _ _ Hn) as N.
  destruct (ni_working _ _ _ _ _ _ N _ _ _ _ Hh eq_refl) as ([src Hd] & Hq & Hfirst & Hv).
  assert (readable raw = [NewResponseMessage (Tid m) (Name n) r]) as Hread.
  { unfold readable. by rewrite (response_roundtrip _ _ _ _ HM). }
  assert (forall q m', (q, m') ∈ sent s ++ ((fun m => (p, m)) <$> readable raw) ->
    (q, m') ∈ sent s \/ (Tid m' = Tid m /\ GetResponse m' = Some r)) as Hsent.
  { intros q m'. rewrite Hread. intros [?|[= -> ->]%list_elem_of_singleton]%elem_of_app; [by left|by right]. }
  apply (inv_send s p n); try done.
  - split; simpl; try done; [eauto|..|eauto]. intros tid' x q nq Hx Hq' [y Hy]. by eapply (v_initiator _ _ I).
  - split; simpl; try by apply N.
    + done.
    + intros l' tr pc [[<- _]|[_ Hpc]]%lookup_insert_Some Htr; by eapply (ni_obj_req _ _ _ _ _ _ N).
    + intros l' pc [[<- _]|[_ Hpc]]%lookup_insert_Some; by eapply (ni_taken _ _ _ _ _ _ N).
    + intros l' pc k' [[<- <-]|[_ Hpc]]%lookup_insert_Some Hk'; [|by eapply (ni_count _ _ _ _ _ _ N)].
      simplify_eq/=. by eapply (ni_count _ _ _ _ _ _ N).
    + intros l' k' ours [[<- [= <- <-]]|[Hne Hpc]]%lookup_insert_Some.
      * apply (replied_ours_ok s p n l (HReply k m r) m r); try done.
        intros m' r' [Hs|[_ ?]]%Hsent Ht Hr'; [by destruct (Hfirst _ Hs)|congruence].
      * destruct (ni_wait _ _ _ _ _ _ N _ _ _ Hpc) as (Hv' & H0 & H1). split; [done|]. split; [done|].
        intros src1 m1 m' r' Hd1 Hq1 [Hs|[Htm _]]%Hsent Ht Hr'; [by eapply H1|].
        destruct Hne. eapply (request_object_unique s p n l l' src src1 m m1); try done. congruence.
    + intros l' pc m1 o [[<- <-]|[Hne Hpc]]%lookup_insert_Some Hw; [done|].
      destruct (ni_working _ _ _ _ _ _ N _ _ _ _ Hpc Hw) as ([src1 Hd1] & Hq1 & H3 & H4).
      split; [by exists src1|]. split; [done|]. split; [|done].
      intros m' [Hs|[-> _]]%Hsent Ht; [by apply (H3 m')|]. destruct Hne.
      by eapply (request_object_unique s p n l l' src src1 m m1).
  - intros m' HR. rewrite (response_roundtrip _ _ _ _ HM) in HR. simplify_eq. split; simpl.
    + destruct (box_delivered _ _ _ _ _ I Hn (done_sub _ _ _ _ _ Hd)) as (Hs & _). by eapply (v_used _ _ I).
    + done.
    + intros b Hdec. by eapply (proj1 (v_quiet _ _ I _ _ _ _ Hdec Hn)).
    + by intros [? ?].
    + intros _. split; [exists r; split; [done|by apply Hv]|]. by exists l, src, m.
  - simpl. intros tid b l' pc m1 o Hdec [[<- <-]|[_ Hpc]]%lookup_insert_Some Hw; [done|].
    by eapply (proj1 (v_quiet _ _ I _ _ _ _ Hdec Hn)).
Qed.

(** ** A delivery *)

(** What [Put] leaves in the object it writes to. *)
Lemma Put_recorded s p n t' l created msg :
  inv s -> nodes s !! p = Some n -> Put msg (trans n) = (t', l, created) ->
  exists tr, heap t' !! l = Some tr /\ t_Tid tr = Tid msg /\
    Responses tr = omap (fun x => GetResponse x.2) (box p l (delivered s)) ++ option_list (GetResponse msg) /\
    (forall pc, (created = false -> handlers n !! l = Some pc) ->
       t_Request tr = last (omap (fun x => GetRequest x.2) (box p l (delivered s)) ++ option_list (GetRequest msg))).
Proof.
  intros I Hn HP. pose proof (v_node _ _ I _ _ Hn) as N. pose proof (nw_trans _ (ni_wf _ _ _ _ _ _ N)) as W.
  pose proof (Put_spec _ _ _ _ _ W HP) as (_ & _ & Hheap & _).
  destruct (Put_heap_eq _ _ _ _ _ W HP) as (tr & Htr & Ht). exists tr. split; [done|]. split; [done|].
  rewrite Hheap, lookup_insert_eq in Htr. simplify_eq. destruct created.
  - destruct (Put_fresh _ _ _ _ W HP) as [Hnone Hts].
    rewrite (box_unallocated _ _ _ _ I Hn Hnone). unfold target, lookup_tid, record_message, GetRequest, GetResponse.
    rewrite Hts. simpl. by destruct (msg_Type msg) as [[]|].
  - destruct (Put_existing _ _ _ _ W HP) as [Hts _].
    destruct (lookup_tid_wf _ _ _ W Hts) as (tr & Htr & Hlk & _). unfold target. rewrite Hlk. simpl.
    rewrite <- (ni_obj _ _ _ _ _ _ N _ _ Htr). unfold record_message, GetRequest, GetResponse. split.
    + destruct (msg_Type msg) as [[]|]; simpl; by rewrite ?app_nil_r.
    + intros pc Hpc. pose proof (ni_obj_req _ _ _ _ _ _ N _ _ _ (Hpc eq_refl) Htr) as Hreq.
      destruct (msg_Type msg) as [[]|]; simpl; by rewrite ?last_snoc, ?app_nil_r.
Qed.

(** [listen] takes a message: the state after [Put] and, for a new object, the
    start of its handler. *)
Definition taken n t' l msg (created : bool) : node FS :=
  let n' := set_listener (LSend l msg) (set_trans t' n) in
  if created then set_handler l (HWait (length (peers n)) Response_ACK) n' else n'.

Lemma taken_fields n t' l msg created :
  let n' := taken n t' l msg created in
  Name n' = Name n /\ peers n' = peers n /\ trans n' = t' /\ listener n' = LSend l msg /\ reps n' = reps n /\
  (forall l0 pc, handlers n' !! l0 = Some pc ->
     (created = true /\ l0 = l /\ pc = HWait (length (peers n)) Response_ACK) \/
     (handlers n !! l0 = Some pc /\ (created = true -> l0 <> l))).
Proof.
  unfold taken. destruct created; simpl; repeat (split; [done|]); intros l0 pc Hpc; [|by right].
  apply lookup_insert_Some in Hpc as [[<- <-]|[Hne Hpc]]; [by left|right]. split; [done|]. by intros _ <-.
Qed.

Section taking.
Context (s : net (FS := FS)) (p src : string) (n : node FS) (msg : Message).
Context (t' : transactions) (l : loc) (created : bool).
Hypothesis (I : inv s) (Hn : nodes s !! p = Some n) (Hl : listener n = LSelect).
Hypothesis (HP : Put msg (trans n) = (t', l, created)).
Hypothesis (Hsent : (src, msg) ∈ sent s) (Hne : src <> p).

Abbreviation n' := (taken n t' l msg created).
Abbreviation d' := (delivered s ++ [(p, l, (src, msg))]).

Lemma taken_box l0 :
  box p l0 d' = box p l0 (delivered s) ++ (if decide (l0 = l) then [(src, msg)] else []).
Proof.
  rewrite box_app, box_one. f_equal. destruct (decide (l0 = l)) as [->|Hne0].
  - by rewrite decide_True.
  - rewrite decide_False; [done|]. by intros [_ ->].
Qed.

Lemma taken_pending l0 : pending n' l0 = if decide (l0 = l) then 1 else 0.
Proof.
  unfold pending. destruct (taken_fields n t' l msg created) as (_ & _ & _ & -> & _).
  by repeat case_decide; subst.
Qed.

Lemma taken_done l0 : done_box p n' l0 d' = box p l0 (delivered s).
Proof.
  unfold done_box. rewrite taken_pending, taken_box. case_decide.
  - rewrite length_app. simpl. by rewrite Nat.add_sub, take_app_length.
  - rewrite app_nil_r, Nat.sub_0_r. by apply take_ge.
Qed.

Lemma taken_done_old l0 : done_box p n l0 (delivered s) = box p l0 (delivered s).
Proof. by apply done_all, pending_select. Qed.

Lemma taken_heap l0 tr : heap t' !! l0 = Some tr -> l0 <> l -> heap (trans n) !! l0 = Some tr.
Proof.
  intros Htr Hne0. rewrite <- (Put_heap_other _ _ _ _ _ _ (nw_trans _ (ni_wf _ _ _ _ _ _ (v_node _ _ I _ _ Hn))) HP); done.
Qed.

(** A new object has an empty box. *)
Lemma taken_created_box : created = true -> box p l (delivered s) = [].
Proof.
  intros ->. destruct (Put_fresh _ _ _ _ (nw_trans _ (ni_wf _ _ _ _ _ _ (v_node _ _ I _ _ Hn))) HP) as [Hnone _].
  by eapply box_unallocated.
Qed.

Lemma taken_advance : advance s p n n' d'.
Proof.
  destruct (taken_fields n t' l msg created) as (_ & _ & Ht & _ & Hr & _).
  split.
  - rewrite Ht. intros l0 tr Htr.
    by eapply (Put_heap_mono _ _ _ _ _ _ _ (nw_trans _ (ni_wf _ _ _ _ _ _ (v_node _ _ I _ _ Hn))) HP).
  - rewrite Hr. intros tid x q nq Hx Hq [y Hy]. by eapply (v_initiator _ _ I).
  - rewrite Hr. eauto.
  - intros l0 x. by rewrite taken_done, taken_done_old.
  - intros q l0 Hq. rewrite box_app, box_one, decide_False, app_nil_r; [done|]. by intros [-> _].
Qed.

Lemma taken_node_inv : node_wf n' -> node_inv (used s) (sent s) d' p n'.
Proof.
  intros Hwf. pose proof (v_node _ _ I _ _ Hn) as N.
  destruct (taken_fields n t' l msg created) as (Hnm & Hps & Ht & Hli & Hr & Hh).
  destruct (Put_recorded _ _ _ _ _ _ _ I Hn HP) as (tr0 & Htr0 & Htid & Hresp & Hreq).
  pose proof (pending_select n) as Hp0.
  split; rewrite ?Hnm, ?Hps, ?Ht, ?Hr; try by apply N.
  - done.
  - intros l0 tr Htr. destruct (decide (l0 = l)) as [->|Hne0]; [|by eapply (ni_used _ _ _ _ _ _ N), taken_heap].
    simplify_eq. rewrite Htid. by eapply (v_used _ _ I).
  - intros l0 tr Htr. rewrite taken_box, omap_app. destruct (decide (l0 = l)) as [->|Hne0].
    + simplify_eq. by rewrite Hresp.
    + rewrite app_nil_r. by apply (ni_obj _ _ _ _ _ _ N), taken_heap.
  - intros l0 tr pc Hpc Htr. rewrite taken_box, omap_app. destruct (decide (l0 = l)) as [->|Hne0].
    + simplify_eq. rewrite (Hreq pc); [done|]. intros Hc.
      by destruct (Hh _ _ Hpc) as [(? & _)|[? _]]; [congruence|].
    + rewrite app_nil_r. destruct (Hh _ _ Hpc) as [(_ & ? & _)|[Hpc0 _]]; [done|].
      by eapply (ni_obj_req _ _ _ _ _ _ N); [|apply taken_heap].
  - intros l0 m0. rewrite Hli. intros [= <- <-]. rewrite taken_box, decide_True by done. eauto.
  - intros l0 pc Hpc. rewrite taken_box. case_decide; [by destruct (box p l0 (delivered s))|].
    rewrite app_nil_r. destruct (Hh _ _ Hpc) as [(_ & ? & _)|[Hpc0 _]]; [done|]. by eapply (ni_taken _ _ _ _ _ _ N).
  - intros l0 pc k Hpc Hk. rewrite taken_box, taken_pending, length_app.
    destruct (Hh _ _ Hpc) as [(Hc & -> & ->)|[Hpc0 _]].
    + injection Hk as <-. rewrite taken_created_box, !decide_True, (ni_peers _ _ _ _ _ _ N) by done. simpl. lia.
    + pose proof (ni_count _ _ _ _ _ _ N _ _ _ Hpc0 Hk) as Hc. rewrite Hp0 in Hc by done.
      case_decide; simpl; lia.
  - intros tid l0 k Hrep. rewrite taken_box, taken_pending, length_app.
    pose proof (ni_count_rep _ _ _ _ _ _ N _ _ _ Hrep) as Hc. rewrite Hp0 in Hc by done.
    case_decide; simpl; lia.
  - intros l0 k ours Hpc. rewrite taken_done. destruct (Hh _ _ Hpc) as [(Hc & -> & [= -> ->])|[Hpc0 _]].
    + rewrite taken_created_box by done. split; [by left|]. split; [done|]. intros ? ? ? ? H. inversion H.
    + rewrite <- taken_done_old. by eapply (ni_wait _ _ _ _ _ _ N).
  - intros l0 pc m o Hpc Hw. rewrite taken_done. destruct (Hh _ _ Hpc) as [(Hc & -> & ->)|[Hpc0 _]]; [done|].
    rewrite <- taken_done_old. by eapply (ni_working _ _ _ _ _ _ N).
Qed.

Lemma taken_inv f1 f2 raw :
  flight s = f1 ++ (src, p, raw) :: f2 -> ReadMessage raw = Ok msg -> node_wf n' ->
  inv (mkNet (<[p := n']> (nodes s)) (f1 ++ f2) (used s) (sent s) d' (decided s)).
Proof.
  intros Hf HR Hwf. destruct (taken_fields n t' l msg created) as (_ & _ & Ht & _ & _ & Hh).
  rewrite <- (app_nil_r (sent s)).
  apply (inv_advance s p n n' (f1 ++ f2) (used s) None d'); simpl; rewrite ?app_nil_r; try done.
  - apply taken_advance.
  - by apply taken_node_inv.
  - intros tid b l0 pc m o Hdec Hpc Hw. destruct (Hh _ _ Hpc) as [(_ & _ & ->)|[Hpc0 _]]; [done|].
    by eapply (proj1 (v_quiet _ _ I _ _ _ _ Hdec Hn)).
  - intros src0 dst raw0 m Hin. apply (v_flight _ _ I). rewrite Hf.
    rewrite elem_of_app in Hin. rewrite elem_of_app, elem_of_cons. tauto.
  - intros q l0 src0 m [Hd|[= -> -> -> ->]%list_elem_of_singleton]%elem_of_app; [by left|right].
    split; [done|]. split; [done|]. split; [done|]. rewrite Ht.
    by destruct (Put_recorded _ _ _ _ _ _ _ I Hn HP) as (tr0 & ? & ? & _); eauto.
  - pose proof (v_keys _ _ I) as Hk. rewrite Hf, omap_app in Hk. simpl in Hk.
    unfold flight_key at 2 in Hk. simpl in Hk. rewrite HR in Hk. rewrite omap_app, fmap_app. simpl.
    change (delivery_key (p, l, (src, msg))) with (src, p, Tid msg).
    eapply NoDup_Permutation_proper; [|exact Hk]. rewrite <- !app_assoc. apply Permutation_app_head.
    rewrite <- app_comm_cons. rewrite app_assoc, (Permutation_app_comm _ [_]). done.
Qed.
End taking.

(** ** Every step of the network *)

Lemma node_wf_step s p n n' e out :
  inv s -> nodes s !! p = Some n -> fresh_event n e -> node_step level n e = Some (n', out) -> node_wf n'.
Proof. intros I Hn Hf E. eapply (node_step_keeps_wf level Hlevel); [by eapply ni_wf, (v_node _ _ I)|done..]. Qed.

Lemma deliver_inv s f1 f2 src dst raw n n' :
  inv s -> flight s = f1 ++ (src, dst, raw) :: f2 -> nodes s !! dst = Some n ->
  node_step level n (EvReceive (conn_Data raw)) = Some (n', None) ->
  inv (mkNet (<[dst := n']> (nodes s)) (f1 ++ f2) (used s) (sent s) (delivered s ++ arrival dst src n') (decided s)).
Proof.
  intros I Hf Hn E. pose proof (node_wf_step _ _ _ _ (EvReceive (conn_Data raw)) _ I Hn Logic.I E) as Hwf.
  assert (forall n', node_wf n' -> core n n' (handlers n) (reps n) -> listener n' = LSelect ->
    inv (mkNet (<[dst := n']> (nodes s)) (f1 ++ f2) (used s) (sent s) (delivered s ++ arrival dst src n') (decided s))) as Hsame.
  { intros n1 Hwf1 C Hl. unfold arrival. rewrite Hl, app_nil_r.
    apply (drop_inv (upd dst n1 s) f1 f2 (src, dst, raw)); [by eapply inv_same|done]. }
  unfold node_step in E. destruct (crashed n); [done|]. apply quiet_Some in E. unfold listen_receive in E.
  destruct (listener n) eqn:Hl; [|done..].
  destruct (ReadMessage raw) as [msg|e|w] eqn:HR; simplify_eq; [|by apply Hsame..].
  destruct (Put msg (trans n)) as [[t' l] created] eqn:HP. simplify_eq.
  destruct (v_flight _ _ I src dst raw msg) as [Hs Hne]; [rewrite Hf; apply elem_of_app; right; left|done|].
  destruct (taken_fields n t' l msg created) as (_ & _ & _ & Hli & _).
  change (if created then _ else _) with (taken n t' l msg created) in *.
  unfold arrival. rewrite Hli. by eapply taken_inv.
Qed.

Lemma broadcast_inv s p n n' e raw dests :
  inv s -> nodes s !! p = Some n -> node_step level n e = Some (n', Some raw) ->
  NoDup dests -> dests ⊆ peers n ->
  inv (mkNet (<[p := n']> (nodes s)) (flight s ++ ((fun q => (p, q, raw)) <$> dests)) (used s)
         (sent s ++ ((fun m => (p, m)) <$> readable raw)) (delivered s) (decided s)).
Proof.
  intros I Hn E Hnd Hsub. assert (node_wf n') as Hwf.
  { eapply node_wf_step; try done. destruct e; try done. unfold node_step in E.
    destruct (crashed n); [done|]. unfold quiet in E. by apply fmap_Some in E as (? & _ & ?). }
  unfold node_step in E. destruct (crashed n); [done|].
  destruct e; try (unfold quiet in E; by apply fmap_Some in E as (? & _ & ?)).
  - by eapply replicate_broadcast_inv.
  - by eapply handle_reply_inv.
  - done.
Qed.

Lemma net_step_inv s s' : inv s -> net_step level s s' -> inv s'.
Proof.
  intros I. destruct 1.
  - by eapply local_inv.
  - assert (fresh_event n (EvReplicate tid req)) as Hf.
    { simpl. destruct (ts (trans n) !! tid) as [l|] eqn:Hl; [|done].
      destruct (proj1 (nw_trans _ (ni_wf _ _ _ _ _ _ (v_node _ _ I _ _ H))) _ _ Hl) as (tr & Htr & Ht).
      by destruct (unused_tid _ _ _ _ _ _ I H H0 Htr). }
    pose proof (node_wf_step _ _ _ _ _ _ I H Hf H1) as Hwf.
    unfold node_step in H1. destruct (crashed n); [done|]. apply quiet_Some in H1.
    by eapply replicate_start_inv.
  - by eapply broadcast_inv.
  - by eapply deliver_inv.
  - by eapply drop_inv.
Qed.

Lemma net_init_node (f : string -> FS) p n :
  nodes (net_init names f) !! p = Some n -> p ∈ names /\ n = NewHost p (others p) (f p).
Proof.
  simpl. intros Hn%elem_of_list_to_map_2. apply list_elem_of_fmap in Hn as (q & [= -> ->] & Hq). done.
Qed.

Lemma net_init_inv (f : string -> FS) : inv (net_init names f).
Proof.
  split; try (simpl; intros; set_solver).
  - intros p n [Hp ->]%net_init_node. split; simpl; try done; try (intros *; by rewrite lookup_empty).
    apply NewHost_wf.
  - intros p q n n' tid x y [_ ->]%net_init_node _. simpl. by rewrite lookup_empty.
  - constructor.
  - constructor.
Qed.

(** The states the network can reach. *)
Definition reachable (f : string -> FS) s : Prop := steps (net_step level) (net_init names f) s.

Lemma reachable_inv f s : reachable f s -> inv s.
Proof. apply steps_invariant; [apply net_init_inv|]. intros a b Ha Hab. by eapply net_step_inv. Qed.
End agreement.
