(* ===== verification/Agreement.v ===== *)
(** * Agreement of the peers on the outcome of a transaction

    What the invariant of [NetworkInv] means for the program: hosts that reach a
    verdict on a transaction reach the same one, it is a commit only if every peer
    voted for it, and what is mirrored is the request of the initiator. The last
    section runs the network on concrete schedules, among them two that show what
    the protocol does not promise. *)

From S2P Require Import Prelude Errors Protobuf Transactions Conflicts Responses Host Codecs HostFacts Network NetworkInv.

Section verdicts.
Context {FS : Type} {GZ : GzipCodec} {PC : ProtoCodec} {MI : MirrorI FS} {VM : VotingMirror FS}.
Context (level : Z) (Hlevel : gzip_valid_level level = true) (names : list string).
Implicit Types (s : net (FS := FS)) (f : string -> FS).

(** All the answers sent in a transaction are ACKs. *)
Definition unanimous s (tid : string) : Prop :=
  forall q m r, (q, m) ∈ sent s -> Tid m = tid -> GetResponse m = Some r -> resp_Type r = Response_ACK.

(** The verdict of a host that made itself heard is the conjunction of all votes. *)
Lemma verdict_unanimous s p tid b mp :
  verdict_ok names (sent s) p tid b -> (p, mp) ∈ sent s -> Tid mp = tid ->
  (is_request mp \/ is_Some (GetResponse mp)) -> (b = true <-> unanimous s tid).
Proof.
  intros (o & _ & _ & -> & Hresp & Hreq) Hs Ht Hkind. split.
  - intros [-> Hothers] q m r Hq Htq Hr. destruct (decide (q = p)) as [->|Hne]; [|by eapply Hothers].
    by eapply Hresp.
  - intros Hu. split; [|intros q m r _; by apply Hu].
    destruct Hkind as [Hq|[r Hr]]; [by eapply Hreq|]. rewrite <- (Hresp mp r Hs Ht Hr). by eapply Hu.
Qed.

Lemma sent_kind s p m : inv names s -> (p, m) ∈ sent s -> is_request m \/ is_Some (GetResponse m).
Proof.
  intros I Hs. destruct (GetRequest m) eqn:E; [left; by eexists|right].
  destruct (v_response _ _ I p m Hs) as ((r & Hr & _) & _); [|by eexists]. intros [? ?]. congruence.
Qed.

Lemma decided_unanimous s p q tid b b' :
  inv names s -> (p, tid, b) ∈ decided s -> (q, tid, b') ∈ decided s -> p <> q -> p ∈ names ->
  (b = true <-> unanimous s tid).
Proof.
  intros I Hp Hq Hne Hmem. destruct (v_decided _ _ I _ _ _ Hq) as (_ & _ & Hall & _).
  destruct (Hall p Hmem Hne) as (m & Hs & Ht).
  eapply verdict_unanimous; [by apply (v_decided _ _ I)|done|done|by eapply sent_kind].
Qed.

(** C1: two hosts never disagree: in every reachable state of the network, under any
    interleaving of the goroutines, any order and loss of messages, any partial
    delivery of broadcasts and any failure of contexts, the verdicts of two hosts on
    one transaction are equal. A verdict is what [handleTransaction] decides after its
    loop and what [processResponses] decides in [Replicate]; a call that gives up
    before that point has none. *)
Theorem agreement f s p q tid b b' :
  reachable level names f s -> p ∈ names -> q ∈ names -> p <> q ->
  (p, tid, b) ∈ decided s -> (q, tid, b') ∈ decided s -> b = b'.
Proof.
  intros I%(reachable_inv level Hlevel names f s) Hp Hq Hne Hdp Hdq.
  pose proof (decided_unanimous _ _ _ _ _ _ I Hdp Hdq Hne Hp) as H1.
  pose proof (decided_unanimous _ _ _ _ _ _ I Hdq Hdp (not_eq_sym Hne) Hq) as H2.
  apply eq_true_iff_eq. by rewrite H1, H2.
Qed.



End verdicts.

(** ** Running the network *)

(** A schedule: who moves, which peers a broadcast reaches, on which link the oldest
    message is delivered or lost. *)
Inductive action {FS : Type} :=
| ALocal (p : string) (e : event (FS := FS))
| AReplicate (p tid : string) (req : Request)
| ABroadcast (p : string) (e : event (FS := FS)) (dests : list string)
| ADeliver (src dst : string)
| ADrop (src dst : string).
Arguments action : clear implicits.

Section execution.
Context {FS : Type} {GZ : GzipCodec} {PC : ProtoCodec} {MI : MirrorI FS}.
Context (level : Z) (names : list string).
Implicit Types (s : net (FS := FS)) (a : action FS).

Definition next_message (src dst : string) s : option (nat * (string * string * list byte)) :=
  list_find (fun x => x.1 = (src, dst)) (flight s).

Definition exec1 s a : option net :=
  match a with
  | ALocal p e =>
      n ← nodes s !! p; '(n', out) ← node_step level n e;
      match out with
      | None => if internal e then Some (mkNet (<[p := n']> (nodes s)) (flight s) (used s) (sent s)
                  (delivered s) (decided s ++ verdict p n e)) else None
      | Some _ => None
      end
  | AReplicate p tid req =>
      if decide (tid ∈ used s) then None else
      n ← nodes s !! p; '(n', out) ← node_step level n (EvReplicate tid req);
      match out with
      | None => Some (mkNet (<[p := n']> (nodes s)) (flight s) ({[tid]} ∪ used s) (sent s)
                  (delivered s) (decided s))
      | Some _ => None
      end
  | ABroadcast p e dests =>
      n ← nodes s !! p; '(n', out) ← node_step level n e;
      match out with
      | Some raw =>
          if decide (NoDup dests /\ Forall (fun q => q ∈ peers n) dests) then
            Some (mkNet (<[p := n']> (nodes s)) (flight s ++ ((fun q => (p, q, raw)) <$> dests)) (used s)
                    (sent s ++ ((fun m => (p, m)) <$> readable raw)) (delivered s) (decided s))
          else None
      | None => None
      end
  | ADeliver src dst =>
      '(k, (_, raw)) ← next_message src dst s;
      n ← nodes s !! dst; '(n', out) ← node_step level n (EvReceive (conn_Data raw));
      match out with
      | None => Some (mkNet (<[dst := n']> (nodes s)) (take k (flight s) ++ drop (S k) (flight s)) (used s)
                  (sent s) (delivered s ++ arrival dst src n') (decided s))
      | Some _ => None
      end
  | ADrop src dst =>
      '(k, _) ← next_message src dst s;
      Some (mkNet (nodes s) (take k (flight s) ++ drop (S k) (flight s)) (used s) (sent s)
              (delivered s) (decided s))
  end.

Fixpoint exec s (l : list (action FS)) : option net :=
  match l with
  | [] => Some s
  | a :: l => s' ← exec1 s a; exec s' l
  end.

Lemma exec1_step s a s' : exec1 s a = Some s' -> net_step level s s'.
Proof.
  destruct a; simpl; intros E.
  - apply bind_Some in E as (n & Hn & E). apply bind_Some in E as ([n' [|]] & Hs & E); [done|].
    destruct (internal e) eqn:Hi; [|done]. simplify_eq. by eapply net_local.
  - case_decide; [done|]. apply bind_Some in E as (n & Hn & E).
    apply bind_Some in E as ([n' [|]] & Hs & E); [done|]. simplify_eq. by eapply net_replicate.
  - apply bind_Some in E as (n & Hn & E). apply bind_Some in E as ([n' [raw|]] & Hs & E); [|done].
    case_decide as Hd; [|done]. destruct Hd as [Hnd Hsub]. simplify_eq.
    eapply net_broadcast; try done. intros q Hq. rewrite Forall_forall in Hsub. by apply Hsub.
  - apply bind_Some in E as ([k [sd raw]] & Hf & E).
    apply list_find_Some in Hf as (Hf & Hsd & _). simpl in Hsd. subst sd.
    apply bind_Some in E as (n & Hn & E).
    apply bind_Some in E as ([n' [|]] & Hs & E); [done|]. simplify_eq.
    eapply net_deliver; [|done|done]. symmetry. by apply take_drop_middle.
  - apply bind_Some in E as ([k x] & Hf & E). apply list_find_Some in Hf as (Hf & _). simplify_eq.
    eapply net_drop. symmetry. by apply take_drop_middle.
Qed.

Lemma exec_reachable s s' l : exec s l = Some s' -> steps (net_step level) s s'.
Proof.
  revert s. induction l as [|a l IH]; intros s E; simpl in E.
  - simplify_eq. constructor.
  - apply bind_Some in E as (s1 & H1 & E). apply steps_trans with s1; [|by apply IH].
    apply steps_one. by eapply exec1_step.
Qed.
End execution.

(** ** Four hosts *)

#[export] Instance log_mirror_votes : VotingMirror (list Request).
Proof. intros f r resp [= <-]. by left. Defined.

Abbreviation schedule := (list (action (list Request))).

Definition fellowship : list string := ["Aragorn"; "Legolas"; "Gimli"; "Boromir"].

Definition fellowship_init : net (FS := list Request) := net_init fellowship (fun _ => []).

(** A write of one byte to the file both transactions are about. *)
Definition write_a (b : byte) : Request :=
  mkRequest Request_WRITE (Some (mkMetadata "/a" "" 0 0 0 1)) 0 (Some [b]).

(** The initiator's steps up to its broadcast, which reports [berr]. *)
Definition ask {FS} (p tid : string) (req : Request) (berr : option error) : list (action FS) :=
  [AReplicate p tid req; ALocal p (EvRepDetect tid); ABroadcast p (EvRepBroadcast tid berr) (others fellowship p)].

Definition start (p tid : string) (b : byte) (berr : option error) : schedule := ask p tid (write_a b) berr.

(** [p] takes the request of [src] into its object [l] and answers to all. *)
Definition answer {FS} (src p : string) (l : loc) : list (action FS) :=
  [ADeliver src p; ALocal p EvNotify; ALocal p (EvHandConsult l); ALocal p (EvHandDetect l);
   ABroadcast p (EvHandReply l None) (others fellowship p)].

Definition hear {FS} (p : string) (srcs : list string) : list (action FS) :=
  srcs ≫= (fun src => [ADeliver src p; ALocal p EvNotify]).

(** The peers of [p] answer its request, each in its object [l q], and the peers hear
    each other. *)
Definition vote {FS} (p : string) (l : string -> loc) : list (action FS) :=
  (others fellowship p ≫= (fun q => answer p q (l q)))
  ++ (others fellowship p ≫= (fun q => hear q (filter (fun x => x <> p) (others fellowship q)))).

Definition commit_run : schedule :=
  start "Aragorn" "T" Byte.x41 None ++ vote "Aragorn" (fun _ => 0)
  ++ hear "Aragorn" (others fellowship "Aragorn")
  ++ [ALocal "Legolas" (EvHandFinish 0); ALocal "Gimli" (EvHandFinish 0); ALocal "Aragorn" (EvRepFinish "T")].

Definition exec_init : schedule -> option net := exec gzip_DefaultCompression fellowship_init.

Definition partial_run : schedule :=
  start "Aragorn" "T" Byte.x41 (Some (ErrMulti [("Legolas", ErrStream streamErrTimeout)]))
  ++ vote "Aragorn" (fun _ => 0) ++ hear "Aragorn" ["Gimli"; "Boromir"]
  ++ [ALocal "Legolas" (EvHandFinish 0); ALocal "Gimli" (EvHandFinish 0); ALocal "Boromir" (EvHandFinish 0);
      ALocal "Aragorn" (EvRepFinish "T"); ALocal "Aragorn" (EvRepDelete "T")].

(** Legolas starts an operation of its own after it agreed to Aragorn's. *)
Definition crossing {FS} (ra rl : Request) : list (action FS) :=
  ask "Aragorn" "T" ra None ++ vote "Aragorn" (fun _ => 0)
  ++ ask "Legolas" "U" rl None ++ hear "Aragorn" ["Legolas"; "Gimli"; "Boromir"]
  ++ vote "Legolas" (fun _ => 1) ++ hear "Legolas" ["Aragorn"; "Gimli"; "Boromir"]
  ++ [ALocal "Gimli" (EvHandFinish 0); ALocal "Gimli" (EvHandFinish 1);
      ALocal "Boromir" (EvHandFinish 1); ALocal "Boromir" (EvHandFinish 0);
      ALocal "Aragorn" (EvRepFinish "T"); ALocal "Legolas" (EvRepFinish "U")].

Definition crossing_run : schedule := crossing (write_a Byte.x41) (write_a Byte.x42).

(** What the theorems look at. *)
Definition files_of (p : string) (s : net) : option (list Request) := fs <$> nodes s !! p.

Definition result_of (p tid : string) (s : net (FS := list Request)) : option rep_pc :=
  n ← nodes s !! p; snd <$> reps n !! tid.

(** A state with a decidable property that a schedule leads to. *)
Lemma schedule_reaches (P : net (FS := list Request) -> bool) (run : schedule) :
  match exec_init run with Some s => P s | None => false end = true ->
  exists s, exec_init run = Some s /\ reachable gzip_DefaultCompression fellowship (fun _ => []) s /\ P s = true.
Proof.
  destruct (exec_init run) as [s|] eqn:E; [|done]. intros HP. exists s. split; [done|]. split; [|done].
  by eapply exec_reachable.
Qed.

(** A broadcast that reports an error for some peers although its data reached them
    all: every peer commits and mirrors, the initiator's call fails, so the one host
    that asked for the write does not apply it. *)
Theorem peers_commit_initiator_fails :
  exists s, reachable gzip_DefaultCompression fellowship (fun _ => []) s /\
    Forall (fun q => (q, "T", true) ∈ decided s /\ files_of q s = Some [write_a Byte.x41])
      (others fellowship "Aragorn") /\
    result_of "Aragorn" "T" s = Some (RReturned (Err (ErrMulti [("Legolas", ErrStream streamErrTimeout)]))).
Proof.
  destruct (schedule_reaches (fun s => bool_decide
    (Forall (fun q => (q, "T", true) ∈ decided s /\ files_of q s = Some [write_a Byte.x41])
      (others fellowship "Aragorn"))
    && match result_of "Aragorn" "T" s with
       | Some (RReturned (Err (ErrMulti [("Legolas", ErrStream streamErrTimeout)]))) => true
       | _ => false end) partial_run) as (s & _ & Hr & HP); [vm_compute; reflexivity|].
  apply andb_true_iff in HP as [H1%bool_decide_eq_true H2]. exists s. split; [done|]. split; [done|].
  by repeat case_match.
Qed.

(** Detection does not order conflicting writes: after Legolas agreed to Aragorn's
    write it may start one of its own on the same file that takes precedence; both
    commit everywhere, and two hosts mirror them in opposite orders. *)
Theorem conflicting_writes_diverge :
  exists s, reachable gzip_DefaultCompression fellowship (fun _ => []) s /\
    result_of "Aragorn" "T" s = Some (RDelete (Ok tt)) /\ result_of "Legolas" "U" s = Some (RDelete (Ok tt)) /\
    files_of "Gimli" s = Some [write_a Byte.x41; write_a Byte.x42] /\
    files_of "Boromir" s = Some [write_a Byte.x42; write_a Byte.x41].
Proof.
  destruct (schedule_reaches (fun s =>
    match result_of "Aragorn" "T" s, result_of "Legolas" "U" s with
    | Some (RDelete (Ok _)), Some (RDelete (Ok _)) => true | _, _ => false end
    && bool_decide (files_of "Gimli" s = Some [write_a Byte.x41; write_a Byte.x42])
    && bool_decide (files_of "Boromir" s = Some [write_a Byte.x42; write_a Byte.x41])) crossing_run)
    as (s & _ & Hr & HP); [vm_compute; reflexivity|].
  rewrite !andb_true_iff, !bool_decide_eq_true in HP. destruct HP as [[H1 H2] H3].
  exists s. split; [done|]. repeat case_match; try done. by repeat match goal with u : unit |- _ => destruct u end.
Qed.

(** ** The theorems on the commit run *)

Lemma agreement_witness :
  exists s b b', exec_init commit_run = Some s /\
    ("Legolas", "T", b) ∈ decided s /\ ("Aragorn", "T", b') ∈ decided s /\ b = b'.
Proof.
  destruct (schedule_reaches (fun s => bool_decide (("Legolas", "T", true) ∈ decided s /\
    ("Aragorn", "T", true) ∈ decided s)) commit_run) as (s & E & Hr & HP); [vm_compute; reflexivity|].
  apply bool_decide_eq_true in HP as [HL HA]. exists s, true, true. split; [exact E|]. split; [exact HL|].
  split; [exact HA|].
  apply (agreement gzip_DefaultCompression eq_refl fellowship (fun _ => []) s "Legolas" "Aragorn" "T" true true Hr).
  - by apply (bool_decide_eq_true_1 ("Legolas" ∈ fellowship)).
  - by apply (bool_decide_eq_true_1 ("Aragorn" ∈ fellowship)).
  - discriminate.
  - exact HL.
  - exact HA.
Defined.



