(* ===== verification/Verdicts.v ===== *)
(** * One verdict per host and transaction

    A transaction can have several objects on a host, one after the other: late messages
    open a new one. Only one of them can hear all peers, since every peer speaks once in
    a transaction; so a host decides on a transaction at most once, and calls [Mirror] for
    it at most once. *)

From S2P Require Import Prelude Errors Protobuf Transactions Conflicts Responses Host Codecs HostFacts Network NetworkInv Agreement.

Section verdicts.
Context {FS : Type} {GZ : GzipCodec} {PC : ProtoCodec} {MI : MirrorI FS} {VM : VotingMirror FS}.
Context (level : Z) (Hlevel : gzip_valid_level level = true) (names : list string).
Implicit Types (n : node FS) (s : net (FS := FS)) (e : event (FS := FS)).

Definition hand_over (pc : hand_pc) : bool := match pc with HDelete _ | HGone _ => true | _ => false end.
Definition rep_over (pc : rep_pc) : bool := match pc with RDelete _ | RReturned _ => true | _ => false end.

(** The goroutine that works on the object [l] of the transaction is past its loop. *)
Definition over n (tid : string) (l : loc) : Prop :=
  (exists pc tr, handlers n !! l = Some pc /\ hand_over pc = true /\ heap (trans n) !! l = Some tr /\ t_Tid tr = tid) \/
  (exists pc, reps n !! tid = Some (l, pc) /\ rep_over pc = true).

(** It stays there. *)
Lemma over_handler n l l' pc pc' tid :
  handlers n !! l' = Some pc' -> hand_over pc' = false \/ hand_over pc = true ->
  over n tid l -> over (set_handler l' pc n) tid l.
Proof.
  intros Hpc Hov [(pc0 & tr & Hh & Ho & H)|H]; [|by right]. left. simpl.
  destruct (decide (l = l')) as [->|Hne].
  - rewrite lookup_insert_eq. simplify_eq. destruct Hov; [congruence|eauto 10].
  - rewrite lookup_insert_ne by done. eauto 10.
Qed.

Lemma over_rep n l l' pc tid tid' :
  (forall pc', reps n !! tid' = Some (l', pc') -> rep_over pc' = false \/ rep_over pc = true) ->
  (forall x, reps n !! tid' = Some x -> x.1 = l') ->
  over n tid l -> over (set_rep tid' l' pc n) tid l.
Proof.
  intros Hov Hl [H|(pc0 & Hr & Ho)]; [by left|]. right. simpl. destruct (decide (tid = tid')) as [->|Hne].
  - rewrite lookup_insert_eq. specialize (Hl _ Hr). simpl in Hl. subst.
    destruct (Hov _ Hr); [congruence|eauto].
  - rewrite lookup_insert_ne by done. eauto.
Qed.

Lemma over_same n n' tid l :
  handlers n' = handlers n -> reps n' = reps n -> heap (trans n') = heap (trans n) -> over n tid l -> over n' tid l.
Proof. unfold over. by intros -> -> ->. Qed.

Lemma over_Put n m t' l' b tid l :
  node_wf n -> Put m (trans n) = (t', l', b) -> over n tid l -> over (set_trans t' n) tid l.
Proof.
  intros W HPut [(pc & tr & Hh & Ho & Htr & Ht)|H]; [|by right]. left. simpl.
  destruct (Put_heap_mono _ _ _ _ _ _ _ (nw_trans _ W) HPut Htr) as (tr' & Htr' & Ht'). exists pc, tr'. by rewrite Ht'.
Qed.

Lemma over_receive n m n' tid l : node_wf n -> listen_receive m n = Some n' -> over n tid l -> over n' tid l.
Proof.
  unfold listen_receive. intros W E Hov. destruct (listener n); [|done..]. destruct m as [|raw]; [by simplify_eq|].
  destruct (ReadMessage raw) as [msg|e|w]; [|by simplify_eq|simplify_eq; by eapply over_same].
  destruct (Put msg (trans n)) as [[t' l'] b] eqn:HPut. pose proof (over_Put _ _ _ _ _ _ _ W HPut Hov) as H.
  destruct b; simplify_eq; [|by eapply over_same].
  destruct (Put_fresh _ _ _ _ (nw_trans _ W) HPut) as [Hfree _].
  destruct H as [(pc & tr & Hh & Ho)|H]; [left|by right]. exists pc, tr. simpl in *.
  rewrite lookup_insert_ne; [done|]. intros ->. apply (nw_handlers _ W) in Hh. by rewrite Hfree in Hh; destruct Hh.
Qed.

Lemma over_start n tid' req n' tid l : node_wf n -> replicate_start level tid' req n = Some n' -> over n tid l -> over n' tid l.
Proof.
  unfold replicate_start. intros W E Hov. destruct (reps n !! tid') eqn:Hr; [done|].
  destruct (NewRequestMessage level tid' (Name n) req).2 as [m|e|w].
  - destruct (Put m (trans n)) as [[t' l'] b] eqn:HPut. simplify_eq.
    apply over_rep; [by intros ?; simpl; rewrite Hr..|]. by eapply over_Put.
  - simplify_eq. by apply over_rep; [by intros ?; rewrite Hr..|].
  - simplify_eq. by eapply over_same.
Qed.

Lemma over_replicate n e n' out tid l :
  (exists tid', e = EvRepDetect tid' \/ (exists b, e = EvRepBroadcast tid' b) \/ (exists x, e = EvRepCtxDone tid' x) \/
     e = EvRepFinish tid' \/ e = EvRepDelete tid') ->
  node_step level n e = Some (n', out) -> over n tid l -> over n' tid l.
Proof.
  intros [tid' He] E Hov. unfold node_step, quiet in E. destruct (crashed n); [done|].
  assert (forall n1 l' pc pc', reps n !! tid' = Some (l', pc') -> reps n1 = reps n -> over n1 tid l ->
    rep_over pc' = false \/ rep_over pc = true -> over (set_rep tid' l' pc n1) tid l) as Hset.
  { intros n1 l' pc pc' Hr Hreps Ho Hpc. apply over_rep; [..|done].
    - intros pc''. rewrite Hreps, Hr. by intros [= <-].
    - intros x. rewrite Hreps, Hr. by intros [= <-]. }
  destruct He as [->|[[b ->]|[[x ->]|[->| ->]]]]; simpl in E; try apply fmap_Some in E as (n1 & E & [= -> ->]);
    unfold replicate_detect, replicate_broadcast, replicate_ctx_done, replicate_finish, replicate_delete in E;
    destruct (reps n !! tid') as [[l' pc']|] eqn:Hr; try done; destruct pc'; try done.
  - destruct (DetectAndResolveConflict _ _); simplify_eq; try by eapply over_same.
    + eapply Hset; [reflexivity|done|done|by left].
    + eapply Hset; [reflexivity|done|by eapply over_same|by left].
  - destruct (broadcast message b) as [o err]. destruct (after_broadcast _ _); simplify_eq; try by eapply over_same.
    + eapply Hset; [reflexivity|done|done|by left].
    + eapply Hset; [reflexivity|done|done|by left].
  - destruct remaining; simplify_eq. eapply Hset; [reflexivity|done|done|by left].
  - destruct remaining as [|k]; [|by destruct err]. destruct err as [e|]; [simplify_eq; eapply Hset; [reflexivity|done|done|by left]|].
    apply bind_Some in E as (rs & _ & E). destruct (processResponses rs _) as [c' res].
    destruct res; simplify_eq; try by eapply over_same.
    all: eapply Hset; [reflexivity|done|by eapply over_same|by left].
  - simplify_eq. eapply Hset; [reflexivity|done|by eapply over_same|by right].
Qed.

Lemma over_handle n e n' out tid l :
  (exists l', (exists x, e = EvHandCtxDone l' x) \/ e = EvHandConsult l' \/ e = EvHandDetect l' \/ (exists b, e = EvHandReply l' b) \/
     e = EvHandFinish l' \/ e = EvHandDelete l') ->
  node_step level n e = Some (n', out) -> over n tid l -> over n' tid l.
Proof.
  intros [l' He] E Hov. unfold node_step, quiet in E. destruct (crashed n); [done|].
  assert (forall n1 pc pc', handlers n !! l' = Some pc' -> handlers n1 = handlers n -> over n1 tid l ->
    hand_over pc' = false \/ hand_over pc = true -> over (set_handler l' pc n1) tid l) as Hset.
  { intros n1 pc pc' Hh Hhs Ho Hpc. eapply over_handler; [by rewrite Hhs|done|done]. }
  destruct He as [[x ->]|[->|[->|[[b ->]|[->| ->]]]]]; simpl in E; try apply fmap_Some in E as (n1 & E & [= -> ->]);
    unfold handle_ctx_done, handle_consult, handle_detect, handle_reply, handle_finish, handle_delete in E;
    destruct (handlers n !! l') as [pc'|] eqn:Hh; try done; destruct pc'; try done.
  - destruct remaining; simplify_eq. eapply Hset; [reflexivity|done|done|by left].
  - destruct (Consult _ _) as [[resp|]|[]|]; simplify_eq; [|by eapply over_same..].
    case_bool_decide; simplify_eq; (eapply Hset; [reflexivity|done|done|by left]).
  - destruct (conflict_response _ _) as [resp|[]|]; simplify_eq; try by eapply over_same. eapply Hset; [reflexivity|done|done|by left].
  - destruct (broadcast _ _) as [o err]. simplify_eq. eapply Hset; [reflexivity|done|done|by left].
  - destruct remaining; [|done]. apply bind_Some in E as (tr & _ & E). destruct (permitted _ _); simplify_eq.
    + destruct (MirrorOp _ _) as [f' res]. destruct res; try by eapply over_same.
      all: eapply Hset; [reflexivity|done|by eapply over_same|by left].
    + eapply Hset; [reflexivity|done|done|by left].
  - apply bind_Some in E as (tr & _ & E). simplify_eq. eapply Hset; [reflexivity|done|by eapply over_same|by right].
Qed.

Lemma over_notify n n' tid l : notify n = Some n' -> over n tid l -> over n' tid l.
Proof.
  unfold notify. intros E Hov. destruct (listener n) as [|l' msg|]; [done| |done].
  assert (over (set_listener LSelect n) tid l) as H by (by eapply over_same).
  destruct (handlers n !! l') as [[[|k] ours| | | | |]|] eqn:Hh;
    try (destruct (reps n !! Tid msg) as [[l2 [| |[|k'] err| |]]|] eqn:Hr; try done;
         destruct (Nat.eqb_spec l2 l'); [|done]; simplify_eq; apply over_rep; simpl; [intros pc; rewrite Hr; by intros [= <-]; left
         |intros x; rewrite Hr; by intros [= <-]|done]).
  simplify_eq. eapply over_handler; [done|by left|done].
Qed.

Lemma over_step n e n' out tid l :
  node_wf n -> node_step level n e = Some (n', out) -> over n tid l -> over n' tid l.
Proof.
  intros W E Hov. pose proof E as E'. unfold node_step, quiet in E. destruct (crashed n); [done|].
  destruct e; try (by eapply over_replicate; [|exact E'|]; eauto 10); try (by eapply over_handle; [|exact E'|]; eauto 10);
    try apply fmap_Some in E as (n1 & E & [= -> ->]).
  - by eapply over_start.
  - by eapply over_receive.
  - by eapply over_notify.
  - unfold listen_ctx_done in E. destruct (listener n), (cancelled n); simplify_eq; by eapply over_same.
  - unfold Close in E. case_bool_decide; simplify_eq. by eapply over_same.
  - simplify_eq. by eapply over_same.
Qed.

(** ** The network *)

Abbreviation full s p l := (length (box p l (delivered s)) = length (others names p)).

(** Who decided is past its loop, on an object that heard everybody, or crashed. *)
Record settled s : Prop := {
  st_once : NoDup (fst <$> decided s);
  st_over p tid b n : (p, tid, b) ∈ decided s -> nodes s !! p = Some n ->
    is_Some (crashed n) \/ exists l, over n tid l /\ full s p l;
}.

Lemma over_object n tid l : node_wf n -> over n tid l -> exists tr, heap (trans n) !! l = Some tr /\ t_Tid tr = tid.
Proof.
  intros W [(pc & tr & _ & _ & H)|(pc & Hr & _)]; [eauto|]. by destruct (nw_reps _ W _ _ _ Hr) as (_ & tr & ? & ?); eauto.
Qed.

(** At most one object of a transaction hears everybody. *)
Lemma full_unique s p n l l' tr tr' :
  inv names s -> nodes s !! p = Some n -> heap (trans n) !! l = Some tr -> heap (trans n) !! l' = Some tr' ->
  t_Tid tr = t_Tid tr' -> full s p l -> full s p l' -> box p l (delivered s) <> [] -> l = l'.
Proof.
  intros I Hn Htr Htr' Ht Hf Hf' Hne. destruct (box p l (delivered s)) as [|[q m] b] eqn:Hb; [done|].
  assert ((q, m) ∈ box p l (delivered s)) as Hin by (rewrite Hb; left).
  destruct (box_delivered _ _ _ _ _ _ I Hn Hin) as (_ & Ho & Hm). simpl in *. apply elem_of_others in Ho as [Hq Hqp].
  destruct (box_hears names s p n l' tr' I Hn Htr') with (p := q) as (m' & Hin' & Hm'); [lia|done|done|].
  eapply (delivery_unique (delivered s) p l l' q m m'); [by eapply keys_delivered|by apply elem_of_box..|].
  rewrite Hm', <- Ht. symmetry. by apply Hm.
Qed.

(** A goroutine in its loop and one past it cannot both have heard everybody. *)
Lemma undecided s p n tid l tr :
  inv names s -> nodes s !! p = Some n -> heap (trans n) !! l = Some tr -> t_Tid tr = tid -> full s p l ->
  (exists ours, handlers n !! l = Some (HWait 0 ours)) \/ reps n !! tid = Some (l, RWait 0 None) ->
  forall l', over n tid l' -> full s p l' -> False.
Proof.
  intros I Hn Htr Ht Hf Hpc l' Hov Hf'. pose proof (v_node _ _ I _ _ Hn) as N. pose proof (ni_wf _ _ _ _ _ _ N) as W.
  destruct (over_object _ _ _ W Hov) as (tr' & Htr' & Ht').
  assert (box p l (delivered s) <> [] -> l = l') as Heq by (intros; by eapply full_unique; eauto; congruence).
  assert (box p l' (delivered s) <> [] -> l' = l) as Heq' by (intros; by eapply full_unique; eauto; congruence).
  destruct Hpc as [[ours Hh]|Hr].
  - specialize (Heq (ni_taken _ _ _ _ _ _ N _ _ Hh)). subst l'. destruct Hov as [(pc & ? & ? & ? & _)|(pc & Hr & _)]; [by simplify_eq|].
    destruct (nw_reps _ W _ _ _ Hr). congruence.
  - destruct Hov as [(pc & ? & Hh & ? & _)|(pc & Hr' & ?)]; [|by simplify_eq].
    specialize (Heq' (ni_taken _ _ _ _ _ _ N _ _ Hh)). subst l'. destruct (nw_reps _ W _ _ _ Hr). congruence.
Qed.

(** What an event decides, and how the goroutine stands before and after it. *)
Lemma verdict_over s p n n' e x :
  inv names s -> nodes s !! p = Some n -> node_step level n e = Some (n', None) -> x ∈ verdict p n e ->
  verdict p n e = [x] /\ x.1.1 = p /\ exists l tr, heap (trans n) !! l = Some tr /\ t_Tid tr = x.1.2 /\ full s p l /\
    ((exists ours, handlers n !! l = Some (HWait 0 ours)) \/ reps n !! x.1.2 = Some (l, RWait 0 None)) /\
    (is_Some (crashed n') \/ over n' x.1.2 l).
Proof.
  intros I Hn E Hx. pose proof (v_node _ _ I _ _ Hn) as N. pose proof (ni_wf _ _ _ _ _ _ N) as W.
  unfold node_step, quiet in E. destruct (crashed n); [done|].
  destruct e; simpl in Hx; try by inversion Hx.
  - destruct (reps n !! tid) as [[l [| |[|k] [e|]| |]]|] eqn:Hr; try by inversion Hx.
    destruct (nw_reps _ W _ _ _ Hr) as (Hnone & tr & Htr & Ht). simpl. rewrite Hr. rewrite Htr in *.
    apply list_elem_of_singleton in Hx as ->. split; [done|]. split; [done|]. exists l, tr. simpl. split; [done|]. split; [done|].
    pose proof (ni_count_rep _ _ _ _ _ _ N _ _ _ Hr) as Hlen. rewrite Nat.add_0_r in Hlen.
    destruct (box_full names s p n l tr I Hn Htr Hlen) as [Hp0 _]. split; [lia|]. split; [by right|].
    apply fmap_Some in E as (n1 & E & [= ->]). unfold replicate_finish in E. rewrite Hr, Htr in E. simpl in E.
    destruct (processResponses _ _) as [c' res]. destruct res; simplify_eq; simpl; [right|right|left; by eexists];
      right; eexists; simpl; by rewrite lookup_insert_eq.
  - destruct (handlers n !! l) as [[[|k] ours| | | | |]|] eqn:Hh; try by inversion Hx.
    destruct (heap (trans n) !! l) as [tr|] eqn:Htr; [|by inversion Hx]. simpl. rewrite Hh, Htr.
    apply list_elem_of_singleton in Hx as ->. split; [done|]. split; [done|]. exists l, tr. simpl. split; [done|]. split; [done|].
    pose proof (ni_count _ _ _ _ _ _ N _ _ _ Hh eq_refl) as Hlen. rewrite Nat.add_0_r in Hlen.
    destruct (box_full names s p n l tr I Hn Htr Hlen) as [Hp0 _]. split; [lia|]. split; [left; by eexists|].
    apply fmap_Some in E as (n1 & E & [= ->]). unfold handle_finish in E. rewrite Hh, Htr in E. simpl in E.
    assert (forall f res, over (set_handler l (HDelete res) (set_fs f n)) (t_Tid tr) l) as Ho.
    { intros f res. left. exists (HDelete res), tr. simpl. by rewrite lookup_insert_eq. }
    destruct (permitted _ _); simplify_eq.
    + destruct (MirrorOp _ _) as [f' [| |]]; [by right|by right|left; by eexists].
    + right. exact (Ho (fs n) _).
Qed.

Lemma full_grows s s' q n l tid d :
  inv names s' -> nodes s' !! q = Some n -> over n tid l -> delivered s' = delivered s ++ d -> full s q l -> full s' q l.
Proof.
  intros I' Hn Hov Hd Hf. destruct (over_object _ _ _ (ni_wf _ _ _ _ _ _ (v_node _ _ I' _ _ Hn)) Hov) as (tr & Htr & _).
  destruct (box_bound names s' q n l tr I' Hn Htr) as [_ Hle]. rewrite Hd, box_app, length_app in *. lia.
Qed.

Lemma settled_kept s s' p n n' e out d q tid b nq :
  inv names s -> inv names s' -> settled s -> nodes s !! p = Some n -> node_step level n e = Some (n', out) ->
  nodes s' = <[p := n']> (nodes s) -> delivered s' = delivered s ++ d ->
  (q, tid, b) ∈ decided s -> nodes s' !! q = Some nq -> is_Some (crashed nq) \/ exists l, over nq tid l /\ full s' q l.
Proof.
  intros I I' S Hn E Hns Hd Hdec Hq. pose proof Hq as Hq'. rewrite Hns in Hq. destruct (decide (q = p)) as [->|Hne].
  - rewrite lookup_insert_eq in Hq. simplify_eq. destruct (st_over _ S _ _ _ _ Hdec Hn) as [[w Hw]|(l & Hov & Hf)].
    + unfold node_step in E. by rewrite Hw in E.
    + right. exists l. assert (over nq tid l) as Ho.
      { eapply over_step; [|done|done]. apply (ni_wf _ _ _ _ _ _ (v_node _ _ I _ _ Hn)). }
      split; [done|]. by eapply full_grows.
  - rewrite lookup_insert_ne in Hq by done. destruct (st_over _ S _ _ _ _ Hdec Hq) as [?|(l & Hov & Hf)]; [by left|].
    right. exists l. split; [done|]. by eapply full_grows.
Qed.

Lemma settled_step s s' : inv names s -> settled s -> net_step level s s' -> settled s'.
Proof.
  intros I S Hs. pose proof (net_step_inv level Hlevel names s s' I Hs) as I'.
  destruct Hs as [p n n' e Hn Hint E|p n n' tid req Hn Hu E|p n n' e raw dests Hn E Hnd Hsub|f1 f2 src dst raw n n' Hf Hn E|f1 f2 x Hf].
  - pose proof (fun x => verdict_over s p n n' e x I Hn E) as HV.
    split; simpl.
    + rewrite fmap_app. destruct (verdict p n e) as [|x v] eqn:Ev; [rewrite app_nil_r; apply S|].
      destruct (HV x) as ([= ->] & Hp & l & tr & Htr & Ht & Hf & Hpc & _); [by left|]. apply NoDup_app. split; [apply S|].
      split; [|apply NoDup_singleton]. intros k Hk ->%list_elem_of_singleton.
      apply list_elem_of_fmap in Hk as ([[q tid] b] & Hx & Hd). destruct x as [[px tx] bx]. simpl in *. simplify_eq.
      destruct (st_over _ S _ _ _ _ Hd Hn) as [[w Hw]|(l' & Hov & Hf')]; [by unfold node_step in E; rewrite Hw in E|].
      exact (undecided s q n _ l tr I Hn Htr eq_refl Hf Hpc l' Hov Hf').
    + intros q tid b nq [Hd|Hd]%elem_of_app Hq; [exact (settled_kept s _ p n n' e None [] q tid b nq I I' S Hn E eq_refl (eq_sym (app_nil_r _)) Hd Hq)|].
      destruct (HV _ Hd) as (_ & Hp & l & tr & _ & _ & Hf & _ & Hend). simpl in *. subst q.
      rewrite lookup_insert_eq in Hq. simplify_eq. destruct Hend; [by left|right]. exists l. done.
  - split; [apply S|]. intros q tid' b nq Hd Hq. eapply (settled_kept s _ p n n'); eauto. simpl. by rewrite app_nil_r.
  - split; [apply S|]. intros q tid' b nq Hd Hq. eapply (settled_kept s _ p n n'); eauto. simpl. by rewrite app_nil_r.
  - split; [apply S|]. intros q tid' b nq Hd Hq. by eapply (settled_kept s _ dst n n'); eauto.
  - split; apply S.
Qed.

Lemma reachable_settled f s : reachable level names f s -> settled s.
Proof.
  intros Hr. enough (inv names s /\ settled s) by tauto. revert Hr. apply (steps_invariant _ (fun s => inv names s /\ settled s)).
  - split; [by apply (net_init_inv level Hlevel)|]. split; simpl; [constructor|]. intros p tid b n Hd. inversion Hd.
  - intros a b [I S] Hab. split; [by eapply (net_step_inv level Hlevel)|by eapply settled_step].
Qed.

(** C4: A host decides on a transaction at most once: under any interleaving, whatever
    messages come late and however often an object for the transaction is opened again,
    there is at most one verdict per host and transaction. As [Mirror] is called only on
    the verdict of a handler, no request is mirrored twice by a host. *)
Theorem at_most_one_verdict f s p tid :
  reachable level names f s ->
  length (filter (fun x => x.1 = (p, tid)) (decided s)) <= 1.
Proof.
  intros Hr%reachable_settled%st_once. revert Hr. generalize (decided s). clear.
  induction l as [|x l IH]; [simpl; lia|]. rewrite fmap_cons. intros [Hx Hnd]%NoDup_cons.
  rewrite filter_cons. case_decide as E; [|by apply IH]. simpl.
  assert (filter (fun y => y.1 = (p, tid)) l = []) as ->; [|simpl; lia].
  apply elem_of_nil_inv. intros y [Ey Hy]%list_elem_of_filter. apply Hx. rewrite E, <- Ey. by apply list_elem_of_fmap_2.
Qed.
End verdicts.

(** In the commit run Legolas decided, so it decided exactly once. *)
Lemma at_most_one_verdict_witness :
  exists s, exec_init commit_run = Some s /\ ("Legolas", "T", true) ∈ decided s /\
    length (filter (fun x => x.1 = ("Legolas", "T")) (decided s)) <= 1.
Proof.
  destruct (schedule_reaches (fun s => bool_decide (("Legolas", "T", true) ∈ decided s)) commit_run)
    as (s & E & Hr & HP%bool_decide_eq_true); [vm_compute; reflexivity|].
  exists s. split; [exact E|]. split; [exact HP|].
  exact (at_most_one_verdict gzip_DefaultCompression eq_refl fellowship (fun _ => []) s "Legolas" "T" Hr).
Defined.
