(* ===== verification/Convergence.v ===== *)
(** * Operations one after another: every replica gets every one

    The runs of [ReplicateRun] and [HostRuns] put together in the network: an operation
    that is started on a network at rest, and to which nobody objects, is mirrored by
    every peer, and the network is at rest again. Hence operations that do not overlap
    reach every replica. *)

From S2P Require Import Prelude Errors Protobuf Transactions Conflicts Responses Host Codecs HostFacts HostRuns ReplicateRun.
From S2P Require Import Network NetworkInv Agreement.

Section lifting.
Context {FS : Type} {GZ : GzipCodec} {PC : ProtoCodec} {MI : MirrorI FS}.
Context (level : Z).
Implicit Types (n : node FS) (s : net (FS := FS)) (e : event (FS := FS)).

(** ** Runs of one host in the network *)

Definition inbound e : list (list byte) :=
  match e with EvReceive (conn_Data raw) => [raw] | _ => [] end.

Definition starts e : bool := match e with EvReplicate _ _ => true | _ => false end.

(** The copies of a broadcast. *)
Definition copies (p : string) (raw : list byte) (dests : list string) : list (string * string * list byte) :=
  (fun q => (p, q, raw)) <$> dests.

Lemma node_step_static n e n' out :
  node_step level n e = Some (n', out) -> Name n' = Name n /\ peers n' = peers n.
Proof.
  unfold node_step, quiet. intros E. destruct (crashed n); [done|].
  destruct e; simpl in E; try apply fmap_Some in E as (n1 & E & [= -> ->]);
    unfold replicate_start, replicate_detect, replicate_broadcast, replicate_ctx_done, replicate_finish, replicate_delete,
      listen_receive, notify, listen_ctx_done, Close, handle_ctx_done, handle_consult, handle_detect, handle_reply,
      handle_finish, handle_delete in E; simplify_option_eq; repeat (case_match; simplify_option_eq); done.
Qed.

Lemma node_step_quiet n e n' raw :
  node_step level n e = Some (n', Some raw) -> inbound e = [] /\ starts e = false.
Proof.
  unfold node_step, quiet. intros E. destruct (crashed n); [done|].
  destruct e; simpl in *; try done; by apply fmap_Some in E as (? & _ & [=]).
Qed.

(** What a run of one host does to the network: it takes its inbox out of flight and
    puts a copy of each of its broadcasts on every link. *)
Lemma lift_run es s q n n' outs inbox rest :
  nodes s !! q = Some n -> run level n es = Some (n', outs) -> NoDup (peers n) ->
  Forall (fun e => starts e = false) es -> inbox.*2 = flat_map inbound es ->
  flight s ≡ₚ ((fun x => (x.1, q, x.2)) <$> inbox) ++ rest ->
  exists s', steps (net_step level) s s' /\ nodes s' = <[q := n']> (nodes s) /\ used s' = used s /\
    flight s' ≡ₚ rest ++ (outs ≫= fun raw => copies q raw (peers n)).
Proof.
  revert s n outs inbox rest. induction es as [|e es IH]; intros s n outs inbox rest Hn Hr Hnd Hst Hin Hfl; simpl in Hr.
  { simplify_eq. destruct inbox; [|done]. exists s. split; [constructor|]. simpl in *. rewrite insert_id by done.
    by rewrite app_nil_r. }
  apply bind_Some in Hr as ([n1 out] & E & Hr). apply bind_Some in Hr as ([n2 outs'] & Hr & [= -> <-]).
  apply Forall_cons in Hst as [He Hst]. destruct (node_step_static _ _ _ _ E) as [_ Hp]. rewrite <- Hp in Hnd.
  assert (exists s1 inbox', net_step level s s1 /\ nodes s1 = <[q := n1]> (nodes s) /\ used s1 = used s /\
    inbox'.*2 = flat_map inbound es /\
    flight s1 ≡ₚ ((fun x => (x.1, q, x.2)) <$> inbox') ++ (rest ++ (option_list out ≫= fun raw => copies q raw (peers n))))
    as (s1 & inbox' & Hs1 & Hn1 & Hu1 & Hin1 & Hfl1).
  { destruct out as [raw|].
    - destruct (node_step_quiet _ _ _ _ E) as [Hi _]. simpl in Hin. rewrite Hi in Hin. rewrite Hp in Hnd.
      eexists _, inbox. split; [by eapply net_broadcast|]. split; [done|]. split; [done|]. split; [done|].
      simpl. rewrite Hfl, app_nil_r. by rewrite <- app_assoc.
    - simpl. rewrite app_nil_r. destruct (inbound e) as [|raw ?] eqn:Hi.
      + simpl in Hin. rewrite Hi in Hin. eexists _, inbox. split; [eapply net_local; [done| |done]|done].
        by destruct e as [| | | | | |[]| | | | | | | | | |].
      + assert (e = EvReceive (conn_Data raw)) as -> by (by destruct e as [| | | | | |[]| | | | | | | | | |]; simplify_eq/=).
        simpl in Hin. destruct inbox as [|[src raw'] inbox]; simplify_eq/=.
        assert ((src, q, raw) ∈ flight s) as Hel by (rewrite Hfl; by left).
        apply list_elem_of_split in Hel as (f1 & f2 & Hf). eexists _, inbox.
        split; [by eapply net_deliver|]. split; [done|]. split; [done|]. split; [done|]. simpl.
        rewrite Hf in Hfl. symmetry in Hfl. symmetry. by eapply Permutation_cons_app_inv. }
  destruct (IH s1 n1 outs' inbox' (rest ++ (option_list out ≫= fun raw => copies q raw (peers n))))
    as (s2 & Hs2 & Hn2 & Hu2 & Hfl2); try done.
  { by rewrite Hn1, lookup_insert_eq. }
  exists s2. split; [by eapply steps_trans; [apply steps_one|]|]. split; [by rewrite Hn2, Hn1, insert_insert_eq|].
  split; [congruence|]. rewrite Hfl2, bind_app, Hp. by rewrite <- app_assoc.
Qed.
End lifting.

(** ** Lists of messages *)

Lemma bind_split {A B} (l : list A) (f g : A -> list B) : (l ≫= fun x => f x ++ g x) ≡ₚ (l ≫= f) ++ (l ≫= g).
Proof. induction l as [|x l IH]; simpl; [done|]. rewrite IH. solve_Permutation. Qed.

Lemma bind_swap {A B C} (xs : list A) (ys : list B) (f : A -> B -> list C) :
  (xs ≫= fun x => ys ≫= f x) ≡ₚ (ys ≫= fun y => xs ≫= fun x => f x y).
Proof.
  induction xs as [|x xs IH]; simpl; [|by rewrite bind_split, IH]. induction ys; simpl; done.
Qed.

Lemma fmap_others {A} (f : string -> A) l p : f <$> others l p = l ≫= (fun q => if decide (q <> p) then [f q] else []).
Proof.
  unfold others. induction l as [|x l IH]; [done|]. rewrite filter_cons, bind_cons, <- IH. by case_decide.
Qed.

Lemma others_others_comm l p q : others (others l p) q = others (others l q) p.
Proof.
  unfold others. induction l as [|x l IH]; [done|]. rewrite !(filter_cons _ x l).
  repeat (case_decide; rewrite ?filter_cons); try done. by rewrite IH.
Qed.

Lemma others_length l p : NoDup l -> p ∈ l -> length l = S (length (others l p)).
Proof.
  unfold others. induction 1 as [|x l Hx Hnd IH]; [by inversion 1|]. intros [->|Hp]%elem_of_cons.
  - rewrite filter_cons_False by auto. simpl. f_equal. clear IH. induction l as [|y l IHl]; [done|].
    apply not_elem_of_cons in Hx as [Hy Hx]. apply NoDup_cons in Hnd as [_ Hnd].
    rewrite filter_cons_True by congruence. simpl. f_equal. by apply IHl.
  - rewrite filter_cons_True by (by intros ->). simpl. f_equal. by apply IH.
Qed.

(** What the peers of [a] send to everybody, ordered by sender and by receiver. *)
Lemma answers_by_receiver (ack : string -> list byte) l a :
  (others l a ≫= fun x => copies x (ack x) (others l x)) ≡ₚ
  (l ≫= fun q => (fun x => (x, q, ack x)) <$> others (others l a) q).
Proof.
  trans (others l a ≫= fun x => l ≫= fun q => if decide (q <> x) then [(x, q, ack x)] else []).
  - apply reflexive_eq, list_bind_ext; [|done]. intros x. apply fmap_others.
  - rewrite bind_swap. apply reflexive_eq, list_bind_ext; [|done]. intros q. rewrite fmap_others.
    apply list_bind_ext; [|done]. intros x. by repeat case_decide; try congruence.
Qed.

Section rounds.
Context {FS : Type} {GZ : GzipCodec} {PC : ProtoCodec} {MI : MirrorI FS} {VM : VotingMirror FS}.
Context (level : Z) (Hlevel : gzip_valid_level level = true) (names : list string) (Hnames : NoDup names).
Implicit Types (n : node FS) (s : net (FS := FS)) (f : string -> FS).

(** A run of one host that takes [inbox] and sends [outs]. *)
Record moves (inbox : list (string * list byte)) (outs : list (list byte)) n n' : Prop := {
  mv_peers : NoDup (peers n);
  mv_run : exists es, run level n es = Some (n', outs) /\ Forall (fun e => starts e = false) es /\
    inbox.*2 = flat_map inbound es;
}.

(** One round: each of the hosts [qs] makes its run. *)
Lemma sweep (inbox : string -> list (string * list byte)) (outs : string -> list (list byte))
    (post : string -> node FS -> node FS -> Prop) qs s rest :
  NoDup qs ->
  (forall q, q ∈ qs -> exists n n', nodes s !! q = Some n /\ peers n = others names q /\ moves (inbox q) (outs q) n n' /\ post q n n') ->
  flight s ≡ₚ (qs ≫= fun q => (fun x => (x.1, q, x.2)) <$> inbox q) ++ rest ->
  exists s', steps (net_step level) s s' /\ used s' = used s /\
    (forall q, q ∈ qs -> exists n n', nodes s !! q = Some n /\ nodes s' !! q = Some n' /\ post q n n') /\
    (forall q, q ∉ qs -> nodes s' !! q = nodes s !! q) /\
    flight s' ≡ₚ rest ++ (qs ≫= fun q => outs q ≫= fun raw => copies q raw (others names q)).
Proof.
  intros Hnd. revert s rest. induction Hnd as [|q qs Hq Hnd IH]; intros s rest Hall Hfl.
  { exists s. split; [constructor|]. split; [done|]. split; [by inversion 1|]. split; [done|]. simpl. by rewrite app_nil_r. }
  destruct (Hall q) as (n & n' & Hn & Hp & [Hpn (es & Hr & Hst & Hin)] & Hpost); [by left|].
  destruct (lift_run level es s q n n' (outs q) (inbox q)
    ((qs ≫= fun q => (fun x => (x.1, q, x.2)) <$> inbox q) ++ rest)) as (s1 & Hs1 & Hn1 & Hu1 & Hfl1); try done.
  { rewrite Hfl. simpl. by rewrite <- app_assoc. }
  destruct (IH s1 (rest ++ (outs q ≫= fun raw => copies q raw (others names q)))) as (s2 & Hs2 & Hu2 & Hdone & Hkeep & Hfl2).
  { intros q' Hq'. rewrite Hn1, lookup_insert_ne by (by intros ->). apply Hall. by right. }
  { rewrite Hfl1, Hp. by rewrite <- app_assoc. }
  exists s2. split; [by eapply steps_trans|]. split; [congruence|]. split; [|split].
  - intros q' [->|Hq']%elem_of_cons.
    + exists n, n'. split; [done|]. split; [|done]. by rewrite Hkeep, Hn1, lookup_insert_eq by done.
    + destruct (Hdone q' Hq') as (m & m' & Hm & ? & ?). rewrite Hn1, lookup_insert_ne in Hm by (by intros ->). eauto.
  - intros q' [Hne Hq']%not_elem_of_cons. by rewrite Hkeep, Hn1, lookup_insert_ne by done.
  - rewrite Hfl2. simpl. by rewrite <- app_assoc.
Qed.

(** ** A network at rest *)

Record resting n : Prop := {
  rs_crashed : crashed n = None;
  rs_listener : listener n = LSelect;
  rs_empty : ts (trans n) = ∅;
}.

Definition at_rest s : Prop := flight s = [] /\ forall p n, nodes s !! p = Some n -> resting n.

Lemma net_step_dom s s' : net_step level s s' -> dom (nodes s') = dom (nodes s).
Proof. destruct 1; simpl; try done; apply dom_insert_lookup_L; by eexists. Qed.

Lemma reachable_node f s p : reachable level names f s -> p ∈ names -> exists n, nodes s !! p = Some n.
Proof.
  intros Hr Hp. apply elem_of_dom. revert Hr. apply (steps_invariant _ (fun s => p ∈ dom (nodes s))).
  - simpl. rewrite dom_list_to_map_L, elem_of_list_to_set, <- list_fmap_compose. apply list_elem_of_fmap. by exists p.
  - intros a b Ha Hab. by rewrite (net_step_dom _ _ Hab).
Qed.

Lemma resting_again n0 n tid : resting n0 -> wf (trans n) -> at_rest_again n0 tid n -> resting n.
Proof.
  intros [_ _ He] W [Hg C L O]. split; try done. apply map_eq. intros k. rewrite lookup_empty.
  destruct (decide (k = tid)) as [->|Hk]; [done|]. destruct (ts (trans n) !! k) eqn:E; [|done].
  destruct (lookup_tid_wf _ _ _ W E) as (tr & _ & Hl & _). rewrite (O k Hk) in Hl.
  unfold lookup_tid in Hl. rewrite He, lookup_empty in Hl. done.
Qed.

Lemma resting_lookup n k : resting n -> lookup_tid k (trans n) = None.
Proof. intros [_ _ He]. unfold lookup_tid. by rewrite He, lookup_empty. Qed.

(** ** One operation *)

(** What a peer answers to a request, and the bytes of a message. *)
Definition answer_of (tid : string) (req : Request) n : Message :=
  NewResponseMessage tid (Name n) (match Consult (fs n) req with Ok (Some resp) => resp | _ => ACK end).

Definition bytes_of (m : Message) : list byte := match proto_Marshal m with inr raw => raw | inl _ => [] end.

(** Nothing speaks against the request: [Consult] answers ACK, the answer can be sent,
    and mirroring succeeds. *)
Record agrees (tid : string) (req : Request) n : Prop := {
  ag_consult : exists resp, Consult (fs n) req = Ok (Some resp) /\ resp_Type resp = Response_ACK;
  ag_marshal : exists raw, proto_Marshal (answer_of tid req n) = inr raw;
  ag_mirror : (MirrorOp (fs n) (Some req)).2 = Ok tt;
}.

Definition apply (fl : FS) (req : Request) : FS := (MirrorOp fl (Some req)).1.

(** A readable ACK of the transaction. *)
Record is_ack (tid : string) (m : Message) : Prop := {
  ia_read : ReadMessage (bytes_of m) = Ok m;
  ia_tid : Tid m = tid;
  ia_request : GetRequest m = None;
  ia_response : exists resp, GetResponse m = Some resp /\ is_NACK resp = false;
}.

Lemma agrees_marshal tid req n :
  agrees tid req n -> proto_Marshal (answer_of tid req n) = inr (bytes_of (answer_of tid req n)).
Proof. intros [_ [raw E] _]. unfold bytes_of. by rewrite E. Qed.

Lemma agrees_ack tid req n : agrees tid req n -> is_ack tid (answer_of tid req n).
Proof.
  intros Hag. pose proof (agrees_marshal _ _ _ Hag) as Hm. destruct Hag as [(resp & Hc & Hack) _ _].
  split; [|done..|].
  - unfold answer_of in *. by eapply response_roundtrip.
  - exists resp. unfold answer_of. rewrite Hc. split; [done|]. unfold is_NACK. by rewrite Hack.
Qed.

Lemma acks_not_nacked tid ms : Forall (is_ack tid) ms -> nacked ms = false /\ nacks_named (omap GetResponse ms).
Proof.
  unfold nacked, nacks_named. induction 1 as [|m ms [_ _ _ (resp & Hr & Ha)] _ [IH1 IH2]]; [split; [done|by inversion 1]|].
  simpl. rewrite Hr. simpl. rewrite Ha. split; [done|]. intros r [->|Hx]%elem_of_cons Hn; [congruence|by apply IH2].
Qed.

Lemma acks_read tid ms : Forall (is_ack tid) ms -> Forall2 (fun raw m => ReadMessage raw = Ok m) (bytes_of <$> ms) ms.
Proof. intros H. apply Forall2_fmap_l, Forall_Forall2_diag. eapply Forall_impl; [done|]. by intros ? []. Qed.

Lemma acks_answers tid ms : Forall (is_ack tid) ms -> Forall (fun m => Tid m = tid /\ GetRequest m = None) ms.
Proof. intros H. eapply Forall_impl; [done|]. by intros ? []. Qed.

Lemma flat_map_inbound raws : flat_map inbound (flat_map (receive_events (FS := FS)) raws) = raws.
Proof. induction raws as [|raw raws IH]; [done|]. cbn. by rewrite IH. Qed.

Lemma receive_events_no_start raws : Forall (fun e => starts e = false) (flat_map (receive_events (FS := FS)) raws).
Proof. induction raws; [constructor|]. by repeat constructor. Qed.

(** The first run of a peer: the request arrives and is answered. *)
Lemma peer_answers n a tid req raw m :
  resting n -> wf (trans n) -> peers n = others names (Name n) -> Name n ∈ others names a -> a ∈ names ->
  agrees tid req n -> ReadMessage raw = Ok m -> Tid m = tid -> GetRequest m = Some req -> is_Some (Metadata req) ->
  exists n', moves [(a, raw)] [bytes_of (answer_of tid req n)] n n' /\
    exists tr, waiting n tid (length (others (others names a) (Name n))) Response_ACK tr n' /\
      t_Tid tr = tid /\ t_Request tr = Some req /\ Responses tr = [].
Proof.
  intros R W Hp Hq Ha Hag Hraw Ht Hr Hmd. pose proof (agrees_marshal _ _ _ Hag) as Hm.
  destruct (ag_consult _ _ _ Hag) as (resp & Hc & Hack). unfold answer_of in Hm at 1. rewrite Hc in Hm.
  assert (ts (trans n) !! tid = None) as Hts by (by rewrite (rs_empty _ R), lookup_empty).
  pose proof (waiting_initial n tid (rs_crashed _ R) (rs_listener _ R) W Hts) as W0.
  apply elem_of_others in Hq as [Hq Hne].
  rewrite Hp, (others_length (others names (Name n)) a), others_others_comm in W0;
    [|by apply NoDup_filter|by apply elem_of_others].
  destruct (answer_request level n n tid _ _ raw m req resp (bytes_of (answer_of tid req n)) None W0)
    as (n' & tr & Hrun & W1 & Htid & Hreq & Hrs); try done.
  { intros k t Hk. by rewrite resting_lookup in Hk. }
  exists n'. split; [|by eauto 10]. split; [rewrite Hp; by apply NoDup_filter|].
  eexists. split; [exact Hrun|]. split; [by repeat constructor|done].
Qed.

(** Its second run: the answers of the other peers arrive, and the request is mirrored. *)
Lemma peer_mirrors n0 n tid req tr (xs : list string) (ans : string -> Message) :
  waiting n0 tid (length xs) Response_ACK tr n -> NoDup (peers n0) -> peers n0 <> [] ->
  t_Tid tr = tid -> t_Request tr = Some req -> Responses tr = [] -> agrees tid req n0 ->
  Forall (is_ack tid) (ans <$> xs) ->
  exists n', moves ((fun x => (x, bytes_of (ans x))) <$> xs) [] n n' /\
    fs n' = apply (fs n0) req /\ at_rest_again n0 tid n'.
Proof.
  intros W Hnd Hne Ht Hq Hrs Hag Hall. rewrite <- (length_fmap ans) in W.
  destruct (acks_not_nacked tid (ans <$> xs) Hall) as [Hna _].
  destruct (conclude level n0 n tid tr (bytes_of <$> (ans <$> xs)) (ans <$> xs) req (apply (fs n0) req) (Ok tt) W)
    as (n' & Hr & V & Hend); try done.
  { by eapply acks_read. }
  { by apply acks_answers. }
  { unfold apply. destruct (MirrorOp (fs n0) (Some req)) eqn:E. simpl. f_equal. pose proof (ag_mirror _ _ _ Hag) as H. by rewrite E in H. }
  rewrite Hrs, Hna in V. exists n'. split; [|by destruct V].
  split; [by destruct (w_static _ _ _ _ _ _ W) as (_ & -> & _)|]. eexists. split; [exact Hr|]. split.
  - apply Forall_app. split; [apply receive_events_no_start|by repeat constructor].
  - rewrite flat_map_app, flat_map_inbound, app_nil_r. by rewrite <- !list_fmap_compose.
Qed.

(** The last run of the initiator. *)
Lemma initiator_returns n0 n tid tr (xs : list string) (ans : string -> Message) :
  awaiting n0 tid (length xs) None tr n -> NoDup (peers n0) -> Responses tr = [] ->
  Forall (is_ack tid) (ans <$> xs) ->
  exists n', moves ((fun x => (x, bytes_of (ans x))) <$> xs) [] n n' /\
    reps n' !! tid = Some (next (trans n0), RReturned (Ok tt)) /\ fs n' = fs n0 /\ at_rest_again n0 tid n'.
Proof.
  intros A Hnd Hrs Hall. rewrite <- (length_fmap ans), <- (Nat.add_0_r (length _)) in A.
  destruct (acks_not_nacked tid (ans <$> xs) Hall) as [Hna Hnn].
  destruct (await_answers level n0 n tid 0 None tr (bytes_of <$> (ans <$> xs)) (ans <$> xs)) as (n1 & R1 & A1); try done.
  { by eapply acks_read. }
  { eapply Forall_impl; [done|]. by intros ? []. }
  destruct (record_responses (ans <$> xs) tr) as (_ & _ & _ & Hs). { eapply Forall_impl; [done|]. by intros ? []. }
  rewrite Hrs in Hs. simpl in Hs.
  destruct (await_finish level n0 n1 tid None _ A1) as (n2 & R2 & Hrep & _ & Hfs & Hend). { by rewrite Hs. }
  rewrite Hs in Hrep. unfold replicate_result in Hrep. unfold nacked in Hna. rewrite Hna in Hrep.
  exists n2. split; [|done]. split; [by destruct (a_static _ _ _ _ _ _ A) as (_ & -> & _)|].
  eexists. split; [exact (run_app level _ _ _ _ _ _ _ R1 R2)|]. split.
  - apply Forall_app. split; [apply receive_events_no_start|by repeat constructor].
  - rewrite flat_map_app, flat_map_inbound, app_nil_r. by rewrite <- !list_fmap_compose.
Qed.

(** The initiator asks: the request is on its way to every peer. *)
Lemma initiator_asks s a n tid req raw :
  nodes s !! a = Some n -> Name n = a -> peers n = others names a -> tid ∉ used s -> flight s = [] ->
  ready n tid (request_message level tid (Name n) req) -> is_Some (Metadata req) ->
  proto_Marshal (request_message level tid a req) = inr raw ->
  exists s' n' tr, steps (net_step level) s s' /\ nodes s' = <[a := n']> (nodes s) /\ used s' = {[tid]} ∪ used s /\
    flight s' ≡ₚ copies a raw (others names a) /\ awaiting n tid (length (others names a)) None tr n' /\ Responses tr = [].
Proof.
  intros Hn HN Hp Hu Hfl Hready Hmd Hraw. rewrite <- HN in Hraw.
  destruct (replicate_starts level Hlevel n tid req raw None (length (peers n)) Hready Hmd Hraw eq_refl)
    as (n2 & tr & Hr & A & _ & Hrs).
  change (replicate_events tid req None) with ([EvReplicate (FS := FS) tid req] ++ [EvRepDetect tid; EvRepBroadcast tid None]) in Hr.
  simpl app in Hr. cbn [run] in Hr. apply bind_Some in Hr as ([n1 out] & E & Hr).
  apply bind_Some in Hr as ([n3 outs] & Hr & [= -> Ho]).
  assert (out = None) as ->.
  { destruct out; [|done]. by destruct (node_step_quiet level _ _ _ _ E). }
  simpl in Ho. subst outs. destruct (node_step_static level _ _ _ _ E) as [_ Hp1].
  destruct (lift_run level [EvRepDetect tid; EvRepBroadcast tid None]
    (mkNet (<[a := n1]> (nodes s)) (flight s) ({[tid]} ∪ used s) (sent s) (delivered s) (decided s))
    a n1 n2 [raw] [] []) as (s2 & Hs2 & Hn2 & Hu2 & Hfl2); try done.
  { apply lookup_insert_eq. }
  { rewrite Hp1, Hp. by apply NoDup_filter. }
  { by repeat constructor. }
  { simpl. by rewrite Hfl. }
  exists s2, n2, tr. split.
  { eapply steps_trans; [|exact Hs2]. apply steps_one. by eapply net_replicate. }
  split; [by rewrite Hn2; simpl; rewrite insert_insert_eq|]. split; [done|].
  rewrite Hfl2, Hp1, Hp. simpl. rewrite app_nil_r. by rewrite Hp in A.
Qed.

Lemma resting_ready n tid m : node_wf n -> resting n -> reps n !! tid = None -> ready n tid m.
Proof.
  intros W R Hrep. split; try done; try apply R.
  - apply W.
  - by rewrite (rs_empty _ R), lookup_empty.
  - destruct (handlers n !! next (trans n)) eqn:E; [|done]. apply (nw_handlers _ W) in E.
    destruct (nw_trans _ W) as [_ H]. specialize (H _ E). lia.
  - intros k t r Hk. by rewrite resting_lookup in Hk.
Qed.

(** What the answers of the peers are in the state [s]. *)
Definition answer_in s (tid : string) (req : Request) (x : string) : Message :=
  match nodes s !! x with Some n => answer_of tid req n | None => NewResponseMessage tid x ACK end.

Definition completes s s' (a tid : string) (req : Request) : Prop :=
  steps (net_step level) s s' /\ at_rest s' /\ used s' = {[tid]} ∪ used s /\
  (forall n, nodes s !! a = Some n ->
     exists n' l, nodes s' !! a = Some n' /\ fs n' = fs n /\ reps n' !! tid = Some (l, RReturned (Ok tt))) /\
  (forall q n, q ∈ others names a -> nodes s !! q = Some n ->
     exists n', nodes s' !! q = Some n' /\ fs n' = apply (fs n) req).

Lemma bind_single {A B} (g : A -> B) (l : list A) : (l ≫= fun x => [g x]) = g <$> l.
Proof. induction l as [|x l IH]; [done|]. by rewrite bind_cons, IH. Qed.

(** The peers answer. *)
Lemma peers_answer f s s1 a tid req raw m :
  reachable level names f s -> at_rest s -> a ∈ names ->
  (forall q n, q ∈ others names a -> nodes s !! q = Some n -> agrees tid req n) ->
  ReadMessage raw = Ok m -> Tid m = tid -> GetRequest m = Some req -> is_Some (Metadata req) ->
  (forall q, q <> a -> nodes s1 !! q = nodes s !! q) -> flight s1 ≡ₚ copies a raw (others names a) ->
  exists s2, steps (net_step level) s1 s2 /\ used s2 = used s1 /\ nodes s2 !! a = nodes s1 !! a /\
    (forall q n0, q ∈ others names a -> nodes s !! q = Some n0 -> exists n tr, nodes s2 !! q = Some n /\
       waiting n0 tid (length (others (others names a) q)) Response_ACK tr n /\
       t_Tid tr = tid /\ t_Request tr = Some req /\ Responses tr = []) /\
    flight s2 ≡ₚ (names ≫= fun q => (fun x => (x.1, q, x.2)) <$>
      ((fun x => (x, bytes_of (answer_in s tid req x))) <$> others (others names a) q)).
Proof.
  intros Hreach [_ Hrest] Ha Hag Hraw Ht Hr Hmd Hsame Hfl. pose proof (reachable_inv level Hlevel names f s Hreach) as I.
  destruct (sweep (fun _ => [(a, raw)]) (fun q => [bytes_of (answer_in s tid req q)])
    (fun q n n' => exists tr, waiting n tid (length (others (others names a) q)) Response_ACK tr n' /\
       t_Tid tr = tid /\ t_Request tr = Some req /\ Responses tr = []) (others names a) s1 [])
    as (s2 & Hs2 & Hu2 & Hdone & Hkeep & Hfl2).
  - by apply NoDup_filter.
  - intros q Hq. pose proof Hq as [Hqn Hqa]%elem_of_others.
    destruct (reachable_node f s q Hreach Hqn) as [n Hn]. pose proof (v_node _ _ I _ _ Hn) as N.
    destruct (peer_answers n a tid req raw m) as (n' & Hmv & Hpost); try done; eauto.
    + apply (ni_wf _ _ _ _ _ _ N).
    + rewrite (ni_name _ _ _ _ _ _ N). apply (ni_peers _ _ _ _ _ _ N).
    + by rewrite (ni_name _ _ _ _ _ _ N).
    + exists n, n'. rewrite Hsame by done. split; [done|]. split; [apply (ni_peers _ _ _ _ _ _ N)|].
      unfold answer_in. rewrite Hn. by rewrite (ni_name _ _ _ _ _ _ N) in Hpost.
  - rewrite Hfl, app_nil_r. simpl. by rewrite bind_single.
  - exists s2. split; [done|]. split; [done|]. split; [apply Hkeep; by intros []%elem_of_others|]. split.
    + intros q n0 Hq Hn0. destruct (Hdone q Hq) as (n & n' & Hn & Hn' & tr & H).
      rewrite Hsame in Hn by (by apply elem_of_others in Hq as []). simplify_eq. eauto.
    + rewrite Hfl2. simpl. etrans; [|etrans; [apply (answers_by_receiver (fun q => bytes_of (answer_in s tid req q)))|]].
      * apply reflexive_eq, list_bind_ext; [|done]. intros q. by rewrite app_nil_r.
      * apply reflexive_eq, list_bind_ext; [|done]. intros q. by rewrite <- list_fmap_compose.
Qed.

(** Everybody hears the answers and concludes. *)
Lemma all_conclude f s s2 a n1 tid req tr :
  reachable level names f s -> a ∈ names ->
  (forall q n, q ∈ others names a -> nodes s !! q = Some n -> agrees tid req n) ->
  (exists n, nodes s !! a = Some n /\ awaiting n tid (length (others names a)) None tr n1) -> Responses tr = [] ->
  nodes s2 !! a = Some n1 ->
  (forall q n0, q ∈ others names a -> nodes s !! q = Some n0 -> exists n tr, nodes s2 !! q = Some n /\
     waiting n0 tid (length (others (others names a) q)) Response_ACK tr n /\
     t_Tid tr = tid /\ t_Request tr = Some req /\ Responses tr = []) ->
  forall q, q ∈ names -> exists n n', nodes s2 !! q = Some n /\ peers n = others names q /\
    moves ((fun x => (x, bytes_of (answer_in s tid req x))) <$> others (others names a) q) [] n n' /\
    (forall n0, nodes s !! q = Some n0 -> at_rest_again n0 tid n' /\
       if decide (q = a) then fs n' = fs n0 /\ exists l, reps n' !! tid = Some (l, RReturned (Ok tt))
       else fs n' = apply (fs n0) req).
Proof.
  intros Hreach Ha Hag (n0 & Hn0 & A) Hrs Hn1 Hwait q Hq.
  pose proof (reachable_inv level Hlevel names f s Hreach) as I.
  assert (Forall (is_ack tid) (answer_in s tid req <$> others (others names a) q)) as Hacks.
  { apply Forall_fmap, Forall_forall. intros x Hx. apply elem_of_others in Hx as [Hx _]. pose proof Hx as [Hxn _]%elem_of_others.
    destruct (reachable_node f s x Hreach Hxn) as [n Hn]. simpl. unfold answer_in. rewrite Hn. by eapply agrees_ack, Hag. }
  destruct (decide (q = a)) as [->|Hne].
  - assert (others (others names a) a = others names a) as Hoo.
    { unfold others. rewrite list_filter_filter. apply list_filter_iff. naive_solver. }
    rewrite Hoo in *. pose proof (v_node _ _ I _ _ Hn0) as N.
    destruct (initiator_returns n0 n1 tid tr (others names a) (answer_in s tid req) A) as (n' & Hmv & Hrep & Hfs & Hend); try done.
    { rewrite (ni_peers _ _ _ _ _ _ N). by apply NoDup_filter. }
    exists n1, n'. split; [done|]. destruct (a_static _ _ _ _ _ _ A) as (_ & -> & _).
    split; [apply (ni_peers _ _ _ _ _ _ N)|]. split; [done|]. intros ? ?. simplify_eq. eauto.
  - assert (q ∈ others names a) as Ho by (by apply elem_of_others).
    destruct (reachable_node f s q Hreach Hq) as [nq Hnq]. pose proof (v_node _ _ I _ _ Hnq) as N.
    destruct (Hwait q nq Ho Hnq) as (n & tr' & Hn & W & Ht & Hr & Hs).
    destruct (peer_mirrors nq n tid req tr' (others (others names a) q) (answer_in s tid req) W) as (n' & Hmv & Hfs & Hend);
      try done; eauto.
    { rewrite (ni_peers _ _ _ _ _ _ N). by apply NoDup_filter. }
    { rewrite (ni_peers _ _ _ _ _ _ N). intros E. assert (a ∈ others names q) as Hx by (by apply elem_of_others).
      rewrite E in Hx. inversion Hx. }
    exists n, n'. split; [done|]. destruct (w_static _ _ _ _ _ _ W) as (_ & -> & _).
    split; [apply (ni_peers _ _ _ _ _ _ N)|]. split; [done|]. intros ? ?. simplify_eq. eauto.
Qed.

Lemma operation_completes f s a tid req :
  reachable level names f s -> at_rest s -> a ∈ names -> tid ∉ used s -> is_Some (Metadata req) ->
  (exists raw, proto_Marshal (request_message level tid a req) = inr raw) ->
  (forall q n, q ∈ others names a -> nodes s !! q = Some n -> agrees tid req n) ->
  exists s', completes s s' a tid req.
Proof.
  intros Hreach Hrest Ha Hu Hmd [raw Hraw] Hag. pose proof (reachable_inv level Hlevel names f s Hreach) as I.
  destruct (reachable_node f s a Hreach Ha) as [n Hn]. pose proof (v_node _ _ I _ _ Hn) as N. pose proof Hrest as [Hfl Hr].
  destruct (initiator_asks s a n tid req raw) as (s1 & n1 & tr & Hs1 & Hn1 & Hu1 & Hfl1 & A & Hrs); try done.
  { apply (ni_name _ _ _ _ _ _ N). } { apply (ni_peers _ _ _ _ _ _ N). }
  { apply resting_ready; [apply (ni_wf _ _ _ _ _ _ N)|by eapply Hr|by eapply unused_rep]. }
  destruct (NewRequestMessage_ok level tid a req Hlevel) as (req' & Hnew & _).
  assert (ReadMessage raw = Ok (mkMessage tid a (Some (Message_Request req)))) as Hread.
  { eapply request_roundtrip; [done|exact Hnew|]. unfold request_message in Hraw. by rewrite Hnew in Hraw. }
  destruct (peers_answer f s s1 a tid req raw _ Hreach Hrest Ha Hag Hread) as (s2 & Hs2 & Hu2 & Ha2 & Hwait & Hfl2); try done.
  { intros q Hq. by rewrite Hn1, lookup_insert_ne by done. }
  rewrite Hn1, lookup_insert_eq in Ha2.
  pose proof (all_conclude f s s2 a n1 tid req tr Hreach Ha Hag (ex_intro _ n (conj Hn A)) Hrs Ha2 Hwait) as Hall.
  destruct (sweep (fun q => (fun x => (x, bytes_of (answer_in s tid req x))) <$> others (others names a) q) (fun _ => [])
    (fun q n n' => forall n0, nodes s !! q = Some n0 -> at_rest_again n0 tid n' /\
       if decide (q = a) then fs n' = fs n0 /\ exists l, reps n' !! tid = Some (l, RReturned (Ok tt))
       else fs n' = apply (fs n0) req) names s2 []) as (s3 & Hs3 & Hu3 & Hdone & _ & Hfl3); try done.
  { by rewrite app_nil_r. }
  assert (steps (net_step level) s s3) as Hs by (eapply steps_trans, steps_trans; eauto using steps_trans).
  pose proof (reachable_inv level Hlevel names f s3 (steps_trans _ _ _ _ Hreach Hs)) as I3.
  assert (forall q n0, q ∈ names -> nodes s !! q = Some n0 -> exists n', nodes s3 !! q = Some n' /\ at_rest_again n0 tid n' /\
    if decide (q = a) then fs n' = fs n0 /\ exists l, reps n' !! tid = Some (l, RReturned (Ok tt))
    else fs n' = apply (fs n0) req) as Hend.
  { intros q n0 Hq Hn0. destruct (Hdone q Hq) as (m & m' & _ & Hm' & Hp). eauto. }
  exists s3. split; [done|]. split; [split|split; [congruence|split]].
  - apply Permutation_nil_r. rewrite Hfl3. simpl. clear. induction names; simpl; done.
  - intros p m Hm. pose proof (v_node _ _ I3 _ _ Hm) as M. pose proof (ni_mem _ _ _ _ _ _ M) as Hp.
    destruct (reachable_node f s p Hreach Hp) as [n0 Hn0]. destruct (Hend p n0 Hp Hn0) as (m' & Hm' & Hrest' & _). simplify_eq.
    eapply resting_again; [by eapply Hr|apply (ni_wf _ _ _ _ _ _ M)|done].
  - intros n0 Hn0. destruct (Hend a n0 Ha Hn0) as (n' & Hn' & _ & H). rewrite decide_True in H by done.
    destruct H as (Hfs & l & Hrep). eauto 10.
  - intros q n0 Hq Hn0. apply elem_of_others in Hq as [Hq Hne]. destruct (Hend q n0 Hq Hn0) as (n' & Hn' & _ & H).
    rewrite decide_False in H by done. eauto.
Qed.

(** ** A sequence of operations *)

(** An operation: the host that starts it, the request [Replicate] sends, and what the
    FUSE server does to the files of that host after [Replicate] returned nil. The last
    is go-fuse's own loopback operation, which the sources only call: any function. It
    need not be what [Mirror] does on the peers, and it is not always: rootFile.Write
    keeps what follows the written bytes, WRITE of the mirror truncates. *)
Record operation := mkOperation {
  op_host : string;
  op_tid : string;
  op_request : Request;
  op_local : FS -> FS;
}.

(** The local operation of the initiator. *)
Definition local_effect s (o : operation) : net :=
  match nodes s !! op_host o with
  | Some n => mkNet (<[op_host o := set_fs (op_local o (fs n)) n]> (nodes s)) (flight s) (used s) (sent s)
                (delivered s) (decided s)
  | None => s
  end.

(** The operations are carried out one after the other: [Replicate] returns nil, the
    network comes to rest, the local operation runs. *)
Inductive operates : net -> list operation -> net -> Prop :=
| operates_nil s : operates s [] s
| operates_cons s s1 s' o ops :
    completes s s1 (op_host o) (op_tid o) (op_request o) -> operates (local_effect s1 o) ops s' ->
    operates s (o :: ops) s'.

(** The files of each host after an operation: mirrored on the peers, the local
    operation on the initiator. *)
Definition after (fl : string -> FS) (o : operation) : string -> FS :=
  fun p => if decide (p = op_host o) then op_local o (fl p) else apply (fl p) (op_request o).

(** No peer objects to any of them, each judged on the files the earlier ones left on
    that peer. *)
Fixpoint welcome (fl : string -> FS) (ops : list operation) : Prop :=
  match ops with
  | [] => True
  | o :: ops =>
      op_host o ∈ names /\ is_Some (Metadata (op_request o)) /\
      (exists raw, proto_Marshal (request_message level (op_tid o) (op_host o) (op_request o)) = inr raw) /\
      (forall n, Name n ∈ others names (op_host o) -> fs n = fl (Name n) -> agrees (op_tid o) (op_request o) n) /\
      welcome (after fl o) ops
  end.

Definition files_are s (fl : string -> FS) : Prop := forall p n, nodes s !! p = Some n -> fs n = fl p.

Lemma local_effect_step f s o :
  reachable level names f s -> at_rest s -> op_host o ∈ names ->
  reachable level names f (local_effect s o) /\ at_rest (local_effect s o) /\ used (local_effect s o) = used s.
Proof.
  intros Hreach [Hfl Hr] Ha. destruct (reachable_node f s _ Hreach Ha) as [n Hn]. unfold local_effect. rewrite Hn.
  pose proof (Hr _ _ Hn) as [C L E]. split; [|split; [split|]; simpl; try done].
  - eapply steps_trans; [exact Hreach|]. apply steps_one.
    replace (decided s) with (decided s ++ verdict (op_host o) n (EvLocal (op_local o (fs n)))) by apply app_nil_r.
    eapply net_local; [done|done|]. unfold node_step. by rewrite C.
  - intros p m Hm. destruct (decide (p = op_host o)) as [->|Hne].
    + rewrite lookup_insert_eq in Hm. by simplify_eq.
    + rewrite lookup_insert_ne in Hm by done. by eapply Hr.
Qed.

Lemma completed_files f s s1 o fl :
  reachable level names f s -> op_host o ∈ names -> files_are s fl ->
  completes s s1 (op_host o) (op_tid o) (op_request o) -> files_are (local_effect s1 o) (after fl o).
Proof.
  intros Hreach Ha Hsame (Hs & _ & _ & Hinit & Hpeers). destruct (reachable_node f s _ Hreach Ha) as [n Hn].
  destruct (Hinit n Hn) as (n1 & l & Hn1 & Hfs & _). unfold local_effect, after. rewrite Hn1. intros p m Hm. simpl in Hm.
  destruct (decide (p = op_host o)) as [->|Hne].
  - rewrite lookup_insert_eq in Hm. simplify_eq. simpl. by rewrite Hfs, (Hsame _ _ Hn).
  - rewrite lookup_insert_ne in Hm by done.
    pose proof (reachable_inv level Hlevel names f s1 (steps_trans _ _ _ _ Hreach Hs)) as I1.
    pose proof (ni_mem _ _ _ _ _ _ (v_node _ _ I1 _ _ Hm)) as Hp. destruct (reachable_node f s p Hreach Hp) as [n0 Hn0].
    destruct (Hpeers p n0) as (m' & Hm' & Hf); [by apply elem_of_others|done|]. simplify_eq. by rewrite Hf, (Hsame _ _ Hn0).
Qed.

Lemma operations_in_order f ops s fl :
  reachable level names f s -> at_rest s -> files_are s fl -> NoDup (op_tid <$> ops) ->
  Forall (fun o => op_tid o ∉ used s) ops -> welcome fl ops ->
  exists s', operates s ops s' /\ reachable level names f s' /\ at_rest s' /\ files_are s' (fold_left after ops fl).
Proof.
  revert s fl. induction ops as [|o ops IH]; intros s fl Hreach Hrest Hsame Hnd Hu Hw.
  { exists s. split; [constructor|done]. }
  apply NoDup_cons in Hnd as [Ho Hnd]. apply Forall_cons in Hu as [Huo Hu]. destruct Hw as (Ha & Hmd & Hm & Hag & Hw).
  pose proof (reachable_inv level Hlevel names f s Hreach) as I.
  destruct (operation_completes f s (op_host o) (op_tid o) (op_request o)) as (s1 & Hc); try done.
  { intros q n Hq Hn. pose proof (ni_name _ _ _ _ _ _ (v_node _ _ I _ _ Hn)) as E. subst q.
    apply Hag; [done|by eapply Hsame]. }
  pose proof Hc as (Hs & Hrest1 & Hu1 & _).
  destruct (local_effect_step f s1 o) as (Hreach2 & Hrest2 & Hu2); [by eapply steps_trans|done..|].
  destruct (IH (local_effect s1 o) (after fl o)) as (s' & Hop & H); try done.
  { exact (completed_files f s s1 o fl Hreach Ha Hsame Hc). }
  { apply Forall_forall. intros x Hx. rewrite Hu2, Hu1. apply not_elem_of_union. split.
    - apply not_elem_of_singleton. intros E. apply Ho. rewrite <- E. by apply list_elem_of_fmap_2.
    - rewrite Forall_forall in Hu. by apply Hu. }
  exists s'. split; [by econstructor|done].
Qed.

Lemma net_init_at_rest fl : at_rest (net_init names fl) /\ files_are (net_init names fl) fl.
Proof.
  assert (forall p n, nodes (net_init names fl) !! p = Some n -> n = NewHost p (others names p) (fl p)) as H.
  { intros p n Hn. apply elem_of_list_to_map_2, list_elem_of_fmap in Hn as (q & [= -> ->] & _). done. }
  split; [split; [done|]|]; intros p n Hn%H; by subst.
Qed.

(** A host that starts none of the operations mirrors all of them. *)
Lemma bystander_mirrors_all ops fl p :
  p ∉ op_host <$> ops -> fold_left after ops fl p = fold_left apply (op_request <$> ops) (fl p).
Proof.
  revert fl. induction ops as [|o ops IH]; intros fl Hp; [done|]. apply not_elem_of_cons in Hp as [Hne Hp]. simpl.
  rewrite IH by done. unfold after. by rewrite decide_False.
Qed.

(** C5: Operations that do not overlap and to which no peer objects succeed and reach
    every replica: whoever starts them, however many hosts there are and whatever the
    local operations do, every [Replicate] call can return nil, every peer mirrors every
    operation of the others in the order they were made and the initiator's files get
    only its local operation. In particular all hosts that started none of the
    operations have mirrored the whole list, so that those of them whose files were
    equal still have equal files. *)
Theorem sequential_operations_reach_every_replica ops fl :
  NoDup (op_tid <$> ops) -> welcome fl ops ->
  exists s', operates (net_init names fl) ops s' /\ reachable level names fl s' /\ at_rest s' /\
    forall p, p ∈ names -> exists n, nodes s' !! p = Some n /\ fs n = fold_left after ops fl p /\
      (p ∉ op_host <$> ops -> fs n = fold_left apply (op_request <$> ops) (fl p)).
Proof.
  intros Hnd Hw. destruct (net_init_at_rest fl) as [Hrest Hsame].
  destruct (operations_in_order fl ops (net_init names fl) fl) as (s' & Hop & Hreach & Hr & Hs); try done.
  { constructor. } { apply Forall_forall. intros o _. apply not_elem_of_empty. }
  exists s'. split_and!; try done. intros p Hp. destruct (reachable_node _ _ p Hreach Hp) as [n Hn]. exists n.
  pose proof (Hs _ _ Hn) as E. split_and!; try done. intros Hb. by rewrite E, bystander_mirrors_all.
Qed.
End rounds.

(** ** Two hosts write in turn *)

(** Aragorn's own write keeps another record than the mirrored ones. *)
Definition two_writes : list (operation (FS := list Request)) :=
  [mkOperation "Aragorn" "T" (write_a Byte.x41) (cons (write_a Byte.x58));
   mkOperation "Gimli" "U" (write_a Byte.x42) (fun fl => fl)].

Lemma sequential_operations_reach_every_replica_witness :
  exists s', operates gzip_DefaultCompression fellowship fellowship_init two_writes s' /\
    reachable gzip_DefaultCompression fellowship (fun _ => []) s' /\ at_rest s' /\
    forall p, p ∈ fellowship -> exists n, nodes s' !! p = Some n /\ fs n = fold_left after two_writes (fun _ => []) p /\
      (p ∉ op_host <$> two_writes -> fs n = [write_a Byte.x41; write_a Byte.x42]).
Proof.
  assert (forall l : list string, bool_decide (NoDup l) = true -> NoDup l) as Hnd by (intros l; apply bool_decide_eq_true_1).
  apply (sequential_operations_reach_every_replica gzip_DefaultCompression eq_refl fellowship
    (Hnd fellowship ltac:(vm_compute; reflexivity)) two_writes (fun _ => [])).
  - apply Hnd. vm_compute. reflexivity.
  - repeat (split; [by apply (bool_decide_eq_true_1 (_ ∈ fellowship))|]; split; [by eexists|]; split; [by eexists|];
      split; [intros n _ Hf; split; [by exists ACK|by eexists|done]|]). done.
Defined.
