(* ===== verification/Replicas.v ===== *)
(** * What the mirrors are asked to do when operations overlap

    [Convergence] runs operations one after the other. Here they overlap as they like:
    the network of [Network] makes any step, and next to it a [world] keeps who asked for
    which operation and which calls of [Mirror] were made. The files themselves play no
    part: they may change at any time and by any hand ([EvLocal]), so nothing is assumed
    of the local operations of the FUSE server, and nothing depends on how the system
    calls inside [Mirror] interleave. *)

From S2P Require Import Prelude Errors Protobuf Transactions Conflicts Responses Host Codecs HostFacts HostRuns ReplicateRun.
From S2P Require Import Network NetworkInv Agreement Verdicts Convergence.


Section replicas.
Context {FS : Type} {GZ : GzipCodec} {PC : ProtoCodec} {MI : MirrorI FS} {VM : VotingMirror FS}.
Context (level : Z) (Hlevel : gzip_valid_level level = true) (names : list string).
Implicit Types (n : node FS) (s : net (FS := FS)) (e : event (FS := FS)).

(** A call of [Mirror]: the host, the transaction, the request, which may be nil. *)
Abbreviation mirror_call := (string * string * option Request)%type.

Record world := mkWorld {
  wnet : net (FS := FS);
  asked : gmap string (string * Request);
  calls : list mirror_call;
}.
Implicit Types w : world.

(** The call of [Mirror] an event makes: a handler that heard everybody and found the
    transaction permitted. *)
Definition called (p : string) n e : list mirror_call :=
  match e with
  | EvHandFinish l =>
      match handlers n !! l, heap (trans n) !! l with
      | Some (HWait 0 ours), Some tr =>
          if permitted ours (Responses tr) then [(p, t_Tid tr, t_Request tr)] else []
      | _, _ => []
      end
  | _ => []
  end.

(** The steps of the network, with what they add to the history. *)
Inductive world_step w : world -> Prop :=
| world_local p n n' e :
    nodes (wnet w) !! p = Some n -> internal e = true -> node_step level n e = Some (n', None) ->
    world_step w (mkWorld
      (mkNet (<[p := n']> (nodes (wnet w))) (flight (wnet w)) (used (wnet w)) (sent (wnet w)) (delivered (wnet w))
         (decided (wnet w) ++ verdict p n e)) (asked w) (calls w ++ called p n e))
| world_replicate p n n' tid req :
    nodes (wnet w) !! p = Some n -> tid ∉ used (wnet w) ->
    node_step level n (EvReplicate tid req) = Some (n', None) ->
    world_step w (mkWorld
      (mkNet (<[p := n']> (nodes (wnet w))) (flight (wnet w)) ({[tid]} ∪ used (wnet w)) (sent (wnet w))
         (delivered (wnet w)) (decided (wnet w))) (<[tid := (p, req)]> (asked w)) (calls w))
| world_broadcast p n n' e raw dests :
    nodes (wnet w) !! p = Some n -> node_step level n e = Some (n', Some raw) ->
    NoDup dests -> dests ⊆ peers n ->
    world_step w (mkWorld
      (mkNet (<[p := n']> (nodes (wnet w))) (flight (wnet w) ++ copies p raw dests) (used (wnet w))
         (sent (wnet w) ++ ((fun m => (p, m)) <$> readable raw)) (delivered (wnet w)) (decided (wnet w)))
      (asked w) (calls w))
| world_deliver f1 f2 src dst raw n n' :
    flight (wnet w) = f1 ++ (src, dst, raw) :: f2 -> nodes (wnet w) !! dst = Some n ->
    node_step level n (EvReceive (conn_Data raw)) = Some (n', None) ->
    world_step w (mkWorld
      (mkNet (<[dst := n']> (nodes (wnet w))) (f1 ++ f2) (used (wnet w)) (sent (wnet w))
         (delivered (wnet w) ++ arrival dst src n') (decided (wnet w))) (asked w) (calls w))
| world_drop f1 f2 x :
    flight (wnet w) = f1 ++ x :: f2 ->
    world_step w (mkWorld
      (mkNet (nodes (wnet w)) (f1 ++ f2) (used (wnet w)) (sent (wnet w)) (delivered (wnet w)) (decided (wnet w)))
      (asked w) (calls w)).

Definition world_init f : world := mkWorld (net_init names f) ∅ [].

Definition world_reachable f w : Prop := steps world_step (world_init f) w.


(** ** A world is a run of the network *)

Lemma world_step_net w w' : world_step w w' -> net_step level (wnet w) (wnet w').
Proof.
  intros []; simpl; [by eapply net_local|by eapply net_replicate|by eapply net_broadcast|by eapply net_deliver|by eapply net_drop].
Qed.

Lemma world_reachable_net f w : world_reachable f w -> reachable level names f (wnet w).
Proof.
  apply (steps_invariant _ (fun w => reachable level names f (wnet w))); [constructor|].
  intros a b Ha Hab%world_step_net. eapply steps_trans; [exact Ha|]. by apply steps_one.
Qed.
(** ** What one step does to a host *)




(** ** Who asked for what *)









(** ** The calls of [Mirror] *)









(** ** What a host mirrored *)




End replicas.

(** ** Running a world *)

Section execution.
Context {FS : Type} {GZ : GzipCodec} {PC : ProtoCodec} {MI : MirrorI FS}.
Context (level : Z) (names : list string).
Implicit Types (w : world (FS := FS)) (a : action FS).




End execution.

(** ** Two writes that cross *)



