(* ===== verification/Path.v ===== *)
(** * Paths ([path/filepath] as the mirror and the file system use it)

    [Clean] and [Join] of the Go library on Unix, and what they do to a path that a
    peer sends: it stays below the directory it is joined to unless it has a [".."]
    component. *)

From S2P Require Import Prelude.
From Stdlib Require Import Ascii.

Definition slash : Ascii.ascii := "/"%char.

(** The components of a path, empty ones included. *)
Fixpoint split_path (s : string) : list string :=
  match s with
  | EmptyString => [""]
  | String c s =>
      if Ascii.eqb c slash then "" :: split_path s
      else match split_path s with
           | x :: l => String c x :: l
           | [] => [String c EmptyString]
           end
  end.

Definition rooted (p : string) : bool :=
  match p with String c _ => Ascii.eqb c slash | EmptyString => false end.

(** One component, on the stack of those kept, the last one first. *)
Definition clean_step (root : bool) (st : list string) (c : string) : list string :=
  if String.eqb c "" || String.eqb c "." then st
  else if String.eqb c ".." then
    match st with
    | x :: st' => if String.eqb x ".." then ".." :: st else st'
    | [] => if root then [] else [".."]
    end
  else c :: st.

Definition clean_stack (root : bool) (st : list string) (cs : list string) : list string :=
  foldl (clean_step root) st cs.

Definition render (root : bool) (st : list string) : string :=
  let s := String.concat "/" (rev st) in
  if root then String slash s else if String.eqb s "" then "." else s.

Definition Clean (p : string) : string :=
  if String.eqb p "" then "."
  else render (rooted p) (clean_stack (rooted p) [] (split_path p)).

(** [Join] of two elements: empty leading elements are skipped. *)
Definition Join (a b : string) : string :=
  if negb (String.eqb a "") then Clean (a ++ "/" ++ b)
  else if negb (String.eqb b "") then Clean b
  else "".

(** ** Properties *)

Lemma split_path_nonempty s : split_path s <> [].
Proof. destruct s as [|c s]; simpl; [done|]. repeat case_match; done. Qed.

Lemma split_path_join a b : split_path (a ++ "/" ++ b) = split_path a ++ split_path b.
Proof.
  induction a as [|c a IH]; simpl in *; [done|]. rewrite IH.
  destruct (Ascii.eqb c slash); [done|].
  destruct (split_path a) eqn:E; [by destruct (split_path_nonempty a)|done].
Qed.

Lemma rooted_join a b : rooted a = true -> rooted (a ++ b) = true.
Proof. by destruct a. Qed.

(** A component that only adds to the path. *)
Definition plain (c : string) : bool := negb (String.eqb c "..").

Lemma clean_stack_plain root st cs :
  Forall (fun c => plain c = true) cs ->
  exists ks, clean_stack root st cs = ks ++ st.
Proof.
  intros H. revert st. induction H as [|c cs Hc _ IH]; intros st; simpl; [by exists []|].
  destruct (IH (clean_step root st c)) as [ks ->]. unfold plain in Hc. apply negb_true_iff in Hc.
  unfold clean_step. rewrite Hc. destruct (_ || _); [by exists ks|]. exists (ks ++ [c]). by rewrite <- app_assoc.
Qed.

Lemma concat_app_prefix (xs ys : list string) :
  exists s, String.concat "/" (xs ++ ys) = (String.concat "/" xs ++ s)%string /\
    (s = "" \/ xs = [] \/ exists s', s = String slash s').
Proof.
  induction xs as [|x xs IH]; [by exists (String.concat "/" ys); auto|].
  destruct xs as [|x' xs].
  - destruct ys as [|y ys]; simpl.
    + exists "". split; [|by left]. by rewrite str_app_nil_r.
    + eexists. split; [done|]. right. right. by eexists.
  - destruct IH as (s & Hs & Hd). exists s. split.
    + change (x :: x' :: xs) with ([x] ++ x' :: xs).
      change (String.concat "/" (([x] ++ x' :: xs) ++ ys)) with (x ++ "/" ++ String.concat "/" ((x' :: xs) ++ ys))%string.
      rewrite Hs. simpl. by rewrite !string_app_assoc.
    + destruct Hd as [?|[?|?]]; [by left|done|by right; right].
Qed.

(** [p] is [d] itself or lies below it. *)
Definition inside (d p : string) : Prop :=
  p = d \/ (exists s, p = (d ++ String slash s)%string) \/ (d = "/" /\ rooted p = true).

Lemma render_inside ks st : inside (render true st) (render true (ks ++ st)).
Proof.
  unfold render. rewrite rev_app_distr.
  destruct (concat_app_prefix (rev st) (rev ks)) as (s & -> & [->|[Hnil|[s' ->]]]).
  - left. by rewrite str_app_nil_r.
  - right. right. by rewrite Hnil.
  - right. left. by exists s'.
Qed.

(** Joining a path without [".."] components to an absolute directory stays inside
    the directory. *)
Lemma Join_inside d rel :
  rooted d = true -> Forall (fun c => plain c = true) (split_path rel) ->
  inside (Clean d) (Join d rel).
Proof.
  intros Hd Hrel. destruct d as [|c d]; [done|]. unfold Join.
  change (String.eqb (String c d) "") with false. cbn [negb]. unfold Clean at 2.
  rewrite rooted_join by done. change (String.eqb (String c d ++ "/" ++ rel) "") with false. cbn iota.
  rewrite split_path_join. unfold clean_stack. rewrite foldl_app.
  destruct (clean_stack_plain true (foldl (clean_step true) [] (split_path (String c d))) _ Hrel) as [ks E].
  unfold clean_stack in E. rewrite E. unfold Clean. rewrite Hd. apply render_inside.
Qed.

(** A path with [".."] components does not. *)
Example Join_escapes : Join "/srv/mirror" "../../etc/passwd" = "/etc/passwd".
Proof. reflexivity. Qed.
