(* ===== verification/Mirror.v ===== *)
(** * The mirror ([mirror/mirror.go])

    [Consult] answers whether a request could be applied to the mirror directory,
    [Mirror] applies it. Both are system calls on paths below the directory; the
    operating system is an interface, what a call returns and how it changes the
    files. *)

From S2P Require Import Prelude Errors Protobuf Transactions Responses Host Codecs HostFacts Network NetworkInv Path.
From stdpp Require Import pretty.

(** ** The operating system *)

Definition ENOENT : Z := 2.

(** What the code reads of an [os.FileInfo]: the type bits of its mode. *)
Abbreviation FileInfo := Z (only parsing).
Definition os_ModeDir : Z := 2 ^ 31.
Definition IsDir (i : FileInfo) : bool := Z.testbit i 31.
Definition IsRegular (i : FileInfo) : bool := (i =? 0)%Z.

(** [errors.Is(err, os.ErrNotExist)]. *)
Definition is_not_exist (err : error) : bool :=
  existsb (fun e => match e with ErrErrno n _ => (n =? ENOENT)%Z | _ => false end) (chain err).

Definition O_RDONLY : Z := 0.
Definition O_WRONLY : Z := 1.
Definition O_RDWR : Z := 2.
Definition O_CREATE : Z := 64.
Definition O_TRUNC : Z := 512.

(** The calls the mirror makes. A file descriptor is a number; [CopyFileRange]
    returns the count and an error. *)
Class OS (FS : Type) := {
  os_Stat : FS -> string -> error + FileInfo;
  os_Access : FS -> string -> Z -> option error;
  os_OpenFile : FS -> string -> Z -> Z -> FS * (error + Z);
  os_Symlink : FS -> string -> string -> FS * option error;
  os_Mkdir : FS -> string -> Z -> FS * option error;
  os_Rename : FS -> string -> string -> FS * option error;
  os_Remove : FS -> string -> FS * option error;
  os_Chmod : FS -> string -> Z -> FS * option error;
  os_WriteAt : FS -> Z -> list byte -> Z -> FS * option error;
  os_Open : FS -> string -> Z -> FS * (error + Z);
  os_CopyFileRange : FS -> Z -> Z -> Z -> Z -> Z -> FS * Z * option error;
}.

Definition to_outcome (e : option error) : outcome error unit :=
  match e with None => Ok tt | Some e => Err e end.

Section mirror.
Context {FS : Type} `{OS FS}.
(** The [dir] of the [Mirror] struct. *)
Context (dir : string).
Implicit Types f : FS.

Definition path (relPath : string) : string := Path.Join dir relPath.

(** A field of [request.Metadata], which may be nil. *)
Definition with_metadata {E A} (r : Request) (k : Request_Metadata -> outcome E A) : outcome E A :=
  match Metadata r with
  | Some md => k md
  | None => Panics "nil Metadata"
  end.

(** ** [Mirror] *)

Definition mirror_write f (md : Request_Metadata) (content : list byte) : FS * outcome error unit :=
  match os_OpenFile f (path (RelativePath md)) (Z.lor (Z.lor O_WRONLY O_CREATE) O_TRUNC) 0 with
  | (f1, inl e) => (f1, Err e)
  | (f1, inr fd) => let '(f2, e) := os_WriteAt f1 fd content (WriteOffset md) in (f2, to_outcome e)
  end.

Definition mirror_copy f (md : Request_Metadata) : FS * outcome error unit :=
  match os_Open f (path (RelativePath md)) O_RDONLY with
  | (f1, inl e) => (f1, Err e)
  | (f1, inr src) =>
      match os_Open f1 (path (NewRelativePath md)) O_WRONLY with
      | (f2, inl e) => (f2, Err e)
      | (f2, inr dst) =>
          let '(f3, written, _) := os_CopyFileRange f2 src (ReadOffset md) dst (WriteOffset md) (WriteLen md) in
          (f3, if (written =? WriteLen md)%Z then Ok tt
               else Err (ErrNew ("should've written " ++ pretty (WriteLen md) ++ " but only wrote "
                          ++ pretty written ++ " to a file")))
      end
  end.

Definition Mirror f (request : option Request) : FS * outcome error unit :=
  match request with
  | None => (f, Panics "nil Request")
  | Some request =>
      match req_Type request, Metadata request with
      | Request_Unrecognised _, _ => (f, Panics "BUG: unknown protobuf.Request_Type")
      | _, None => (f, Panics "nil Metadata")
      | Request_CREATE, Some md =>
          match os_OpenFile f (path (RelativePath md)) O_CREATE (Mode md) with
          | (f', inl e) => (f', Err e)
          | (f', inr _) => (f', Ok tt)
          end
      | Request_SYMLINK, Some md | Request_LINK, Some md =>
          let '(f', e) := os_Symlink f (path (RelativePath md)) (path (NewRelativePath md)) in (f', to_outcome e)
      | Request_MKDIR, Some md =>
          let '(f', e) := os_Mkdir f (path (RelativePath md)) (Mode md) in (f', to_outcome e)
      | Request_RENAME, Some md =>
          let '(f', e) := os_Rename f (path (RelativePath md)) (path (NewRelativePath md)) in (f', to_outcome e)
      | Request_RMDIR, Some md | Request_UNLINK, Some md =>
          let '(f', e) := os_Remove f (path (RelativePath md)) in (f', to_outcome e)
      | Request_SETATTR, Some md =>
          let '(f', e) := os_Chmod f (path (RelativePath md)) (Mode md) in (f', to_outcome e)
      | Request_WRITE, Some md => mirror_write f md (default [] (Content request))
      | Request_COPY_FILE_RANGE, Some md => mirror_copy f md
      end
  end.

(** ** [Consult] *)

Definition exists_ f (relativePath : string) : bool * option error :=
  match os_Stat f (path relativePath) with
  | inl err => if is_not_exist err then (false, None) else (true, Some err)
  | inr _ => (true, None)
  end.

(** [return protobuf.ACK()] and [return protobuf.NACK(...)]. *)
Definition say_ACK : outcome Empty_set (option Response) := Ok (Some ACK).

Definition say_NACK (respErr : Response_Error) (err : option error) : outcome Empty_set (option Response) :=
  r <-! NACK respErr err ;; Ok (Some r).

(** The answer to a failed [os.Stat] in most cases. *)
Definition stat_NACK (err : error) : outcome Empty_set (option Response) :=
  if is_not_exist err then say_NACK Response_ERR_DOES_NOT_EXIST (Some err)
  else say_NACK Response_ERR_UNKNOWN (Some err).

Definition consult_link f (md : Request_Metadata) : outcome Empty_set (option Response) :=
  match exists_ f (RelativePath md) with
  | (_, Some err) => say_NACK Response_ERR_UNKNOWN (Some err)
  | (oldExists, None) =>
      match exists_ f (NewRelativePath md) with
      | (_, Some err) => say_NACK Response_ERR_UNKNOWN (Some err)
      | (newExists, None) =>
          if negb oldExists
          then say_NACK Response_ERR_DOES_NOT_EXIST
                 (Some (ErrNew ("symlink source: " ++ RelativePath md ++ " does not exist")))
          else if newExists : bool
          then say_NACK Response_ERR_ALREADY_EXISTS
                 (Some (ErrNew ("symlink destination: " ++ NewRelativePath md ++ " already exist")))
          else say_ACK
      end
  end.

Definition consult_create f (md : Request_Metadata) : outcome Empty_set (option Response) :=
  match exists_ f (RelativePath md) with
  | (_, Some err) => say_NACK Response_ERR_UNKNOWN (Some err)
  | (true, None) => say_NACK Response_ERR_ALREADY_EXISTS (Some (ErrNew "dir/file already exists"))
  | (false, None) => say_ACK
  end.

Definition consult_rename f (md : Request_Metadata) : outcome Empty_set (option Response) :=
  match os_Stat f (path (RelativePath md)) with
  | inl err => stat_NACK err
  | inr oldInfo =>
      match os_Stat f (path (NewRelativePath md)) with
      | inl err => if is_not_exist err then say_ACK else say_NACK Response_ERR_UNKNOWN (Some err)
      | inr newInfo =>
          if negb (oldInfo =? newInfo)%Z
          then say_NACK Response_ERR_INVALID_MODE
                 (Some (ErrNew "file types of old and new filename don't match"))
          else say_ACK
      end
  end.

(** A failed [os.Stat] returns a nil [FileInfo], on which [IsDir] is called; after a
    successful one the [case] ends and the function returns nil. *)
Definition consult_rmdir f (md : Request_Metadata) : outcome Empty_set (option Response) :=
  match os_Stat f (path (RelativePath md)) with
  | inl err =>
      if is_not_exist err then say_NACK Response_ERR_DOES_NOT_EXIST (Some err)
      else Panics "nil FileInfo"
  | inr _ => Ok None
  end.

Definition consult_setattr f (md : Request_Metadata) : outcome Empty_set (option Response) :=
  match os_Stat f (path (RelativePath md)) with
  | inl err => stat_NACK err
  | inr _ => say_ACK
  end.

Definition consult_unlink f (md : Request_Metadata) : outcome Empty_set (option Response) :=
  match os_Stat f (path (RelativePath md)) with
  | inl err => if is_not_exist err then say_ACK else say_NACK Response_ERR_UNKNOWN (Some err)
  | inr _ => say_ACK
  end.

(** One iteration of the loop over the two paths: [Some] returns. *)
Definition consult_copy_path f (p : string) : option (outcome Empty_set (option Response)) :=
  match os_Stat f (path p) with
  | inl err =>
      Some (if is_not_exist err
            then say_NACK Response_ERR_DOES_NOT_EXIST (Some (ErrNew (p ++ " does not exist")))
            else say_NACK Response_ERR_UNKNOWN (Some err))
  | inr info =>
      if negb (IsRegular info)
      then Some (say_NACK Response_ERR_NOT_A_FILE (Some (ErrNew (p ++ " is not a regular file"))))
      else None
  end.

Definition consult_copy f (md : Request_Metadata) : outcome Empty_set (option Response) :=
  match consult_copy_path f (RelativePath md) with
  | Some r => r
  | None =>
      match consult_copy_path f (NewRelativePath md) with
      | Some r => r
      | None =>
          match os_Access f (path (NewRelativePath md)) O_RDWR with
          | Some err => say_NACK Response_ERR_INVALID_MODE
              (Some (ErrWrap err "expected to have read-write access to the destination file"))
          | None => say_ACK
          end
      end
  end.

Definition consult f (request : Request) : outcome Empty_set (option Response) :=
  match req_Type request with
  | Request_LINK | Request_SYMLINK => with_metadata request (consult_link f)
  | Request_CREATE | Request_MKDIR => with_metadata request (consult_create f)
  | Request_RENAME => with_metadata request (consult_rename f)
  | Request_RMDIR => with_metadata request (consult_rmdir f)
  | Request_SETATTR => with_metadata request (consult_setattr f)
  | Request_UNLINK => with_metadata request (consult_unlink f)
  | Request_WRITE => say_ACK
  | Request_COPY_FILE_RANGE => with_metadata request (consult_copy f)
  | Request_Unrecognised _ => Panics "BUG: unknown protobuf.Request_Type"
  end.

(** The interface of the host, implemented. *)
Definition mirror_instance : MirrorI FS := {| Consult := consult; MirrorOp := Mirror |}.

(** ** What [Consult] decides *)

(** The condition for an ACK. *)
Definition present f (p : string) : Prop := exists i, os_Stat f (path p) = inr i.
Definition absent f (p : string) : Prop := exists e, os_Stat f (path p) = inl e /\ is_not_exist e = true.

Definition acceptable f (request : Request) (md : Request_Metadata) : Prop :=
  match req_Type request with
  | Request_LINK | Request_SYMLINK => present f (RelativePath md) /\ absent f (NewRelativePath md)
  | Request_CREATE | Request_MKDIR => absent f (RelativePath md)
  | Request_RENAME => exists i, os_Stat f (path (RelativePath md)) = inr i /\
      (absent f (NewRelativePath md) \/ os_Stat f (path (NewRelativePath md)) = inr i)
  | Request_RMDIR => False
  | Request_SETATTR => present f (RelativePath md)
  | Request_UNLINK => present f (RelativePath md) \/ absent f (RelativePath md)
  | Request_WRITE => True
  | Request_COPY_FILE_RANGE =>
      os_Stat f (path (RelativePath md)) = inr 0%Z /\ os_Stat f (path (NewRelativePath md)) = inr 0%Z /\
      os_Access f (path (NewRelativePath md)) O_RDWR = None
  | Request_Unrecognised _ => False
  end.

Lemma exists_spec f p :
  match exists_ f p with
  | (true, None) => present f p
  | (false, None) => absent f p
  | (_, Some _) => ~ present f p /\ ~ absent f p
  end.
Proof.
  unfold exists_, present, absent. destruct (os_Stat f (path p)) as [e|i] eqn:E; [|eauto].
  destruct (is_not_exist e) eqn:He; [eauto|]. split; [by intros [? ?]|].
  intros (e' & Heq & He'). simplify_eq. congruence.
Qed.

Lemma present_not_absent f p : present f p -> absent f p -> False.
Proof. intros [? H1] (? & H2 & _). congruence. Qed.

(** An answer is a vote. *)
Lemma consult_answer f r resp : consult f r = Ok (Some resp) -> is_vote (resp_Type resp).
Proof.
  intros E. unfold consult, with_metadata, consult_link, consult_create, consult_rename, consult_rmdir,
    consult_setattr, consult_unlink, consult_copy, consult_copy_path, stat_NACK, say_ACK, say_NACK in E.
  repeat case_match; simplify_eq/=; first [by left|by right].
Qed.

(** The ways a [NACK] differs from an ACK. *)
Lemma NACK_not_ACK respErr err : say_NACK respErr err <> say_ACK.
Proof. by destruct err. Qed.

Lemma stat_NACK_not_ACK err : stat_NACK err <> say_ACK.
Proof. unfold stat_NACK. case_match; apply NACK_not_ACK. Qed.

Lemma absent_error f p e : os_Stat f (path p) = inl e -> absent f p <-> is_not_exist e = true.
Proof. intros E. unfold absent. rewrite E. split; [by intros (? & [= <-] & ?)|eauto]. Qed.

Lemma present_error f p e : os_Stat f (path p) = inl e -> ~ present f p.
Proof. intros E [? ?]. congruence. Qed.

Lemma absent_info f p i : os_Stat f (path p) = inr i -> ~ absent f p.
Proof. intros E (? & ? & _). congruence. Qed.

Lemma consult_link_accepts f md :
  consult_link f md = say_ACK <-> present f (RelativePath md) /\ absent f (NewRelativePath md).
Proof.
  pose proof (exists_spec f (RelativePath md)) as Ho. pose proof (exists_spec f (NewRelativePath md)) as Hn.
  unfold consult_link. destruct (exists_ f (RelativePath md)) as [o [eo|]].
  { assert (~ present f (RelativePath md)) by (destruct o; tauto). split; [by intros ?%NACK_not_ACK|tauto]. }
  destruct (exists_ f (NewRelativePath md)) as [n [en|]].
  { assert (~ absent f (NewRelativePath md)) by (destruct n; tauto). split; [by intros ?%NACK_not_ACK|tauto]. }
  pose proof (present_not_absent f (RelativePath md)). pose proof (present_not_absent f (NewRelativePath md)).
  destruct o, n; simpl; (split; [try by intros ?%NACK_not_ACK|]); tauto.
Qed.

Lemma consult_create_accepts f md : consult_create f md = say_ACK <-> absent f (RelativePath md).
Proof.
  pose proof (exists_spec f (RelativePath md)) as Ho. unfold consult_create.
  pose proof (present_not_absent f (RelativePath md)).
  destruct (exists_ f (RelativePath md)) as [[] [eo|]]; (split; [try by intros ?%NACK_not_ACK|]); tauto.
Qed.

Lemma consult_rename_accepts f md :
  consult_rename f md = say_ACK <-> exists i, os_Stat f (path (RelativePath md)) = inr i /\
    (absent f (NewRelativePath md) \/ os_Stat f (path (NewRelativePath md)) = inr i).
Proof.
  unfold consult_rename. destruct (os_Stat f (path (RelativePath md))) as [e|i] eqn:Eo.
  { split; [by intros ?%stat_NACK_not_ACK|by intros (? & ? & _)]. }
  destruct (os_Stat f (path (NewRelativePath md))) as [e|i'] eqn:En.
  - pose proof (absent_error _ _ _ En) as Ha. destruct (is_not_exist e).
    + split; [|done]. intros _. exists i. split; [done|left; by apply Ha].
    + split; [by intros ?%NACK_not_ACK|]. intros (i' & _ & [Hx%Ha|Hx]); congruence.
  - pose proof (absent_info _ _ _ En). destruct (Z.eqb_spec i i') as [->|Hne]; simpl; [naive_solver|].
    split; [by intros ?%NACK_not_ACK|naive_solver].
Qed.

Lemma consult_copy_path_spec f p :
  consult_copy_path f p = None <-> os_Stat f (path p) = inr 0%Z.
Proof.
  unfold consult_copy_path, IsRegular. destruct (os_Stat f (path p)) as [e|i]; [naive_solver|].
  destruct (Z.eqb_spec i 0) as [->|Hne]; naive_solver.
Qed.

Lemma consult_copy_path_not_ACK f p r : consult_copy_path f p = Some r -> r <> say_ACK.
Proof. unfold consult_copy_path. intros E. repeat case_match; simplify_eq; apply NACK_not_ACK. Qed.

Lemma consult_copy_accepts f md :
  consult_copy f md = say_ACK <->
  os_Stat f (path (RelativePath md)) = inr 0%Z /\ os_Stat f (path (NewRelativePath md)) = inr 0%Z /\
  os_Access f (path (NewRelativePath md)) O_RDWR = None.
Proof.
  rewrite <- !consult_copy_path_spec. unfold consult_copy.
  destruct (consult_copy_path f (RelativePath md)) eqn:E1; [pose proof (consult_copy_path_not_ACK _ _ _ E1); naive_solver|].
  destruct (consult_copy_path f (NewRelativePath md)) eqn:E2; [pose proof (consult_copy_path_not_ACK _ _ _ E2); naive_solver|].
  destruct (os_Access _ _ _); [|tauto]. split; [by intros ?%NACK_not_ACK|naive_solver].
Qed.

(** C27: [Consult] agrees to exactly the requests that meet the conditions above, on
    any operating system and whatever its errors. *)
Theorem Consult_accepts f request md :
  Metadata request = Some md ->
  consult f request = Ok (Some ACK) <-> acceptable f request md.
Proof.
  intros Hmd. unfold consult, acceptable, with_metadata. rewrite Hmd. change (Ok (Some ACK)) with say_ACK.
  destruct (req_Type request).
  - apply consult_create_accepts.
  - apply consult_link_accepts.
  - apply consult_create_accepts.
  - apply consult_rename_accepts.
  - unfold consult_rmdir. repeat case_match; split; try done; by intros ?%NACK_not_ACK.
  - unfold consult_setattr, present. destruct (os_Stat f _); [|split; eauto].
    split; [by intros ?%stat_NACK_not_ACK|by intros [? ?]].
  - apply consult_link_accepts.
  - unfold consult_unlink, present, absent. destruct (os_Stat f _) as [e|]; [|split; eauto].
    destruct (is_not_exist e) eqn:He; [split; eauto|]. split; [by intros ?%NACK_not_ACK|].
    intros [[? ?]|(e' & [= <-] & ?)]; congruence.
  - done.
  - apply consult_copy_accepts.
  - done.
Qed.
End mirror.

(** ** The mirror behind the host *)

(** The answers of the mirror are votes, so the theorems about the network hold of
    hosts that use it. *)
#[export] Instance mirror_votes {FS : Type} `{OS FS} (dir : string) :
  VotingMirror FS (MI := mirror_instance dir).
Proof. intros f r resp. apply consult_answer. Defined.

(** A request for which [Consult] panics or returns nil ends the process that receives it. *)
Lemma consult_crash {FS : Type} {GZ : GzipCodec} {PC : ProtoCodec} {MI : MirrorI FS} level (n : node FS) raw msg request w :
  crashed n = None -> listener n = LSelect -> peers n <> [] ->
  ReadMessage raw = Ok msg -> ts (trans n) !! Tid msg = None -> GetRequest msg = Some request ->
  Consult (fs n) request = Panics w \/ Consult (fs n) request = Ok None /\ w = "nil Response" ->
  exists n', run level n [EvReceive (conn_Data raw); EvNotify; EvHandConsult (next (trans n))] = Some (n', []) /\
    crashed n' = Some w.
Proof.
  intros Hc Hl Hp HR Hts Hreq HC. destruct (peers n) as [|q ps] eqn:Eps; [done|].
  destruct (Put msg (trans n)) as [[t' l] created] eqn:HP.
  assert (l = next (trans n) /\ created = true) as [-> ->].
  { unfold Put, ensure in HP. rewrite Hts in HP. by simplify_eq. }
  set (n1 := set_handler (next (trans n)) (HWait (length (peers n)) Response_ACK)
               (set_listener (LSend (next (trans n)) msg) (set_trans t' n))).
  assert (node_step level n (EvReceive (conn_Data raw)) = Some (n1, None)) as H1.
  { unfold node_step, listen_receive. by rewrite Hc, Hl, HR, HP. }
  set (n2 := set_handler (next (trans n)) (HConsult (length ps) msg request) (set_listener LSelect n1)).
  assert (node_step level n1 EvNotify = Some (n2, None)) as H2.
  { unfold node_step, notify. simpl. rewrite Hc, lookup_insert_eq, Eps. simpl. unfold received. by rewrite Hreq. }
  assert (node_step level n2 (EvHandConsult (next (trans n))) = Some (crash w n2, None)) as H3.
  { unfold node_step, handle_consult. simpl. rewrite Hc, lookup_insert_eq. simpl. by destruct HC as [->|[-> ->]]. }
  exists (crash w n2). split; [|done]. cbn [run]. rewrite H1. cbn. rewrite H2. cbn. by rewrite H3.
Qed.

(** C38: a request to remove a directory that exists ends the process of every peer
    that receives it: [Consult] returns nil and [handleTransaction] dereferences it. *)
Theorem rmdir_of_existing_directory_crashes_peers {FS : Type} `{OS FS} {GZ : GzipCodec} {PC : ProtoCodec}
    (dir : string) level (n : node FS) raw msg request md i :
  crashed n = None -> listener n = LSelect -> peers n <> [] ->
  ReadMessage raw = Ok msg -> ts (trans n) !! Tid msg = None ->
  GetRequest msg = Some request -> req_Type request = Request_RMDIR -> Metadata request = Some md ->
  os_Stat (fs n) (path dir (RelativePath md)) = inr i ->
  exists n', run (MI := mirror_instance dir) level n
      [EvReceive (conn_Data raw); EvNotify; EvHandConsult (next (trans n))] = Some (n', []) /\
    crashed n' = Some "nil Response".
Proof.
  intros Hc Hl Hp HR Hts Hreq Hty Hmd Hst. eapply (consult_crash (MI := mirror_instance dir)); try done. right.
  split; [|done]. simpl. unfold consult, with_metadata, consult_rmdir. by rewrite Hty, Hmd, Hst.
Qed.

(** ** The mirror stays in its directory *)

(** Two operating systems that do the same in all calls whose paths have the property
    [P], and in all calls on descriptors. *)
Record agree_on {FS : Type} (P : string -> Prop) (O O' : OS FS) : Prop := {
  ao_Stat f p : P p -> @os_Stat _ O f p = @os_Stat _ O' f p;
  ao_Access f p mode : P p -> @os_Access _ O f p mode = @os_Access _ O' f p mode;
  ao_OpenFile f p flags mode : P p -> @os_OpenFile _ O f p flags mode = @os_OpenFile _ O' f p flags mode;
  ao_Symlink f p q : P p -> P q -> @os_Symlink _ O f p q = @os_Symlink _ O' f p q;
  ao_Mkdir f p mode : P p -> @os_Mkdir _ O f p mode = @os_Mkdir _ O' f p mode;
  ao_Rename f p q : P p -> P q -> @os_Rename _ O f p q = @os_Rename _ O' f p q;
  ao_Remove f p : P p -> @os_Remove _ O f p = @os_Remove _ O' f p;
  ao_Chmod f p mode : P p -> @os_Chmod _ O f p mode = @os_Chmod _ O' f p mode;
  ao_WriteAt f fd b off : @os_WriteAt _ O f fd b off = @os_WriteAt _ O' f fd b off;
  ao_Open f p flags : P p -> @os_Open _ O f p flags = @os_Open _ O' f p flags;
  ao_CopyFileRange f src roff dst woff len :
    @os_CopyFileRange _ O f src roff dst woff len = @os_CopyFileRange _ O' f src roff dst woff len;
}.

(** The paths of a request have no [".."] component. *)
Definition no_dotdot (rel : string) : Prop := Forall (fun c => plain c = true) (split_path rel).

Definition tame (md : Request_Metadata) : Prop := no_dotdot (RelativePath md) /\ no_dotdot (NewRelativePath md).

Section containment.
Context {FS : Type} (O O' : OS FS) (dir : string).
Context (Hdir : rooted dir = true) (HO : agree_on (inside (Clean dir)) O O').

Lemma stat_contained f rel :
  no_dotdot rel -> @os_Stat _ O f (path dir rel) = @os_Stat _ O' f (path dir rel).
Proof. intros Hrel. apply HO, Join_inside; done. Qed.

Lemma exists_contained f rel : no_dotdot rel -> @exists_ _ O dir f rel = @exists_ _ O' dir f rel.
Proof. intros Hrel. unfold exists_. by rewrite stat_contained. Qed.

Lemma consult_contained f request md :
  Metadata request = Some md -> tame md -> @consult _ O dir f request = @consult _ O' dir f request.
Proof.
  intros Hmd [Hp Hq]. unfold consult, with_metadata. rewrite Hmd.
  destruct (req_Type request);
    unfold consult_link, consult_create, consult_rename, consult_rmdir, consult_setattr, consult_unlink, consult_copy, consult_copy_path;
    rewrite ?exists_contained, ?stat_contained by done; try done.
  by rewrite (ao_Access _ _ _ HO) by (by apply Join_inside).
Qed.

Lemma mirror_copy_contained f md : tame md -> @mirror_copy _ O dir f md = @mirror_copy _ O' dir f md.
Proof.
  intros [Hp Hq]. unfold mirror_copy. rewrite (ao_Open _ _ _ HO) by (by apply Join_inside).
  destruct (@os_Open _ O' f _ _) as [f1 [e|src]]; [done|].
  rewrite (ao_Open _ _ _ HO) by (by apply Join_inside). destruct (@os_Open _ O' f1 _ _) as [f2 [e|dst]]; [done|].
  by rewrite (ao_CopyFileRange _ _ _ HO).
Qed.

Lemma mirror_write_contained f md b : tame md -> @mirror_write _ O dir f md b = @mirror_write _ O' dir f md b.
Proof.
  intros [Hp Hq]. unfold mirror_write. rewrite (ao_OpenFile _ _ _ HO) by (by apply Join_inside).
  destruct (@os_OpenFile _ O' f _ _ _) as [f1 [e|fd]]; [done|]. by rewrite (ao_WriteAt _ _ _ HO).
Qed.

Lemma mirror_contained f request md :
  Metadata request = Some md -> tame md -> @Mirror _ O dir f (Some request) = @Mirror _ O' dir f (Some request).
Proof.
  intros Hmd Ht. pose proof Ht as [Hp Hq]. unfold Mirror. rewrite Hmd.
  pose proof (Join_inside dir _ Hdir Hp) as Ip. pose proof (Join_inside dir _ Hdir Hq) as Iq.
  destruct (req_Type request).
  - by rewrite (ao_OpenFile _ _ _ HO).
  - by rewrite (ao_Symlink _ _ _ HO).
  - by rewrite (ao_Mkdir _ _ _ HO).
  - by rewrite (ao_Rename _ _ _ HO).
  - by rewrite (ao_Remove _ _ _ HO).
  - by rewrite (ao_Chmod _ _ _ HO).
  - by rewrite (ao_Symlink _ _ _ HO).
  - by rewrite (ao_Remove _ _ _ HO).
  - by apply mirror_write_contained.
  - by apply mirror_copy_contained.
  - done.
Qed.
End containment.

(** C28: the mirror makes no call on a path outside its directory, as long as the paths a
    request carries have no [".."] component: on two operating systems that agree on the
    paths inside the directory and do whatever they like on all others, [Consult] gives
    the same answer and [Mirror] the same files and the same result. Nothing else checks
    what a peer sends. *)
Theorem mirror_stays_in_its_directory {FS : Type} (O O' : OS FS) dir f request md :
  rooted dir = true -> agree_on (inside (Clean dir)) O O' -> Metadata request = Some md -> tame md ->
  @consult _ O dir f request = @consult _ O' dir f request /\
  @Mirror _ O dir f (Some request) = @Mirror _ O' dir f (Some request).
Proof. intros Hd HO Hmd Ht. split; [by eapply consult_contained|by eapply mirror_contained]. Qed.

(** ** A file system in memory, for the examples *)

Inductive inode :=
| IFile (perm : Z) (data : list byte)
| IDir (perm : Z)
| ILink (target : string).

Record memfs := mkMemfs { tree : gmap string inode; fds : list string }.

Definition errno_ENOENT : error := ErrErrno ENOENT "no such file or directory".
Definition errno_EEXIST : error := ErrErrno 17 "file exists".

(** Symbolic links at the end of a path are followed up to the limit of the kernel, those
    inside a path are not. *)
Fixpoint follow (fuel : nat) (f : memfs) (p : string) : error + (string * inode) :=
  match fuel, tree f !! p with
  | S fuel, Some (ILink t) => follow fuel f t
  | 0, Some (ILink _) => inl (ErrErrno 40 "too many levels of symbolic links")
  | _, Some i => inr (p, i)
  | _, None => inl errno_ENOENT
  end.

Definition mem_stat (f : memfs) (p : string) : error + Z :=
  match follow 40 f p with
  | inl e => inl (os_PathError "stat" p e)
  | inr (_, IDir _) => inr os_ModeDir
  | inr (_, _) => inr 0%Z
  end.

Definition set_tree (t : gmap string inode) (f : memfs) : memfs := mkMemfs t (fds f).

(** The directory an absolute path lies in, and the paths below a directory. *)
Definition parent (p : string) : string := render true (tail (clean_stack true [] (split_path p))).

Definition below (d p : string) : bool := String.prefix (d ++ "/") p.

(** Entries are made in directories that exist. *)
Definition in_directory (f : memfs) (p : string) : bool :=
  String.eqb (parent p) "/" || match tree f !! parent p with Some (IDir _) => true | _ => false end.

Definition is_empty_dir (f : memfs) (p : string) : bool := forallb (fun x => negb (below p x.1)) (map_to_list (tree f)).

Definition mem_open (op : string) (f : memfs) (p : string) (flags mode : Z) : memfs * (error + Z) :=
  let fd q t := (mkMemfs t (fds f ++ [q]), inr (Z.of_nat (length (fds f)))) in
  match follow 40 f p with
  | inr (q, IFile perm d) =>
      fd q (if Z.testbit flags 9 then <[q := IFile perm []]> (tree f) else tree f)
  | inr (q, _) => if Z.testbit flags 0 then (f, inl (os_PathError op p (ErrErrno 21 "is a directory"))) else fd q (tree f)
  | inl e =>
      if Z.testbit flags 6 && in_directory f p then fd p (<[p := IFile mode []]> (tree f))
      else (f, inl (os_PathError op p e))
  end.

Definition mem_new (op : string) (i : inode) (f : memfs) (p : string) : memfs * option error :=
  match tree f !! p with
  | Some _ => (f, Some (os_PathError op p errno_EEXIST))
  | None =>
      if in_directory f p then (set_tree (<[p := i]> (tree f)) f, None)
      else (f, Some (os_PathError op p errno_ENOENT))
  end.

(** A rename takes what lies below a directory with it. *)
Definition move_key (old new p : string) : string :=
  if String.eqb p old then new
  else if below old p then new ++ String.substring (String.length old) (String.length p - String.length old) p
  else p.

Definition mem_rename (f : memfs) (old new : string) : memfs * option error :=
  let failed e := (f, Some (os_PathError "rename" old e)) in
  match tree f !! old with
  | None => failed errno_ENOENT
  | Some i =>
      if negb (in_directory f new) then failed errno_ENOENT
      else if below old new then failed (ErrErrno 22 "invalid argument")
      else match tree f !! new with
           | Some (IDir _) => failed errno_EEXIST
           | _ => (set_tree (list_to_map (prod_map (move_key old new) id <$> map_to_list (delete new (tree f)))) f, None)
           end
  end.

Definition mem_remove (f : memfs) (p : string) : memfs * option error :=
  match tree f !! p with
  | None => (f, Some (os_PathError "remove" p errno_ENOENT))
  | Some _ =>
      if is_empty_dir f p then (set_tree (delete p (tree f)) f, None)
      else (f, Some (os_PathError "remove" p (ErrErrno 39 "directory not empty")))
  end.

(** A write at an offset, the gap filled with zeros. *)
Definition write_at (d : list byte) (off : nat) (b : list byte) : list byte :=
  take off (d ++ replicate off Byte.x00) ++ b ++ drop (off + length b) d.

Definition mem_write (f : memfs) (fd : Z) (b : list byte) (off : Z) : memfs * option error :=
  match fds f !! Z.to_nat fd with
  | None => (f, Some (ErrErrno 9 "bad file descriptor"))
  | Some p =>
      if (off <? 0)%Z then (f, Some (ErrNew "negative offset")) else
      match tree f !! p with
      | Some (IFile perm d) => (set_tree (<[p := IFile perm (write_at d (Z.to_nat off) b)]> (tree f)) f, None)
      | _ => (f, Some (ErrErrno 9 "bad file descriptor"))
      end
  end.

Definition mem_data (f : memfs) (fd : Z) : list byte :=
  match fds f !! Z.to_nat fd ≫= (fun p => tree f !! p) with Some (IFile _ d) => d | _ => [] end.

#[export] Instance mem_os : OS memfs := {|
  os_Stat := mem_stat;
  os_Access f p mode := match mem_stat f p with inl e => Some e | inr _ => None end;
  os_OpenFile f p flags mode := mem_open "open" f p flags mode;
  os_Symlink f old new := mem_new "symlink" (ILink old) f new;
  os_Mkdir f p mode := mem_new "mkdir" (IDir mode) f p;
  os_Rename := mem_rename;
  os_Remove := mem_remove;
  os_Chmod f p mode :=
    match follow 40 f p with
    | inr (q, IFile _ d) => (set_tree (<[q := IFile mode d]> (tree f)) f, None)
    | inr (q, _) => (set_tree (<[q := IDir mode]> (tree f)) f, None)
    | inl e => (f, Some (os_PathError "chmod" p e))
    end;
  os_WriteAt := mem_write;
  os_Open f p flags := mem_open "open" f p flags 0;
  os_CopyFileRange f src roff dst woff len :=
    let b := take (Z.to_nat len) (drop (Z.to_nat roff) (mem_data f src)) in
    match mem_write f dst b woff with
    | (f', None) => (f', Z.of_nat (length b), None)
    | (f', Some e) => (f', (-1)%Z, Some e)
    end;
|}.

(** ** The mirror on a small tree *)

Definition shire : memfs :=
  mkMemfs (list_to_map [("/etc", IDir 493); ("/m", IDir 493); ("/m/docs", IDir 493); ("/m/a", IFile 420 [Byte.x61])]) [].

Definition request_on (ty : Request_Type) (md : Request_Metadata) (c : option (list byte)) : Request :=
  mkRequest ty (Some md) 0 c.

Lemma Consult_accepts_witness :
  consult "/m" shire (request_on Request_RENAME (mkMetadata "a" "b" 0 0 0 0) None) = Ok (Some ACK).
Proof.
  apply (Consult_accepts "/m" shire (request_on Request_RENAME (mkMetadata "a" "b" 0 0 0 0) None)
    (mkMetadata "a" "b" 0 0 0 0) eq_refl).
  exists 0%Z. split; [vm_compute; reflexivity|]. left. eexists. split; vm_compute; reflexivity.
Defined.

(** Two bytes at offset 0, then two bytes at offset 2. *)
Definition two_chunks : memfs :=
  let w off c f := (Mirror "/m" f (Some (request_on Request_WRITE (mkMetadata "a" "" 0 off 0 0) (Some c)))).1 in
  w 2%Z [Byte.x43; Byte.x44] (w 0%Z [Byte.x41; Byte.x42] shire).

(** A write in two parts: the second opens the file with [O_TRUNC], and the part the
    first one wrote is gone. *)
Theorem chunked_write_loses_data :
  tree two_chunks !! "/m/a" = Some (IFile 420 [Byte.x00; Byte.x00; Byte.x43; Byte.x44]).
Proof. vm_compute. reflexivity. Qed.

(** A removal of a missing file is agreed to and then fails. *)
Theorem unlink_of_missing_file_is_accepted_and_fails :
  let r := request_on Request_UNLINK (mkMetadata "nowhere" "" 0 0 0 0) None in
  consult "/m" shire r = Ok (Some ACK) /\
  (Mirror "/m" shire (Some r)).2 = Err (os_PathError "remove" "/m/nowhere" errno_ENOENT).
Proof. split; vm_compute; reflexivity. Qed.

(** A path with [".."] leaves the directory. *)
Theorem hostile_path_escapes :
  tree (Mirror "/m" shire (Some (request_on Request_CREATE (mkMetadata "../etc/cron" "" 420 0 0 0) None))).1
    !! "/etc/cron" = Some (IFile 420 []).
Proof. vm_compute. reflexivity. Qed.

(** The same file system, which refuses everything outside a directory. *)
Definition insideb (d p : string) : bool :=
  String.eqb p d || String.prefix (d ++ "/") p || (String.eqb d "/" && rooted p).

Lemma inside_insideb d p : inside d p -> insideb d p = true.
Proof.
  unfold insideb. intros [->|[[s ->]|[-> ->]]]; [by rewrite String.eqb_refl| |by rewrite !orb_true_r].
  enough (String.prefix (d ++ "/") (d ++ String slash s) = true) as -> by (by rewrite orb_true_r).
  induction d as [|c d IH]; [by destruct s|]. simpl. by destruct (Ascii.ascii_dec c c).
Qed.

Definition errno_EACCES : error := ErrErrno 13 "permission denied".

Definition jail {FS} (d : string) (O : OS FS) : OS FS := {|
  os_Stat f p := if insideb d p then os_Stat f p else inl errno_EACCES;
  os_Access f p mode := if insideb d p then os_Access f p mode else Some errno_EACCES;
  os_OpenFile f p flags mode := if insideb d p then os_OpenFile f p flags mode else (f, inl errno_EACCES);
  os_Symlink f p q := if insideb d p && insideb d q then os_Symlink f p q else (f, Some errno_EACCES);
  os_Mkdir f p mode := if insideb d p then os_Mkdir f p mode else (f, Some errno_EACCES);
  os_Rename f p q := if insideb d p && insideb d q then os_Rename f p q else (f, Some errno_EACCES);
  os_Remove f p := if insideb d p then os_Remove f p else (f, Some errno_EACCES);
  os_Chmod f p mode := if insideb d p then os_Chmod f p mode else (f, Some errno_EACCES);
  os_WriteAt := os_WriteAt;
  os_Open f p flags := if insideb d p then os_Open f p flags else (f, inl errno_EACCES);
  os_CopyFileRange := os_CopyFileRange;
|}.

Lemma jail_agrees {FS} d (O : OS FS) : agree_on (inside d) O (jail d O).
Proof. split; intros; simpl; by rewrite ?inside_insideb by done. Qed.

(** Two hosts, one of them in a jail, carry out the rename alike; the request that
    escapes they do not. *)
Example jail_stops_escapes :
  (@Mirror _ (jail "/m" mem_os) "/m" shire
    (Some (request_on Request_CREATE (mkMetadata "../etc/cron" "" 420 0 0 0) None))).2 = Err errno_EACCES.
Proof. reflexivity. Qed.

Definition rename_a : Request := request_on Request_RENAME (mkMetadata "./a" "docs/b" 0 0 0 0) None.

Lemma mirror_stays_in_its_directory_witness :
  consult "/m" shire rename_a = @consult _ (jail "/m" mem_os) "/m" shire rename_a /\
  Mirror "/m" shire (Some rename_a) = @Mirror _ (jail "/m" mem_os) "/m" shire (Some rename_a).
Proof.
  apply (mirror_stays_in_its_directory mem_os (jail "/m" mem_os) "/m" shire rename_a (mkMetadata "./a" "docs/b" 0 0 0 0)).
  - reflexivity.
  - apply (jail_agrees "/m" mem_os).
  - reflexivity.
  - split; vm_compute; repeat constructor.
Defined.

Lemma rmdir_of_existing_directory_crashes_peers_witness :
  exists n', run (MI := mirror_instance "/m") gzip_DefaultCompression (NewHost "Aragorn" ["Legolas"; "Gimli"] shire)
      [EvReceive (conn_Data (wire (mkMessage "7" "Legolas"
         (Some (Message_Request (request_on Request_RMDIR (path_Metadata "docs") None))))));
       EvNotify; EvHandConsult 0] = Some (n', []) /\
    crashed n' = Some "nil Response".
Proof.
  apply (rmdir_of_existing_directory_crashes_peers "/m" gzip_DefaultCompression
    (NewHost "Aragorn" ["Legolas"; "Gimli"] shire) _
    (mkMessage "7" "Legolas" (Some (Message_Request (request_on Request_RMDIR (path_Metadata "docs") None))))
    (request_on Request_RMDIR (path_Metadata "docs") None) (path_Metadata "docs") os_ModeDir);
    first [reflexivity|discriminate|vm_compute; reflexivity].
Defined.
