(* ===== verification/Hostile.v ===== *)
(** * A hostile message

    Hosts with the mirror of [mirror.go], on any operating system, and a message of two
    bytes that ends the process of any peer that receives it. *)

From S2P Require Import Prelude Errors Protobuf Transactions Conflicts Responses Host Codecs HostFacts HostRuns.
From S2P Require Import Path Mirror Wire MessagePb.

(** ** Two bytes *)

(** A message with an empty request in it: tag 3, length 0. *)
Definition two_bytes : list byte := [Byte.x1a; Byte.x00].

(** C35: A message of two bytes ends the process of the peer that receives it: it is a
    well-formed request without metadata, which [Consult] dereferences without a check,
    whatever the files are and whatever else the host is doing. *)
Theorem two_bytes_crash_a_host {FS : Type} `{OS FS} {GZ : GzipCodec} dir level (n : node FS) :
  crashed n = None -> listener n = LSelect -> peers n <> [] -> ts (trans n) !! "" = None ->
  exists n', run (MI := mirror_instance dir) (PC := wire_codec) level n
      [EvReceive (conn_Data two_bytes); EvNotify; EvHandConsult (next (trans n))] = Some (n', []) /\
    crashed n' = Some "nil Metadata".
Proof.
  intros Hc Hl Hp Hts.
  eapply (consult_crash (MI := mirror_instance dir) (PC := wire_codec) level n two_bytes
    (mkMessage "" "" (Some (Message_Request no_Request))) no_Request); try done.
  by left.
Qed.

Lemma two_bytes_crash_a_host_witness :
  exists n', run (MI := mirror_instance "/m") (PC := wire_codec) gzip_DefaultCompression (NewHost "Aragorn" ["Legolas"; "Gimli"] shire)
      [EvReceive (conn_Data two_bytes); EvNotify; EvHandConsult 0] = Some (n', []) /\
    crashed n' = Some "nil Metadata".
Proof.
  apply (two_bytes_crash_a_host "/m" gzip_DefaultCompression (NewHost "Aragorn" ["Legolas"; "Gimli"] shire));
    first [reflexivity|discriminate].
Defined.
