(* ===== verification/Rfs.v ===== *)
(** * The FUSE layer ([rfs/replicate.go], [rfs/root.go], [rfs/root_file.go])

    Every handler that changes the file system first consults the host's own mirror, then
    replicates the request, and only then acts on the local files. A handler is a program
    on the local files, a state of any type [L]: what the mirror and the host do is the
    argument [services], what go-fuse's loopback node and file and the system calls do is
    the interface [Local]. *)

From S2P Require Import Prelude Errors Protobuf Host Path Mirror.

(** ** Errnos *)

Definition NoError : Z := 0.
Definition EPERM : Z := 1.
Definition EBADF : Z := 9.
Definition EEXIST : Z := 17.
Definition ENOTDIR : Z := 20.
Definition EINVAL : Z := 22.
Definition ETIMEDOUT : Z := 110.
Definition EHOSTDOWN : Z := 112.
Definition ECANCELED : Z := 125.
Definition PermissionDenied : Z := EPERM.

Definition errnoFromProtobufError (e : Response_Error) : Z :=
  match e with
  | Response_ERR_UNKNOWN => PermissionDenied
  | Response_ERR_ALREADY_EXISTS => EEXIST
  | Response_ERR_DOES_NOT_EXIST => ENOENT
  | Response_ERR_TRANSACTION_CONFLICT => PermissionDenied
  | Response_ERR_NOT_A_DIRECTORY => ENOTDIR
  | Response_ERR_NOT_A_FILE => EBADF
  | Response_ERR_INVALID_MODE => EINVAL
  | Response_Error_Unrecognised _ => PermissionDenied
  end.

(** The errno of a failed [Replicate]. *)
Definition errno_of_error (err : error) : Z :=
  match Cause err with
  | context_Canceled => ECANCELED
  | context_DeadlineExceeded => ETIMEDOUT
  | ErrPeerIsDown => EHOSTDOWN
  | _ => PermissionDenied
  end.

(** ** Programs on the local files *)

Definition handler (L A : Type) : Type := L -> L * outcome Empty_set A.

Definition h_ret {L A} (a : A) : handler L A := fun f => (f, Ok a).

Definition h_panic {L A} (w : string) : handler L A := fun f => (f, Panics w).

Definition h_bind {L A B} (m : handler L A) (k : A -> handler L B) : handler L B := fun f =>
  match m f with
  | (f1, Ok a) => k a f1
  | (f1, Panics w) => (f1, Panics w)
  | (_, Err e) => match e with end
  end.

(** A call that always returns. *)
Definition h_call {L A} (g : L -> L * A) : handler L A := fun f => let '(f1, a) := g f in (f1, Ok a).

#[local] Notation "x <-% m ;; k" := (h_bind m (fun x => k)) (at level 100, m at next level, right associativity).

(** ** The two interfaces of the file system *)

(** The mirror's [Consult], which reads the files, and the host's [Replicate], during
    which the files may change, for instance by what the host mirrors meanwhile. *)
Record services (L : Type) := mkServices {
  mir_Consult : L -> Request -> outcome Empty_set (option Response);
  rep_Replicate : L -> Request -> L * outcome error unit;
}.
Arguments mkServices {L}.
Arguments mir_Consult {L}.
Arguments rep_Replicate {L}.

Definition replicate {L} (s : services L) (req : Request) : handler L Z := fun f =>
  match mir_Consult s f req with
  | Panics w => (f, Panics w)
  | Err e => match e with end
  | Ok resp =>
      if bool_decide (Response_GetType resp = Response_NACK) then
        (f, match resp with
            | Some r =>
                match resp_Error r with
                | Some e => Ok (errnoFromProtobufError e)
                | None => Panics "nil Response_Error"
                end
            | None => Panics "nil Response"
            end)
      else
        let '(f1, res) := rep_Replicate s f req in
        (f1, match res with
             | Ok _ => Ok NoError
             | Err err => Ok (errno_of_error err)
             | Panics w => Panics w
             end)
  end.

(** ** Nodes, files and the calls on them *)

(** [root]: the services and the loopback root, which go-fuse shares between nodes. *)
Record root (L : Type) := mkRoot { r_services : services L; RootPath : string; RootDev : Z }.
Arguments mkRoot {L}.
Arguments r_services {L}.
Arguments RootPath {L}.
Arguments RootDev {L}.

Definition newRfsRoot {L} (r : root L) (lrPath : string) (lrDev : Z) : root L := mkRoot (r_services r) lrPath lrDev.

(** [rootFile]: an open descriptor with the path it was opened under. *)
Record rootFile (L : Type) := mkRootFile { f_services : services L; f_path : string; f_fd : Z }.
Arguments mkRootFile {L}.
Arguments f_services {L}.
Arguments f_path {L}.
Arguments f_fd {L}.

Definition NewRfsFile {L} (fd : Z) (p : string) (s : services L) : rootFile L := mkRootFile s p fd.

Record Stat_t := mkStat { st_Dev : Z; st_Ino : Z; st_Mode : Z }.

Record StableAttr := mkStableAttr { sa_Mode : Z; sa_Gen : Z; sa_Ino : Z }.

(** The system calls of the handlers, with the errno they fail with, and the operations of
    go-fuse's loopback node, given by its path below the mount point, and loopback file,
    given by its descriptor, with the errno they return. *)
Class Local (L : Type) := {
  syscall_Open : L -> string -> Z -> Z -> L * (Z + Z);
  syscall_Fstat : L -> Z -> Z + Stat_t;
  syscall_Close : L -> Z -> L;
  syscall_Chmod : L -> string -> Z -> L * Z;
  unix_CopyFileRange : L -> Z -> Z -> Z -> Z -> Z -> Z -> L * (Z * Z);
  loopback_Mkdir : L -> string -> string -> Z -> L * Z;
  loopback_Rename : L -> string -> string -> string -> string -> Z -> L * Z;
  loopback_Rmdir : L -> string -> string -> L * Z;
  loopback_Symlink : L -> string -> string -> string -> L * Z;
  loopback_Unlink : L -> string -> string -> L * Z;
  loopback_Write : L -> Z -> list byte -> Z -> L * (Z * Z);
  loopback_Lseek : L -> Z -> Z -> Z -> L * (Z * Z);
}.

(** The flags of [open]: [&^] clears bits. *)
Definition O_CREATE : Z := 64.
Definition O_APPEND : Z := 1024.
Definition clear_append (flags : Z) : Z := Z.ldiff flags O_APPEND.
Definition create_flags (flags : Z) : Z := Z.lor (clear_append flags) O_CREATE.

(** [(d << 32) | (d >> 32)] on [uint64]. *)
Definition swap (d : Z) : Z := Z.lor (u64 (Z.shiftl d 32)) (Z.shiftr d 32).

Definition idFromStat {L} (r : root L) (st : Stat_t) : StableAttr :=
  mkStableAttr (st_Mode st) 1 (Z.lxor (Z.lxor (swap (st_Dev st)) (swap (RootDev r))) (st_Ino st)).

(** The paths a node computes: [here] is [r.Path(r.Root())], its path below the mount
    point, and [rootPath] the [Path] of the loopback root. *)
Definition relativePath (here name : string) : string := Path.Join here name.

Definition physicalPath (here rootPath name : string) : string := Path.Join rootPath (relativePath here name).

(** ** The requests *)

Definition request (ty : Request_Type) (md : Request_Metadata) (c : option (list byte)) : Request :=
  mkRequest ty (Some md) 0 c.

Definition create_request (here name : string) (mode : Z) : Request :=
  request Request_CREATE (mkMetadata (relativePath here name) "" mode 0 0 0) None.

Definition mkdir_request (here name : string) (mode : Z) : Request :=
  request Request_MKDIR (mkMetadata (relativePath here name) "" mode 0 0 0) None.

(** [newParent] is [newParent.EmbeddedInode().Path(nil)]. *)
Definition rename_request (here name newParent newName : string) : Request :=
  request Request_RENAME
    (mkMetadata (relativePath here name) (Path.Join newParent (relativePath here newName)) 0 0 0 0) None.

Definition rmdir_request (here name : string) : Request :=
  request Request_RMDIR (mkMetadata (relativePath here name) "" 0 0 0 0) None.

Definition setattr_request (here : string) (mode : Z) : Request :=
  request Request_SETATTR (mkMetadata here "" mode 0 0 0) None.

Definition symlink_request (here target name : string) : Request :=
  request Request_SYMLINK (mkMetadata (relativePath here target) (relativePath here name) 0 0 0 0) None.

(** [targetPath] is [target.EmbeddedInode().Path(nil)]. *)
Definition link_request (here targetPath name : string) : Request :=
  request Request_LINK (mkMetadata (relativePath here targetPath) (relativePath here name) 0 0 0 0) None.

Definition unlink_request (here name : string) : Request :=
  request Request_UNLINK (mkMetadata (relativePath here name) "" 0 0 0 0) None.

(** Offsets and length are [uint64]s. *)
Definition copy_request (inPath outPath : string) (offIn offOut len : Z) : Request :=
  request Request_COPY_FILE_RANGE (mkMetadata inPath outPath 0 (i64 offOut) (i64 offIn) (i64 len)) None.

Definition write_request (path : string) (data : list byte) (off : Z) : Request :=
  request Request_WRITE (mkMetadata path "" 0 off 0 0) (Some data).

(** ** The handlers *)

(** What [Create] returns: the file handle and the identity of the new inode, or an errno. *)
Record created (L : Type) := mkCreated { cr_handle : option (rootFile L * StableAttr); cr_errno : Z }.
Arguments mkCreated {L}.
Arguments cr_handle {L}.
Arguments cr_errno {L}.

Section handlers.
Context {L : Type} `{Local L}.
Implicit Types f : L.

Section node.
Context (r : root L) (here : string).

(** The part of [Create] after replication. *)
Definition create_local (name : string) (flags mode : Z) : handler L (created L) :=
  opened <-% h_call (fun f => syscall_Open f (physicalPath here (RootPath r) name) (create_flags flags) mode) ;;
  match opened with
  | inl errno => h_ret (mkCreated None errno)
  | inr fd =>
      stat <-% h_call (fun f => (f, syscall_Fstat f fd)) ;;
      match stat with
      | inl errno =>
          _ <-% h_call (fun f => (syscall_Close f fd, tt)) ;;
          h_ret (mkCreated None errno)
      | inr st =>
          h_ret (mkCreated (Some (NewRfsFile fd (relativePath here name) (r_services r), idFromStat r st)) NoError)
      end
  end.

Definition Create (name : string) (flags mode : Z) : handler L (created L) :=
  errno <-% replicate (r_services r) (create_request here name mode) ;;
  if negb (errno =? NoError)%Z then h_ret (mkCreated None errno)
  else create_local name flags mode.

Definition Mkdir (name : string) (mode : Z) : handler L Z :=
  errno <-% replicate (r_services r) (mkdir_request here name mode) ;;
  if negb (errno =? NoError)%Z then h_ret errno
  else h_call (fun f => loopback_Mkdir f here name mode).

(** Nothing is consulted or replicated, also not with O_TRUNC. *)
Definition Open (flags : Z) : handler L (Z + rootFile L) :=
  opened <-% h_call (fun f => syscall_Open f (Path.Join (RootPath r) here) (clear_append flags) 0) ;;
  h_ret match opened with
        | inl errno => inl errno
        | inr fd => inr (NewRfsFile fd here (r_services r))
        end.

Definition Rename (name newParent newName : string) (flags : Z) : handler L Z :=
  errno <-% replicate (r_services r) (rename_request here name newParent newName) ;;
  if negb (errno =? NoError)%Z then h_ret errno
  else h_call (fun f => loopback_Rename f here name newParent newName flags).

Definition Rmdir (name : string) : handler L Z :=
  errno <-% replicate (r_services r) (rmdir_request here name) ;;
  if negb (errno =? NoError)%Z then h_ret errno
  else h_call (fun f => loopback_Rmdir f here name).

(** [mode] is the result of [in.GetMode()]. *)
Definition Setattr (mode : option Z) : handler L Z :=
  match mode with
  | None => h_ret NoError
  | Some mode =>
      errno <-% replicate (r_services r) (setattr_request here mode) ;;
      if negb (errno =? NoError)%Z then h_ret errno
      else h_call (fun f => syscall_Chmod f (physicalPath here (RootPath r) "") mode)
  end.

Definition Symlink (target name : string) : handler L Z :=
  errno <-% replicate (r_services r) (symlink_request here target name) ;;
  if negb (errno =? NoError)%Z then h_ret errno
  else h_call (fun f => loopback_Symlink f here target name).

(** A hard link is made as a symbolic one. *)
Definition Link (targetPath name : string) : handler L Z :=
  errno <-% replicate (r_services r) (link_request here targetPath name) ;;
  if negb (errno =? NoError)%Z then h_ret errno
  else h_call (fun f => loopback_Symlink f here targetPath name).

Definition Unlink (name : string) : handler L Z :=
  errno <-% replicate (r_services r) (unlink_request here name) ;;
  if negb (errno =? NoError)%Z then h_ret errno
  else h_call (fun f => loopback_Unlink f here name).

(** A handle that is no [rootFile] is a nil pointer after the assertion. *)
Definition CopyFileRange (fhIn : option (rootFile L)) (offIn : Z) (fhOut : option (rootFile L)) (offOut len flags : Z) :
    handler L (Z * Z) :=
  match fhIn, fhOut with
  | Some rfsInFile, Some rfsOutFile =>
      errno <-% replicate (r_services r) (copy_request (f_path rfsInFile) (f_path rfsOutFile) offIn offOut len) ;;
      if negb (errno =? NoError)%Z then h_ret (0%Z, errno)
      else
        result <-% h_call (fun f =>
          unix_CopyFileRange f (f_fd rfsInFile) (i64 offIn) (f_fd rfsOutFile) (i64 offOut) (i64 len) (i64 flags)) ;;
        let '(count, errno) := result in h_ret (u32 count, errno)
  | _, _ => h_panic "nil rootFile"
  end.
End node.

Definition Write (file : rootFile L) (data : list byte) (off : Z) : handler L (Z * Z) :=
  errno <-% replicate (f_services file) (write_request (f_path file) data off) ;;
  if negb (errno =? NoError)%Z then h_ret (0%Z, errno)
  else h_call (fun f => loopback_Write f (f_fd file) data off).

(** [Lseek] only logs. *)
Definition Lseek (file : rootFile L) (off whence : Z) : handler L (Z * Z) :=
  h_call (fun f => loopback_Lseek f (f_fd file) off whence).

(** ** What a handler may do *)

(** The calls of the kernel that change the file system. *)
Inductive fuse_call :=
| CallCreate (name : string) (flags mode : Z)
| CallMkdir (name : string) (mode : Z)
| CallRename (name newParent newName : string) (flags : Z)
| CallRmdir (name : string)
| CallSetattr (mode : option Z)
| CallSymlink (target name : string)
| CallLink (targetPath name : string)
| CallUnlink (name : string)
| CallCopyFileRange (fhIn : option (rootFile L)) (offIn : Z) (fhOut : option (rootFile L)) (offOut len flags : Z)
| CallWrite (fd : Z) (path : string) (data : list byte) (off : Z).

Section calls.
Context (r : root L) (here : string).

(** The errno the kernel gets. *)
Definition serve (c : fuse_call) : handler L Z :=
  match c with
  | CallCreate name flags mode => c <-% Create r here name flags mode ;; h_ret (cr_errno c)
  | CallMkdir name mode => Mkdir r here name mode
  | CallRename name newParent newName flags => Rename r here name newParent newName flags
  | CallRmdir name => Rmdir r here name
  | CallSetattr mode => Setattr r here mode
  | CallSymlink target name => Symlink r here target name
  | CallLink targetPath name => Link r here targetPath name
  | CallUnlink name => Unlink r here name
  | CallCopyFileRange fhIn offIn fhOut offOut len flags =>
      x <-% CopyFileRange r fhIn offIn fhOut offOut len flags ;; h_ret x.2
  | CallWrite fd path data off => x <-% Write (NewRfsFile fd path (r_services r)) data off ;; h_ret x.2
  end.

(** The request each of them is announced with, and the operation on the local files it
    stands for. *)
Definition announced (c : fuse_call) : option Request :=
  match c with
  | CallCreate name _ mode => Some (create_request here name mode)
  | CallMkdir name mode => Some (mkdir_request here name mode)
  | CallRename name newParent newName _ => Some (rename_request here name newParent newName)
  | CallRmdir name => Some (rmdir_request here name)
  | CallSetattr mode => setattr_request here <$> mode
  | CallSymlink target name => Some (symlink_request here target name)
  | CallLink targetPath name => Some (link_request here targetPath name)
  | CallUnlink name => Some (unlink_request here name)
  | CallCopyFileRange (Some i) offIn (Some o) offOut len _ => Some (copy_request (f_path i) (f_path o) offIn offOut len)
  | CallCopyFileRange _ _ _ _ _ _ => None
  | CallWrite _ path data off => Some (write_request path data off)
  end.

Definition local_operation (c : fuse_call) (f : L) : L * Z :=
  match c with
  | CallCreate name flags mode =>
      match syscall_Open f (physicalPath here (RootPath r) name) (create_flags flags) mode with
      | (f1, inl errno) => (f1, errno)
      | (f1, inr fd) =>
          match syscall_Fstat f1 fd with inl errno => (syscall_Close f1 fd, errno) | inr _ => (f1, NoError) end
      end
  | CallMkdir name mode => loopback_Mkdir f here name mode
  | CallRename name newParent newName flags => loopback_Rename f here name newParent newName flags
  | CallRmdir name => loopback_Rmdir f here name
  | CallSetattr (Some mode) => syscall_Chmod f (physicalPath here (RootPath r) "") mode
  | CallSymlink target name | CallLink target name => loopback_Symlink f here target name
  | CallUnlink name => loopback_Unlink f here name
  | CallCopyFileRange (Some i) offIn (Some o) offOut len flags =>
      let '(f1, x) := unix_CopyFileRange f (f_fd i) (i64 offIn) (f_fd o) (i64 offOut) (i64 len) (i64 flags) in (f1, x.2)
  | CallWrite fd _ data off => let '(f1, x) := loopback_Write f fd data off in (f1, x.2)
  | CallSetattr None | CallCopyFileRange _ _ _ _ _ _ => (f, NoError)
  end.

(** The cluster agreed: the own mirror did not object and [Replicate] returned nil and
    left the files [f1]. *)
Definition cluster_agrees (req : Request) (f f1 : L) : Prop :=
  (exists resp, mir_Consult (r_services r) f req = Ok resp /\ Response_GetType resp <> Response_NACK) /\
  rep_Replicate (r_services r) f req = (f1, Ok tt).

(** ** Properties *)

Lemma errno_of_error_not_zero err : errno_of_error err <> NoError.
Proof. unfold errno_of_error. by case_match. Qed.

(** What [replicate] does: it agrees, or it fails and leaves the files as they were, or as
    [Replicate] left them. *)
Lemma replicate_cases req f :
  (exists f1, cluster_agrees req f f1 /\ replicate (r_services r) req f = (f1, Ok NoError)) \/
  (forall f1, ~ cluster_agrees req f f1) /\
  exists f1 res, replicate (r_services r) req f = (f1, res) /\ res <> Ok NoError /\
    (f1 = f \/ f1 = (rep_Replicate (r_services r) f req).1).
Proof.
  unfold replicate, cluster_agrees. destruct (mir_Consult (r_services r) f req) as [resp|[]|w]; [|right; split; [naive_solver|eauto 10]].
  case_bool_decide as Ht.
  - right. split; [naive_solver|]. eexists f, _. split; [done|]. split; [|by left].
    destruct resp as [x|]; [|done]. by destruct (resp_Error x) as [[]|].
  - destruct (rep_Replicate (r_services r) f req) as [f1 [[]|err|w]] eqn:E; [left; eauto 10|right..].
    + split; [naive_solver|]. eexists f1, _. split; [done|]. split; [|by right].
      intros [= Hz]. by destruct (errno_of_error_not_zero err).
    + split; [naive_solver|]. eauto 10.
Qed.

Lemma create_local_operation name flags mode f :
  h_bind (create_local r here name flags mode) (fun c => h_ret (cr_errno c)) f =
  let '(f2, e) := local_operation (CallCreate name flags mode) f in (f2, Ok e).
Proof.
  unfold create_local, local_operation, h_bind, h_ret, h_call. destruct (syscall_Open f _ _ _) as [f1 [e|fd]]; [done|].
  simpl. by destruct (syscall_Fstat f1 fd).
Qed.

(** A handler that agrees runs its local operation, any other one does nothing more. *)
Lemma serve_announced c req f :
  announced c = Some req ->
  serve c f = match replicate (r_services r) req f with
              | (f1, Ok errno) => if (errno =? NoError)%Z then let '(f2, e) := local_operation c f1 in (f2, Ok e) else (f1, Ok errno)
              | (f1, Panics w) => (f1, Panics w)
              | (_, Err e) => match e with end
              end.
Proof.
  intros Ha. destruct c as [name flags mode| | | |[mode|]| | | |[i|] offIn [o|] offOut len flags|]; simpl in Ha; simplify_eq.
  { unfold serve, Create, h_bind at 1 2. destruct (replicate (r_services r) _ f) as [f1 [e|[]|w]]; [|done].
    destruct (e =? NoError)%Z; simpl; [|done]. apply create_local_operation. }
  all: unfold serve, local_operation, Mkdir, Rename, Rmdir, Setattr, Symlink, Link, Unlink, CopyFileRange, Write, h_bind, h_ret, h_call.
  all: simpl; destruct (replicate (r_services r) _ f) as [f1 [e|[]|w]]; try done.
  all: destruct (e =? NoError)%Z; simpl; repeat case_match; by simplify_eq/=.
Qed.

Lemma serve_agreed c req f :
  announced c = Some req ->
  (forall f1, cluster_agrees req f f1 -> serve c f = let '(f2, errno) := local_operation c f1 in (f2, Ok errno)) /\
  ((forall f1, ~ cluster_agrees req f f1) ->
     exists f1 res, serve c f = (f1, res) /\ res <> Ok NoError /\ (f1 = f \/ f1 = (rep_Replicate (r_services r) f req).1)).
Proof.
  intros Ha. rewrite (serve_announced c req f Ha). destruct (replicate_cases req f) as [(f1 & Hg & ->)|(Hno & f1 & res & -> & Hres & Hf)].
  - split; [|by intros Hno; destruct (Hno f1)]. intros f1' Hg'. destruct Hg as [_ E1], Hg' as [_ E2].
    rewrite E1 in E2. by injection E2 as <-.
  - split; [by intros f1' Hg; destruct (Hno f1')|]. intros _. destruct res as [e|[]|w]; eauto 10.
    destruct (Z.eqb_spec e NoError); [congruence|eauto 10].
Qed.

(** C29: the local files change only after the cluster agreed, in every handler: when the
    own mirror did not object to the request the call is announced with and [Replicate]
    returned nil, the call is its local operation on the files [Replicate] left, with its
    errno; when not, the files are those from before or those that [Replicate] left, and
    the kernel gets an errno other than zero. A call that announces nothing (a Setattr
    without a mode, a copy between foreign handles) leaves the files alone. *)
Theorem local_operation_only_after_replication c f :
  match announced c with
  | Some req =>
      (forall f1, cluster_agrees req f f1 -> serve c f = let '(f2, errno) := local_operation c f1 in (f2, Ok errno)) /\
      ((forall f1, ~ cluster_agrees req f f1) ->
         exists f1 res, serve c f = (f1, res) /\ res <> Ok NoError /\
           (f1 = f \/ f1 = (rep_Replicate (r_services r) f req).1))
  | None => (serve c f).1 = f
  end.
Proof.
  destruct (announced c) as [req|] eqn:Ha; [by apply serve_agreed|].
  destruct c as [| | | |[mode|]| | | |[i|] offIn [o|] offOut len flags|]; by simplify_eq/=.
Qed.
End calls.
End handlers.
Arguments fuse_call : clear implicits.

(** A NACK of the mirror names its reason. *)
Lemma consult_NACK_has_error {FS} `{OS FS} dir (f : FS) r resp :
  consult dir f r = Ok (Some resp) -> resp_Type resp = Response_NACK -> is_Some (resp_Error resp).
Proof.
  intros E HN. unfold consult, with_metadata, consult_link, consult_create, consult_rename, consult_rmdir,
    consult_setattr, consult_unlink, consult_copy, consult_copy_path, stat_NACK, say_ACK, say_NACK in E.
  repeat case_match; simplify_eq/=; by eexists.
Qed.

(** with the real mirror the only way a handler panics is that [Consult] itself
    does: the error that a NACK is dereferenced for is always there, and a nil answer
    counts as agreement. *)
Theorem replicate_returns {FS} `{OS FS} dir (f : FS) rep req resp w :
  consult dir f req = Ok resp -> (rep f req).2 <> Panics w ->
  (replicate (mkServices (consult dir) rep) req f).2 <> Panics w.
Proof.
  intros Hc Hr. unfold replicate. simpl. rewrite Hc. case_bool_decide as Ht.
  - destruct resp as [r|]; [|done]. simpl. destruct (consult_NACK_has_error _ _ _ _ Hc Ht) as [e ->]. done.
  - destruct (rep f req) as [f1 []]; simpl in *; congruence.
Qed.

(** ** The paths a rename sends *)

(** A file name: one component. *)
Definition file_name (c : string) : Prop :=
  split_path c = [c] /\ c <> "" /\ c <> "." /\ c <> "..".

Lemma Clean_file_name c : file_name c -> Clean c = c.
Proof.
  intros (Hs & H0 & H1 & H2).
  assert (rooted c = false) as Hr.
  { destruct c as [|x c]; [done|]. simpl in *. destruct (Ascii.eqb x slash); [|done].
    by destruct (split_path c) eqn:E; [destruct (split_path_nonempty c)|]. }
  apply String.eqb_neq in H0, H1, H2. unfold Clean. rewrite Hr, Hs, H0. simpl. unfold clean_step.
  rewrite H0, H1, H2. simpl. unfold render. simpl. by rewrite H0.
Qed.

(** a rename started in the mount point itself sends the path that the local
    rename uses: the name below the new parent. *)
Theorem rename_from_the_root_sends_the_target name newParent newName :
  file_name newName ->
  rename_request "" name newParent newName =
  request Request_RENAME (mkMetadata (Path.Join "" name) (Path.Join newParent newName) 0 0 0 0) None.
Proof.
  intros Hn. unfold rename_request, relativePath. do 3 f_equal.
  assert (Path.Join "" newName = newName) as ->; [|done].
  unfold Path.Join at 1. simpl. destruct Hn as (? & Hne & ?). rewrite (proj2 (String.eqb_neq newName "")) by done.
  by apply Clean_file_name.
Qed.

(** In a subdirectory it does not: the directory is named twice, and a hard link names
    its target below the directory of the link. *)
Theorem rename_and_link_in_a_subdirectory_send_wrong_paths :
  Metadata (rename_request "docs" "a" "docs" "b") = Some (mkMetadata "docs/a" "docs/docs/b" 0 0 0 0) /\
  Metadata (link_request "docs" "img/x" "y") = Some (mkMetadata "docs/img/x" "docs/y" 0 0 0 0).
Proof. split; reflexivity. Qed.

(** ** The theorems on concrete calls *)

Definition agreeing {L} : services L := mkServices (fun _ _ => Ok (Some ACK)) (fun f _ => (f, Ok tt)).

Definition refusing {L} : services L := mkServices (fun _ _ => Ok (Some ACK)) (fun f _ => (f, Err ErrPeerIsDown)).

(** Local files that keep the operations made on them, and count their descriptors. *)
Record journal := mkJournal { j_ops : list string; j_fds : gset Z }.

Definition noted (op : string) (f : journal) : journal := mkJournal (j_ops f ++ [op]) (j_fds f).

#[export] Instance journal_local : Local journal := {|
  syscall_Open f p _ _ :=
    let fd := fresh (j_fds f) in (mkJournal (j_ops f ++ [p]) ({[fd]} ∪ j_fds f), inr fd);
  syscall_Fstat f fd := if bool_decide ("broken" ∈ j_ops f) then inl EBADF else inr (mkStat 2049 77 33188);
  syscall_Close f fd := mkJournal (j_ops f) (j_fds f ∖ {[fd]});
  syscall_Chmod f p _ := (noted "chmod" f, NoError);
  unix_CopyFileRange f _ _ _ _ len _ := (noted "copy" f, (len, NoError));
  loopback_Mkdir f _ _ _ := (noted "mkdir" f, NoError);
  loopback_Rename f _ _ _ _ _ := (noted "rename" f, NoError);
  loopback_Rmdir f _ _ := (noted "rmdir" f, NoError);
  loopback_Symlink f _ _ _ := (noted "symlink" f, NoError);
  loopback_Unlink f _ _ := (noted "unlink" f, NoError);
  loopback_Write f _ data _ := (noted "write" f, (Z.of_nat (length data), NoError));
  loopback_Lseek f _ off _ := (f, (off, NoError));
|}.

Example served_only_if_agreed :
  serve (mkRoot agreeing "/m" 0) "docs" (CallMkdir "a" 493) (mkJournal [] ∅) = (mkJournal ["mkdir"] ∅, Ok NoError) /\
  serve (mkRoot refusing "/m" 0) "docs" (CallMkdir "a" 493) (mkJournal [] ∅) = (mkJournal [] ∅, Ok EHOSTDOWN).
Proof. split; reflexivity. Qed.

Lemma replicate_returns_witness :
  (replicate (mkServices (consult "/m") (fun f _ => (f, Err ErrPeerIsDown)))
    (request Request_RENAME (mkMetadata "a" "b" 0 0 0 0) None) shire).2 <> Panics "nil Response_Error".
Proof.
  apply (replicate_returns "/m" shire (fun f _ => (f, Err ErrPeerIsDown))
    (request Request_RENAME (mkMetadata "a" "b" 0 0 0 0) None) (Some ACK)).
  - vm_compute. reflexivity.
  - discriminate.
Defined.

Lemma rename_from_the_root_sends_the_target_witness :
  rename_request "" "a" "docs" "b" = request Request_RENAME (mkMetadata "a" "docs/b" 0 0 0 0) None.
Proof. apply (rename_from_the_root_sends_the_target "a" "docs" "b"). by repeat split. Defined.
