(* ===== verification/Perspective.v ===== *)
(** * Perspective resolution ([connection/perspective.go])

    Two peers dial each other at the same time, so two QUIC connections may exist
    for one pair. On each connection both ends exchange one byte, the resolvent, and
    decide whether to keep it. The theorems are about both ends together. *)

From S2P Require Import Prelude Errors.
From stdpp Require Import pretty.

(** [type Perspective byte]: [Decode] can produce any two-bit value. *)
Abbreviation Perspective := Z (only parsing).
Definition Unknown : Perspective := 0.
Definition Server : Perspective := 1.
Definition Client : Perspective := 2.

Definition Perspective_String (p : Perspective) : string :=
  if (p =? Server)%Z then "listener" else if (p =? Client)%Z then "client" else "unknown".

(** ** The resolvent *)

Record perspectiveResolvent := mkResolvent { r_Perspective : Perspective; r_ctr : Z }.

(** [byte(uint32(p.Perspective)<<6 | p.ctr)]. *)
Definition Encode (p : perspectiveResolvent) : list byte :=
  [byte_of_Z (Z.lor (u32 (Z.shiftl (r_Perspective p) 6)) (r_ctr p))].

(** [%v] of a byte slice. *)
Definition show_bytes (b : list byte) : string :=
  ("[" ++ String.concat " " (map (fun x => pretty (byte_to_Z x)) b) ++ "]")%string.

Definition Decode (b : list byte) : outcome error perspectiveResolvent :=
  match b with
  | [x] => Ok (mkResolvent (Z.shiftr (byte_to_Z x) 6) (Z.land (byte_to_Z x) 63))
  | _ => Err (ErrNew ("invalid perspectiveResolvent received, expected exactly 1 byte, got "
                ++ pretty (length b) ++ " with " ++ show_bytes b ++ " content"))
  end.

(** ** The resolver *)

Record perspectiveResolver := mkPerspectiveResolver { counter : Z }.

Definition newPerspectiveResolver : perspectiveResolver := mkPerspectiveResolver 0.

(** [p.counter.Add(1)] on a [uint32]: the new state, whose counter is the result. *)
Definition next_counter (p : perspectiveResolver) : perspectiveResolver :=
  mkPerspectiveResolver (u32 (counter p + 1)).

Definition Reset (p : perspectiveResolver) : perspectiveResolver := mkPerspectiveResolver 0.

Definition Counter (p : perspectiveResolver) : Z := counter p.

(** [resolve]: [sent] is the result of [send] and [rcv] that of [recv]. *)
Definition resolve (p : perspectiveResolver) (perspective : Perspective)
    (sent : option error) (rcv : outcome error (list byte)) :
    perspectiveResolver * outcome error bool :=
  let p' := next_counter p in
  (p', match sent with
       | Some e => Err e
       | None =>
           data <-! rcv ;;
           resolvent <-! Decode data ;;
           if (r_Perspective resolvent =? perspective)%Z
           then Err (ErrNew "BUG: host and peer perspectives are the same across a single connection")
           else Ok (counter p' =? r_ctr resolvent)%Z
       end).

Definition Resolve (p : perspectiveResolver) (perspective : Perspective)
    (sent : option error) (rcv : outcome error (list byte)) (fallback : bool) :
    perspectiveResolver * outcome error unit :=
  let '(p', r) := resolve p perspective sent rcv in
  (p', match r with
       | Ok resolved =>
           if negb resolved && negb fallback
           then Err (ErrWrap (ErrConn connErrNotResolved)
                       "perspective was not resolved and fallback did not apply")
           else Ok tt
       | Err e => Err (ErrWrap e ("failed to resolve connection perspective for " ++ Perspective_String perspective))
       | Panics w => Panics w
       end).

(** The fallback of [Connection.Establish]. *)
Definition fallback (perspective : Perspective) (host peer : string) : bool :=
  if (perspective =? Client)%Z then str_lt host peer
  else if (perspective =? Server)%Z then str_lt peer host
  else false.

(** ** What the peer reads *)

Lemma u8_land z : u8 z = Z.land z 255.
Proof. unfold u8, wrapU. change 255%Z with (Z.ones 8). by rewrite Z.land_ones. Qed.

(** Six bits of the counter arrive; the bits above them run into the perspective. *)
Lemma Decode_Encode P c :
  (0 <= P < 4)%Z -> (0 <= c)%Z ->
  Decode (Encode (mkResolvent P c)) =
    Ok (mkResolvent (Z.land (Z.lor P (Z.shiftr c 6)) 3) (c mod 64)).
Proof.
  intros HP Hc. unfold Encode, Decode. cbn [r_Perspective r_ctr]. rewrite byte_to_of_Z, u8_land.
  assert (u32 (Z.shiftl P 6) = Z.shiftl P 6) as ->.
  { unfold u32. apply wrapU_small. rewrite Z.shiftl_mul_pow2 by lia. lia. }
  f_equal. f_equal.
  - rewrite Z.shiftr_land, Z.shiftr_lor, Z.shiftr_shiftl_l, Z.sub_diag, Z.shiftl_0_r by lia. done.
  - rewrite <- Z.land_assoc. change (Z.land 255 63) with (Z.ones 6).
    rewrite Z.land_ones by lia. change (2 ^ 6)%Z with 64%Z.
    rewrite <- (Z.land_ones (Z.lor _ _) 6), Z.land_lor_distr_l, !Z.land_ones by lia.
    rewrite Z.shiftl_mul_pow2 by lia. change (2 ^ 6)%Z with 64%Z. by rewrite Z.mod_mul, Z.lor_0_l by lia.
Qed.

(** A resolvent of one side is never taken for one of the other. *)
Lemma decoded_opposite P Q c :
  (P = Server /\ Q = Client) \/ (P = Client /\ Q = Server) ->
  (Z.land (Z.lor P (Z.shiftr c 6)) 3 =? Q)%Z = false.
Proof.
  intros H. apply Z.eqb_neq. intros E.
  destruct H as [[-> ->]|[-> ->]]; [apply (f_equal (fun z => Z.testbit z 0)) in E|apply (f_equal (fun z => Z.testbit z 1)) in E];
    rewrite Z.land_spec, Z.lor_spec in E; simpl in E; done.
Qed.

Section two_ends.
(** The counters of the two ends, and their names. *)
Context (a b : perspectiveResolver) (nameA nameB : string).

(** One end of a connection: it is [perspective], the other end has counter state
    [theirs]; both messages get through. *)
Definition end_result (mine theirs : perspectiveResolver) (perspective other : Perspective)
    (host peer : string) : outcome error unit :=
  (Resolve mine perspective None (Ok (Encode (mkResolvent other (counter (next_counter theirs)))))
     (fallback perspective host peer)).2.

(** The result of the dialling end [A] and of the accepting end [B]. *)
Definition dialled : outcome error unit := end_result a b Client Server nameA nameB.
Definition accepted : outcome error unit := end_result b a Server Client nameB nameA.

Definition small (p : perspectiveResolver) : Prop := (0 <= counter p < 63)%Z.

Lemma next_small p : small p -> counter (next_counter p) = (counter p + 1)%Z.
Proof. intros H. unfold small in H. simpl. unfold u32. apply wrapU_small. lia. Qed.

Definition not_resolved : outcome error unit :=
  Err (ErrWrap (ErrConn connErrNotResolved) "perspective was not resolved and fallback did not apply").

Lemma end_result_eq mine theirs P Q host peer :
  (P = Client /\ Q = Server) \/ (P = Server /\ Q = Client) ->
  (0 <= counter theirs)%Z ->
  end_result mine theirs P Q host peer =
    if (counter (next_counter mine) =? counter (next_counter theirs) mod 64)%Z || fallback P host peer
    then Ok tt else not_resolved.
Proof.
  intros HPQ Hc. unfold end_result, Resolve, resolve.
  cbn [outcome_bind]. rewrite Decode_Encode.
  - cbn [outcome_bind r_Perspective r_ctr snd]. rewrite decoded_opposite by tauto.
    by destruct (_ =? _)%Z, (fallback P host peer).
  - unfold Client, Server in HPQ. lia.
  - simpl. pose proof (wrapU_range 32 (counter theirs + 1)). unfold u32. lia.
Qed.

Lemma ends_agree :
  small a -> small b ->
  dialled = accepted /\
  dialled = (if (counter a =? counter b)%Z || str_lt nameA nameB then Ok tt else not_resolved).
Proof.
  intros Ha Hb. unfold dialled, accepted.
  rewrite !end_result_eq by (unfold small in *; first [tauto|lia]).
  rewrite !next_small by done. unfold small in *. rewrite !Z.mod_small by lia.
  assert ((counter a + 1 =? counter b + 1) = (counter a =? counter b))%Z as -> by lia.
  assert ((counter b + 1 =? counter a + 1) = (counter a =? counter b))%Z as -> by lia.
  by unfold fallback.
Qed.

(** C23: the two ends of a connection draw the same conclusion as long as neither has
    started 63 resolutions since its last reset: both keep it, or both drop it with
    [connErrNotResolved]; they keep it exactly if their counters agree or the dialling
    peer has the smaller name. This is what the comment of [Resolve] says; the diagram
    docs/perspective_resolving.puml has the condition on the counters reversed. *)
Theorem both_ends_agree :
  small a -> small b ->
  (dialled = Ok tt /\ accepted = Ok tt /\ (counter a = counter b \/ str_lt nameA nameB = true)) \/
  (dialled = not_resolved /\ accepted = not_resolved /\
   counter a <> counter b /\ str_lt nameA nameB = false).
Proof.
  intros Ha Hb. destruct (ends_agree Ha Hb) as [<- ->].
  destruct (Z.eqb_spec (counter a) (counter b)), (str_lt nameA nameB); simpl; tauto.
Qed.
End two_ends.

(** The state of the resolver in which an end meets its own dial, and the one in which it
    meets the connection it accepts; [own_first] tells which of the two it handles first. *)
Definition at_own (p : perspectiveResolver) (own_first : bool) : perspectiveResolver :=
  if own_first then p else next_counter p.
Definition at_other (p : perspectiveResolver) (own_first : bool) : perspectiveResolver :=
  if own_first then next_counter p else p.

(** C24: two peers dial each other at the same time, so that each resolves two connections
    one after the other, in either order. With fewer than 62 resolutions since the last
    reset at each end, the ends agree on both connections, and the one dialled by the peer
    with the smaller name is resolved. With equal counters the other one is dropped, so
    that one connection survives, exactly if each end handles its own dial first or each
    handles the other's first; if both handle the same connection first, both connections
    are resolved. *)
Theorem crossing_dials_resolved (p q : perspectiveResolver) (x y : string) (ownX ownY : bool) :
  (0 <= counter p < 62)%Z -> (0 <= counter q < 62)%Z -> x <> y ->
  let dialled1 := dialled (at_own p ownX) (at_other q ownY) x y in
  let accepted1 := accepted (at_own p ownX) (at_other q ownY) x y in
  let dialled2 := dialled (at_own q ownY) (at_other p ownX) y x in
  let accepted2 := accepted (at_own q ownY) (at_other p ownX) y x in
  dialled1 = accepted1 /\ dialled2 = accepted2 /\
  (if str_lt x y then dialled1 else dialled2) = Ok tt /\
  (counter p = counter q ->
     (if str_lt x y then dialled2 else dialled1) = if Bool.eqb ownX ownY then not_resolved else Ok tt).
Proof.
  intros Hp Hq Hne d1 a1 d2 a2.
  assert (forall r (o : bool), (0 <= counter r < 62)%Z ->
    small (at_own r o) /\ small (at_other r o) /\
    counter (at_own r o) = (counter r + if o then 0 else 1)%Z /\ counter (at_other r o) = (counter r + if o then 1 else 0)%Z) as Hs.
  { intros r o Hr. pose proof (next_small r) as Hn. unfold small, at_own, at_other in *. destruct o; rewrite ?Hn by lia; lia. }
  destruct (Hs p ownX Hp) as (P1 & P2 & Ep1 & Ep2). destruct (Hs q ownY Hq) as (Q1 & Q2 & Eq1 & Eq2).
  destruct (ends_agree _ _ x y P1 Q2) as [H1 R1]. destruct (ends_agree _ _ y x Q1 P2) as [H2 R2].
  split; [exact H1|]. split; [exact H2|]. unfold d1, d2. rewrite R1, R2, Ep1, Ep2, Eq1, Eq2, (str_lt_total y x) by done.
  destruct (str_lt x y); simpl; rewrite ?orb_true_r, ?orb_false_r; (split; [done|]); intros E.
  - assert ((counter q + (if ownY then 0 else 1) =? counter p + (if ownX then 1 else 0)) = negb (Bool.eqb ownX ownY))%Z as ->
      by (destruct ownX, ownY; simpl; lia). by destruct (Bool.eqb ownX ownY).
  - assert ((counter p + (if ownX then 0 else 1) =? counter q + (if ownY then 1 else 0)) = negb (Bool.eqb ownX ownY))%Z as ->
      by (destruct ownX, ownY; simpl; lia). by destruct (Bool.eqb ownX ownY).
Qed.

(** The counter has six bits on the wire: when one end has counted past them, the
    other end can take the low bits for its own counter and keep the connection that
    this end drops. *)
Theorem ends_disagree_past_six_bits :
  dialled (mkPerspectiveResolver 0) (mkPerspectiveResolver 64) "Legolas" "Gimli" = Ok tt /\
  accepted (mkPerspectiveResolver 0) (mkPerspectiveResolver 64) "Legolas" "Gimli" = not_resolved.
Proof. by vm_compute. Qed.

(** ** The theorems on concrete ends *)

Lemma both_ends_agree_witness :
  (dialled (mkPerspectiveResolver 1) (mkPerspectiveResolver 0) "Legolas" "Gimli" = Ok tt /\
   accepted (mkPerspectiveResolver 1) (mkPerspectiveResolver 0) "Legolas" "Gimli" = Ok tt /\
   ((1 = 0)%Z \/ str_lt "Legolas" "Gimli" = true)) \/
  (dialled (mkPerspectiveResolver 1) (mkPerspectiveResolver 0) "Legolas" "Gimli" = not_resolved /\
   accepted (mkPerspectiveResolver 1) (mkPerspectiveResolver 0) "Legolas" "Gimli" = not_resolved /\
   (1 <> 0)%Z /\ str_lt "Legolas" "Gimli" = false).
Proof.
  apply (both_ends_agree (mkPerspectiveResolver 1) (mkPerspectiveResolver 0) "Legolas" "Gimli");
    unfold small; simpl; lia.
Defined.

(** Each end handles its own dial first. *)
Lemma crossing_dials_resolved_witness :
  dialled newPerspectiveResolver (mkPerspectiveResolver 1) "Gimli" "Legolas" = Ok tt /\
  dialled newPerspectiveResolver (mkPerspectiveResolver 1) "Legolas" "Gimli" = not_resolved.
Proof.
  destruct (crossing_dials_resolved newPerspectiveResolver newPerspectiveResolver "Gimli" "Legolas" true true) as (_ & _ & H1 & H2).
  - simpl. lia.
  - simpl. lia.
  - discriminate.
  - split; [exact H1|exact (H2 eq_refl)].
Defined.
