(* ===== verification/Framing.v ===== *)
(** * Messages on QUIC streams ([connection/net_op.go])

    Each message travels on a unidirectional stream of its own: an eight byte length,
    big-endian, then the data. The streams are those of quic-go; what the code sees of
    one is the bytes that arrive and how it ends. A [select] between the context and
    the worker goroutine is resolved by an argument: the case it takes. *)

From S2P Require Import Prelude Errors.

(** ** [encoding/binary]: big-endian integers *)

Fixpoint be_bytes (k : nat) (n : Z) : list byte :=
  match k with
  | 0 => []
  | S k => be_bytes k (n / 256) ++ [byte_of_Z n]
  end.

Definition be_val (l : list byte) : Z := foldl (fun a b => a * 256 + byte_to_Z b)%Z 0%Z l.

Lemma length_be_bytes k n : length (be_bytes k n) = k.
Proof. revert n. induction k as [|k IH]; intros n; simpl; [done|]. rewrite length_app, IH. simpl. lia. Qed.

Lemma be_val_snoc l b : be_val (l ++ [b]) = (be_val l * 256 + byte_to_Z b)%Z.
Proof. unfold be_val. by rewrite foldl_app. Qed.

Lemma be_val_bytes k n : be_val (be_bytes k n) = (n mod 256 ^ Z.of_nat k)%Z.
Proof.
  revert n. induction k as [|k IH]; intros n; [by rewrite Z.mod_1_r|]. cbn [be_bytes].
  rewrite be_val_snoc, IH, byte_to_of_Z. unfold u8, wrapU. change (2 ^ 8)%Z with 256%Z.
  rewrite Nat2Z.inj_succ, Z.pow_succ_r by lia.
  rewrite Z.rem_mul_r by lia. lia.
Qed.

Lemma be_val_range l : (0 <= be_val l < 256 ^ Z.of_nat (length l))%Z.
Proof.
  induction l as [|b l IH] using rev_ind; [done|]. rewrite be_val_snoc, length_app. simpl.
  replace (Z.of_nat (length l + 1)) with (Z.succ (Z.of_nat (length l))) by lia.
  rewrite Z.pow_succ_r by lia. pose proof (byte_to_Z_range b). lia.
Qed.

Lemma be_bytes_val l : be_bytes (length l) (be_val l) = l.
Proof.
  induction l as [|b l IH] using rev_ind; [done|]. rewrite be_val_snoc, length_app, Nat.add_comm. simpl.
  pose proof (byte_to_Z_range b). f_equal.
  - rewrite Z.div_add_l, Z.div_small, Z.add_0_r by lia. exact IH.
  - f_equal. rewrite <- (byte_of_to_Z b) at 2. unfold byte_of_Z. f_equal. f_equal. f_equal.
    unfold u8, wrapU. change (2 ^ 8)%Z with 256%Z. by rewrite Z.add_comm, Z.mod_add by lia.
Qed.

(** ** Receive streams *)

(** What a reader meets after the bytes that arrived: the end, a reset, or nothing
    yet. *)
Inductive stream_end :=
| at_EOF
| at_reset (e : error)
| still_open.

Record receive_stream := mkStream { arrived : list byte; ending : stream_end }.

Definition io_ErrUnexpectedEOF : error := ErrNew "unexpected EOF".

(** [io.ReadFull] of [n] bytes; [None] when it blocks. *)
Definition ReadFull (n : nat) (s : receive_stream) : option (outcome error (list byte * receive_stream)) :=
  if (n <=? length (arrived s))%nat
  then Some (Ok (take n (arrived s), mkStream (drop n (arrived s)) (ending s)))
  else match ending s with
       | at_EOF => Some (Err (if bool_decide (arrived s = []) then io_EOF else io_ErrUnexpectedEOF))
       | at_reset e => Some (Err e)
       | still_open => None
       end.

(** [binary.Read] of an [int64]. *)
Definition read_int64 (s : receive_stream) : option (outcome error (Z * receive_stream)) :=
  r ← ReadFull 8 s;
  Some (x <-! r ;; Ok (i64 (be_val x.1), x.2)).

(** ** Contexts *)

(** The two values [ctx.Err()] has once [ctx.Done()] is closed. *)
Inductive ctx_cause := Canceled | DeadlineExceeded.

Definition ctx_Err (c : ctx_cause) : error :=
  match c with Canceled => context_Canceled | DeadlineExceeded => context_DeadlineExceeded end.

Definition streamContextDone (ctx_err : error) : option error :=
  match ctx_err with
  | context_Canceled => Some (ErrStream streamErrCancelled)
  | context_DeadlineExceeded => Some (ErrStream streamErrTimeout)
  | _ => None
  end.

(** The case a [select] takes. *)
Inductive selected :=
| sel_ctx (c : ctx_cause)
| sel_err (e : error)
| sel_done.

Definition selectResult (s : selected) : option error :=
  match s with
  | sel_ctx c => streamContextDone (ctx_Err c)
  | sel_err e => Some e
  | sel_done => None
  end.

(** The code a stream is cancelled with. *)
Definition cancel_code (err : error) : option Z :=
  match Cause err with ErrStream e => Some (streamErr_code e) | _ => None end.

(** ** [recv] *)

(** [make([]byte, size)] panics above the address space (linux/amd64). Below it, but beyond
    the memory of the machine, the runtime ends the process as well; how much memory there
    is the model does not say. *)
Definition maxAlloc : Z := 2 ^ 48.

(** [accepted] is the result of [AcceptUniStream], [ctx] the cause if the context
    ends the wait for the body. The second component is the code given to
    [CancelRead]; [None] as a whole when the call blocks. A size that the machine has
    memory for is assumed. *)
Definition recv (accepted : error + receive_stream) (ctx : option ctx_cause) :
    option (outcome error (list byte) * option Z) :=
  match accepted with
  | inl e => Some (Err (ErrWrap e "failed to accept unidirectional QUIC stream"), None)
  | inr stream =>
      header ← read_int64 stream;
      match header with
      | Err e => Some (Err (ErrWrap (ErrStream streamErrReadHeader) (Error e)),
                       Some (streamErr_code streamErrReadHeader))
      | Panics w => Some (Panics w, None)
      | Ok (size, stream') =>
          if (size <? 0)%Z
          then Some (Err (ErrStream streamErrInvalidSizeHeader), Some (streamErr_code streamErrInvalidSizeHeader))
          else if (maxAlloc <? size)%Z
          then Some (Panics "runtime error: makeslice: len out of range", None)
          else
            '(sel, buf) ← match ctx with
                          | Some c => Some (sel_ctx c, [])
                          | None =>
                              body ← ReadFull (Z.to_nat size) stream';
                              match body with
                              | Ok (buf, _) => Some (sel_done, buf)
                              | Err e => Some (sel_err (ErrWrap (ErrStream streamErrReadBody) (Error e)), [])
                              | Panics _ => None
                              end
                          end;
            Some match selectResult sel with
                 | Some err => (Err err, cancel_code err)
                 | None => (Ok buf, None)
                 end
      end
  end.

(** ** [send] *)

(** The bytes a successful [send] writes. *)
Definition frame (data : list byte) : list byte := be_bytes 8 (u64 (Z.of_nat (length data))) ++ data.

(** [opened] is the result of [OpenUniStreamSync], [write] the error of writing the
    buffers, [ctx] the cause if the context ends the wait, with whether the stream was
    open by then. The second component is the code given to [CancelWrite]. *)
Definition send (opened : option error) (write : option error) (ctx : option (ctx_cause * bool)) :
    outcome error unit * option Z :=
  let '(sel, open) :=
    match ctx with
    | Some (c, open) => (sel_ctx c, open)
    | None =>
        match opened with
        | Some e => (sel_err (ErrWrap e "failed to open unidirectional QUIC stream"), false)
        | None =>
            match write with
            | Some e => (sel_err (ErrWrap (ErrStream streamErrWrite) (Error e)), true)
            | None => (sel_done, true)
            end
        end
    end in
  match selectResult sel with
  | Some err => (Err err, if open : bool then cancel_code err else None)
  | None => (Ok tt, None)
  end.

(** ** [closeConn] *)

(** [errors.As] with a [connErr] target. *)
Definition As_connErr (err : error) : option connErr :=
  head (omap (fun e => match e with ErrConn c => Some c | _ => None end) (chain err)).

(** [conn] is nil, or the remote address with the result of [CloseWithError]. The
    first component is the application error code the peer sees. [err.Error()] of a
    nil error is a nil dereference. *)
Definition closeConn (conn : option (string * option error)) (err : option error) :
    option Z * outcome error unit :=
  match conn, err with
  | None, _ => (None, Ok tt)
  | Some _, None => (None, Panics "nil error")
  | Some (addr, result), Some err =>
      (Some (connErr_code (default connErrUnspecified (As_connErr err))),
       match result with
       | Some e => Err (ErrWrap e ("failed to close connection on remote addr: " ++ addr))
       | None => Ok tt
       end)
  end.

(** ** Properties *)

(** A non-negative [int64] has the bits it shows. *)
Lemma i64_nonneg z : (0 <= z < 2 ^ 64)%Z -> (0 <= i64 z)%Z -> i64 z = z.
Proof.
  intros Hz Hi. destruct (decide (z < 2 ^ 63)%Z) as [Hs|Hb]; [apply wrapS_small; lia|].
  unfold i64, wrapS in *. replace (z + 2 ^ (64 - 1))%Z with (z - 2 ^ 63 + 1 * 2 ^ 64)%Z in * by lia.
  rewrite Z.mod_add, Z.mod_small in * by lia. lia.
Qed.

Lemma size_header n : (0 <= n < 2 ^ 63)%Z -> i64 (be_val (be_bytes 8 (u64 n))) = n.
Proof.
  intros Hn. rewrite be_val_bytes. change (256 ^ Z.of_nat 8)%Z with (2 ^ 64)%Z. unfold u64, i64.
  rewrite wrapU_small by lia. rewrite Z.mod_small by lia. apply wrapS_small; lia.
Qed.

(** The header of a stream, with what it leaves. *)
Lemma read_int64_spec s :
  read_int64 s =
    if (8 <=? length (arrived s))%nat
    then Some (Ok (i64 (be_val (take 8 (arrived s))), mkStream (drop 8 (arrived s)) (ending s)))
    else match ending s with
         | at_EOF => Some (Err (if bool_decide (arrived s = []) then io_EOF else io_ErrUnexpectedEOF))
         | at_reset e => Some (Err e)
         | still_open => None
         end.
Proof. unfold read_int64, ReadFull. case_match; [done|]. by destruct (ending s). Qed.

Lemma read_frame_header data rest e :
  (Z.of_nat (length data) <= maxAlloc)%Z ->
  read_int64 (mkStream (frame data ++ rest) e) = Some (Ok (Z.of_nat (length data), mkStream (data ++ rest) e)).
Proof.
  intros Hl. rewrite read_int64_spec. unfold frame. cbn [arrived ending].
  rewrite <- app_assoc, !length_app, length_be_bytes.
  rewrite (proj2 (Nat.leb_le _ _)) by lia.
  rewrite take_app_length', drop_app_length' by (by rewrite length_be_bytes).
  rewrite size_header; [done|]. unfold maxAlloc in Hl. lia.
Qed.

(** C25: framing is faithful in both directions: a stream that begins with what
    [send] writes for [data] yields exactly [data], whatever follows and however the
    stream ends; and a stream yields [data] only if it begins that way. *)
Theorem recv_reads_what_send_writes (s : receive_stream) (data : list byte) :
  (Z.of_nat (length data) <= maxAlloc)%Z ->
  recv (inr s) None = Some (Ok data, None) <-> exists rest, arrived s = frame data ++ rest.
Proof.
  intros Hl. split.
  - intros Hrecv. unfold recv in Hrecv. rewrite read_int64_spec in Hrecv.
    destruct (Nat.leb_spec 8 (length (arrived s))) as [H8|]; [|by destruct (ending s)]. simpl in Hrecv.
    set (size := i64 (be_val (take 8 (arrived s)))) in *.
    destruct (Z.ltb_spec size 0); [done|]. destruct (Z.ltb_spec maxAlloc size); [done|].
    unfold ReadFull in Hrecv. cbn [arrived ending] in Hrecv.
    destruct (Nat.leb_spec (Z.to_nat size) (length (drop 8 (arrived s)))) as [Hsz|]; [|by destruct (ending s)].
    simpl in Hrecv. injection Hrecv as <-. exists (drop (Z.to_nat size) (drop 8 (arrived s))).
    assert (length (take 8 (arrived s)) = 8) as Hlen by (rewrite length_take; lia).
    pose proof (be_val_range (take 8 (arrived s))) as Hr. rewrite Hlen in Hr.
    change (256 ^ Z.of_nat 8)%Z with (2 ^ 64)%Z in Hr.
    assert (size = be_val (take 8 (arrived s))) as Hsize by (by apply i64_nonneg).
    unfold frame. rewrite length_take_le, Z2Nat.id by done. unfold u64. rewrite wrapU_small by lia.
    pose proof (be_bytes_val (take 8 (arrived s))) as Hb. rewrite Hlen, <- Hsize in Hb. rewrite Hb.
    by rewrite <- app_assoc, take_drop, take_drop.
  - intros [rest Hrest]. destruct s as [arr e]. cbn [arrived] in Hrest. subst arr. unfold recv.
    rewrite read_frame_header by done. simpl.
    destruct (Z.ltb_spec (Z.of_nat (length data)) 0); [lia|].
    destruct (Z.ltb_spec maxAlloc (Z.of_nat (length data))); [lia|].
    unfold ReadFull. cbn [arrived ending]. rewrite Nat2Z.id, length_app.
    rewrite (proj2 (Nat.leb_le _ _)) by lia. simpl. by rewrite take_app_length.
Qed.

(** What a peer can do with the header, given the memory: a negative length is refused with
    its stream error, and a length above the address space makes [make] panic, which ends
    the process. *)
Theorem recv_of_a_hostile_header (hdr rest : list byte) (e : stream_end) :
  length hdr = 8 ->
  recv (inr (mkStream (hdr ++ rest) e)) None =
    if (i64 (be_val hdr) <? 0)%Z
    then Some (Err (ErrStream streamErrInvalidSizeHeader), Some 2%Z)
    else if (maxAlloc <? i64 (be_val hdr))%Z
    then Some (Panics "runtime error: makeslice: len out of range", None)
    else if (Z.to_nat (i64 (be_val hdr)) <=? length rest)%nat
    then Some (Ok (take (Z.to_nat (i64 (be_val hdr))) rest), None)
    else match e with
         | at_EOF => Some (Err (ErrWrap (ErrStream streamErrReadBody)
                       (if bool_decide (rest = []) then "EOF" else "unexpected EOF")), Some 4%Z)
         | at_reset err => Some (Err (ErrWrap (ErrStream streamErrReadBody) (Error err)), Some 4%Z)
         | still_open => None
         end.
Proof.
  intros Hl. unfold recv. rewrite read_int64_spec. cbn [arrived ending].
  rewrite length_app, Hl, (proj2 (Nat.leb_le _ _)) by lia.
  rewrite take_app_length', drop_app_length' by done. simpl.
  destruct (_ <? 0)%Z; [done|]. destruct (maxAlloc <? _)%Z; [done|].
  unfold ReadFull. cbn [arrived ending]. destruct (_ <=? _)%nat; [done|].
  destruct e; simpl; try done. by case_bool_decide.
Qed.

(** [send] succeeds exactly when the goroutine wrote everything before the context
    ended; a stream it gives up on is cancelled with the code of the error it
    returns, unless it was never opened. *)
Theorem send_outcome opened write ctx err code :
  (send opened write ctx = (Ok tt, code) <-> opened = None /\ write = None /\ ctx = None /\ code = None) /\
  (send opened write ctx = (Err err, code) -> forall c, code = Some c ->
     exists e, Cause err = ErrStream e /\ c = streamErr_code e).
Proof.
  split.
  - unfold send. split.
    + destruct ctx as [[[] []]|]; try done; destruct opened, write; try done; simpl; intros [=]; done.
    + by intros (-> & -> & -> & ->).
  - unfold send, cancel_code. intros E c ->.
    repeat case_match; simplify_eq; eauto.
Qed.

(** ** The theorems on concrete streams *)

Lemma recv_reads_what_send_writes_witness :
  recv (inr (mkStream (frame [Byte.x41; Byte.x42] ++ [Byte.x00]) still_open)) None
  = Some (Ok [Byte.x41; Byte.x42], None).
Proof.
  apply (recv_reads_what_send_writes (mkStream (frame [Byte.x41; Byte.x42] ++ [Byte.x00]) still_open)
    [Byte.x41; Byte.x42]); [vm_compute; discriminate|].
  by exists [Byte.x00].
Defined.

(** The largest positive length. *)
Definition huge_header : list byte := Byte.x7f :: replicate 7 Byte.xff.

Lemma recv_of_a_hostile_header_witness :
  recv (inr (mkStream (huge_header ++ []) still_open)) None
  = Some (Panics "runtime error: makeslice: len out of range", None).
Proof. exact (recv_of_a_hostile_header huge_header [] still_open eq_refl). Defined.
