(* ===== verification/Backoff.v ===== *)
(** * Dial back-off ([connection/backoff.go])

    Durations are [int64] nanoseconds, the factors are IEEE doubles: the arithmetic
    is that of [SpecFloat] at the parameters of binary64, with the conversions of
    amd64. The random number is an argument. A timer is a flag for its pending
    expiry and the one-place channel it fires into (Go 1.19); a receive that can
    never proceed is [None]. *)

From S2P Require Import Prelude.
From Stdlib Require Import SpecFloat.

(** ** Doubles *)

Definition f_of_Z (z : Z) : spec_float := binary_normalize 53 1024 z 0 false.
Definition f_add : spec_float -> spec_float -> spec_float := SFadd 53 1024.
Definition f_mul : spec_float -> spec_float -> spec_float := SFmul 53 1024.
Definition f_div : spec_float -> spec_float -> spec_float := SFdiv 53 1024.
Definition f_is_zero (f : spec_float) : bool := SFeqb f (S754_zero false).

(** Conversion to [int64]: towards zero; out of range and NaN give the minimum. *)
Definition f_trunc (f : spec_float) : option Z :=
  match f with
  | S754_zero _ => Some 0%Z
  | S754_finite s m e =>
      let a := if (0 <=? e)%Z then (Z.pos m * 2 ^ e)%Z else (Z.pos m / 2 ^ (- e))%Z in
      Some (if s : bool then (- a)%Z else a)
  | _ => None
  end.

Definition f_to_i64 (f : spec_float) : Z :=
  match f_trunc f with
  | Some z => if (- 2 ^ 63 <=? z)%Z && (z <? 2 ^ 63)%Z then z else (- 2 ^ 63)%Z
  | None => (- 2 ^ 63)%Z
  end.

(** ** Timers *)

Record timer := mkTimer { armed : bool; fired : bool }.

Definition NewTimer : timer := mkTimer true false.

(** [t.Reset(d)] of a timer: the channel keeps what is in it. *)
Definition timer_Reset (t : timer) : timer := mkTimer true (fired t).

(** [t.Stop()]: whether it stopped an armed timer. *)
Definition timer_Stop (t : timer) : timer * bool := (mkTimer false (fired t), armed t).

(** [<-t.C]: takes the value there, or waits for an armed timer to fire. *)
Definition timer_wait (t : timer) : option timer :=
  if fired t then Some (mkTimer (armed t) false)
  else if armed t then Some (mkTimer false false)
  else None.

(** ** [Backoff] *)

Record Backoff := mkBackoff {
  Factor : spec_float;
  MaxFactorJitter : spec_float;
  Initial : Z;
  Max : Z;
  attempt : spec_float;
  val : Z;
  b_timer : option timer;
}.

Definition NewBackoff (factor jitter : spec_float) (initial max : Z) : Backoff :=
  mkBackoff factor jitter initial max (S754_zero false) initial None.

(** [rand.Intn(n)] with the number [r] drawn: it panics unless [n] is positive. *)
Definition Intn (n r : Z) : outcome Empty_set Z :=
  if (n <=? 0)%Z then Panics "invalid argument to Intn" else Ok (r mod n)%Z.

(** The new value before the cut to the bounds. *)
Definition scaled (b : Backoff) (r : Z) : outcome Empty_set spec_float :=
  let df := f_of_Z (val b) in
  if f_is_zero (MaxFactorJitter b) then Ok (f_mul df (Factor b))
  else
    jt <-! Intn (f_to_i64 (f_mul (MaxFactorJitter b) (f_of_Z 100))) r ;;
    let jt := if (Z.rem (Z.shiftr jt 1) 2 =? 0)%Z then (- jt)%Z else jt in
    Ok (f_mul df (f_add (Factor b) (f_div (f_mul (Factor b) (f_of_Z jt)) (f_of_Z 100)))).

Definition next (b : Backoff) (r : Z) : outcome Empty_set Z :=
  if (Max b <? val b)%Z then Ok (Max b)
  else
    df <-! scaled b r ;;
    let dur := f_to_i64 df in
    if (dur <? Initial b)%Z then Ok (Initial b)
    else if (Max b <? dur)%Z then Ok (Max b)
    else Ok dur.

(** The deferred [b.attempt++]. *)
Definition advance (b : Backoff) (v : Z) (t : timer) : Backoff :=
  mkBackoff (Factor b) (MaxFactorJitter b) (Initial b) (Max b)
    (f_add (attempt b) (f_of_Z 1)) v (Some t).

(** [Next]: the state after it and the duration it waited for. *)
Definition Next (b : Backoff) (r : Z) : option (outcome Empty_set (Backoff * Z)) :=
  if f_is_zero (attempt b) then
    t ← timer_wait NewTimer;
    Some (Ok (advance b (val b) t, Initial b))
  else
    match next b r, b_timer b with
    | Ok dur, Some t =>
        t' ← timer_wait (timer_Reset t);
        Some (Ok (advance b dur t', dur))
    | Ok _, None => Some (Panics "nil Timer")
    | Err e, _ => match e with end
    | Panics w, _ => Some (Panics w)
    end.

Definition Reset (b : Backoff) : option Backoff :=
  let b0 t := mkBackoff (Factor b) (MaxFactorJitter b) (Initial b) (Max b) (S754_zero false) (Initial b) t in
  match b_timer b with
  | None => Some (b0 None)
  | Some t =>
      let '(t', stopped) := timer_Stop t in
      if stopped : bool then Some (b0 (Some t'))
      else t'' ← timer_wait t'; Some (b0 (Some t''))
  end.

(** ** Properties *)

Lemma next_bounds b r d :
  (Initial b <= Max b)%Z -> next b r = Ok d -> (Initial b <= d <= Max b)%Z.
Proof.
  intros HIM. unfold next. destruct (Z.ltb_spec (Max b) (val b)); [intros [= <-]; lia|].
  intros (df & _ & E)%bind_ok. destruct (Z.ltb_spec (f_to_i64 df) (Initial b)); simplify_eq; [lia|].
  destruct (Z.ltb_spec (Max b) (f_to_i64 df)); simplify_eq; lia.
Qed.

(** The jitter setting is usable: off, or at least one percent. *)
Definition usable (b : Backoff) : bool :=
  f_is_zero (MaxFactorJitter b) || (0 <? f_to_i64 (f_mul (MaxFactorJitter b) (f_of_Z 100)))%Z.

Lemma next_total b r : usable b = true -> exists d, next b r = Ok d.
Proof.
  unfold usable, next, scaled, Intn. intros [Hz|Hj]%orb_true_iff.
  - rewrite Hz. simpl. repeat case_match; eauto.
  - apply Z.ltb_lt in Hj. destruct (_ <=? 0)%Z eqn:E; [lia|]. simpl. repeat case_match; simpl; repeat case_match; eauto.
Qed.

(** The settings, and what every method leaves: the timer exists once an attempt was
    made, is not running, and its channel is empty. *)
Record backoff_wf (b : Backoff) : Prop := {
  bw_bounds : (Initial b <= val b <= Max b)%Z;
  bw_timer : b_timer b = None \/ b_timer b = Some (mkTimer false false);
  bw_started : f_is_zero (attempt b) = false -> b_timer b <> None;
}.

Lemma NewBackoff_wf factor jitter initial max :
  (initial <= max)%Z -> backoff_wf (NewBackoff factor jitter initial max).
Proof. intros H. split; simpl; [lia|by left|done]. Qed.

(** A call of [Next] on a well-formed state. *)
Lemma Next_spec b r :
  backoff_wf b -> usable b = true ->
  exists b' d, Next b r = Some (Ok (b', d)) /\ backoff_wf b' /\ (Initial b <= d <= Max b)%Z /\
    usable b' = true /\ Initial b' = Initial b /\ Max b' = Max b /\
    b_timer b' = Some (mkTimer false false).
Proof.
  intros [Hb Ht Hs] Hu. unfold Next. destruct (f_is_zero (attempt b)) eqn:Ha; simpl.
  - eexists _, _. split; [done|]. repeat split; simpl; try done; try lia. by right.
  - destruct (next_total b r Hu) as [d Hd]. rewrite Hd. pose proof (next_bounds b r d ltac:(lia) Hd) as Hr.
    destruct Ht as [Ht|Ht]; [by destruct (Hs eq_refl)|]. rewrite Ht. simpl.
    eexists _, _. split; [done|]. repeat split; simpl; try done; try lia. by right.
Qed.

(** A run of failed dials: the durations waited. *)
Fixpoint waits (b : Backoff) (rs : list Z) : option (outcome Empty_set (Backoff * list Z)) :=
  match rs with
  | [] => Some (Ok (b, []))
  | r :: rs =>
      match Next b r with
      | None => None
      | Some (Ok (b', d)) =>
          rest ← waits b' rs;
          Some (x <-! rest ;; Ok (x.1, d :: x.2))
      | Some (Err e) => match e with end
      | Some (Panics w) => Some (Panics w)
      end
  end.

Lemma waits_spec b rs :
  backoff_wf b -> usable b = true ->
  exists b' ds, waits b rs = Some (Ok (b', ds)) /\ length ds = length rs /\
    Forall (fun d => Initial b <= d <= Max b)%Z ds /\ (rs <> [] -> b_timer b' = Some (mkTimer false false)).
Proof.
  revert b. induction rs as [|r rs IH]; intros b Hwf Hu; simpl; [by eexists _, _|].
  destruct (Next_spec b r Hwf Hu) as (b1 & d & HN & Hwf1 & Hd & Hu1 & Hi & Hm & Ht). rewrite HN. simpl.
  destruct (IH b1 Hwf1 Hu1) as (b2 & ds & HW & Hlen & Hds & Ht2). rewrite HW. simpl.
  eexists _, _. split; [done|]. simpl. split; [by f_equal|].
  split; [constructor; [done|]; by rewrite <- Hi, <- Hm|]. intros _.
  destruct rs; [simpl in HW; by simplify_eq|by apply Ht2].
Qed.

(** An unusable jitter shows at the second failed dial. *)
Lemma unusable_panics factor jitter initial max r r' rs :
  (initial <= max)%Z -> usable (NewBackoff factor jitter initial max) = false ->
  waits (NewBackoff factor jitter initial max) (r :: r' :: rs) = Some (Panics "invalid argument to Intn").
Proof.
  intros H. unfold usable. cbn [MaxFactorJitter NewBackoff]. intros [Hz Hj]%orb_false_iff. apply Z.ltb_ge in Hj. cbn [waits]. unfold Next at 1, NewBackoff, advance. cbn -[f_add f_of_Z].
  unfold Next. cbn [attempt]. assert (f_is_zero (f_add (S754_zero false) (f_of_Z 1)) = false) as -> by (vm_compute; reflexivity).
  unfold next, scaled, Intn. cbn [val Max Initial MaxFactorJitter Factor]. destruct (Z.ltb_spec max initial); [lia|].
  rewrite Hz. by destruct (Z.leb_spec (f_to_i64 (f_mul jitter (f_of_Z 100))) 0); [|lia].
Qed.

(** C31: with ordered bounds and a jitter that is off or at least one percent, every
    sequence of failed dials waits, never panics and never blocks, and each wait lies
    between [Initial] and [Max], whatever the factor and the random numbers. With any other
    jitter the second failed dial panics. *)
Theorem backoff_waits_within_bounds factor jitter initial max rs :
  (initial <= max)%Z ->
  if usable (NewBackoff factor jitter initial max) then
    exists b ds, waits (NewBackoff factor jitter initial max) rs = Some (Ok (b, ds)) /\
      length ds = length rs /\ Forall (fun d => initial <= d <= max)%Z ds
  else 2 <= length rs -> waits (NewBackoff factor jitter initial max) rs = Some (Panics "invalid argument to Intn").
Proof.
  intros H. destruct (usable _) eqn:Hu.
  - destruct (waits_spec _ rs (NewBackoff_wf factor jitter _ _ H) Hu) as (b & ds & HW & Hlen & Hds & _). eauto.
  - destruct rs as [|r [|r' rs]]; cbn [length]; [lia|lia|]. intros _. exact (unusable_panics _ _ _ _ r r' rs H Hu).
Qed.

(** the first success after a failed dial never comes back from [Reset]: [Next]
    has already received the timer's value, so [Stop] reports false and the drain
    waits for a value that will not come. *)
Theorem Reset_blocks_after_failed_dials factor jitter initial max r rs :
  (initial <= max)%Z -> usable (NewBackoff factor jitter initial max) = true ->
  exists b ds, waits (NewBackoff factor jitter initial max) (r :: rs) = Some (Ok (b, ds)) /\ Reset b = None.
Proof.
  intros H Hu.
  destruct (waits_spec _ (r :: rs) (NewBackoff_wf factor jitter _ _ H) Hu) as (b & ds & HW & _ & _ & Ht).
  exists b, ds. split; [done|]. unfold Reset. by rewrite Ht.
Qed.

(** ** The shipped configuration *)

(** The doubles 1.3, 0.2 and 0.005. *)
Definition f_1_3 : spec_float := S754_finite false 5854679515581645 (-52).
Definition f_0_2 : spec_float := S754_finite false 7205759403792794 (-55).
Definition f_0_005 : spec_float := S754_finite false 5764607523034235 (-60).

Definition shipped_backoff : Backoff := NewBackoff f_1_3 f_0_2 100000000 30000000000.

Lemma backoff_waits_within_bounds_witness :
  exists b ds, waits shipped_backoff [3; 7; 18]%Z = Some (Ok (b, ds)) /\
    length ds = 3 /\ Forall (fun d => 100000000 <= d <= 30000000000)%Z ds.
Proof.
  assert (usable shipped_backoff = true) as Hu by (vm_compute; reflexivity).
  pose proof (backoff_waits_within_bounds f_1_3 f_0_2 100000000 30000000000 [3; 7; 18]%Z ltac:(lia)) as H.
  fold shipped_backoff in H. rewrite Hu in H. exact H.
Defined.

Lemma Reset_blocks_after_failed_dials_witness :
  exists b ds, waits shipped_backoff [3]%Z = Some (Ok (b, ds)) /\ Reset b = None.
Proof.
  apply (Reset_blocks_after_failed_dials f_1_3 f_0_2 100000000 30000000000 3 []); [lia|vm_compute; reflexivity].
Defined.

(** Without jitter the waits grow by the factor: 100ms, 130ms, 169ms, 219.7ms. *)
Example shipped_waits_without_jitter :
  (match waits (NewBackoff f_1_3 (S754_zero false) 100000000 30000000000) [0; 0; 0; 0]%Z with
   | Some (Ok (_, ds)) => ds | _ => [] end)
  = [100000000; 130000000; 169000000; 219700000]%Z.
Proof. vm_compute. reflexivity. Qed.

(** A jitter below one percent makes the second failed dial panic. *)
Example small_jitter_panics :
  waits (NewBackoff f_1_3 f_0_005 100000000 30000000000) [0; 0]%Z
  = Some (Panics "invalid argument to Intn").
Proof. vm_compute. reflexivity. Qed.
