(* ===== verification/Connection.v ===== *)
(** * Connections to a peer ([connection/connection.go])

    One [Connection] per peer. The methods that change it take its mutex; between two
    such sections any other goroutine may run, so [Establish] is given in its three
    parts: the fast path, the resolution, and the locked section. The counter of live
    connections is shared by all connections of a pool. The locked sections are given as
    a whole, as everybody sees them who takes the mutex; [Counter] takes them apart for
    [Broadcast], which reads the counter without it. *)

From S2P Require Import Prelude Errors Perspective Framing.

Inductive Status := StatusDead | StatusAlive | StatusShutdown.

#[export] Instance Status_eq_dec : EqDecision Status.
Proof. solve_decision. Defined.

Definition Status_String (s : Status) : string :=
  match s with
  | StatusAlive => "alive"
  | StatusDead => "dead"
  | StatusShutdown => "shutdown"
  end.

(** A QUIC connection is known by a number; [openers] are the goroutines that wait to
    send on [openNotify]. *)
Record Connection := mkConnection {
  c_host : string;
  c_peer : string;
  c_conn : option nat;
  c_status : Status;
  c_perspective : Z;
  c_resolver : perspectiveResolver;
  openers : nat;
}.

Definition NewConnection (host peer : string) : Connection :=
  mkConnection host peer None StatusDead Unknown newPerspectiveResolver 0.

(** ** [Establish] *)

Definition establish_fast (c : Connection) : option error :=
  if bool_decide (c_status c = StatusAlive) && negb (c_perspective c =? Unknown)%Z
  then Some (ErrConn connErrAlreadyEstablished) else None.

Definition set_resolver (r : perspectiveResolver) (c : Connection) : Connection :=
  mkConnection (c_host c) (c_peer c) (c_conn c) (c_status c) (c_perspective c) r (openers c).

Definition establish_resolve (perspective : Z) (sent : option error) (rcv : outcome error (list byte))
    (c : Connection) : Connection * outcome error unit :=
  let '(r, res) := Resolve (c_resolver c) perspective sent rcv
                     (fallback perspective (c_host c) (c_peer c)) in
  (set_resolver r c, res).

(** The section under the mutex, as a whole; [active] is the shared counter. *)
Definition establish_commit (perspective : Z) (conn : nat) (c : Connection) (active : Z) :
    Connection * Z * outcome error unit :=
  if bool_decide (c_status c = StatusAlive)
  then (c, active, Err (ErrConn connErrAlreadyEstablished))
  else (mkConnection (c_host c) (c_peer c) (Some conn) StatusAlive perspective (c_resolver c) (S (openers c)),
        i64 (active + 1), Ok tt).

(** [WaitForOpen]: a waiting sender, or the end of the context. *)
Definition WaitForOpen (ctx_done : bool) (c : Connection) : option (Connection * outcome error unit) :=
  if ctx_done then Some (c, Err errPoolClosed)
  else match openers c with
       | S k => Some (mkConnection (c_host c) (c_peer c) (c_conn c) (c_status c) (c_perspective c) (c_resolver c) k, Ok tt)
       | 0 => None
       end.

(** ** [Close] *)

(** [ctx_err] is [c.conn.Context().Err()], [remote] the address and the result of
    [CloseWithError]. The last component is the code sent to the peer. The section as a
    whole: nothing says that [CloseWithError] returns. *)
Definition Close (err : option error) (ctx_err : option error) (remote : string * option error)
    (c : Connection) (active : Z) : Connection * Z * outcome error unit * option Z :=
  if bool_decide (c_status c = StatusDead) then (c, active, Ok tt, None)
  else
    let c' := mkConnection (c_host c) (c_peer c) (c_conn c) StatusDead Unknown
                (Perspective.Reset (c_resolver c)) (openers c) in
    let '(code, res) :=
      match ctx_err, c_conn c with
      | Some _, _ => (None, match err with Some e => Err e | None => Ok tt end)
      | None, None => (None, Panics "nil Connection")
      | None, Some _ => closeConn (Some remote) err
      end in
    (c', i64 (active - 1), res, code).

(** ** [handleErrors] *)

(** The error to report and whether the connection is to be closed; [None] for a nil
    result. [net.Error.Temporary] is part of the error. *)
Definition classify (err : option error) : option (error * bool) :=
  match err with
  | None => None
  | Some err =>
      let cause := Cause err in
      let cause := default cause (Unwrap cause) in
      match cause with
      | io_EOF | context_Canceled => Some (err, true)
      | net_OpError temporary _ _ => Some (err, negb temporary)
      | quic_StreamError code _ => Some (ErrStream (streamErr_of_code code), false)
      | quic_ApplicationError code _ =>
          match connErr_of_code code with
          | connErrAlreadyEstablished => None
          | connErrClosed => Some (ErrConn connErrClosed, true)
          | e => Some (ErrConn e, false)
          end
      | _ => Some (err, false)
      end
  end.

Definition handleErrors (err : option error) (ctx_err : option error) (remote : string * option error)
    (c : Connection) (active : Z) : Connection * Z * option error :=
  match classify err with
  | None => (c, active, None)
  | Some (e, false) => (c, active, Some e)
  | Some (e, true) =>
      let '(c', active', _, _) := Close (Some e) ctx_err remote c active in
      (c', active', Some (ErrWrap e (connErr_Error connErrClosed)))
  end.

(** ** [Recv] and [Send] *)

(** After the status check: [data] and [err] are what [recv] returned. *)
Definition recv_result (data : list byte) (err : option error) (ctx_err : option error) (remote : string * option error)
    (c : Connection) (active : Z) : Connection * Z * outcome error (list byte) :=
  let '(c', active', e) := handleErrors err ctx_err remote c active in
  (c', active', match e with Some e => Err (ErrWrap e "failed to receive data") | None => Ok data end).

Definition Recv (data : list byte) (err : option error) (ctx_err : option error) (remote : string * option error)
    (c : Connection) (active : Z) : Connection * Z * outcome error (list byte) :=
  if bool_decide (c_status c = StatusDead) then (c, active, Err (ErrConn connErrClosed))
  else recv_result data err ctx_err remote c active.

(** [sent] is what [send] returned. *)
Definition Send (sent : option error) (ctx_err : option error) (remote : string * option error)
    (c : Connection) (active : Z) : Connection * Z * outcome error unit :=
  if bool_decide (c_status c = StatusDead) then (c, active, Err (ErrConn connErrClosed))
  else
    let '(c', active', e) := handleErrors sent ctx_err remote c active in
    (c', active', match e with Some e => Err (ErrWrap e "failed to send data") | None => Ok tt end).
