(* ===== verification/Pool.v ===== *)
(** * The connection pool ([connection/pool.go])

    One [Connection] per peer and the counters the pool shares with them. The steps
    are the sections that run under a connection's mutex, in any order; the shutdown
    protocol of the handler goroutines is a state machine of its own. *)

From S2P Require Import Prelude Errors Protobuf Transactions Responses Host Perspective Framing Connection.
From stdpp Require Import pretty.

Record Pool := mkPool {
  p_host : string;
  whitelist : gset string;
  pool : gmap string Connection;
  activeConnections : Z;
}.

Definition NewPool (host : string) (peers : list string) : Pool :=
  mkPool host (list_to_set peers) (list_to_map ((fun p => (p, NewConnection host p)) <$> peers)) 0.

Definition set_connection (name : string) (c : Connection) (active : Z) (s : Pool) : Pool :=
  mkPool (p_host s) (whitelist s) (<[name := c]> (pool s)) active.

(** ** Who may connect *)

(** [VerifyConnection], on the common names of the peer's certificates. *)
Definition VerifyConnection (s : Pool) (certificates : list string) : outcome error unit :=
  match certificates with
  | [cn] =>
      if bool_decide (cn ∈ whitelist s) then Ok tt
      else Err (ErrNew ("CN: " ++ cn ++ ", is not authorized to participate in the peer network"))
  | _ => Err (ErrNew ("expected exactly one peer certificate, got " ++ pretty (length certificates)))
  end.

(** [add] looks the connection up by the common name of the first certificate. *)
Definition add_lookup (s : Pool) (certificates : list string) : outcome error Connection :=
  match certificates with
  | [] => Panics "index out of range"
  | cn :: _ => match pool s !! cn with Some c => Ok c | None => Panics "nil Connection" end
  end.

(** ** [Broadcast] *)

(** The goroutines of a broadcast, in the order in which they finish; [send p] is the
    result of [Send] on the connection to [p]. *)
Definition broadcast_errors (send : string -> option error) (order : list string) : MultiErr :=
  foldl (fun m p => match send p with Some e => MultiErr_Append p e m | None => m end) MultiErr_new order.

Definition Broadcast (s : Pool) (send : string -> option error) (order : list string) : option error :=
  if negb (activeConnections s =? Z.of_nat (size (pool s)))%Z then Some ErrPeerIsDown
  else MultiErr_result (broadcast_errors send order).

(** ** Interleavings of the locked sections *)

Inductive pool_step (s : Pool) : Pool -> Prop :=
| pool_resolve name c perspective sent rcv :
    pool s !! name = Some c ->
    pool_step s (set_connection name (establish_resolve perspective sent rcv c).1 (activeConnections s) s)
| pool_commit name c perspective conn c' active' res :
    pool s !! name = Some c ->
    establish_commit perspective conn c (activeConnections s) = (c', active', res) ->
    pool_step s (set_connection name c' active' s)
| pool_close name c err ctx_err remote c' active' res code :
    pool s !! name = Some c ->
    Connection.Close err ctx_err remote c (activeConnections s) = (c', active', res, code) ->
    pool_step s (set_connection name c' active' s)
| pool_errors name c err ctx_err remote c' active' res :
    pool s !! name = Some c ->
    handleErrors err ctx_err remote c (activeConnections s) = (c', active', res) ->
    pool_step s (set_connection name c' active' s)
| pool_open name c ctx_done c' res :
    pool s !! name = Some c -> WaitForOpen ctx_done c = Some (c', res) ->
    pool_step s (set_connection name c' (activeConnections s) s).

(** ** The counter of live connections *)

Definition is_alive (c : Connection) : bool := bool_decide (c_status c = StatusAlive).

Definition alive (m : gmap string Connection) : gmap string Connection :=
  filter (fun kv => is_alive kv.2 = true) m.

Definition live_count (m : gmap string Connection) : Z := Z.of_nat (size (alive m)).

(** The third status is never set. *)
Record pool_inv (s : Pool) : Prop := {
  pi_active : activeConnections s = live_count (pool s);
  pi_status name c : pool s !! name = Some c -> c_status c = StatusDead \/ c_status c = StatusAlive;
}.

Lemma live_count_insert m name c c' :
  m !! name = Some c ->
  live_count (<[name := c']> m) =
    (live_count m + (if is_alive c' then 1 else 0) - (if is_alive c then 1 else 0))%Z.
Proof.
  intros Hc. unfold live_count, alive.
  assert (forall P, filter (fun kv : string * Connection => is_alive kv.2 = true) m !! name = P ->
    P = if is_alive c then Some c else None) as Hf.
  { intros P <-. rewrite map_lookup_filter, Hc. simpl. by destruct (is_alive c). }
  specialize (Hf _ eq_refl). destruct (is_alive c') eqn:Ec'.
  - rewrite map_filter_insert_True by done. rewrite map_size_insert, Hf. destruct (is_alive c); simpl; lia.
  - rewrite map_filter_insert_False by (simpl; congruence).
    rewrite map_filter_delete, map_size_delete, Hf.
    assert (is_alive c = true -> size (filter (fun kv : string * Connection => is_alive kv.2 = true) m) <> 0) as Hpos.
    { intros Ha He%map_size_empty_inv. rewrite He, Ha, lookup_empty in Hf. done. }
    destruct (is_alive c); simpl; [specialize (Hpos eq_refl)|]; lia.
Qed.

Lemma live_count_bound m : (0 <= live_count m <= Z.of_nat (size m))%Z.
Proof. unfold live_count, alive. pose proof (map_size_filter (fun kv : string * Connection => is_alive kv.2 = true) m). lia. Qed.

(** Replacing a connection keeps the invariant if the counter moves with its status. *)
Lemma set_connection_inv s name c c' active' :
  pool_inv s -> pool s !! name = Some c ->
  (c_status c' = StatusDead \/ c_status c' = StatusAlive) ->
  active' = (activeConnections s + (if is_alive c' then 1 else 0) - (if is_alive c then 1 else 0))%Z ->
  pool_inv (set_connection name c' active' s).
Proof.
  intros [Ha Hs] Hc Hst ->. split; simpl.
  - by rewrite (live_count_insert _ _ c), Ha.
  - intros name' c0 [[<- <-]|[_ ?]]%lookup_insert_Some; eauto.
Qed.

(** The number of peers fits the counter. *)
Definition fits (s : Pool) : Prop := (Z.of_nat (size (pool s)) < 2 ^ 62)%Z.

Lemma counter_no_wrap s z :
  pool_inv s -> fits s -> (-1 <= z <= 1)%Z ->
  i64 (activeConnections s + z) = (activeConnections s + z)%Z.
Proof.
  intros [-> _] Hsz Hz. pose proof (live_count_bound (pool s)). unfold fits in Hsz. apply wrapS_small; lia.
Qed.

Lemma close_inv s name c err ctx_err remote c' active' res code :
  pool_inv s -> fits s -> pool s !! name = Some c ->
  Connection.Close err ctx_err remote c (activeConnections s) = (c', active', res, code) ->
  pool_inv (set_connection name c' active' s).
Proof.
  intros I Hsz Hc E. pose proof (pi_status _ I _ _ Hc) as Hst. unfold Connection.Close in E.
  pose proof (counter_no_wrap s (-1) I Hsz ltac:(lia)) as Hw.
  replace (activeConnections s + -1)%Z with (activeConnections s - 1)%Z in Hw by lia. rewrite Hw in E.
  unfold is_alive in *. case_bool_decide as Hd.
  - simplify_eq. eapply set_connection_inv; try done. lia.
  - assert (c_status c = StatusAlive) as Ha by tauto.
    repeat case_match; simplify_eq; (eapply set_connection_inv; [done|done|by left|]);
      unfold is_alive; simpl; rewrite (bool_decide_eq_true_2 _ Ha); simpl; lia.
Qed.

Lemma pool_step_inv s s' :
  pool_inv s -> fits s -> pool_step s s' -> pool_inv s' /\ size (pool s') = size (pool s).
Proof.
  intros I Hsz Hstep. split.
  - destruct Hstep as [name c persp sent rcv Hc|name c persp conn c' a' res Hc E|name c err ce rm c' a' res code Hc E
                      |name c err ce rm c' a' res Hc E|name c cd c' res Hc E];
      pose proof (pi_status _ I _ _ Hc) as Hst.
    + unfold establish_resolve. destruct (Resolve _ _ _ _ _) as [r res]. simpl.
      eapply set_connection_inv; try done. unfold is_alive; simpl. lia.
    + unfold establish_commit in E. rewrite (counter_no_wrap s 1 I Hsz) in E by lia.
      case_bool_decide as Ha; simplify_eq; (eapply set_connection_inv; [done|done|auto|]); unfold is_alive; simpl;
        rewrite ?bool_decide_eq_false_2 by done; lia.
    + by eapply close_inv.
    + unfold handleErrors in E. destruct (classify err) as [[e []]|]; simplify_eq.
      2, 3: eapply set_connection_inv; [done|done|done|lia].
      destruct (Connection.Close _ _ _ _ _) as [[[c1 a1] r1] k1] eqn:EC. simplify_eq. by eapply close_inv.
    + unfold WaitForOpen in E. repeat case_match; simplify_eq; eapply set_connection_inv; try done;
        unfold is_alive; simpl; lia.
  - destruct Hstep; simpl; rewrite map_size_insert; by match goal with H : pool s !! _ = Some _ |- _ => rewrite H end.
Qed.

Lemma NewPool_inv host peers : pool_inv (NewPool host peers).
Proof.
  assert (forall name c, pool (NewPool host peers) !! name = Some c -> c_status c = StatusDead) as Hd.
  { intros name c Hc%elem_of_list_to_map_2. by apply list_elem_of_fmap in Hc as (p & [= -> ->] & _). }
  split; [|intros name c Hc; left; by eapply Hd].
  unfold live_count, alive. rewrite (proj2 (map_empty_filter _ _)); [done|].
  intros name c Hc. simpl. unfold is_alive. by rewrite (Hd _ _ Hc).
Qed.

Lemma NewPool_size host peers : NoDup peers -> size (pool (NewPool host peers)) = length peers.
Proof.
  intros Hnd. simpl. rewrite map_size_list_to_map, length_fmap; [done|].
  rewrite <- list_fmap_compose. simpl. by rewrite list_fmap_id.
Qed.

Lemma reachable_pool_inv host peers s :
  NoDup peers -> (Z.of_nat (length peers) < 2 ^ 62)%Z -> steps pool_step (NewPool host peers) s ->
  pool_inv s /\ size (pool s) = length peers.
Proof.
  intros Hnd Hb.
  apply (steps_invariant pool_step (fun s => pool_inv s /\ size (pool s) = length peers)).
  - split; [apply NewPool_inv|by apply NewPool_size].
  - intros a b [I Hs] Hab. rewrite <- Hs. apply pool_step_inv; [done| |done]. unfold fits. by rewrite Hs.
Qed.

Lemma MultiErr_result_not_down m : MultiErr_result m <> Some ErrPeerIsDown.
Proof. unfold MultiErr_result. by case_match. Qed.

(** ** The errors of a broadcast *)

Lemma broadcast_errors_lookup send order p :
  NoDup order -> errs (broadcast_errors send order) !! p = (if decide (p ∈ order) then send p else None).
Proof.
  unfold broadcast_errors. induction order as [|q order IH] using rev_ind; intros Hnd.
  { simpl. by rewrite lookup_empty. }
  apply NoDup_app in Hnd as (Hnd & Hdis & _). rewrite foldl_app. simpl.
  assert (q ∉ order) as Hq by (intros Hin; apply (Hdis q Hin); set_solver).
  specialize (IH Hnd). destruct (decide (p = q)) as [->|Hne].
  - rewrite decide_True by set_solver. rewrite decide_False in IH by done.
    destruct (send q) as [e|]; simpl; [by rewrite lookup_insert_eq|done].
  - assert (p ∈ order ++ [q] <-> p ∈ order) as Hiff by set_solver.
    destruct (send q); simpl; rewrite ?lookup_insert_ne by done; rewrite IH;
      by rewrite (decide_ext (p ∈ order ++ [q]) (p ∈ order)).
Qed.

Definition failed (send : string -> option error) (order : list string) : nat :=
  length (filter (fun p => is_Some (send p)) order).

Lemma broadcast_errors_size send order :
  NoDup order -> size (errs (broadcast_errors send order)) = failed send order.
Proof.
  unfold broadcast_errors, failed. induction order as [|q order IH] using rev_ind; intros Hnd; [done|].
  pose proof Hnd as Hnd0. apply NoDup_app in Hnd as (Hnd & Hdis & _).
  assert (q ∉ order) as Hq by (intros Hin; apply (Hdis q Hin); set_solver).
  rewrite foldl_app, filter_app, length_app. simpl. specialize (IH Hnd).
  pose proof (broadcast_errors_lookup send order q Hnd) as Hl. unfold broadcast_errors in Hl.
  rewrite decide_False in Hl by done. destruct (send q) as [e|] eqn:Es.
  - simpl. rewrite map_size_insert_None by done. rewrite IH.
    rewrite filter_cons_True by (by eexists). simpl. lia.
  - rewrite filter_cons_False by (rewrite Es; by intros [? ?]). simpl. lia.
Qed.

(** C37: [Replicate] waits for exactly the peers its broadcast reached: whatever the
    order in which the sends finish, it gives up with the collected errors when all of
    them failed, and otherwise waits for as many answers as sends succeeded. *)
Theorem replicate_waits_for_reached_peers s send order :
  order ≡ₚ (map_to_list (pool s)).*1 -> activeConnections s = Z.of_nat (size (pool s)) ->
  size (pool s) <> 0 ->
  let n := size (pool s) in
  let k := failed send order in
  if (k =? n)%nat
  then exists es, after_broadcast n (Broadcast s send order) = Err (ErrMulti es) /\ length es = n
  else after_broadcast n (Broadcast s send order) = Ok (n - k).
Proof.
  intros Hp Ha Hne n k.
  assert (NoDup order) as Hnd by (rewrite Hp; apply NoDup_fst_map_to_list).
  unfold Broadcast. rewrite Ha, Z.eqb_refl. simpl. unfold MultiErr_result, MultiErr_Empty.
  rewrite (broadcast_errors_size send order Hnd). fold k.
  case_bool_decide as Hk; simpl.
  - rewrite Hk. destruct (Nat.eqb_spec 0 n); [lia|]. f_equal. lia.
  - rewrite length_map_to_list, (broadcast_errors_size send order Hnd). fold k.
    destruct (Nat.eqb_spec k n) as [Hkn|Hkn]; [|done]. eexists. split; [done|].
    by rewrite length_map_to_list, (broadcast_errors_size send order Hnd).
Qed.

(** ** Admission *)

Lemma pool_step_keys s s' :
  pool_step s s' -> whitelist s' = whitelist s /\ forall name, is_Some (pool s' !! name) <-> is_Some (pool s !! name).
Proof.
  assert (forall name c c' a, pool s !! name = Some c ->
    whitelist (set_connection name c' a s) = whitelist s /\
    forall x, is_Some (pool (set_connection name c' a s) !! x) <-> is_Some (pool s !! x)) as H.
  { intros name c c' a Hc. split; [done|]. intros x. simpl. rewrite lookup_insert_is_Some.
    split; [intros [<-|[_ ?]]; [by eexists|done]|]. intros Hx. destruct (decide (name = x)); [by left|by right]. }
  destruct 1; by eapply H.
Qed.

(** a peer that passes [VerifyConnection] has its connection in the pool, so the
    lookup in [add] never yields nil; nobody else passes. *)
Theorem verified_peers_have_a_connection host peers s certificates :
  steps pool_step (NewPool host peers) s ->
  (VerifyConnection s certificates = Ok tt <-> exists cn, certificates = [cn] /\ cn ∈ peers) /\
  (VerifyConnection s certificates = Ok tt -> exists c, add_lookup s certificates = Ok c).
Proof.
  intros Hs.
  assert (whitelist s = list_to_set peers /\ forall name, name ∈ peers -> is_Some (pool s !! name)) as [Hw Hp].
  { revert Hs. apply (steps_invariant pool_step (fun s => whitelist s = list_to_set peers /\
      forall name, name ∈ peers -> is_Some (pool s !! name))).
    - split; [done|]. intros name Hn. simpl. apply not_eq_None_Some. intros Hnone%not_elem_of_list_to_map_2.
      apply Hnone. rewrite <- list_fmap_compose. simpl. by rewrite list_fmap_id.
    - intros a b [Hw Hp] [Hw' Hk]%pool_step_keys. split; [congruence|]. intros name Hn. apply Hk, Hp, Hn. }
  unfold VerifyConnection, add_lookup. destruct certificates as [|cn [|cn' l]].
  - split; [split; [done|by intros (? & ? & _)]|done].
  - rewrite Hw. case_bool_decide as Hin; rewrite elem_of_list_to_set in Hin.
    + split; [split; [by exists cn|done]|]. intros _. destruct (Hp cn Hin) as [c ->]. by exists c.
    + split; [|done]. split; [done|]. by intros (? & [= <-] & ?).
  - split; [split; [done|by intros (? & ? & _)]|done].
Qed.

(** ** Shutdown *)

(** The goroutines of [acceptConnections] and [dialOnce] between
    [addConnectionHandler] and [removeConnectionHandler], and [Close]. *)
Inductive closer_pc := CIdle | CWaiting | CPast.

Record handlers_state := mkHandlers {
  h_count : Z;          (** [activeConnectionHandlers] *)
  h_closed : bool;      (** [closed] *)
  entering : nat;       (** incremented, not yet past the check of [closed] *)
  refused : nat;        (** told that the pool is closed, counter not yet decremented *)
  serving : nat;        (** dialling, accepting or establishing *)
  closer : closer_pc;
}.

Definition handlers_init : handlers_state := mkHandlers 0 false 0 0 0 CIdle.

(** [addConnectionHandler]: the increment. *)
Definition handler_enter (s : handlers_state) : handlers_state :=
  mkHandlers (i64 (h_count s + 1)) (h_closed s) (S (entering s)) (refused s) (serving s) (closer s).

(** [addConnectionHandler]: the check. *)
Definition addConnectionHandler (s : handlers_state) : option (handlers_state * option error) :=
  match entering s with
  | 0 => None
  | S k =>
      if h_closed s
      then Some (mkHandlers (h_count s) true k (S (refused s)) (serving s) (closer s), Some errPoolClosed)
      else Some (mkHandlers (h_count s) false k (refused s) (S (serving s)) (closer s), None)
  end.

(** [removeConnectionHandler], by a goroutine that was refused or is done. *)
Definition removeConnectionHandler (was_refused : bool) (s : handlers_state) : option handlers_state :=
  match was_refused, refused s, serving s with
  | true, S k, _ => Some (mkHandlers (i64 (h_count s - 1)) (h_closed s) (entering s) k (serving s) (closer s))
  | false, _, S k => Some (mkHandlers (i64 (h_count s - 1)) (h_closed s) (entering s) (refused s) k (closer s))
  | _, _, _ => None
  end.

(** [Close]: [p.closed.Store(true)], and the exit of its loop. *)
Definition close_start (s : handlers_state) : handlers_state :=
  mkHandlers (h_count s) true (entering s) (refused s) (serving s)
    (match closer s with CPast => CPast | _ => CWaiting end).

Definition close_loop_exit (s : handlers_state) : option handlers_state :=
  match closer s with
  | CWaiting =>
      if (h_count s =? 0)%Z
      then Some (mkHandlers (h_count s) (h_closed s) (entering s) (refused s) (serving s) CPast)
      else None
  | _ => None
  end.

Inductive handlers_step (s : handlers_state) : handlers_state -> Prop :=
| hs_enter : (Z.of_nat (entering s + refused s + serving s) < 2 ^ 62)%Z -> handlers_step s (handler_enter s)
| hs_check s' e : addConnectionHandler s = Some (s', e) -> handlers_step s s'
| hs_remove b s' : removeConnectionHandler b s = Some s' -> handlers_step s s'
| hs_close : handlers_step s (close_start s)
| hs_exit s' : close_loop_exit s = Some s' -> handlers_step s s'.

Record handlers_inv (s : handlers_state) : Prop := {
  hi_count : h_count s = Z.of_nat (entering s + refused s + serving s);
  hi_bound : (Z.of_nat (entering s + refused s + serving s) <= 2 ^ 62)%Z;
  hi_closed : closer s <> CIdle -> h_closed s = true;
  hi_past : closer s = CPast -> serving s = 0;
}.

Lemma handlers_step_inv s s' : handlers_inv s -> handlers_step s s' -> handlers_inv s'.
Proof.
  intros [Hc Hb Hcl Hp] Hstep. destruct s as [c cl en rf sv cr]. simpl in *.
  assert (forall z, (- 2 ^ 62 <= z <= 2 ^ 62 + 1)%Z -> i64 z = z) as Hw.
  { intros z Hz. apply wrapS_small; lia. }
  destruct Hstep as [Hlt|s' e E|b s' E| |s' E]; simpl in *.
  - split; simpl; try done; rewrite ?Hw by lia; lia.
  - unfold addConnectionHandler in E. simpl in E. destruct en as [|k]; [done|].
    destruct cl; simplify_eq; split; simpl; try done; try lia. intros ->. by discriminate Hcl.
  - unfold removeConnectionHandler in E. simpl in E.
    destruct b, rf, sv; simplify_eq; split; simpl; try done; rewrite ?Hw by lia; try lia; intros ->; by specialize (Hp eq_refl).
  - split; simpl; try done; try lia. by destruct cr.
  - unfold close_loop_exit in E. simpl in E. destruct cr; try done. destruct (Z.eqb_spec c 0) as [H0|]; [|done].
    injection E as <-. split; simpl; [lia|lia|intros _; by apply Hcl|lia].
Qed.

(** [Close] does not proceed to the connections while one is being established,
    and none can start afterwards: past its waiting loop no handler is at work, in any
    interleaving, and every later [addConnectionHandler] is refused. *)
Theorem no_handshake_after_close s s' e :
  steps handlers_step handlers_init s -> closer s = CPast ->
  serving s = 0 /\ (addConnectionHandler s = Some (s', e) -> e = Some errPoolClosed /\ serving s' = 0).
Proof.
  intros Hs Hp.
  assert (handlers_inv s) as [Hc _ Hcl Hpast].
  { revert Hs. apply steps_invariant; [by split|]. intros a b. apply handlers_step_inv. }
  specialize (Hpast Hp). split; [done|].
  unfold addConnectionHandler. rewrite Hcl by congruence. destruct (entering s); [done|].
  intros [= <- <-]. done.
Qed.

(** ** Surprises *)

(** The watcher of a connection that is gone closes its successor: [Close] does not
    look at which connection it was called for. Here connection 1 was lost and
    replaced by connection 2 before the watcher of 1 ran. *)
Theorem stale_watcher_closes_the_new_connection :
  let '(c1, a1, _) := establish_commit Client 1 (NewConnection "Aragorn" "Gimli") 0 in
  let '(c2, a2, _, _) := Connection.Close (Some io_EOF) (Some io_EOF) ("", None) c1 a1 in
  let '(c3, a3, _) := establish_commit Server 2 c2 a2 in
  let '(c4, a4, _, code) := Connection.Close (Some context_Canceled) None ("localhost:9005", None) c3 a3 in
  c_status c3 = StatusAlive /\ c_conn c3 = Some 2 /\ c_status c4 = StatusDead /\ a4 = 0%Z /\ code = Some 0%Z.
Proof. vm_compute. by repeat split. Qed.

(** A peer that closes the connection with [connErrAlreadyEstablished] makes [Recv]
    return no data and no error: the empty message reaches the host as data. *)
Theorem recv_returns_nothing_without_error c active :
  c_status c = StatusAlive ->
  Recv [] (Some (ErrWrap (quic_ApplicationError 1 "") "failed to accept unidirectional QUIC stream"))
    None ("", None) c active = (c, active, Ok []).
Proof. intros Hs. unfold Recv. by rewrite bool_decide_eq_false_2 by (by rewrite Hs). Qed.

(** A permanent network error closes the connection only if it is wrapped: on its own
    it is unwrapped to the system error, which is not recognised. *)
Theorem bare_network_error_does_not_close :
  classify (Some (net_OpError false "write: broken pipe" (Some (ErrErrno 32 "broken pipe"))))
    = Some (net_OpError false "write: broken pipe" (Some (ErrErrno 32 "broken pipe")), false) /\
  classify (Some (tls_permanentError (net_OpError false "write: broken pipe" (Some (ErrErrno 32 "broken pipe")))))
    = Some (tls_permanentError (net_OpError false "write: broken pipe" (Some (ErrErrno 32 "broken pipe"))), true).
Proof. split; reflexivity. Qed.

(** ** The theorems on concrete pools *)

Definition small_pool : Pool := NewPool "Aragorn" ["Legolas"; "Gimli"].

Definition one_up : Pool :=
  set_connection "Gimli" (establish_commit Client 1 (NewConnection "Aragorn" "Gimli") 0).1.1 1 small_pool.

Lemma one_up_reachable : steps pool_step small_pool one_up.
Proof.
  apply steps_one. apply (pool_commit small_pool "Gimli" (NewConnection "Aragorn" "Gimli") Client 1 _ 1 (Ok tt));
    vm_compute; reflexivity.
Qed.

Definition both_up : Pool :=
  set_connection "Legolas" (establish_commit Server 2 (NewConnection "Aragorn" "Legolas") 1).1.1 2 one_up.

Lemma replicate_waits_for_reached_peers_witness :
  after_broadcast 2 (Broadcast both_up
    (fun p => if decide (p = "Gimli") then Some (ErrStream streamErrTimeout) else None) ["Legolas"; "Gimli"]) = Ok 1.
Proof.
  refine (replicate_waits_for_reached_peers both_up
    (fun p => if decide (p = "Gimli") then Some (ErrStream streamErrTimeout) else None) ["Legolas"; "Gimli"] _ _ _).
  - by apply (bool_decide_eq_true_1 (["Legolas"; "Gimli"] ≡ₚ (map_to_list (pool both_up)).*1)).
  - vm_compute. reflexivity.
  - vm_compute. discriminate.
Defined.

Lemma verified_peers_have_a_connection_witness :
  (VerifyConnection one_up ["Gimli"] = Ok tt <-> exists cn, ["Gimli"] = [cn] /\ cn ∈ ["Legolas"; "Gimli"]) /\
  (VerifyConnection one_up ["Gimli"] = Ok tt -> exists c, add_lookup one_up ["Gimli"] = Ok c).
Proof. apply (verified_peers_have_a_connection "Aragorn" ["Legolas"; "Gimli"] one_up ["Gimli"] one_up_reachable). Defined.

Lemma recv_returns_nothing_without_error_witness :
  Recv [] (Some (ErrWrap (quic_ApplicationError 1 "") "failed to accept unidirectional QUIC stream")) None ("", None)
    (establish_commit Client 1 (NewConnection "Aragorn" "Gimli") 0).1.1 1
  = ((establish_commit Client 1 (NewConnection "Aragorn" "Gimli") 0).1.1, 1%Z, Ok []).
Proof.
  apply (recv_returns_nothing_without_error (establish_commit Client 1 (NewConnection "Aragorn" "Gimli") 0).1.1 1).
  vm_compute. reflexivity.
Defined.

(** A handshake is under way when the pool closes; one that comes late. *)
Lemma closing_steps : steps handlers_step handlers_init (mkHandlers 1 true 1 0 0 CPast).
Proof.
  apply (steps_snoc _ _ (mkHandlers 0 true 0 0 0 CPast)); [|apply (hs_enter (mkHandlers 0 true 0 0 0 CPast)); simpl; lia].
  apply (steps_snoc _ _ (mkHandlers 0 true 0 0 0 CWaiting)); [|by apply hs_exit].
  apply (steps_snoc _ _ (mkHandlers 1 true 0 0 1 CWaiting)); [|by apply (hs_remove _ false)].
  apply (steps_snoc _ _ (mkHandlers 1 false 0 0 1 CIdle)); [|apply (hs_close (mkHandlers 1 false 0 0 1 CIdle))].
  apply (steps_snoc _ _ (mkHandlers 1 false 1 0 0 CIdle)); [|by apply (hs_check _ _ None)].
  apply steps_one, (hs_enter handlers_init). simpl. lia.
Qed.

Lemma no_handshake_after_close_witness :
  serving (mkHandlers 1 true 1 0 0 CPast) = 0 /\
  (addConnectionHandler (mkHandlers 1 true 1 0 0 CPast) = Some (mkHandlers 1 true 0 1 0 CPast, Some errPoolClosed) ->
   Some errPoolClosed = Some errPoolClosed /\ serving (mkHandlers 1 true 0 1 0 CPast) = 0).
Proof.
  apply (no_handshake_after_close (mkHandlers 1 true 1 0 0 CPast) (mkHandlers 1 true 0 1 0 CPast)
    (Some errPoolClosed) closing_steps eq_refl).
Defined.
