(* ===== verification/Counter.v ===== *)
(** * The counter of live connections ([connection/connection.go], [connection/pool.go])

    [Establish] and [Connection.Close] write the status of a connection first and move the
    counter that the pool shares later, [Close] after it closed the QUIC connection, which
    may block. Both do so under the mutex of the connection, but [Broadcast] reads the
    counter without it. Here the sections are taken apart: between any two of their parts
    the goroutines of the other connections, and [Broadcast], may run. [Connection] and
    [Pool] give the same sections as a whole, as those see them that take the mutex. *)

From S2P Require Import Prelude Errors Protobuf Perspective Framing Connection Pool.

(** ** A connection and its mutex *)

(** Who holds [c.mu], and how far it is. *)
Inductive mutex :=
| Free
| Established     (** [Establish] wrote the status, [Add(1)] is to come *)
| Closing         (** [Close] wrote the status, [closeConn] is to return *)
| Resetting.      (** [Close] reset the perspective, [Add(-1)] is to come *)

#[export] Instance mutex_eq_dec : EqDecision mutex.
Proof. solve_decision. Defined.

Abbreviation cell := (Connection * mutex)%type.

Definition set_status (st : Status) (c : Connection) : Connection :=
  mkConnection (c_host c) (c_peer c) (c_conn c) st (c_perspective c) (c_resolver c) (openers c).

(** [Establish] from [Lock] to the write of the status. *)
Definition establish_enter (perspective : Z) (conn : nat) (x : cell) : option cell :=
  match x with
  | (c, Free) =>
      Some (if bool_decide (c_status c = StatusAlive) then (c, Free)
            else (mkConnection (c_host c) (c_peer c) (Some conn) StatusAlive perspective (c_resolver c) (openers c), Established))
  | _ => None
  end.

(** The rest of the section: the counter, and the goroutine that sends on [openNotify]. *)
Definition establish_leave (x : cell) (active : Z) : option (cell * Z) :=
  match x with
  | (c, Established) =>
      Some (mkConnection (c_host c) (c_peer c) (c_conn c) (c_status c) (c_perspective c) (c_resolver c) (S (openers c)), Free,
            i64 (active + 1))
  | _ => None
  end.

(** [Connection.Close] from [Lock] to the write of the status. *)
Definition close_enter (x : cell) : option cell :=
  match x with
  | (c, Free) => Some (if bool_decide (c_status c = StatusDead) then (c, Free) else (set_status StatusDead c, Closing))
  | _ => None
  end.

(** [closeConn] returned, or was not called. *)
Definition close_reset (x : cell) : option cell :=
  match x with
  | (c, Closing) =>
      Some (mkConnection (c_host c) (c_peer c) (c_conn c) (c_status c) Unknown (Perspective.Reset (c_resolver c)) (openers c),
            Resetting)
  | _ => None
  end.

Definition close_leave (x : cell) (active : Z) : option (cell * Z) :=
  match x with
  | (c, Resetting) => Some (c, Free, i64 (active - 1))
  | _ => None
  end.

(** Uninterrupted, the parts make up the sections. *)
Lemma establish_whole perspective conn c active :
  match establish_enter perspective conn (c, Free) with
  | Some (c', Free) => establish_commit perspective conn c active = (c', active, Err (ErrConn connErrAlreadyEstablished))
  | Some x => exists y, establish_leave x active = Some (y, Free, (establish_commit perspective conn c active).1.2) /\
                establish_commit perspective conn c active = (y, i64 (active + 1), Ok tt)
  | None => False
  end.
Proof. simpl. unfold establish_commit. case_bool_decide; [done|]. simpl. eauto. Qed.

Lemma close_whole err ctx_err remote c active :
  let '(c', active', _, _) := Connection.Close err ctx_err remote c active in
  match close_enter (c, Free) with
  | Some (c0, Free) => (c', active') = (c0, active)
  | Some x => (close_reset x ≫= fun y => close_leave y active) = Some (c', Free, active')
  | None => False
  end.
Proof.
  unfold Connection.Close. simpl. case_bool_decide; [done|].
  destruct c as [h p cn st pe re op]; simpl. destruct ctx_err, cn; try done. by destruct remote, err.
Qed.

(** ** The pool *)

Record cells := mkCells { conns : gmap string cell; counter : Z }.

Definition put (name : string) (x : cell) (active : Z) (s : cells) : cells := mkCells (<[name := x]> (conns s)) active.

Definition cells_init (host : string) (peers : list string) : cells :=
  mkCells ((fun c => (c, Free)) <$> pool (NewPool host peers)) 0.

(** The parts in any interleaving; the resolution and [WaitForOpen] take no mutex. *)
Inductive cells_step (s : cells) : cells -> Prop :=
| cs_establish_enter name x x' perspective conn :
    conns s !! name = Some x -> establish_enter perspective conn x = Some x' ->
    cells_step s (put name x' (counter s) s)
| cs_establish_leave name x x' active' :
    conns s !! name = Some x -> establish_leave x (counter s) = Some (x', active') ->
    cells_step s (put name x' active' s)
| cs_close_enter name x x' :
    conns s !! name = Some x -> close_enter x = Some x' -> cells_step s (put name x' (counter s) s)
| cs_close_reset name x x' :
    conns s !! name = Some x -> close_reset x = Some x' -> cells_step s (put name x' (counter s) s)
| cs_close_leave name x x' active' :
    conns s !! name = Some x -> close_leave x (counter s) = Some (x', active') ->
    cells_step s (put name x' active' s)
| cs_resolve name c m perspective sent rcv :
    conns s !! name = Some (c, m) ->
    cells_step s (put name ((establish_resolve perspective sent rcv c).1, m) (counter s) s)
| cs_open name c m ctx_done c' res :
    conns s !! name = Some (c, m) -> WaitForOpen ctx_done c = Some (c', res) ->
    cells_step s (put name (c', m) (counter s) s).

(** What [Broadcast] sees. *)
Definition seen (host : string) (peers : list string) (s : cells) : Pool :=
  mkPool host (list_to_set peers) (fst <$> conns s) (counter s).

(** ** What the counter counts *)

(** A connection counts from the [Add(1)] of [Establish] to the [Add(-1)] of [Close]. *)
Definition counted (x : cell) : bool :=
  match x with
  | (c, Free) => is_alive c
  | (_, Established) => false
  | (_, Closing) | (_, Resetting) => true
  end.

Definition tally (P : cell -> bool) (m : gmap string cell) : nat := map_sum (fun x => if P x then 1 else 0) m.

Lemma tally_bound P m : tally P m <= size m.
Proof.
  unfold tally. induction m as [|k a m Hk IH] using map_ind; [done|].
  rewrite map_sum_insert_new, map_size_insert_None by done. destruct (P a); lia.
Qed.

Lemma tally_ext P Q m : (forall k a, m !! k = Some a -> P a = Q a) -> tally P m = tally Q m.
Proof.
  unfold tally. induction m as [|k a m Hk IH] using map_ind; [done|]. intros Hall.
  rewrite !map_sum_insert_new, (Hall k a) by (done || apply lookup_insert_eq). f_equal. apply IH.
  intros k' a' Hk'. apply (Hall k'). rewrite lookup_insert_ne; [done|congruence].
Qed.

Lemma tally_full P m : tally P m = size m <-> forall k a, m !! k = Some a -> P a = true.
Proof.
  unfold tally. induction m as [|k a m Hk IH] using map_ind; [done|].
  pose proof (tally_bound P m). unfold tally in *. rewrite map_sum_insert_new, map_size_insert_None by done.
  split.
  - intros E k' a'. destruct (P a) eqn:Ha; [|lia]. intros [[<- <-]|[_ Hk']]%lookup_insert_Some; [done|].
    by eapply IH; [lia|].
  - intros Hall. rewrite (Hall k a) by apply lookup_insert_eq. f_equal. apply IH. intros k' a' Hk'. apply (Hall k').
    rewrite lookup_insert_ne; [done|congruence].
Qed.

(** The status that goes with the state of the mutex; the third status is never set. *)
Definition status_ok (x : cell) : Prop :=
  match x.2 with
  | Free => c_status x.1 = StatusDead \/ c_status x.1 = StatusAlive
  | Established => c_status x.1 = StatusAlive
  | Closing | Resetting => c_status x.1 = StatusDead
  end.

Record cells_inv (s : cells) : Prop := {
  cv_counter : counter s = Z.of_nat (tally counted (conns s));
  cv_status name c m : conns s !! name = Some (c, m) -> status_ok (c, m);
}.

(** A part keeps the account if the counter moves with what it counts. *)
Lemma put_inv s name x x' active' :
  cells_inv s -> conns s !! name = Some x -> status_ok x' ->
  active' = (counter s + (if counted x' then 1 else 0) - (if counted x then 1 else 0))%Z ->
  cells_inv (put name x' active' s).
Proof.
  intros [Hc Hs] Hx Hst ->. split; simpl.
  - pose proof (map_sum_update (fun x => if counted x then 1 else 0) (conns s) name x x' Hx) as H.
    unfold tally in *. rewrite Hc. destruct (counted x), (counted x'); lia.
  - intros name' c m [[<- ->]|[_ ?]]%lookup_insert_Some; [exact Hst|by eapply Hs].
Qed.

Lemma counter_small s z :
  cells_inv s -> (Z.of_nat (size (conns s)) < 2 ^ 62)%Z -> (-1 <= z <= 1)%Z -> i64 (counter s + z) = (counter s + z)%Z.
Proof. intros [-> _] Hsz Hz. pose proof (tally_bound counted (conns s)). apply wrapS_small; lia. Qed.

Lemma cells_step_inv s s' :
  cells_inv s -> (Z.of_nat (size (conns s)) < 2 ^ 62)%Z -> cells_step s s' ->
  cells_inv s' /\ size (conns s') = size (conns s).
Proof.
  intros I Hsz Hstep. split.
  - destruct Hstep as [name [c m] x' persp conn Hc E|name [c m] x' a' Hc E|name [c m] x' Hc E|name [c m] x' Hc E
      |name [c m] x' a' Hc E|name c m persp sent rcv Hc|name c m cd c' res Hc E];
      pose proof (cv_status _ I _ _ _ Hc) as Hst; unfold status_ok in Hst; simpl in Hst.
    + destruct m; simplify_eq/=. case_bool_decide as Ha; (eapply put_inv; [done|done|by unfold status_ok; auto|]); simpl; unfold is_alive;
        rewrite ?bool_decide_eq_false_2 by done; lia.
    + destruct m; simplify_eq/=. rewrite (counter_small s 1) by (done || lia). eapply put_inv; [done|done|by right|]. simpl. unfold is_alive. simpl.
      rewrite bool_decide_eq_true_2 by done. lia.
    + destruct m; simplify_eq/=. case_bool_decide as Hd; (eapply put_inv; [done|done|by unfold status_ok; auto|]); simpl; unfold is_alive; [lia|].
      rewrite bool_decide_eq_true_2 by tauto. lia.
    + destruct m; simplify_eq/=. eapply put_inv; [done|done|done|]. simpl. lia.
    + destruct m; simplify_eq/=. replace (counter s - 1)%Z with (counter s + -1)%Z by lia. rewrite (counter_small s (-1)) by (done || lia).
      eapply put_inv; [done|done|by left|]. simpl. unfold is_alive. rewrite bool_decide_eq_false_2 by (by rewrite Hst). lia.
    + unfold establish_resolve. destruct (Resolve _ _ _ _ _) as [r res]. simpl.
      eapply put_inv; [done|done|by destruct m|]. by destruct m; simpl; unfold is_alive; simpl; lia.
    + assert (c_status c' = c_status c) as Hs by (unfold WaitForOpen in E; by repeat case_match; simplify_eq).
      eapply put_inv; [done|done|by unfold status_ok; simpl; rewrite Hs; destruct m|].
      destruct m; simpl; unfold is_alive; rewrite ?Hs; lia.
  - destruct Hstep; simpl; rewrite map_size_insert; by match goal with H : conns s !! _ = Some _ |- _ => rewrite H end.
Qed.

Lemma cells_init_inv host peers : cells_inv (cells_init host peers).
Proof.
  assert (forall name x, conns (cells_init host peers) !! name = Some x -> x.2 = Free /\ c_status x.1 = StatusDead) as Hd.
  { intros name x Hx. simpl in Hx. rewrite lookup_fmap in Hx. apply fmap_Some in Hx as (c & Hc & ->). split; [done|].
    apply elem_of_list_to_map_2 in Hc. by apply list_elem_of_fmap in Hc as (p & [= -> ->] & _). }
  split.
  - destruct (decide (tally counted (conns (cells_init host peers)) = 0)) as [E|Hne]; [by rewrite E|].
    apply map_sum_witness in Hne as (name & [c m] & Hx & Hf). destruct (Hd _ _ Hx) as [Hm Hs]. simpl in Hm, Hs. subst m.
    simpl in Hf. unfold is_alive in Hf. by rewrite Hs in Hf.
  - intros name c m Hx. destruct (Hd _ _ Hx) as [Hm Hs]. simpl in Hm, Hs. subst m. by left.
Qed.

Lemma reachable_cells_inv host peers s :
  NoDup peers -> (Z.of_nat (length peers) < 2 ^ 62)%Z -> steps cells_step (cells_init host peers) s ->
  cells_inv s /\ size (conns s) = length peers.
Proof.
  intros Hnd Hb. apply (steps_invariant cells_step (fun s => cells_inv s /\ size (conns s) = length peers)).
  - split; [apply cells_init_inv|]. simpl. rewrite map_size_fmap. apply (NewPool_size host peers Hnd).
  - intros a b [I Hs] Hab. rewrite <- Hs. apply cells_step_inv; [done| |done]. by rewrite Hs.
Qed.

(** C18: the counter that [Broadcast] relies on, in every interleaving of the parts of
    handshakes, closes, errors and watchers. It is the number of connections between the
    [Add(1)] of their [Establish] and the [Add(-1)] of their [Close]: the live ones,
    less those whose [Establish] has not counted them yet, plus those whose [Close] has
    not finished. It is exact when no connection is inside one of these sections. So
    [Broadcast] reports that a peer is down exactly when some connection is dead, or about
    to be counted; one whose [Close] still closes the QUIC connection does not count as
    down. *)
Theorem active_connections_accounted host peers s send order :
  NoDup peers -> (Z.of_nat (length peers) < 2 ^ 62)%Z -> steps cells_step (cells_init host peers) s ->
  activeConnections (seen host peers s) = Z.of_nat (tally counted (conns s)) /\
  ((forall name x, conns s !! name = Some x -> x.2 = Free) ->
     activeConnections (seen host peers s) = Z.of_nat (tally (fun x => is_alive x.1) (conns s))) /\
  (Broadcast (seen host peers s) send order = Some ErrPeerIsDown <->
     exists name c m, conns s !! name = Some (c, m) /\
       (m = Free /\ c_status c = StatusDead \/ m = Established /\ c_status c = StatusAlive)).
Proof.
  intros Hnd Hb Hs. destruct (reachable_cells_inv _ _ _ Hnd Hb Hs) as [I _]. pose proof (cv_counter _ I) as Hc.
  split; [done|]. split.
  - intros Hfree. simpl. rewrite Hc. f_equal. apply tally_ext. intros name [c m] Hx.
    specialize (Hfree _ _ Hx). simpl in Hfree. by subst m.
  - unfold Broadcast. simpl. rewrite map_size_fmap, Hc.
    destruct (Z.eqb_spec (Z.of_nat (tally counted (conns s))) (Z.of_nat (size (conns s)))) as [E|E]; simpl.
    + split; [by intros ?%MultiErr_result_not_down|]. intros (name & c & m & Hx & Hm).
      apply Nat2Z.inj in E. rewrite tally_full in E. specialize (E _ _ Hx).
      destruct Hm as [[-> Hst]|[-> _]]; simpl in E; [|done]. unfold is_alive in E. by rewrite Hst in E.
    + split; [|done]. intros _.
      destruct (decide (map_Forall (fun _ x => counted x = true) (conns s))) as [Hall|Hno].
      { destruct E. f_equal. apply tally_full. exact Hall. }
      apply map_not_Forall in Hno as (name & [c m] & Hx & Hf); [|intros; apply _]. exists name, c, m. split; [done|].
      pose proof (cv_status _ I _ _ _ Hx) as Hst. unfold status_ok in Hst. simpl in Hst. destruct m; simpl in Hf; try done; [left|by right]. split; [done|].
      destruct Hst as [?|Ha]; [done|]. unfold is_alive in Hf. by rewrite Ha in Hf.
Qed.

(** ** A close that does not return *)

Definition pair_init : cells := cells_init "Aragorn" ["Gimli"].

(** Gimli's connection was established and is being closed; the QUIC library does not
    return. *)
Definition half_closed : cells :=
  put "Gimli" (mkConnection "Aragorn" "Gimli" (Some 1) StatusDead Client newPerspectiveResolver 1, Closing) 1 pair_init.

Lemma half_closed_reached : steps cells_step pair_init half_closed.
Proof.
  set (c := mkConnection "Aragorn" "Gimli" (Some 1) StatusAlive Client newPerspectiveResolver 0).
  apply (steps_snoc _ _ (put "Gimli" (mkConnection "Aragorn" "Gimli" (Some 1) StatusAlive Client newPerspectiveResolver 1, Free) 1 pair_init)).
  - apply (steps_snoc _ _ (put "Gimli" (c, Established) 0 pair_init)).
    + apply steps_one. apply (cs_establish_enter pair_init "Gimli" (NewConnection "Aragorn" "Gimli", Free) _ Client 1); reflexivity.
    + apply (cs_establish_leave (put "Gimli" (c, Established) 0 pair_init) "Gimli" (c, Established)); reflexivity.
  - exact (cs_close_enter (put "Gimli" (mkConnection "Aragorn" "Gimli" (Some 1) StatusAlive Client newPerspectiveResolver 1, Free) 1 pair_init)
      "Gimli" _ _ eq_refl eq_refl).
Qed.

Lemma active_connections_accounted_witness :
  activeConnections (seen "Aragorn" ["Gimli"] half_closed) = 1%Z /\
  tally (fun x => is_alive x.1) (conns half_closed) = 0 /\
  Broadcast (seen "Aragorn" ["Gimli"] half_closed) (fun _ => None) ["Gimli"] <> Some ErrPeerIsDown.
Proof.
  destruct (active_connections_accounted "Aragorn" ["Gimli"] half_closed (fun _ => None) ["Gimli"]) as (Hc & _ & Hd).
  - by apply (bool_decide_eq_true_1 (NoDup ["Gimli"])).
  - simpl. lia.
  - exact half_closed_reached.
  - split; [rewrite Hc; vm_compute; reflexivity|]. split; [vm_compute; reflexivity|].
    intros (name & c & m & Hx & Hm)%Hd. unfold half_closed, put, pair_init in Hx. cbn [conns] in Hx.
    apply lookup_insert_Some in Hx as [[_ [= <- <-]]|[Hne Hx]].
    + destruct Hm as [[? _]|[? _]]; discriminate.
    + simpl in Hx. rewrite lookup_fmap, lookup_insert_ne, lookup_empty in Hx by exact Hne. discriminate.
Defined.
