(* ===== verification/Config.v ===== *)
(** * Configuration ([config/config.go])

    The parts of the configuration that compute: the split of the peer list into the
    host and the others, the TLS version, the expansion of the home directory. Reading
    JSON and struct validation are library calls; the validation rules that the code
    relies on appear as hypotheses. *)

From S2P Require Import Prelude Errors Path.

Record Peer := mkPeer { peer_Name : string; Address : string }.

#[export] Instance Peer_eq_dec : EqDecision Peer.
Proof. solve_decision. Defined.

(** The index the loop of [Pop] leaves: the first match, or zero. *)
Fixpoint pop_index (name : string) (j : nat) (p : list Peer) : nat :=
  match p with
  | [] => 0
  | x :: p => if String.eqb (peer_Name x) name then j else pop_index name (S j) p
  end.

(** [Pop]: the popped peer, the re-sliced peers, and what the receiver's slice shows
    afterwards: [append] moves the tail down in the array both share. *)
Definition Pop (name : string) (p : list Peer) : outcome error (Peer * list Peer * list Peer) :=
  let i := pop_index name 0 p in
  match p !! i with
  | None => Panics "index out of range"
  | Some popped =>
      let sliced := take i p ++ drop (S i) p in
      Ok (popped, sliced, sliced ++ option_list (last p))
  end.

(** [tlsVersions] as a map with the zero value for a missing key. *)
Definition GetTLSVersion (version : string) : Z :=
  if String.eqb version "1.0" then 769
  else if String.eqb version "1.1" then 770
  else if String.eqb version "1.2" then 771
  else if String.eqb version "1.3" then 772
  else 0.

(** [usr] is the result of [user.Current]: the home directory. *)
Definition expandHome (usr : error + string) (p : string) : outcome error string :=
  match usr with
  | inl e => Err (ErrWrap e "failed to expand home")
  | inr home =>
      if String.eqb p "~" then Err (ErrNew "Mirroring home directory directly is not allowed!")
      else if String.prefix "~/" p then Ok (Path.Join home (String.substring 2 (String.length p - 2) p))
      else Ok p
  end.

(** ** Properties *)

Lemma pop_index_found name p j :
  name ∈ (peer_Name <$> p) ->
  exists l1 x l2, p = l1 ++ x :: l2 /\ peer_Name x = name /\ (forall y, y ∈ l1 -> peer_Name y <> name) /\
    pop_index name j p = j + length l1.
Proof.
  revert j. induction p as [|x p IH]; intros j Hin; [inversion Hin|]. simpl.
  destruct (String.eqb_spec (peer_Name x) name) as [He|Hne].
  - exists [], x, p. split; [done|]. split; [done|]. split; [intros y Hy; inversion Hy|simpl; lia].
  - rewrite fmap_cons in Hin. apply elem_of_cons in Hin as [->|Hin]; [done|].
    destruct (IH (S j) Hin) as (l1 & x' & l2 & -> & Hx & Hl & ->).
    exists (x :: l1), x', l2. split; [done|]. split; [done|]. split; [|simpl; lia].
    intros y [->|Hy]%elem_of_cons; [done|by apply Hl].
Qed.

Lemma pop_index_missing name p j : name ∉ (peer_Name <$> p) -> pop_index name j p = 0.
Proof.
  revert j. induction p as [|x p IH]; intros j Hin; [done|]. simpl. rewrite fmap_cons in Hin.
  destruct (String.eqb_spec (peer_Name x) name) as [<-|Hne]; [destruct Hin; left|].
  apply IH. intros H. apply Hin. by right.
Qed.

Lemma filter_keeps_all (P : Peer -> Prop) `{!forall x, Decision (P x)} (l : list Peer) :
  (forall x, x ∈ l -> P x) -> filter P l = l.
Proof.
  induction l as [|x l IH]; intros H0; [done|]. rewrite filter_cons_True by (apply H0; left).
  f_equal. apply IH. intros y Hy. apply H0. by right.
Qed.

Lemma Pop_split name p :
  NoDup (peer_Name <$> p) -> name ∈ (peer_Name <$> p) ->
  exists x z, Pop name p = Ok (x, filter (fun y => peer_Name y <> name) p,
      filter (fun y => peer_Name y <> name) p ++ [z]) /\
    peer_Name x = name /\ x ∈ p /\ last p = Some z.
Proof.
  intros Hnd Hin. destruct (pop_index_found name p 0 Hin) as (l1 & x & l2 & -> & Hx & Hl & Hi).
  rewrite fmap_app in Hnd. apply NoDup_app in Hnd as (_ & _ & Hnd2). rewrite fmap_cons in Hnd2.
  apply NoDup_cons in Hnd2 as [Hx2 _].
  assert (filter (fun y => peer_Name y <> name) (l1 ++ x :: l2) = l1 ++ l2) as Hf.
  { rewrite filter_app, filter_cons_False by (rewrite Hx; tauto).
    f_equal; apply filter_keeps_all; [done|]. intros y Hy Hn. apply Hx2. rewrite Hx, <- Hn.
    by apply list_elem_of_fmap_2. }
  destruct (last (l1 ++ x :: l2)) as [z|] eqn:Hz; [|apply last_None in Hz; by destruct l1].
  exists x, z. split; [|split; [done|split; [apply elem_of_app; right; left|done]]].
  unfold Pop. rewrite Hi. simpl. rewrite list_lookup_middle by done.
  rewrite take_app_length, Hz, Hf. simpl.
  replace (S (length l1)) with (length (l1 ++ [x])) by (rewrite length_app; simpl; lia).
  rewrite (cons_middle x l1 l2), app_assoc, drop_app_length. done.
Qed.

(** for a name that is in the list (names are unique), [Pop] returns that peer and
    exactly the others, in order; the receiver, however, is changed: its last entry now
    appears twice and the popped one is gone. *)
Theorem Pop_splits_the_peers name p :
  NoDup (peer_Name <$> p) -> name ∈ (peer_Name <$> p) ->
  exists x z, Pop name p = Ok (x, filter (fun y => peer_Name y <> name) p,
      filter (fun y => peer_Name y <> name) p ++ [z]) /\
    peer_Name x = name /\ x ∈ p /\ last p = Some z.
Proof. apply Pop_split. Qed.

(** an unknown name is not noticed: [Pop] returns the first peer of the list, so
    the check for an empty name that follows it never fires on a valid configuration. *)
Theorem Pop_of_unknown_name_takes_the_first name x p :
  name ∉ (peer_Name <$> x :: p) -> exists receiver, Pop name (x :: p) = Ok (x, p, receiver).
Proof. intros Hn. unfold Pop. rewrite pop_index_missing by done. simpl. eauto. Qed.

Definition company : list Peer :=
  [mkPeer "Aragorn" "localhost:9001"; mkPeer "Legolas" "localhost:9002"; mkPeer "Gimli" "localhost:9005"].

Lemma Pop_splits_the_peers_witness :
  exists x z, Pop "Legolas" company =
      Ok (x, [mkPeer "Aragorn" "localhost:9001"; mkPeer "Gimli" "localhost:9005"],
          [mkPeer "Aragorn" "localhost:9001"; mkPeer "Gimli" "localhost:9005"; z]) /\
    peer_Name x = "Legolas" /\ x ∈ company /\ last company = Some z.
Proof.
  apply (Pop_splits_the_peers "Legolas" company).
  - by apply (bool_decide_eq_true_1 (NoDup (peer_Name <$> company))).
  - by apply (bool_decide_eq_true_1 ("Legolas" ∈ (peer_Name <$> company))).
Defined.

Lemma Pop_of_unknown_name_takes_the_first_witness :
  exists receiver, Pop "Frodo" company =
    Ok (mkPeer "Aragorn" "localhost:9001", [mkPeer "Legolas" "localhost:9002"; mkPeer "Gimli" "localhost:9005"], receiver).
Proof.
  apply (Pop_of_unknown_name_takes_the_first "Frodo").
  by apply (bool_decide_eq_true_1 ("Frodo" ∉ (peer_Name <$> company))).
Defined.
