(* ===== verification/PoolRun.v ===== *)
(** * The goroutines of the pool ([connection/pool.go], [connection/connection.go])

    What [Pool.Run] starts: the accept loop with one goroutine per accepted
    connection, one dial loop and one [Connection.Listen] per peer, one
    [watchConnection] per established connection; and [Pool.Close], which runs beside
    them. Each goroutine is a program counter. An event moves one of them from one
    access to shared state to the next and carries what its environment answers: a
    connection, an error, the bytes of a handshake. *)

From S2P Require Import Prelude Errors Host Perspective Framing Backoff Connection Pool.

(** A QUIC connection: a number, and the common names of the peer's certificates. *)
Record qconn := mkQconn { q_id : nat; q_certs : list string }.

(** [add]: lookup and fast path of [Establish], the resolution, the locked section, the
    closing of a connection that was not established. *)
Inductive add_pc :=
| AddLookup
| AddResolve (peer : string)
| AddCommit (peer : string)
| AddClose (err : error)
| AddReturned (res : option error).

(** [acceptConnections]. *)
Inductive accept_pc :=
| AccWait
| AccGot (r : error + qconn)
| AccEntered (r : error + qconn)
| AccRefused (r : error + qconn)
| AccFailed
| AccReturned.

(** [dial], with [dialOnce] from [DEnter] to [DLeave]. *)
Inductive dial_pc :=
| DLoop
| DTick
| DEnter
| DCheck
| DRefused
| DDial
| DAdd (q : qconn) (pc : add_pc)
| DLeave (res : option error)
| DResult (res : option error)
| DReturned.

(** [Connection.Listen]. *)
Inductive read_pc :=
| RLoop
| RWaitOpen
| RRecv
| RBlocked
| RSink (m : conn_message)
| RReturned.

(** [Pool.Close]. *)
Inductive close_pc :=
| PIdle
| PStored
| PWait
| PListener
| PConns (todo : list string) (errs : MultiErr)
| PDone (res : option error).

(** Who holds a QUIC connection: a history variable. *)
Inductive holder := HAcceptor | HServer | HDialer (name : string) | HUsed.

Record sys := mkSys {
  base : Pool;
  handlers_count : Z;                      (** [activeConnectionHandlers] *)
  closed : bool;
  cancelled : bool;                        (** the context of [Run] *)
  acceptor : accept_pc;
  servers : gmap nat (qconn * add_pc);
  dialers : gmap string (Backoff * dial_pc);
  readers : gmap string read_pc;
  watchers : gmap nat string;
  gone : gset nat;                         (** connections whose context has ended *)
  msgs : list conn_message;
  capacity : nat;                          (** [MessageBufferSize] *)
  pcloser : close_pc;
  owner : gmap nat holder;
  panicked : option string;
}.

(** What [NewPool] and [Pool.Run] leave once the listener is there: every goroutine that
    [Run], [listen] and [dialAll] start is at its beginning. *)
Definition Run (host : string) (peers : list string) (b : Backoff) (buffer : nat) : sys :=
  mkSys (NewPool host peers) 0 false false AccWait ∅
    (list_to_map ((fun p => (p, (b, DLoop))) <$> peers))
    (list_to_map ((fun p => (p, RLoop)) <$> peers)) ∅ ∅ [] buffer PIdle ∅ None.

(** [Pool.Run] with the result of [quic.ListenAddr]: without a listener the process ends. *)
Definition Pool_Run (listen : option error) (host : string) (peers : list string) (b : Backoff) (buffer : nat) :
    outcome Empty_set sys :=
  match listen with
  | Some _ => Panics "failed to create QUIC listener"
  | None => Ok (Run host peers b buffer)
  end.

Definition set_base p s := mkSys p (handlers_count s) (closed s) (cancelled s) (acceptor s) (servers s)
  (dialers s) (readers s) (watchers s) (gone s) (msgs s) (capacity s) (pcloser s) (owner s) (panicked s).
Definition set_count z s := mkSys (base s) z (closed s) (cancelled s) (acceptor s) (servers s)
  (dialers s) (readers s) (watchers s) (gone s) (msgs s) (capacity s) (pcloser s) (owner s) (panicked s).
Definition set_flags cl ca s := mkSys (base s) (handlers_count s) cl ca (acceptor s) (servers s)
  (dialers s) (readers s) (watchers s) (gone s) (msgs s) (capacity s) (pcloser s) (owner s) (panicked s).
Definition set_acceptor a s := mkSys (base s) (handlers_count s) (closed s) (cancelled s) a (servers s)
  (dialers s) (readers s) (watchers s) (gone s) (msgs s) (capacity s) (pcloser s) (owner s) (panicked s).
Definition set_servers m s := mkSys (base s) (handlers_count s) (closed s) (cancelled s) (acceptor s) m
  (dialers s) (readers s) (watchers s) (gone s) (msgs s) (capacity s) (pcloser s) (owner s) (panicked s).
Definition set_dialer name b pc s := mkSys (base s) (handlers_count s) (closed s) (cancelled s) (acceptor s) (servers s)
  (<[name := (b, pc)]> (dialers s)) (readers s) (watchers s) (gone s) (msgs s) (capacity s) (pcloser s) (owner s) (panicked s).
Definition set_reader name pc s := mkSys (base s) (handlers_count s) (closed s) (cancelled s) (acceptor s) (servers s)
  (dialers s) (<[name := pc]> (readers s)) (watchers s) (gone s) (msgs s) (capacity s) (pcloser s) (owner s) (panicked s).
Definition set_watchers m s := mkSys (base s) (handlers_count s) (closed s) (cancelled s) (acceptor s) (servers s)
  (dialers s) (readers s) m (gone s) (msgs s) (capacity s) (pcloser s) (owner s) (panicked s).
Definition set_gone g s := mkSys (base s) (handlers_count s) (closed s) (cancelled s) (acceptor s) (servers s)
  (dialers s) (readers s) (watchers s) g (msgs s) (capacity s) (pcloser s) (owner s) (panicked s).
Definition set_msgs l s := mkSys (base s) (handlers_count s) (closed s) (cancelled s) (acceptor s) (servers s)
  (dialers s) (readers s) (watchers s) (gone s) l (capacity s) (pcloser s) (owner s) (panicked s).
Definition set_closer pc s := mkSys (base s) (handlers_count s) (closed s) (cancelled s) (acceptor s) (servers s)
  (dialers s) (readers s) (watchers s) (gone s) (msgs s) (capacity s) pc (owner s) (panicked s).
Definition set_owner id h s := mkSys (base s) (handlers_count s) (closed s) (cancelled s) (acceptor s) (servers s)
  (dialers s) (readers s) (watchers s) (gone s) (msgs s) (capacity s) (pcloser s) (<[id := h]> (owner s)) (panicked s).
Definition panic w s := mkSys (base s) (handlers_count s) (closed s) (cancelled s) (acceptor s) (servers s)
  (dialers s) (readers s) (watchers s) (gone s) (msgs s) (capacity s) (pcloser s) (owner s) (Some w).

Definition set_conn name c active s := set_base (set_connection name c active (base s)) s.

(** [c.conn.Context().Err()] of the current QUIC connection. *)
Definition ctx_err (s : sys) (c : Connection) : option error :=
  match c_conn c with
  | Some id => if decide (id ∈ gone s) then Some context_Canceled else None
  | None => None
  end.

(** The TLS handshake of a connection that [Accept] or the dial returns ran
    [VerifyConnection]; no two QUIC connections are the same. *)
Definition arrives (q : qconn) (s : sys) : bool :=
  is_ok (VerifyConnection (base s) (q_certs q)) && bool_decide (owner s !! q_id q = None).

(** ** [add] *)

Record handshake := mkHandshake {
  hs_sent : option error;
  hs_rcv : outcome error (list byte);
  hs_remote : string * option error;
}.

(** One part of [add] with what it is given meanwhile: the results of sending and receiving
    the resolvents and of closing. Nothing says that they come: the read of the size header
    of a resolvent heeds no context, and a goroutine in [AddResolve] may stay there. *)
Definition add_step (perspective : Z) (q : qconn) (pc : add_pc) (h : handshake) (s : sys) :
    option (sys * add_pc) :=
  match pc with
  | AddLookup =>
      Some match add_lookup (base s) (q_certs q) with
           | Ok c => match establish_fast c with
                     | Some e => (s, AddClose e)
                     | None => (s, AddResolve (c_peer c))
                     end
           | Err e => (s, AddClose e)
           | Panics w => (panic w s, pc)
           end
  | AddResolve name =>
      c ← pool (base s) !! name;
      let '(c', res) := establish_resolve perspective (hs_sent h) (hs_rcv h) c in
      let s' := set_conn name c' (activeConnections (base s)) s in
      Some match res with
           | Ok _ => (s', AddCommit name)
           | Err e => (s', AddClose e)
           | Panics w => (panic w s', pc)
           end
  | AddCommit name =>
      c ← pool (base s) !! name;
      let '(c', active, res) := establish_commit perspective (q_id q) c (activeConnections (base s)) in
      Some match res with
           | Ok _ =>
               (set_watchers (<[q_id q := name]> (watchers s)) (set_owner (q_id q) HUsed (set_conn name c' active s)),
                AddReturned None)
           | Err e => (s, AddClose e)
           | Panics w => (panic w s, pc)
           end
  | AddClose err =>
      Some match (closeConn (Some (hs_remote h)) (Some err)).2 with
           | Panics w => (panic w s, pc)
           | _ => (set_owner (q_id q) HUsed s, AddReturned (Some (ErrWrap err "failed to establish connection")))
           end
  | AddReturned _ => None
  end.

(** ** [acceptConnections] and its goroutines *)

Definition accept_return (r : error + qconn) (s : sys) : option sys :=
  match acceptor s, r with
  | AccWait, inl e => Some (set_acceptor (AccGot (inl e)) s)
  | AccWait, inr q =>
      if arrives q s then Some (set_acceptor (AccGot (inr q)) (set_owner (q_id q) HAcceptor s)) else None
  | _, _ => None
  end.

(** [addConnectionHandler] and what follows from it. *)
Definition accept_move (s : sys) : option sys :=
  match acceptor s with
  | AccGot r => Some (set_acceptor (AccEntered r) (set_count (i64 (handlers_count s + 1)) s))
  | AccEntered r =>
      if closed s then Some (set_acceptor (AccRefused r) s)
      else match r with
           | inl _ => Some (set_acceptor AccFailed s)
           | inr q => Some (set_acceptor AccWait (set_owner (q_id q) HServer
                        (set_servers (<[q_id q := (q, AddLookup)]> (servers s)) s)))
           end
  | AccRefused r =>
      let s' := set_acceptor AccReturned (set_count (i64 (handlers_count s - 1)) s) in
      Some match r with inr q => set_owner (q_id q) HUsed s' | inl _ => s' end
  | AccFailed => Some (set_acceptor AccWait (set_count (i64 (handlers_count s - 1)) s))
  | AccWait | AccReturned => None
  end.

Definition serve (id : nat) (h : handshake) (s : sys) : option sys :=
  match servers s !! id with
  | Some (q, AddReturned _) =>
      Some (set_servers (delete id (servers s)) (set_count (i64 (handlers_count s - 1)) s))
  | Some (q, pc) =>
      '(s', pc') ← add_step Server q pc h s;
      Some (set_servers (<[id := (q, pc')]> (servers s')) s')
  | None => None
  end.

(** ** [dial] *)

(** [r] is what the dial returns, [h] the handshake, [z] the random number of the
    back-off. The ticks that find the connection alive change nothing. *)
Definition dial (name : string) (r : error + qconn) (h : handshake) (z : Z) (s : sys) : option sys :=
  '(b, pc) ← dialers s !! name;
  c ← pool (base s) !! name;
  match pc with
  | DLoop => Some (set_dialer name b (if bool_decide (c_status c = StatusAlive) then DTick else DEnter) s)
  | DTick => if bool_decide (c_status c = StatusDead) then Some (set_dialer name b DEnter s) else None
  | DEnter => Some (set_dialer name b DCheck (set_count (i64 (handlers_count s + 1)) s))
  | DCheck => Some (set_dialer name b (if closed s then DRefused else DDial) s)
  | DRefused => Some (set_dialer name b (DResult (Some errPoolClosed)) (set_count (i64 (handlers_count s - 1)) s))
  | DDial =>
      match r with
      | inl e => Some (set_dialer name b (DLeave (Some e)) s)
      | inr q =>
          if arrives q s then Some (set_dialer name b (DAdd q AddLookup) (set_owner (q_id q) (HDialer name) s)) else None
      end
  | DAdd q (AddReturned res) => Some (set_dialer name b (DLeave res) s)
  | DAdd q pc =>
      '(s', pc') ← add_step Client q pc h s;
      Some (set_dialer name b (DAdd q pc') s')
  | DLeave res => Some (set_dialer name b (DResult res) (set_count (i64 (handlers_count s - 1)) s))
  | DResult None => b' ← Backoff.Reset b; Some (set_dialer name b' DLoop s)
  | DResult (Some errPoolClosed) => Some (set_dialer name b DReturned s)
  | DResult (Some _) =>
      match Next b z with
      | Some (Ok (b', _)) => Some (set_dialer name b' DLoop s)
      | Some (Err e) => match e with end
      | Some (Panics w) => Some (panic w s)
      | None => None
      end
  | DReturned => None
  end.

(** ** [Connection.Listen] and [watchConnection] *)

(** [done] is the case of the [select] in [WaitForOpen], [r] the result of [recv]. *)
Definition Listen (name : string) (done : bool) (r : outcome error (list byte))
    (remote : string * option error) (s : sys) : option sys :=
  pc ← readers s !! name;
  c ← pool (base s) !! name;
  match pc with
  | RLoop => Some (set_reader name (if bool_decide (c_status c = StatusDead) then RWaitOpen else RRecv) s)
  | RWaitOpen =>
      if done && negb (cancelled s) then None
      else
        '(c', res) ← WaitForOpen done c;
        Some (set_reader name (if is_ok res then RRecv else RReturned)
                (set_conn name c' (activeConnections (base s)) s))
  | RRecv =>
      Some (set_reader name (if bool_decide (c_status c = StatusDead)
                             then RSink (conn_Err (ErrConn connErrClosed)) else RBlocked) s)
  | RBlocked =>
      let '(c', active, res) :=
        recv_result (match r with Ok data => data | _ => [] end) (match r with Err e => Some e | _ => None end)
          (ctx_err s c) remote c (activeConnections (base s)) in
      Some match r, res with
           | Panics w, _ => panic w s
           | _, Ok data => set_reader name (RSink (conn_Data data)) (set_conn name c' active s)
           | _, Err e => set_reader name (RSink (conn_Err e)) (set_conn name c' active s)
           | _, Panics w => panic w s
           end
  | RSink m =>
      if (length (msgs s) <? capacity s)%nat
      then Some (set_reader name RLoop (set_msgs (msgs s ++ [m]) s)) else None
  | RReturned => None
  end.

(** [Receive], and a receive on [ReceiveC]. *)
Definition Receive (s : sys) : option (sys * conn_message) :=
  match msgs s with
  | m :: l => Some (set_msgs l s, m)
  | [] => None
  end.

Definition watchConnection (id : nat) (remote : string * option error) (s : sys) : option sys :=
  name ← watchers s !! id;
  c ← pool (base s) !! name;
  if decide (id ∈ gone s) then
    let '(c', active, res, _) := Connection.Close (Some context_Canceled) (ctx_err s c) remote c (activeConnections (base s)) in
    let s' := set_watchers (delete id (watchers s)) (set_conn name c' active s) in
    Some match res with Panics w => panic w s' | _ => s' end
  else None.

(** A goroutine of [Broadcast] comes back from [send] with [err]. *)
Definition send_returns (name : string) (err : option error) (remote : string * option error) (s : sys) : option sys :=
  c ← pool (base s) !! name;
  let '(c', active, _) := handleErrors err (ctx_err s c) remote c (activeConnections (base s)) in
  Some (set_conn name c' active s).

(** ** [Pool.Close] *)

(** [lerr] is the result of closing the listener, [order] the iteration order of the
    map, [remote] belongs to the connection that is closed. *)
Definition Close (lerr : option error) (order : list string) (remote : string * option error) (s : sys) : option sys :=
  match pcloser s with
  | PIdle => Some (set_closer PStored (set_flags true (cancelled s) s))
  | PStored => Some (set_closer PWait (set_flags (closed s) true s))
  | PWait => if (handlers_count s =? 0)%Z then Some (set_closer PListener s) else None
  | PListener =>
      if bool_decide (order ≡ₚ (map_to_list (pool (base s))).*1) then
        let m := match lerr with
                 | Some e => MultiErr_Append "QUIC listener" (ErrWrap e "failed to close QUIC listener") MultiErr_new
                 | None => MultiErr_new
                 end in
        Some (set_closer (PConns order m) s)
      else None
  | PConns (name :: todo) m =>
      c ← pool (base s) !! name;
      let '(c', active, res, _) :=
        Connection.Close (Some (ErrConn connErrClosed)) (ctx_err s c) remote c (activeConnections (base s)) in
      let s' := set_conn name c' active s in
      Some match res with
           | Ok _ => set_closer (PConns todo m) s'
           | Err e => set_closer (PConns todo (MultiErr_Append name e m)) s'
           | Panics w => panic w s'
           end
  | PConns [] m => Some (set_closer (PDone (MultiErr_result m)) s)
  | PDone _ => None
  end.

(** ** Interleaving *)

Inductive pool_event :=
| EvAccept (r : error + qconn)
| EvAcceptMove
| EvServe (id : nat) (h : handshake)
| EvDial (name : string) (r : error + qconn) (h : handshake) (z : Z)
| EvListen (name : string) (done : bool) (r : outcome error (list byte)) (remote : string * option error)
| EvTake
| EvWatch (id : nat) (remote : string * option error)
| EvLost (id : nat)
| EvSend (name : string) (err : option error) (remote : string * option error)
| EvPoolClose (lerr : option error) (order : list string) (remote : string * option error).

Definition pool_exec (e : pool_event) (s : sys) : option sys :=
  match panicked s with
  | Some _ => None
  | None =>
      match e with
      | EvAccept r => accept_return r s
      | EvAcceptMove => accept_move s
      | EvServe id h => serve id h s
      | EvDial name r h z => dial name r h z s
      | EvListen name done r remote => Listen name done r remote s
      | EvTake => fst <$> Receive s
      | EvWatch id remote => watchConnection id remote s
      | EvLost id => Some (set_gone ({[id]} ∪ gone s) s)
      | EvSend name err remote => send_returns name err remote s
      | EvPoolClose lerr order remote => Close lerr order remote s
      end
  end.

Fixpoint pool_run (s : sys) (es : list pool_event) : option sys :=
  match es with
  | [] => Some s
  | e :: es => s' ← pool_exec e s; pool_run s' es
  end.
