(* ===== verification/PoolRunFacts.v ===== *)
(** * Facts about the goroutines of the pool

    [PoolRun] refines the two state machines of [Pool]: seen through its connections it
    makes the steps of [pool_step], seen through its counter of handlers those of
    [handlers_step]. So the live-connection counter is exact and no handshake is under
    way once [Close] has left its loop. On top of that: every live connection is
    watched, and [Close] terminates and leaves nothing behind. *)

From S2P Require Import Prelude Errors Host Perspective Framing Backoff Connection Pool PoolRun.

#[local] Arguments establish_resolve : simpl never.
#[local] Arguments establish_commit : simpl never.
#[local] Arguments Connection.Close : simpl never.
#[local] Arguments handleErrors : simpl never.
#[local] Arguments recv_result : simpl never.

(** ** The handler counter as [Pool] sees it *)

Definition acc_entering (a : accept_pc) : nat := match a with AccEntered _ => 1 | _ => 0 end.
Definition acc_refused (a : accept_pc) : nat := match a with AccRefused _ => 1 | _ => 0 end.
Definition acc_serving (a : accept_pc) : nat := match a with AccFailed => 1 | _ => 0 end.

Definition dial_entering (d : Backoff * dial_pc) : nat := match d.2 with DCheck => 1 | _ => 0 end.
Definition dial_refused (d : Backoff * dial_pc) : nat := match d.2 with DRefused => 1 | _ => 0 end.
Definition dial_serving (d : Backoff * dial_pc) : nat :=
  match d.2 with DDial | DAdd _ _ | DLeave _ => 1 | _ => 0 end.

Definition close_view (pc : close_pc) : closer_pc :=
  match pc with PIdle => CIdle | PStored | PWait => CWaiting | _ => CPast end.

Definition one {A} (_ : A) : nat := 1.

Definition view (s : sys) : handlers_state :=
  mkHandlers (handlers_count s) (closed s)
    (acc_entering (acceptor s) + map_sum dial_entering (dialers s))
    (acc_refused (acceptor s) + map_sum dial_refused (dialers s))
    (acc_serving (acceptor s) + map_sum one (servers s) + map_sum dial_serving (dialers s))
    (close_view (pcloser s)).

(** The goroutines at work are fewer than the counter can count. *)
Definition few (s : sys) : Prop :=
  (Z.of_nat (entering (view s) + refused (view s) + serving (view s)) < 2 ^ 62)%Z.

Definition sys_step (s s' : sys) : Prop := few s /\ exists e, pool_exec e s = Some s'.

(** Steps of [handlers_step], by the fields they change. *)
Lemma view_enter h h' :
  (Z.of_nat (entering h + refused h + serving h) < 2 ^ 62)%Z ->
  h_count h' = i64 (h_count h + 1) -> h_closed h' = h_closed h -> entering h' = S (entering h) ->
  refused h' = refused h -> serving h' = serving h -> closer h' = closer h -> steps handlers_step h h'.
Proof.
  destruct h, h'; simpl; intros; subst. apply steps_one. by apply (hs_enter (mkHandlers _ _ _ _ _ _)).
Qed.

Lemma view_check h h' :
  h_count h' = h_count h -> h_closed h' = h_closed h -> entering h = S (entering h') ->
  refused h' = refused h + (if h_closed h then 1 else 0) ->
  serving h' = serving h + (if h_closed h then 0 else 1) ->
  closer h' = closer h -> steps handlers_step h h'.
Proof.
  destruct h as [c cl en rf sv cr], h' as [c' cl' en' rf' sv' cr']; simpl; intros; subst.
  apply steps_one, (hs_check _ _ (if cl then Some errPoolClosed else None)).
  unfold addConnectionHandler. simpl. destruct cl; do 3 f_equal; lia.
Qed.

Lemma view_remove (b : bool) h h' :
  h_count h' = i64 (h_count h - 1) -> h_closed h' = h_closed h -> entering h' = entering h ->
  refused h = refused h' + (if b then 1 else 0) -> serving h = serving h' + (if b then 0 else 1) ->
  closer h' = closer h -> steps handlers_step h h'.
Proof.
  destruct h as [c cl en rf sv cr], h' as [c' cl' en' rf' sv' cr']; simpl; intros; subst.
  apply steps_one, (hs_remove _ b). unfold removeConnectionHandler. simpl.
  destruct b; rewrite Nat.add_1_r, Nat.add_0_r; done.
Qed.

Lemma view_same h h' :
  h_count h' = h_count h -> h_closed h' = h_closed h -> entering h' = entering h ->
  refused h' = refused h -> serving h' = serving h -> closer h' = closer h -> steps handlers_step h h'.
Proof. destruct h, h'; simpl; intros; subst. apply steps_refl. Qed.

(** Moving one dialler changes the three sums by its own contribution. *)
Lemma dialers_move s name d d' :
  dialers s !! name = Some d ->
  map_sum dial_entering (<[name := d']> (dialers s)) + dial_entering d = map_sum dial_entering (dialers s) + dial_entering d' /\
  map_sum dial_refused (<[name := d']> (dialers s)) + dial_refused d = map_sum dial_refused (dialers s) + dial_refused d' /\
  map_sum dial_serving (<[name := d']> (dialers s)) + dial_serving d = map_sum dial_serving (dialers s) + dial_serving d'.
Proof. intros H. repeat split; by apply map_sum_update. Qed.

(** ** What [add] touches *)

Record frame (s s' : sys) : Prop := {
  fr_count : handlers_count s' = handlers_count s;
  fr_closed : closed s' = closed s;
  fr_cancelled : cancelled s' = cancelled s;
  fr_acceptor : acceptor s' = acceptor s;
  fr_servers : servers s' = servers s;
  fr_dialers : dialers s' = dialers s;
  fr_readers : readers s' = readers s;
  fr_gone : gone s' = gone s;
  fr_closer : pcloser s' = pcloser s;
}.

Lemma add_step_frame persp q pc h s s' pc' : add_step persp q pc h s = Some (s', pc') -> frame s s'.
Proof.
  unfold add_step. intros E.
  destruct pc; simpl in E; opt_inv; repeat (case_match; simplify_eq/=); try done; by split.
Qed.

Lemma add_step_base persp q pc h s s' pc' :
  add_step persp q pc h s = Some (s', pc') -> steps pool_step (base s) (base s').
Proof.
  unfold add_step. intros E. destruct pc as [|name|name|err|res]; cbn beta iota in E.
  - repeat (case_match; simplify_eq/=); apply steps_refl.
  - apply bind_Some in E as (c & Hc & E).
    destruct (establish_resolve persp (hs_sent h) (hs_rcv h) c) as [c' res] eqn:ER.
    assert (base s' = set_connection name c' (activeConnections (base s)) (base s)) as ->
      by (repeat (case_match; simplify_eq/=); done).
    apply steps_one. pose proof (pool_resolve (base s) name c persp (hs_sent h) (hs_rcv h) Hc) as Hp.
    by rewrite ER in Hp.
  - apply bind_Some in E as (c & Hc & E).
    destruct (establish_commit persp (q_id q) c (activeConnections (base s))) as [[c' a] res] eqn:EC.
    repeat (case_match; simplify_eq/=); try apply steps_refl. apply steps_one. by eapply pool_commit.
  - repeat (case_match; simplify_eq/=); apply steps_refl.
  - done.
Qed.

(** ** Every live connection is watched *)

Record conn_inv (p : Pool) (w : gmap nat string) (o : gmap nat holder) : Prop := {
  ci_keys cn : cn ∈ whitelist p <-> is_Some (pool p !! cn);
  ci_peer name c : pool p !! name = Some c -> c_peer c = name;
  ci_alive name c : pool p !! name = Some c -> c_status c = StatusAlive ->
    exists id, c_conn c = Some id /\ w !! id = Some name;
  ci_watch id name : w !! id = Some name -> o !! id = Some HUsed;
}.

(** A change that does not revive the connection or replace its QUIC connection. *)
Definition tame (c c' : Connection) : Prop :=
  c_peer c' = c_peer c /\ (c_status c' = StatusAlive -> c_status c = StatusAlive /\ c_conn c' = c_conn c).

Lemma tame_resolve persp sent rcv c : tame c (establish_resolve persp sent rcv c).1.
Proof. unfold establish_resolve. by destruct (Resolve _ _ _ _ _). Qed.

Lemma tame_Close err ce rm c a c' a' res code :
  Connection.Close err ce rm c a = (c', a', res, code) -> tame c c'.
Proof. unfold Connection.Close. intros E. repeat (case_match; simplify_eq/=); by split. Qed.

Lemma Close_status err ce rm c a c' a' res code :
  c_status c = StatusDead \/ c_status c = StatusAlive ->
  Connection.Close err ce rm c a = (c', a', res, code) -> c_status c' = StatusDead.
Proof. unfold Connection.Close. intros Hc E. repeat (case_match; simplify_eq/=); case_bool_decide; simplify_eq; done. Qed.

Lemma tame_handleErrors err ce rm c a c' a' res :
  handleErrors err ce rm c a = (c', a', res) -> tame c c'.
Proof.
  unfold handleErrors. intros E. destruct (classify err) as [[e []]|]; simplify_eq; [|by split..].
  destruct (Connection.Close _ _ _ _ _) as [[[c1 a1] r1] k1] eqn:EC. simplify_eq. by eapply tame_Close.
Qed.

Lemma tame_recv data err ce rm c a c' a' res :
  recv_result data err ce rm c a = (c', a', res) -> tame c c'.
Proof.
  unfold recv_result. intros E. destruct (handleErrors _ _ _ _ _) as [[c1 a1] e1] eqn:EH.
  simplify_eq. by eapply tame_handleErrors.
Qed.

Lemma tame_open done c c' res : WaitForOpen done c = Some (c', res) -> tame c c'.
Proof. unfold WaitForOpen. intros E. repeat (case_match; simplify_eq/=); by split. Qed.

Lemma set_connection_lookup p name c a x cx :
  pool (set_connection name c a p) !! x = Some cx <->
  (name = x /\ c = cx) \/ (name <> x /\ pool p !! x = Some cx).
Proof. apply lookup_insert_Some. Qed.

Lemma set_connection_keys p w o name c c' a :
  conn_inv p w o -> pool p !! name = Some c ->
  forall cn, cn ∈ whitelist (set_connection name c' a p) <-> is_Some (pool (set_connection name c' a p) !! cn).
Proof.
  intros I Hc cn. simpl. rewrite (ci_keys _ _ _ I), lookup_insert_is_Some.
  split; [|intros [<-|[_ ?]]; [by eexists|done]]. intros Hx. destruct (decide (name = cn)); [by left|by right].
Qed.

Lemma conn_inv_tame p w o name c c' a :
  conn_inv p w o -> pool p !! name = Some c -> tame c c' -> conn_inv (set_connection name c' a p) w o.
Proof.
  intros I Hc [Hp Hs]. split.
  - by eapply set_connection_keys.
  - intros x cx [[<- <-]|[_ Hx]]%set_connection_lookup; [rewrite Hp|]; by apply (ci_peer _ _ _ I).
  - intros x cx [[<- <-]|[_ Hx]]%set_connection_lookup Ha; [|by apply (ci_alive _ _ _ I x)].
    destruct (Hs Ha) as [Ha0 ->]. by apply (ci_alive _ _ _ I).
  - apply I.
Qed.

Lemma conn_inv_commit p w o name c persp id a c' a' res :
  conn_inv p w o -> pool p !! name = Some c -> o !! id <> Some HUsed ->
  establish_commit persp id c a = (c', a', res) -> is_ok res = true ->
  conn_inv (set_connection name c' a' p) (<[id := name]> w) (<[id := HUsed]> o).
Proof.
  intros I Hc Ho E Hok. unfold establish_commit in E. case_bool_decide as Hd; simplify_eq. split.
  - by eapply set_connection_keys.
  - intros x cx [[<- <-]|[_ Hx]]%set_connection_lookup; simpl; by apply (ci_peer _ _ _ I).
  - intros x cx [[<- <-]|[Hne Hx]]%set_connection_lookup Ha.
    + exists id. by rewrite lookup_insert_eq.
    + destruct (ci_alive _ _ _ I x cx Hx Ha) as (i & Hi & Hw). exists i. split; [done|].
      rewrite lookup_insert_ne; [done|]. intros <-. by apply Ho, (ci_watch _ _ _ I) with x.
  - intros i x [[<- <-]|[Hne Hx]]%lookup_insert_Some; [by rewrite lookup_insert_eq|].
    rewrite lookup_insert_ne by done. by apply (ci_watch _ _ _ I) with x.
Qed.

Lemma conn_inv_unwatch p w o name c c' a id :
  conn_inv p w o -> pool p !! name = Some c -> tame c c' -> c_status c' = StatusDead ->
  w !! id = Some name -> conn_inv (set_connection name c' a p) (delete id w) o.
Proof.
  intros I Hc Ht Hd Hw. destruct (conn_inv_tame _ _ _ _ _ _ a I Hc Ht) as [Hk Hp Ha Hu]. split; [done|done| |].
  - intros x cx Hx Hal. destruct (Ha x cx Hx Hal) as (i & Hi & Hwi). exists i. split; [done|].
    rewrite lookup_delete_ne; [done|]. intros <-. simplify_eq.
    apply set_connection_lookup in Hx as [[_ <-]|[? _]]; congruence.
  - intros i x [_ Hx]%lookup_delete_Some. by apply (Hu i x).
Qed.

Lemma conn_inv_used p w o id : conn_inv p w o -> conn_inv p w (<[id := HUsed]> o).
Proof.
  intros [Hk Hp Ha Hu]. split; try done. intros i x Hx. destruct (decide (id = i)) as [<-|Hne].
  - by rewrite lookup_insert_eq.
  - rewrite lookup_insert_ne by done. by apply (Hu i x).
Qed.

Lemma conn_inv_fresh p w o id h : conn_inv p w o -> o !! id <> Some HUsed -> conn_inv p w (<[id := h]> o).
Proof.
  intros [Hk Hp Ha Hu] Ho. split; try done. intros i x Hx.
  rewrite lookup_insert_ne; [by apply (Hu i x)|]. intros <-. by apply Ho, (Hu id x).
Qed.

(** ** The invariant of the goroutines *)

Definition returned (pc : add_pc) : bool := match pc with AddReturned _ => true | _ => false end.

Definition verified (s : sys) (q : qconn) : Prop := exists cn, q_certs q = [cn] /\ cn ∈ whitelist (base s).

(** The connection [add] found is in the pool. *)
Definition add_ok (s : sys) (pc : add_pc) : Prop :=
  match pc with AddResolve n | AddCommit n => is_Some (pool (base s) !! n) | _ => True end.

Definition acc_conn (a : accept_pc) : option qconn :=
  match a with AccGot (inr q) | AccEntered (inr q) | AccRefused (inr q) => Some q | _ => None end.

(** A goroutine runs [add] on a QUIC connection. *)
Inductive adding (s : sys) : holder -> qconn -> add_pc -> Prop :=
| adding_server id q pc : servers s !! id = Some (q, pc) -> adding s HServer q pc
| adding_dialer name b q pc : dialers s !! name = Some (b, DAdd q pc) -> adding s (HDialer name) q pc.

Record sys_inv (s : sys) : Prop := {
  si_conn : conn_inv (base s) (watchers s) (owner s);
  si_acc q : acc_conn (acceptor s) = Some q -> owner s !! q_id q = Some HAcceptor /\ verified s q;
  si_serv id q pc : servers s !! id = Some (q, pc) -> q_id q = id;
  si_adding g q pc : adding s g q pc ->
    verified s q /\ add_ok s pc /\ owner s !! q_id q = Some (if returned pc then HUsed else g);
  si_dialer name d : dialers s !! name = Some d -> is_Some (pool (base s) !! name);
}.

(** The peers do not change. *)
Definition same_keys (p p' : Pool) : Prop :=
  whitelist p' = whitelist p /\ forall name, is_Some (pool p' !! name) <-> is_Some (pool p !! name).

Lemma steps_keys p p' : steps pool_step p p' -> same_keys p p'.
Proof.
  apply (steps_invariant pool_step (same_keys p)); [done|].
  intros a b [Hw Hk] [Hw' Hk']%pool_step_keys. split; [congruence|]. intros n. by rewrite Hk'.
Qed.

Lemma same_keys_set p name c c' a : pool p !! name = Some c -> same_keys p (set_connection name c' a p).
Proof.
  intros Hc. split; [done|]. intros x. simpl. rewrite lookup_insert_is_Some.
  split; [intros [<-|[_ ?]]; [by eexists|done]|]. intros Hx. destruct (decide (name = x)); [by left|by right].
Qed.

Lemma verified_keys s s' q : same_keys (base s) (base s') -> verified s q -> verified s' q.
Proof. intros [Hw _] (cn & H1 & H2). exists cn. by rewrite Hw. Qed.

Lemma add_ok_keys s s' pc : same_keys (base s) (base s') -> add_ok s pc -> add_ok s' pc.
Proof. intros [_ Hk]. destruct pc; simpl; try done; apply Hk. Qed.

(** A step that moves neither the acceptor, nor a goroutine in [add], nor a dialler. *)
Lemma sys_inv_transport s s' :
  sys_inv s -> conn_inv (base s') (watchers s') (owner s') -> same_keys (base s) (base s') ->
  acceptor s' = acceptor s -> servers s' = servers s -> dialers s' = dialers s -> owner s' = owner s -> sys_inv s'.
Proof.
  intros I Hc Hk Ha Hs Hd Ho. rewrite Ho in Hc. split; rewrite ?Ha, ?Hs, ?Hd, ?Ho; try done.
  - intros q Hq. destruct (si_acc _ I q Hq). split; [done|by eapply verified_keys].
  - apply I.
  - intros g q pc Had. assert (adding s g q pc) as Had0.
    { destruct Had as [id q pc H|name b q pc H]; [rewrite Hs in H|rewrite Hd in H]; by econstructor. }
    destruct (si_adding _ I g q pc Had0) as (H1 & H2 & H3).
    split; [by eapply verified_keys|]. split; [by eapply add_ok_keys|done].
  - intros name d H. apply Hk. by eapply (si_dialer _ I).
Qed.

Lemma sys_inv_dialer s name b pc :
  sys_inv s -> is_Some (pool (base s) !! name) ->
  (forall q apc, pc = DAdd q apc ->
     verified s q /\ add_ok s apc /\ owner s !! q_id q = Some (if returned apc then HUsed else HDialer name)) ->
  sys_inv (set_dialer name b pc s).
Proof.
  intros I Hp Hpc. split; simpl; try apply I.
  - intros g q apc Had. inversion Had as [id q0 pc0 H|name0 b0 q0 pc0 H]; subst; simpl in H.
    + apply (si_adding _ I HServer q apc). by econstructor.
    + apply lookup_insert_Some in H as [[<- [= <- ->]]|[Hne H]]; [by apply Hpc|].
      apply (si_adding _ I (HDialer name0) q apc). by econstructor.
  - intros x d [[<- _]|[_ H]]%lookup_insert_Some; [done|by eapply (si_dialer _ I)].
Qed.

(** The effect of one step of [add]. *)
Lemma add_step_inv persp q pc h s s' pc' g :
  conn_inv (base s) (watchers s) (owner s) -> add_ok s pc -> verified s q ->
  owner s !! q_id q = Some g -> g <> HUsed -> add_step persp q pc h s = Some (s', pc') ->
  conn_inv (base s') (watchers s') (owner s') /\ add_ok s' pc' /\
  owner s' = (if returned pc' then <[q_id q := HUsed]> (owner s) else owner s).
Proof.
  intros I Hok (cn & Hcn & Hin) Ho Hg E. pose proof (add_step_base _ _ _ _ _ _ _ E) as Hb%steps_keys.
  unfold add_step in E. destruct pc as [|name|name|err|res]; cbn beta iota in E.
  - unfold add_lookup in E. rewrite Hcn in E. apply (ci_keys _ _ _ I) in Hin as [c Hc]. rewrite Hc in E.
    pose proof (ci_peer _ _ _ I _ _ Hc) as Hpeer. destruct (establish_fast c); simplify_eq; simpl; [done|].
    split; [done|]. split; [by eexists|done].
  - apply bind_Some in E as (c & Hc & E). pose proof (tame_resolve persp (hs_sent h) (hs_rcv h) c) as Ht.
    destruct (establish_resolve persp (hs_sent h) (hs_rcv h) c) as [c' res].
    pose proof (conn_inv_tame _ _ _ _ _ _ (activeConnections (base s)) I Hc Ht) as I'.
    assert (is_Some (pool (set_connection name c' (activeConnections (base s)) (base s)) !! name)) as Hs
      by (simpl; rewrite lookup_insert_eq; by eexists).
    destruct res; simplify_eq; by split.
  - apply bind_Some in E as (c & Hc & E).
    destruct (establish_commit persp (q_id q) c (activeConnections (base s))) as [[c' a] res] eqn:EC.
    destruct res; simplify_eq; [|by split..]. split; [|by split].
    eapply (conn_inv_commit _ _ _ _ c); try done. simpl. rewrite Ho. congruence.
  - repeat (case_match; simplify_eq/=); (split; [try done; by apply conn_inv_used|by split]).
  - done.
Qed.

(** The goroutine [g] makes a step of [add] on [q]; the others hold other connections. *)
Lemma sys_inv_add persp q pc h s s1 s' pc' g :
  sys_inv s -> adding s g q pc -> returned pc = false -> add_step persp q pc h s = Some (s1, pc') ->
  base s' = base s1 -> watchers s' = watchers s1 -> owner s' = owner s1 -> acceptor s' = acceptor s ->
  (forall id q' apc, servers s' !! id = Some (q', apc) -> q_id q' = id) ->
  (forall name d, dialers s' !! name = Some d -> is_Some (dialers s !! name)) ->
  (forall g' q' apc, adding s' g' q' apc ->
     (g' = g /\ q' = q /\ apc = pc') \/ (adding s g' q' apc /\ q_id q' <> q_id q)) ->
  sys_inv s'.
Proof.
  intros I Had Hr E Hb Hw Ho Ha Hserv Hdial Hall. destruct (si_adding _ I _ _ _ Had) as (Hv & Hok & Hown).
  rewrite Hr in Hown. assert (g <> HUsed) as Hg by (by destruct Had).
  destruct (add_step_inv _ _ _ _ _ _ _ _ (si_conn _ I) Hok Hv Hown Hg E) as (Hc & Hok' & Ho').
  pose proof (add_step_base _ _ _ _ _ _ _ E) as Hk%steps_keys. rewrite <- Hb in Hk.
  assert (forall i, i <> q_id q -> owner s' !! i = owner s !! i) as Hother.
  { intros i Hi. rewrite Ho, Ho'. destruct (returned pc'); [by rewrite lookup_insert_ne|done]. }
  split.
  - by rewrite Hb, Hw, Ho.
  - intros q0 Hq0. rewrite Ha in Hq0. destruct (si_acc _ I q0 Hq0) as [H1 H2].
    split; [|by eapply verified_keys]. rewrite Hother; [done|]. intros Heq. rewrite Heq in H1.
    destruct Had; congruence.
  - done.
  - intros g' q' apc [(-> & -> & ->)|[Had' Hne]]%Hall.
    + split; [by eapply verified_keys|]. split; [destruct pc'; simpl in *; by rewrite ?Hb|]. rewrite Ho, Ho'.
      destruct (returned pc'); [by rewrite lookup_insert_eq|done].
    + destruct (si_adding _ I _ _ _ Had') as (H1 & H2 & H3). rewrite Hother by done.
      split; [by eapply verified_keys|]. split; [by eapply add_ok_keys|done].
  - intros name d Hd. destruct (Hdial _ _ Hd) as [d0 Hd0]. apply Hk. by eapply (si_dialer _ I).
Qed.

(** ** The invariant is preserved *)

Lemma owner_pending s g q pc :
  sys_inv s -> adding s g q pc -> returned pc = false -> owner s !! q_id q = Some g.
Proof. intros I Had Hr. destruct (si_adding _ I _ _ _ Had) as (_ & _ & H). by rewrite Hr in H. Qed.

Lemma accept_return_inv r s s' : sys_inv s -> accept_return r s = Some s' -> sys_inv s'.
Proof.
  intros I. unfold accept_return. destruct (acceptor s) eqn:Ha; try done. destruct r as [e|q].
  - intros [= <-]. split; simpl; try apply I; try done. destruct 1; eapply (si_adding _ I); by econstructor.
  - unfold arrives. destruct (_ && _) eqn:Har; [|done]. apply andb_true_iff in Har as [Hv Hf].
    apply bool_decide_eq_true in Hf. intros [= <-].
    assert (forall g q' pc, adding s g q' pc -> q_id q' <> q_id q) as Hne.
    { intros g q' pc Had Heq. destruct (si_adding _ I _ _ _ Had) as (_ & _ & Ho). congruence. }
    split; simpl.
    + apply conn_inv_fresh; [apply I|congruence].
    + intros q0 [= <-]. rewrite lookup_insert_eq. split; [done|]. unfold VerifyConnection in Hv.
      destruct (q_certs q) as [|cn [|? ?]] eqn:Hc; try done. case_bool_decide; [|done]. by exists cn.
    + apply I.
    + intros g q' pc Had. assert (adding s g q' pc) as Had0 by (destruct Had; by econstructor).
      destruct (si_adding _ I _ _ _ Had0) as (H1 & H2 & H3). rewrite lookup_insert_ne; [done|].
      symmetry. by eapply Hne.
    + apply I.
Qed.

Lemma accept_move_inv s s' : sys_inv s -> accept_move s = Some s' -> sys_inv s'.
Proof.
  intros I. unfold accept_move. pose proof (si_acc _ I) as HA.
  destruct (acceptor s) as [|r|r|r| |] eqn:Ha; try done; simpl in HA.
  - intros [= <-]. split; simpl; try apply I; [by destruct r|].
    destruct 1; eapply (si_adding _ I); by econstructor.
  - destruct (closed s); [|destruct r as [e|q]]; intros [= <-].
    + split; simpl; try apply I; [by destruct r|]. destruct 1; eapply (si_adding _ I); by econstructor.
    + split; simpl; try apply I; [done|]. destruct 1; eapply (si_adding _ I); by econstructor.
    + destruct (HA q eq_refl) as [Ho Hv]. split; simpl; try done.
      * apply conn_inv_fresh; [apply I|congruence].
      * intros id q' pc [[<- [= -> _]]|[_ H]]%lookup_insert_Some; [done|by eapply (si_serv _ I)].
      * intros g q' pc Had. inversion Had as [id q0 pc0 H|name b q0 pc0 H]; subst; simpl in H.
        -- apply lookup_insert_Some in H as [[<- [= -> <-]]|[Hne H]].
           { by rewrite lookup_insert_eq. }
           destruct (si_adding _ I HServer q' pc) as (H1 & H2 & H3); [by econstructor|].
           rewrite lookup_insert_ne by (by rewrite (si_serv _ I _ _ _ H)). done.
        -- assert (adding s (HDialer name) q' pc) as Had0 by (by econstructor).
           destruct (si_adding _ I _ _ _ Had0) as (H1 & H2 & H3). rewrite lookup_insert_ne; [done|].
           intros Heq. rewrite <- Heq, Ho in H3. by destruct (returned pc).
      * apply I.
  - intros [= <-]. assert (forall q, acc_conn (AccRefused r) = Some q -> forall g q' pc, adding s g q' pc -> q_id q' <> q_id q) as Hne.
    { intros q Hq g q' pc Had Heq. destruct (HA q Hq) as [Ho _].
      destruct (si_adding _ I _ _ _ Had) as (_ & _ & H3). rewrite Heq, Ho in H3. destruct Had, (returned pc); congruence. }
    destruct r as [e|q]; split; simpl; try apply I; try done.
    + destruct 1; eapply (si_adding _ I); by econstructor.
    + apply conn_inv_used, I.
    + intros g q' pc Had. assert (adding s g q' pc) as Had0 by (destruct Had; by econstructor).
      rewrite lookup_insert_ne; [by apply (si_adding _ I)|]. symmetry. by eapply (Hne q).
  - intros [= <-]. split; simpl; try apply I; [done|]. destruct 1; eapply (si_adding _ I); by econstructor.
Qed.

Lemma serve_inv id h s s' : sys_inv s -> serve id h s = Some s' -> sys_inv s'.
Proof.
  intros I. unfold serve. destruct (servers s !! id) as [[q pc]|] eqn:Hs; [|done].
  pose proof (si_serv _ I _ _ _ Hs) as Hid. intros E. destruct (returned pc) eqn:Hr.
  - destruct pc; try done. injection E as <-. split; simpl; try apply I.
    + intros i q0 pc0 [_ H]%lookup_delete_Some. by eapply (si_serv _ I).
    + intros g q0 pc0 Had. inversion Had as [i q1 pc1 H|name b q1 pc1 H]; subst; simpl in H;
        [apply lookup_delete_Some in H as [_ H]|]; apply (si_adding _ I); by econstructor.
  - assert (exists s1 pc', add_step Server q pc h s = Some (s1, pc') /\
      s' = set_servers (<[id := (q, pc')]> (servers s1)) s1) as (s1 & pc' & Ea & ->).
    { destruct pc; try done; apply bind_Some in E as ([s1 pc'] & Ea & [= <-]); eauto. }
    assert (adding s HServer q pc) as Had by (by econstructor).
    destruct (add_step_frame _ _ _ _ _ _ _ Ea) as [_ _ _ Fa Fs Fd _ _ _].
    eapply (sys_inv_add Server q pc h s s1 _ pc' HServer); try done; simpl.
    + rewrite Fs. intros i q' apc [[<- [= -> _]]|[_ H]]%lookup_insert_Some; [done|by eapply (si_serv _ I)].
    + rewrite Fd. eauto.
    + intros g' q' apc Had'. inversion Had' as [i q1 pc1 H|name b q1 pc1 H]; subst; simpl in H.
      * rewrite Fs in H. apply lookup_insert_Some in H as [[<- [= -> ->]]|[Hne H]]; [by left|right].
        split; [by econstructor|]. rewrite (si_serv _ I _ _ _ H). done.
      * rewrite Fd in H. right. assert (adding s (HDialer name) q' apc) as Had1 by (by econstructor).
        split; [done|]. intros Heq. pose proof (owner_pending _ _ _ _ I Had Hr) as H1.
        destruct (si_adding _ I _ _ _ Had1) as (_ & _ & H3). rewrite Heq, H1 in H3. by destruct (returned apc).
Qed.

(** The part of [dial] that does not run [add]. *)
Lemma dial_add_inv name b q pc h s s1 pc' :
  sys_inv s -> dialers s !! name = Some (b, DAdd q pc) -> returned pc = false ->
  add_step Client q pc h s = Some (s1, pc') -> sys_inv (set_dialer name b (DAdd q pc') s1).
Proof.
  intros I Hd Hr Ea. assert (adding s (HDialer name) q pc) as Had by (by econstructor).
  destruct (add_step_frame _ _ _ _ _ _ _ Ea) as [_ _ _ Fa Fs Fd _ _ _].
  pose proof (owner_pending _ _ _ _ I Had Hr) as Ho.
  eapply (sys_inv_add Client q pc h s s1 _ pc' (HDialer name)); try done; simpl.
  - rewrite Fs. apply I.
  - rewrite Fd. intros x d [[<- _]|[_ H]]%lookup_insert_Some; eauto.
  - intros g' q' apc Had'.
    assert ((g' = HDialer name /\ q' = q /\ apc = pc') \/ (adding s g' q' apc /\ g' <> HDialer name)) as [?|[Ha Hg]].
    { inversion Had' as [i q1 pc1 H|name1 b1 q1 pc1 H]; subst; simpl in H.
      - rewrite Fs in H. right. split; [by econstructor|done].
      - rewrite Fd in H. apply lookup_insert_Some in H as [[<- [= <- -> ->]]|[Hne H]]; [by left|right].
        split; [by econstructor|congruence]. }
    + by left.
    + right. split; [done|]. intros Heq. destruct (si_adding _ I _ _ _ Ha) as (_ & _ & H3).
      rewrite Heq, Ho in H3. destruct (returned apc); congruence.
Qed.

Lemma dial_inv name r h z s s' : sys_inv s -> dial name r h z s = Some s' -> sys_inv s'.
Proof.
  intros I. unfold dial. intros ([b pc] & Hd & (c & Hc & E)%bind_Some)%bind_Some.
  assert (forall pc' b', (forall q apc, pc' <> DAdd q apc) -> sys_inv (set_dialer name b' pc' s)) as Hmove.
  { intros pc' b' Hpc. apply sys_inv_dialer; [done|by eexists|]. intros q apc ->. by destruct (Hpc q apc). }
  assert (forall x k, sys_inv x -> sys_inv (set_count k x)) as Hcount.
  { intros x k Ix. eapply sys_inv_transport; try done. apply Ix. }
  assert (forall x w, sys_inv x -> sys_inv (panic w x)) as Hpanic.
  { intros x w Ix. eapply sys_inv_transport; try done. apply Ix. }
  destruct pc as [| | | | | |q pc|res|res|]; simplify_eq.
  - by destruct (bool_decide _); apply Hmove.
  - destruct (bool_decide _); simplify_eq. by apply Hmove.
  - by apply (Hcount (set_dialer name b DCheck s)), Hmove.
  - by destruct (closed s); apply Hmove.
  - by apply (Hcount (set_dialer name b (DResult (Some errPoolClosed)) s)), Hmove.
  - destruct r as [e|q]; simplify_eq; [by apply Hmove|].
    destruct (arrives q s) eqn:Har; simplify_eq. unfold arrives in Har. apply andb_true_iff in Har as [Hv Hf].
    apply bool_decide_eq_true in Hf.
    assert (sys_inv (set_owner (q_id q) (HDialer name) s)) as Iq.
    { assert (forall g q' pc, adding s g q' pc -> q_id q' <> q_id q) as Hne.
      { intros g q' pc Had Heq. destruct (si_adding _ I _ _ _ Had) as (_ & _ & Ho). congruence. }
      split; simpl; try apply I.
      - apply conn_inv_fresh; [apply I|congruence].
      - intros q0 Hq0. destruct (si_acc _ I q0 Hq0) as [Ho Hv0]. split; [|done].
        rewrite lookup_insert_ne; [done|]. intros Heq. congruence.
      - intros g q' pc Had. assert (adding s g q' pc) as Had0 by (destruct Had; by econstructor).
        rewrite lookup_insert_ne; [by apply (si_adding _ I)|]. symmetry. by eapply Hne. }
    apply sys_inv_dialer; [done|by eexists|]. intros q0 apc [= <- <-]. split; [|split; [done|]].
    + unfold VerifyConnection in Hv. destruct (q_certs q) as [|cn [|? ?]] eqn:Hq; try done.
      case_bool_decide; [|done]. by exists cn.
    + simpl. by rewrite lookup_insert_eq.
  - destruct (returned pc) eqn:Hr.
    + destruct pc; simplify_eq. by apply Hmove.
    + destruct pc; try done; apply bind_Some in E as ([s1 pc'] & Ea & [= <-]); by eapply dial_add_inv.
  - by apply (Hcount (set_dialer name b (DResult res) s)), Hmove.
  - destruct res as [e|].
    + destruct e; simplify_eq; try (by apply Hmove);
        destruct (Next b z) as [[[b' v]|[]|w]|]; simplify_eq; (by apply Hmove) || by apply Hpanic.
    + apply bind_Some in E as (b' & _ & [= <-]). by apply Hmove.
Qed.

(** Events that only change a connection, and its watcher. *)
Lemma sys_inv_conn s s' name c c' a :
  sys_inv s -> pool (base s) !! name = Some c -> tame c c' ->
  base s' = set_connection name c' a (base s) -> watchers s' = watchers s -> owner s' = owner s ->
  acceptor s' = acceptor s -> servers s' = servers s -> dialers s' = dialers s -> sys_inv s'.
Proof.
  intros I Hc Ht Hb Hw Ho Ha Hs Hd. eapply sys_inv_transport; try done; rewrite Hb.
  - rewrite Hw, Ho. eapply conn_inv_tame; [apply I|done|done].
  - by eapply same_keys_set.
Qed.

(** Nothing that the invariant speaks about changes. *)
Lemma sys_inv_same s s' :
  sys_inv s -> base s' = base s -> watchers s' = watchers s -> owner s' = owner s ->
  acceptor s' = acceptor s -> servers s' = servers s -> dialers s' = dialers s -> sys_inv s'.
Proof. intros I Hb Hw Ho Ha Hs Hd. eapply sys_inv_transport; try done; rewrite Hb; [rewrite Hw, Ho; apply I|done]. Qed.

Lemma Listen_inv name done r rm s s' : sys_inv s -> Listen name done r rm s = Some s' -> sys_inv s'.
Proof.
  intros I. unfold Listen. intros (pc & Hp & (c & Hc & E)%bind_Some)%bind_Some.
  destruct pc; simplify_eq; try (by eapply sys_inv_same).
  - destruct (done && _); [done|]. apply bind_Some in E as ([c' res] & Ew & [= <-]).
    eapply (sys_inv_conn _ _ name c c'); try done. by eapply tame_open.
  - destruct (recv_result _ _ _ _ _ _) as [[c' a] res] eqn:ER. apply tame_recv in ER.
    destruct r, res; simplify_eq; solve [by eapply (sys_inv_conn _ _ name c c') | by eapply sys_inv_same].
  - destruct (_ <? _)%nat; simplify_eq. by eapply sys_inv_same.
Qed.

Lemma watch_inv id rm s s' :
  sys_inv s -> pool_inv (base s) -> watchConnection id rm s = Some s' -> sys_inv s'.
Proof.
  intros I P. unfold watchConnection. intros (name & Hw & (c & Hc & E)%bind_Some)%bind_Some.
  destruct (decide _); [|done].
  destruct (Connection.Close _ _ _ _ _) as [[[c' a] res] code] eqn:EC.
  pose proof (Close_status _ _ _ _ _ _ _ _ _ (pi_status _ P _ _ Hc) EC) as Hdead.
  pose proof (tame_Close _ _ _ _ _ _ _ _ _ EC) as Ht.
  assert (sys_inv (set_watchers (delete id (watchers s)) (set_conn name c' a s))) as I'.
  { eapply sys_inv_transport; try done; simpl; [|by eapply same_keys_set].
    eapply conn_inv_unwatch; try done. apply I. }
  destruct res; simplify_eq; try done. by eapply sys_inv_same.
Qed.

Lemma close_event_inv lerr order rm s s' : sys_inv s -> Close lerr order rm s = Some s' -> sys_inv s'.
Proof.
  intros I. unfold Close. destruct (pcloser s) as [| | | |[|name todo] m|res]; intros E; simplify_eq;
    try (by eapply sys_inv_same).
  - destruct (_ =? _)%Z; simplify_eq. by eapply sys_inv_same.
  - destruct (bool_decide _); simplify_eq. by eapply sys_inv_same.
  - apply bind_Some in E as (c & Hc & E).
    destruct (Connection.Close _ _ _ _ _) as [[[c' a] res] code] eqn:EC. apply tame_Close in EC.
    destruct res; simplify_eq; by eapply (sys_inv_conn _ _ name c c').
Qed.

Lemma pool_exec_inv e s s' : sys_inv s -> pool_inv (base s) -> pool_exec e s = Some s' -> sys_inv s'.
Proof.
  intros I P. unfold pool_exec. destruct (panicked s); [done|]. destruct e as [r| |id h|name r h z|name d r rm| |id rm|id|name err rm|lerr o rm].
  - by apply accept_return_inv.
  - by apply accept_move_inv.
  - by apply serve_inv.
  - by apply dial_inv.
  - by apply Listen_inv.
  - unfold Receive. intros E. destruct (msgs s); simplify_eq/=. by eapply sys_inv_same.
  - by apply watch_inv.
  - intros [= <-]. by eapply sys_inv_same.
  - unfold send_returns. intros (c & Hc & E)%bind_Some.
    destruct (handleErrors _ _ _ _ _) as [[c' a] res] eqn:EH. simplify_eq.
    eapply (sys_inv_conn _ _ name c c'); try done. by eapply tame_handleErrors.
  - by apply close_event_inv.
Qed.

(** ** Refinement, goroutine by goroutine *)

Definition refines (s s' : sys) : Prop :=
  steps pool_step (base s) (base s') /\ steps handlers_step (view s) (view s').

Lemma refines_quiet s s' : steps pool_step (base s) (base s') -> view s' = view s -> refines s s'.
Proof. intros H E. split; [done|]. rewrite E. apply steps_refl. Qed.

Lemma frame_view s s' : frame s s' -> view s' = view s.
Proof. intros [H1 H2 _ H4 H5 H6 _ _ H9]. unfold view. by rewrite H1, H2, H4, H5, H6, H9. Qed.

Lemma accept_return_refines r s s' : accept_return r s = Some s' -> refines s s'.
Proof.
  unfold accept_return. intros E. destruct (acceptor s) eqn:Ha; try done.
  assert (base s' = base s /\ view s' = view s) as [Hb Hv].
  { unfold view. destruct r; [|destruct (arrives q s)]; simplify_eq/=; by rewrite Ha. }
  apply refines_quiet; [rewrite Hb; apply steps_refl|done].
Qed.

Lemma accept_move_refines s s' : sys_inv s -> few s -> accept_move s = Some s' -> refines s s'.
Proof.
  unfold accept_move, few. intros I Hf E. pose proof (si_acc _ I) as HA.
  destruct (acceptor s) as [|r|r|r| |] eqn:Ha; try done; simpl in HA, Hf; rewrite ?Ha in Hf.
  - injection E as <-. split; [apply steps_refl|]. by apply view_enter; simpl; rewrite ?Ha.
  - destruct (closed s) eqn:Hc; [|destruct r as [e|q]]; injection E as <-;
      (split; [apply steps_refl|]); apply view_check; simpl; rewrite ?Ha, ?Hc; simpl; try done; try lia.
    rewrite map_sum_insert_new; [unfold one; lia|]. destruct (HA q eq_refl) as [Ho _].
    destruct (servers s !! q_id q) as [[q' pc]|] eqn:Hs; [|done].
    destruct (si_adding _ I HServer q' pc) as (_ & _ & H3); [by econstructor|].
    rewrite (si_serv _ I _ _ _ Hs), Ho in H3. by destruct (returned pc).
  - injection E as <-. split; [by destruct r; apply steps_refl|].
    destruct r; apply (view_remove true); simpl; rewrite ?Ha; simpl; done || lia.
  - injection E as <-. split; [apply steps_refl|]. apply (view_remove false); simpl; rewrite ?Ha; simpl; done || lia.
Qed.

Lemma serve_refines id h s s' : serve id h s = Some s' -> refines s s'.
Proof.
  unfold serve. destruct (servers s !! id) as [[q pc]|] eqn:Hs; [|done]. intros E. destruct (returned pc) eqn:Hr.
  - destruct pc; try done. injection E as <-. split; [apply steps_refl|].
    assert (map_sum one (servers s) = S (map_sum one (delete id (servers s)))) as Hsum
      by exact (map_sum_delete one _ _ _ Hs).
    apply (view_remove false); simpl; done || lia.
  - assert (exists s1 pc', add_step Server q pc h s = Some (s1, pc') /\
      s' = set_servers (<[id := (q, pc')]> (servers s1)) s1) as (s1 & pc' & Ea & ->).
    { destruct pc; try done; apply bind_Some in E as ([s1 pc'] & Ea & [= <-]); eauto. }
    pose proof (add_step_frame _ _ _ _ _ _ _ Ea) as F. apply refines_quiet; [exact (add_step_base _ _ _ _ _ _ _ Ea)|].
    rewrite <- (frame_view _ _ F). unfold view. simpl. pose proof (fr_servers _ _ F) as Fs.
    rewrite <- Fs in Hs. assert (map_sum one (<[id := (q, pc')]> (servers s1)) + 1 = map_sum one (servers s1) + 1) as Hsum
      by exact (map_sum_update one _ _ _ (q, pc') Hs).
    f_equal. lia.
Qed.

(** What a dialler's move does to the counts. *)
Lemma view_dialer s name b pc s' b' pc' :
  dialers s !! name = Some (b, pc) -> acceptor s' = acceptor s -> servers s' = servers s ->
  dialers s' = <[name := (b', pc')]> (dialers s) ->
  entering (view s') + dial_entering (b, pc) = entering (view s) + dial_entering (b', pc') /\
  refused (view s') + dial_refused (b, pc) = refused (view s) + dial_refused (b', pc') /\
  serving (view s') + dial_serving (b, pc) = serving (view s) + dial_serving (b', pc').
Proof.
  intros Hd Ha Hs E. destruct (dialers_move s name (b, pc) (b', pc') Hd) as (H1 & H2 & H3).
  unfold view. simpl. rewrite E, Ha, Hs. lia.
Qed.

Lemma dialer_quiet s name b pc s' b' pc' :
  dialers s !! name = Some (b, pc) -> acceptor s' = acceptor s -> servers s' = servers s ->
  dialers s' = <[name := (b', pc')]> (dialers s) ->
  dial_entering (b, pc) = dial_entering (b', pc') -> dial_refused (b, pc) = dial_refused (b', pc') ->
  dial_serving (b, pc) = dial_serving (b', pc') ->
  handlers_count s' = handlers_count s -> closed s' = closed s -> pcloser s' = pcloser s -> view s' = view s.
Proof.
  intros Hd Ha Hs E H1 H2 H3 Hc Hcl Hp. destruct (view_dialer _ _ _ _ _ _ _ Hd Ha Hs E) as (K1 & K2 & K3).
  destruct (view s) eqn:V, (view s') eqn:V'. simpl in *. unfold view in V, V'.
  rewrite Hc, Hcl, Hp in V'. simplify_eq. f_equal; lia.
Qed.

Lemma dial_refines name r h z s s' : few s -> dial name r h z s = Some s' -> refines s s'.
Proof.
  unfold dial. intros Hf ([b pc] & Hd & (c & Hc & E)%bind_Some)%bind_Some.
  pose proof (fun x b' pc' => view_dialer s name b pc x b' pc' Hd) as Hv.
  pose proof (fun x b' pc' => dialer_quiet s name b pc x b' pc' Hd) as Hq.
  assert (forall b' pc', dial_entering (b, pc) = dial_entering (b', pc') -> dial_refused (b, pc) = dial_refused (b', pc') ->
    dial_serving (b, pc) = dial_serving (b', pc') -> refines s (set_dialer name b' pc' s)) as Hmove.
  { intros b' pc' H1 H2 H3. apply refines_quiet; [apply steps_refl|]. by apply (Hq _ b' pc'). }
  destruct pc as [| | | | | |q pc|res|res|]; simplify_eq.
  - by destruct (bool_decide _); apply Hmove.
  - destruct (bool_decide _); simplify_eq. by apply Hmove.
  - split; [apply steps_refl|]. destruct (Hv (set_dialer name b DCheck (set_count (i64 (handlers_count s + 1)) s)) b DCheck) as (K1 & K2 & K3); try done.
    unfold dial_entering, dial_refused, dial_serving in K1, K2, K3. simpl in K1, K2, K3.
    apply view_enter; [done| | | | | |]; simpl; done || lia.
  - split; [by destruct (closed s); apply steps_refl|].
    destruct (Hv (set_dialer name b (if closed s then DRefused else DDial) s) b (if closed s then DRefused else DDial)) as (K1 & K2 & K3); try done.
    apply view_check; try done; simpl; destruct (closed s);
      unfold dial_entering, dial_refused, dial_serving in K1, K2, K3; simpl in K1, K2, K3; lia.
  - split; [apply steps_refl|].
    destruct (Hv (set_dialer name b (DResult (Some errPoolClosed)) (set_count (i64 (handlers_count s - 1)) s)) b (DResult (Some errPoolClosed))) as (K1 & K2 & K3); try done.
    unfold dial_entering, dial_refused, dial_serving in K1, K2, K3. simpl in K1, K2, K3.
    apply (view_remove true); simpl; done || lia.
  - destruct r as [e|q]; simplify_eq; [by apply Hmove|]. destruct (arrives q s); simplify_eq.
    apply refines_quiet; [apply steps_refl|]. by apply (Hq _ b (DAdd q AddLookup)).
  - destruct (returned pc) eqn:Hr.
    + destruct pc; simplify_eq. by apply Hmove.
    + assert (exists s1 pc', add_step Client q pc h s = Some (s1, pc') /\ s' = set_dialer name b (DAdd q pc') s1)
        as (s1 & pc' & Ea & ->).
      { destruct pc; try done; apply bind_Some in E as ([s1 pc'] & Ea & [= <-]); eauto. }
      pose proof (add_step_frame _ _ _ _ _ _ _ Ea) as F. destruct F as [F1 F2 _ F4 F5 F6 _ _ F9].
      apply refines_quiet; [exact (add_step_base _ _ _ _ _ _ _ Ea)|]. apply (Hq _ b (DAdd q pc')); simpl; first [done|congruence|by rewrite F6].
  - split; [apply steps_refl|].
    destruct (Hv (set_dialer name b (DResult res) (set_count (i64 (handlers_count s - 1)) s)) b (DResult res)) as (K1 & K2 & K3); try done.
    unfold dial_entering, dial_refused, dial_serving in K1, K2, K3. simpl in K1, K2, K3.
    apply (view_remove false); simpl; done || lia.
  - destruct res as [e|].
    + destruct e; simplify_eq; try (by apply Hmove);
        destruct (Next b z) as [[[b' v]|[]|w]|]; simplify_eq;
        ((by apply Hmove) || (by apply refines_quiet; [apply steps_refl|])).
    + apply bind_Some in E as (b' & _ & [= <-]). by apply Hmove.
Qed.

Lemma conn_refines s s' name c' a :
  pool_step (base s) (set_connection name c' a (base s)) ->
  base s' = set_connection name c' a (base s) -> view s' = view s -> refines s s'.
Proof. intros Hp Hb Hv. apply refines_quiet; [rewrite Hb; by apply steps_one|done]. Qed.

Lemma Listen_refines name done r rm s s' : Listen name done r rm s = Some s' -> refines s s'.
Proof.
  unfold Listen. intros (pc & Hp & (c & Hc & E)%bind_Some)%bind_Some.
  destruct pc; simplify_eq; try (apply refines_quiet; [apply steps_refl|done]).
  - destruct (done && _); [done|]. apply bind_Some in E as ([c' res] & Ew & [= <-]).
    eapply conn_refines; [by eapply pool_open|done|done].
  - destruct (recv_result _ _ _ _ _ _) as [[c' a] res] eqn:ER. unfold recv_result in ER.
    destruct (handleErrors _ _ _ _ _) as [[c1 a1] e1] eqn:EH. simplify_eq.
    pose proof (pool_errors _ _ _ _ _ _ _ _ _ Hc EH) as Hstep.
    destruct r, e1; simplify_eq; first [by eapply conn_refines | apply refines_quiet; [apply steps_refl|done]].
  - destruct (_ <? _)%nat; simplify_eq. apply refines_quiet; [apply steps_refl|done].
Qed.

Lemma close_event_refines lerr order rm s s' : Close lerr order rm s = Some s' -> refines s s'.
Proof.
  unfold Close. destruct (pcloser s) as [| | | |[|name todo] m|res] eqn:Hp; intros E; simplify_eq.
  - split; [apply steps_refl|]. apply steps_one. pose proof (hs_close (view s)) as H.
    unfold close_start, view in *. simpl in *. by rewrite Hp in *.
  - apply refines_quiet; [apply steps_refl|]. unfold view. simpl. by rewrite Hp.
  - destruct (_ =? _)%Z eqn:H0; simplify_eq. split; [apply steps_refl|]. apply steps_one, hs_exit.
    unfold close_loop_exit, view. simpl. by rewrite Hp, H0.
  - destruct (bool_decide _); simplify_eq. apply refines_quiet; [apply steps_refl|]. unfold view. simpl. by rewrite Hp.
  - apply refines_quiet; [apply steps_refl|]. unfold view. simpl. by rewrite Hp.
  - apply bind_Some in E as (c & Hc & E).
    destruct (Connection.Close _ _ _ _ _) as [[[c' a] res] code] eqn:EC.
    pose proof (pool_close _ _ _ _ _ _ _ _ _ _ Hc EC) as Hstep.
    destruct res; simplify_eq; (eapply conn_refines; [done|done|]); unfold view; simpl; by rewrite Hp.
Qed.

Lemma pool_exec_refines e s s' : sys_inv s -> few s -> pool_exec e s = Some s' -> refines s s'.
Proof.
  intros I Hf. unfold pool_exec. destruct (panicked s); [done|].
  destruct e as [r| |id h|name r h z|name d r rm| |id rm|id|name err rm|lerr o rm].
  - apply accept_return_refines.
  - by apply accept_move_refines.
  - apply serve_refines.
  - by apply dial_refines.
  - apply Listen_refines.
  - unfold Receive. intros E. destruct (msgs s); simplify_eq/=. apply refines_quiet; [apply steps_refl|done].
  - unfold watchConnection. intros (name & Hw & (c & Hc & E)%bind_Some)%bind_Some. destruct (decide _); [|done].
    destruct (Connection.Close _ _ _ _ _) as [[[c' a] res] code] eqn:EC.
    pose proof (pool_close _ _ _ _ _ _ _ _ _ _ Hc EC) as Hstep. destruct res; simplify_eq; by eapply conn_refines.
  - intros [= <-]. apply refines_quiet; [apply steps_refl|done].
  - unfold send_returns. intros (c & Hc & E)%bind_Some.
    destruct (handleErrors _ _ _ _ _) as [[c' a] res] eqn:EH. simplify_eq.
    eapply conn_refines; [by eapply pool_errors|done|done].
  - apply close_event_refines.
Qed.

(** ** Reachable states *)

Section reachable.
Context (host : string) (peers : list string) (b : Backoff) (buffer : nat).

Definition reachable : sys -> Prop := steps sys_step (Run host peers b buffer).

Lemma map_sum_list_to_map_zero {A} (f : A -> nat) (l : list (string * A)) :
  Forall (fun x => f x.2 = 0) l -> map_sum f (list_to_map l : gmap string A) = 0.
Proof.
  intros Hl. destruct (decide (map_sum f (list_to_map l : gmap string A) = 0)) as [|Hne]; [done|].
  apply map_sum_witness in Hne as (k & a & Hk%elem_of_list_to_map_2 & Hf).
  rewrite Forall_forall in Hl. by specialize (Hl _ Hk).
Qed.

Lemma Run_view : view (Run host peers b buffer) = handlers_init.
Proof.
  unfold view. simpl. rewrite !map_sum_list_to_map_zero; [done|..]; by apply Forall_fmap, Forall_true.
Qed.

Lemma NewPool_lookup name c :
  pool (NewPool host peers) !! name = Some c -> c = NewConnection host name /\ name ∈ peers.
Proof. intros Hc%elem_of_list_to_map_2. by apply list_elem_of_fmap in Hc as (p & [= -> ->] & Hp). Qed.

Lemma NewPool_keys name : name ∈ peers -> is_Some (pool (NewPool host peers) !! name).
Proof.
  intros Hn. simpl. apply not_eq_None_Some. intros Hnone%not_elem_of_list_to_map_2.
  apply Hnone. rewrite <- list_fmap_compose. simpl. by rewrite list_fmap_id.
Qed.

Lemma Run_inv : sys_inv (Run host peers b buffer).
Proof.
  split; [split|done|done| |]; simpl.
  - intros cn. rewrite elem_of_list_to_set. split; [apply NewPool_keys|].
    intros [c Hc]. by apply NewPool_lookup in Hc as [_ ?].
  - by intros name c [-> _]%NewPool_lookup.
  - by intros name c [-> _]%NewPool_lookup.
  - done.
  - intros g q pc Had. inversion Had as [id q0 pc0 H|name b0 q0 pc0 H]; subst; simpl in H; [done|].
    apply elem_of_list_to_map_2, list_elem_of_fmap in H as (p & [=] & _).
  - intros name d H%elem_of_list_to_map_2. apply list_elem_of_fmap in H as (p & [= -> _] & Hp).
    by apply NewPool_keys.
Qed.

Hypothesis peers_unique : NoDup peers.
Hypothesis peers_few : (Z.of_nat (length peers) < 2 ^ 62)%Z.

Lemma reachable_refines s :
  reachable s ->
  sys_inv s /\ steps pool_step (NewPool host peers) (base s) /\ steps handlers_step handlers_init (view s).
Proof.
  apply (steps_invariant sys_step (fun s => sys_inv s /\ steps pool_step (NewPool host peers) (base s) /\
    steps handlers_step handlers_init (view s))).
  - split; [apply Run_inv|]. split; [apply steps_refl|]. rewrite Run_view. apply steps_refl.
  - intros x y (I & Hp & Hh) (Hf & e & E). pose proof (pool_exec_refines _ _ _ I Hf E) as [Hp' Hh'].
    destruct (reachable_pool_inv _ _ _ peers_unique peers_few Hp) as [P _].
    split; [by eapply pool_exec_inv|]. split; by eapply steps_trans.
Qed.
End reachable.
