(* ===== verification/Shutdown.v ===== *)
(** * Shutdown and supervision of the pool

    What the refinement of [PoolRunFacts] gives for the running pool: [Close] finishes
    and leaves no live connection behind, a lost connection is always noticed by its
    watcher, and the message buffer keeps its bound. The last section runs the pool on
    concrete schedules. *)

From S2P Require Import Prelude Errors Host Perspective Framing Backoff Connection Pool PoolRun PoolRunFacts.

#[local] Arguments establish_resolve : simpl never.
#[local] Arguments establish_commit : simpl never.
#[local] Arguments Connection.Close : simpl never.

(** ** What is left of the pool after [Close] *)

Definition past (pc : close_pc) : bool :=
  match pc with PIdle | PStored | PWait => false | _ => true end.

Definition all_dead_but (todo : list string) (p : Pool) : Prop :=
  forall n c, pool p !! n = Some c -> n ∉ todo -> c_status c = StatusDead.

Definition close_inv (s : sys) : Prop :=
  match pcloser s with
  | PConns todo _ => Forall (fun n => is_Some (pool (base s) !! n)) todo /\ all_dead_but todo (base s)
  | PDone _ => all_dead_but [] (base s)
  | _ => True
  end.

(** No connection is revived. *)
Definition calm (s s' : sys) : Prop :=
  forall n c', pool (base s') !! n = Some c' -> exists c, pool (base s) !! n = Some c /\ tame c c'.

Lemma tame_refl c : tame c c.
Proof. done. Qed.

Lemma calm_base s s' : base s' = base s -> calm s s'.
Proof. intros Hb n c'. rewrite Hb. eauto using tame_refl. Qed.

Lemma calm_conn s s' name c c' a :
  pool (base s) !! name = Some c -> tame c c' -> base s' = set_connection name c' a (base s) -> calm s s'.
Proof.
  intros Hc Ht Hb n x. rewrite Hb. intros [[<- <-]|[_ Hx]]%set_connection_lookup; eauto using tame_refl.
Qed.

(** Without goroutines in [add], every event is calm. *)
Lemma exec_calm e s s' : serving (view s) = 0 -> pool_exec e s = Some s' -> calm s s'.
Proof.
  intros H0. unfold view in H0. simpl in H0.
  assert (forall id x, servers s !! id = Some x -> False) as Hserv.
  { intros id x Hx. pose proof (map_sum_pos one _ _ _ Hx) as Hp. unfold one in Hp at 1. lia. }
  assert (forall name b q pc, dialers s !! name = Some (b, DAdd q pc) -> False) as Hdial.
  { intros name b q pc Hx. pose proof (map_sum_pos dial_serving _ _ _ Hx) as Hp. unfold dial_serving in Hp at 1. simpl in Hp. lia. }
  unfold pool_exec. destruct (panicked s); [done|].
  destruct e as [r| |id h|name r h z|name d r rm| |id rm|id|name err rm|lerr o rm].
  - unfold accept_return. intros E. cases; by apply calm_base.
  - unfold accept_move. intros E. cases; by apply calm_base.
  - unfold serve. destruct (servers s !! id) as [[q pc]|] eqn:Hs; [|done]. by destruct (Hserv _ _ Hs).
  - unfold dial. intros ([b pc] & Hd & (c & Hc & E)%bind_Some)%bind_Some.
    destruct pc; try (cases; by apply calm_base).
    + by destruct (Hdial _ _ _ _ Hd).
    + destruct res as [e|]; [destruct e|]; try (opt_inv; cases; by apply calm_base).
  - unfold Listen. intros (pc & Hp & (c & Hc & E)%bind_Some)%bind_Some.
    destruct pc; simplify_eq; try (by apply calm_base).
    + destruct (d && _); [done|]. apply bind_Some in E as ([c' res] & Ew%tame_open & [= <-]).
      by eapply (calm_conn _ _ name c c').
    + destruct (recv_result _ _ _ _ _ _) as [[c' a] res] eqn:ER. apply tame_recv in ER.
      destruct r, res; simplify_eq; solve [by eapply (calm_conn _ _ name c c') | by apply calm_base].
    + destruct (_ <? _)%nat; simplify_eq. by apply calm_base.
  - unfold Receive. intros E. destruct (msgs s); simplify_eq/=. by apply calm_base.
  - unfold watchConnection. intros (name & Hw & (c & Hc & E)%bind_Some)%bind_Some. destruct (decide _); [|done].
    destruct (Connection.Close _ _ _ _ _) as [[[c' a] res] code] eqn:EC. apply tame_Close in EC.
    destruct res; simplify_eq; by eapply (calm_conn _ _ name c c').
  - intros [= <-]. by apply calm_base.
  - unfold send_returns. intros (c & Hc & E)%bind_Some.
    destruct (handleErrors _ _ _ _ _) as [[c' a] res] eqn:EH. simplify_eq.
    apply tame_handleErrors in EH. by eapply (calm_conn _ _ name c c').
  - unfold Close. destruct (pcloser s) as [| | | |[|name todo] m|res]; intros E; simplify_eq;
      try (cases; by apply calm_base).
    apply bind_Some in E as (c & Hc & E).
    destruct (Connection.Close _ _ _ _ _) as [[[c' a] res] code] eqn:EC. apply tame_Close in EC.
    destruct res; simplify_eq; by eapply (calm_conn _ _ name c c').
Qed.

Definition is_close (e : pool_event) : bool := match e with EvPoolClose _ _ _ => true | _ => false end.

Lemma exec_closer e s s' : pool_exec e s = Some s' -> is_close e = false -> pcloser s' = pcloser s.
Proof.
  intros E He. unfold pool_exec in E. destruct (panicked s); [done|].
  destruct e as [r| |id h|name r h z|name d r rm| |id rm|id|name err rm|lerr o rm].
  - unfold accept_return in E. by cases.
  - unfold accept_move in E. by cases.
  - unfold serve in E. destruct (servers s !! id) as [[q pc]|]; [|done].
    destruct pc; try (apply bind_Some in E as ([s1 pc'] & Ea & [= <-]); apply add_step_frame in Ea; apply Ea).
    by simplify_eq.
  - unfold dial in E. apply bind_Some in E as ([b pc] & _ & (c & _ & E)%bind_Some).
    destruct pc as [| | | | | |q pc|res|res|];
      try (destruct pc; try (apply bind_Some in E as ([s1 pc'] & Ea & [= <-]); apply add_step_frame in Ea; apply Ea));
      try (by cases).
    destruct res as [e|]; [destruct e|]; opt_inv; by cases.
  - unfold Listen in E. apply bind_Some in E as (pc & _ & (c & _ & E)%bind_Some).
    destruct pc; cases; try done; opt_inv; by cases.
  - unfold Receive in E. by destruct (msgs s); simplify_eq/=.
  - unfold watchConnection in E. opt_inv. by cases.
  - by simplify_eq.
  - unfold send_returns in E. opt_inv. by cases.
  - done.
Qed.

Lemma calm_dead todo s s' : calm s s' -> pool_inv (base s') -> all_dead_but todo (base s) -> all_dead_but todo (base s').
Proof.
  intros Hc P Hd n c' Hn Hout. destruct (Hc n c' Hn) as (c & Hn0 & _ & Ht).
  destruct (pi_status _ P _ _ Hn) as [?|Ha]; [done|]. destruct (Ht Ha) as [Ha0 _].
  rewrite (Hd n c Hn0 Hout) in Ha0. done.
Qed.

Lemma close_event_close_inv lerr order rm s s' :
  pool_inv (base s) -> close_inv s -> Close lerr order rm s = Some s' -> close_inv s'.
Proof.
  intros P Hci E. unfold Close in E. unfold close_inv in *.
  destruct (pcloser s) as [| | | |[|name todo] m|res] eqn:Hp; simplify_eq/=; try done.
  - by destruct (_ =? _)%Z; simplify_eq/=.
  - case_bool_decide as Ho; simplify_eq/=. split.
    + apply Forall_forall. intros n Hn. rewrite Ho in Hn. apply list_elem_of_fmap in Hn as ([k c] & -> & Hn).
      apply elem_of_map_to_list in Hn. by eexists.
    + intros n c Hn Hout. destruct Hout. rewrite Ho. apply list_elem_of_fmap. exists (n, c).
      by rewrite elem_of_map_to_list.
  - apply Hci.
  - destruct Hci as [Hall Hd]. apply Forall_cons in Hall as [_ Hall].
    apply bind_Some in E as (c & Hc & E). destruct (Connection.Close _ _ _ _ _) as [[[c' a] res] code] eqn:EC.
    assert (Forall (fun n => is_Some (pool (set_connection name c' a (base s)) !! n)) (name :: todo)) as Hall'.
    { constructor; [simpl; rewrite lookup_insert_eq; by eexists|].
      eapply Forall_impl; [done|]. intros n. apply (same_keys_set _ _ _ _ _ Hc). }
    assert (all_dead_but todo (set_connection name c' a (base s))) as Hd'.
    { intros n x [[<- <-]|[Hne Hx]]%set_connection_lookup Hout.
      - eapply Close_status; [|done]. by apply (pi_status _ P name).
      - apply (Hd n x Hx). by intros [->|?]%elem_of_cons. }
    pose proof Hall' as [_ Htl]%Forall_cons.
    destruct res; simplify_eq/=; rewrite ?Hp; (split; [done|]); try done.
    intros n x Hn Hout. apply (Hd' n x Hn). intros ?. apply Hout. by right.
Qed.

Lemma exec_close_inv e s s' :
  pool_inv (base s) -> pool_inv (base s') -> same_keys (base s) (base s') ->
  (past (pcloser s) = true -> serving (view s) = 0) ->
  close_inv s -> pool_exec e s = Some s' -> close_inv s'.
Proof.
  intros P P' [_ Hk] H0 Hci E. destruct (is_close e) eqn:He.
  - destruct e; try done. unfold pool_exec in E. destruct (panicked s); [done|]. exact (close_event_close_inv _ _ _ _ _ P Hci E).
  - pose proof (exec_closer _ _ _ E He) as Hp. unfold close_inv in *. rewrite Hp.
    destruct (pcloser s) eqn:Hpc; try done; specialize (H0 eq_refl); pose proof (exec_calm _ _ _ H0 E) as Hcalm.
    + destruct Hci as [Hall Hd]. split; [|by eapply calm_dead].
      eapply Forall_impl; [done|]. intros n. apply Hk.
    + by eapply calm_dead.
Qed.

(** ** Reachable states *)

Lemma reachable_handlers_inv h : steps handlers_step handlers_init h -> handlers_inv h.
Proof. apply steps_invariant; [by split|]. intros x y. apply handlers_step_inv. Qed.

Lemma past_view s : past (pcloser s) = true -> closer (view s) = CPast.
Proof. unfold view. simpl. by destruct (pcloser s). Qed.

Section shutdown.
Context (host : string) (peers : list string) (b : Backoff) (buffer : nat).
Hypothesis peers_unique : NoDup peers.
Hypothesis peers_few : (Z.of_nat (length peers) < 2 ^ 62)%Z.
Abbreviation reachable := (reachable host peers b buffer).

Lemma reachable_facts s :
  reachable s -> sys_inv s /\ pool_inv (base s) /\ handlers_inv (view s) /\ close_inv s.
Proof.
  intros Hr. destruct (reachable_refines _ _ _ _ peers_unique peers_few s Hr) as (I & Hp & Hh).
  destruct (reachable_pool_inv _ _ _ peers_unique peers_few Hp) as [P _].
  split; [done|]. split; [done|]. split; [by apply reachable_handlers_inv|].
  clear I Hp Hh P. enough (reachable s /\ close_inv s) as [_ ?] by done. revert Hr.
  apply (steps_invariant sys_step (fun s => reachable s /\ close_inv s)); [split; [apply steps_refl|done]|].
  intros x y [Hr IH] (Hf & e & E). split; [apply (steps_snoc _ _ x); [done|by split; eauto]|].
  destruct (reachable_refines _ _ _ _ peers_unique peers_few _ Hr) as (I & Hp & Hh).
  destruct (reachable_pool_inv _ _ _ peers_unique peers_few Hp) as [P _].
  destruct (pool_exec_refines _ _ _ I Hf E) as [Hp' _].
  destruct (reachable_pool_inv _ _ _ peers_unique peers_few (steps_trans _ _ _ _ Hp Hp')) as [P' _].
  apply (exec_close_inv e x y); try done; [by apply steps_keys|].
  intros Hpast%past_view. by apply (hi_past _ (reachable_handlers_inv _ Hh)).
Qed.

(** C16: The goroutines of the pool refine its two abstract machines: whatever the
    interleaving of the accept loop, the handlers it spawns, the dial loops, the
    listeners, the watchers, broadcasts and [Close], the connections move by the locked
    sections of [pool_step] and the handler counter by the protocol of
    [handlers_step]. *)
Theorem goroutines_refine_the_pool s :
  reachable s -> steps pool_step (NewPool host peers) (base s) /\ steps handlers_step handlers_init (view s).
Proof. intros Hr. by destruct (reachable_refines _ _ _ _ peers_unique peers_few s Hr) as (_ & ? & ?). Qed.

(** C15: When [Close] has returned, every connection is dead, the counter of live ones is
    zero and no goroutine is establishing one, and this stays so: nothing that still
    runs can bring a connection back. *)
Theorem closed_pool_stays_dead s s' res :
  reachable s -> pcloser s = PDone res -> steps sys_step s s' ->
  pcloser s' = PDone res /\ activeConnections (base s') = 0%Z /\ serving (view s') = 0 /\
  forall n c, pool (base s') !! n = Some c -> c_status c = StatusDead.
Proof.
  intros Hr Hp Hs. assert (reachable s' /\ pcloser s' = PDone res) as [Hr' Hp'].
  { revert Hs. apply (steps_invariant sys_step (fun s => reachable s /\ pcloser s = PDone res)); [done|].
    intros x y [Hx Hpx] (Hf & e & E). split; [apply (steps_snoc _ _ x); [done|by split; eauto]|].
    destruct (is_close e) eqn:He; [|by rewrite (exec_closer _ _ _ E He)]. destruct e; try done.
    unfold pool_exec, Close in E. rewrite Hpx in E. by destruct (panicked x). }
  destruct (reachable_facts s' Hr') as (_ & P & H & Hc). unfold close_inv in Hc. rewrite Hp' in Hc.
  assert (forall n c, pool (base s') !! n = Some c -> c_status c = StatusDead) as Hdead.
  { intros n c Hn. apply (Hc n c Hn). inversion 1. }
  split; [done|]. split; [|split; [|done]].
  - rewrite (pi_active _ P). unfold live_count, alive. rewrite (proj2 (map_empty_filter _ _)); [done|].
    intros n c Hn. simpl. unfold is_alive. by rewrite (Hdead n c Hn).
  - apply (hi_past _ H). apply past_view. by rewrite Hp'.
Qed.

(** C17: A lost connection is noticed: when the QUIC connection behind a live [Connection]
    has ended, its watcher is still there, can run, and marks the connection dead. *)
Theorem lost_connections_are_noticed s name c id remote :
  reachable s -> panicked s = None -> pool (base s) !! name = Some c -> c_status c = StatusAlive ->
  c_conn c = Some id -> id ∈ gone s ->
  exists s' c', pool_exec (EvWatch id remote) s = Some s' /\ panicked s' = None /\
    pool (base s') !! name = Some c' /\ c_status c' = StatusDead.
Proof.
  intros Hr Hpan Hc Ha Hid Hgone. destruct (reachable_facts s Hr) as (I & P & _ & _).
  destruct (ci_alive _ _ _ (si_conn _ I) _ _ Hc Ha) as (id' & Hid' & Hw). simplify_eq.
  unfold pool_exec, watchConnection. rewrite Hpan, Hw. simpl. rewrite Hc. simpl.
  rewrite decide_True by done.
  destruct (Connection.Close _ _ _ _ _) as [[[c' a] res] code] eqn:EC.
  pose proof (Close_status _ _ _ _ _ _ _ _ _ (pi_status _ P _ _ Hc) EC) as Hdead.
  unfold Connection.Close in EC. rewrite bool_decide_eq_false_2 in EC by congruence.
  unfold ctx_err in EC. rewrite Hid, decide_True in EC by done. simplify_eq.
  eexists _, _. split; [done|]. split; [done|]. simpl. by rewrite lookup_insert_eq.
Qed.
End shutdown.

(** ** [Close] terminates *)

Definition acc_weight (a : accept_pc) : nat :=
  match a with
  | AccReturned => 0 | AccRefused _ => 1 | AccEntered _ => 2 | AccGot _ => 3 | AccWait => 4 | AccFailed => 5
  end.

Definition add_weight (pc : add_pc) : nat :=
  match pc with
  | AddReturned _ => 0 | AddClose _ => 1 | AddCommit _ => 2 | AddResolve _ => 3 | AddLookup => 4
  end.

Definition serve_weight (x : qconn * add_pc) : nat := S (add_weight x.2).

Definition dial_weight (d : Backoff * dial_pc) : nat :=
  match d.2 with
  | DReturned => 0 | DResult (Some errPoolClosed) => 1 | DRefused => 2 | DCheck => 3 | DEnter => 4 | DTick => 5
  | DLoop => 6 | DResult _ => 7 | DLeave _ => 8 | DAdd _ pc => 9 + add_weight pc | DDial => 14
  end.

(** What the accept loop, its goroutines and the dial loops can still do once the pool
    is closed. *)
Definition work_left (s : sys) : nat :=
  acc_weight (acceptor s) + map_sum serve_weight (servers s) + map_sum dial_weight (dialers s).

Definition handler_event (e : pool_event) : bool :=
  match e with EvAccept _ | EvAcceptMove | EvServe _ _ | EvDial _ _ _ _ => true | _ => false end.

Lemma add_step_weight persp q pc h s s' pc' :
  add_step persp q pc h s = Some (s', pc') -> is_Some (panicked s') \/ add_weight pc' < add_weight pc.
Proof.
  unfold add_step. intros E. destruct pc; cbn beta iota in E; opt_inv; cases; simpl; try (right; lia); left; by eexists.
Qed.

Lemma servers_work (m : gmap nat (qconn * add_pc)) id q pc pc' :
  m !! id = Some (q, pc) -> add_weight pc' < add_weight pc ->
  map_sum serve_weight (<[id := (q, pc')]> m) < map_sum serve_weight m.
Proof.
  intros Hm Hlt. pose proof (map_sum_update serve_weight m id _ (q, pc') Hm) as H.
  unfold serve_weight in H at 2 4. simpl in H. lia.
Qed.

Lemma dialers_work (m : gmap string (Backoff * dial_pc)) name d d' :
  m !! name = Some d -> dial_weight d' < dial_weight d ->
  map_sum dial_weight (<[name := d']> m) < map_sum dial_weight m.
Proof. intros Hm Hlt. pose proof (map_sum_update dial_weight m name _ d' Hm). lia. Qed.

Lemma dial_result_weight b e : dial_weight (b, DResult e) <= 7.
Proof. destruct e as [[]|]; unfold dial_weight; simpl; lia. Qed.

(** Once the pool is closed, each step of these goroutines brings them closer to their
    end, or ends the process. *)
Lemma handler_event_works e s s' :
  closed s = true -> handler_event e = true -> pool_exec e s = Some s' ->
  is_Some (panicked s') \/ work_left s' < work_left s.
Proof.
  intros Hcl He E. unfold pool_exec in E. destruct (panicked s); [done|]. unfold work_left.
  destruct e as [r| |id h|name r h z| | | | | |]; try done.
  - right. unfold accept_return in E. destruct (acceptor s); cases; simpl; lia.
  - right. unfold accept_move in E. destruct (acceptor s) as [|r|r|r| |]; rewrite ?Hcl in E; cases; simpl; lia.
  - unfold serve in E. destruct (servers s !! id) as [[q pc]|] eqn:Hs; [|done]. destruct (returned pc) eqn:Hr.
    + destruct pc; try done. right. simplify_eq/=. pose proof (map_sum_delete serve_weight _ _ _ Hs) as H.
      unfold serve_weight in H at 2. simpl in H. lia.
    + assert (exists s1 pc', add_step Server q pc h s = Some (s1, pc') /\
        s' = set_servers (<[id := (q, pc')]> (servers s1)) s1) as (s1 & pc' & Ea & ->).
      { destruct pc; try done; apply bind_Some in E as ([s1 pc'] & Ea & [= <-]); eauto. }
      destruct (add_step_frame _ _ _ _ _ _ _ Ea) as [_ _ _ Fa Fs Fd _ _ _].
      destruct (add_step_weight _ _ _ _ _ _ _ Ea) as [?|Hlt]; [by left|right]. simpl. rewrite Fa, Fs, Fd.
      pose proof (servers_work _ _ _ _ _ Hs Hlt). lia.
  - unfold dial in E. apply bind_Some in E as ([b pc] & Hd & (c & Hc & E)%bind_Some).
    assert (forall b' pc', dial_weight (b', pc') < dial_weight (b, pc) ->
      map_sum dial_weight (<[name := (b', pc')]> (dialers s)) < map_sum dial_weight (dialers s)) as Hw
      by (intros b' pc'; by apply dialers_work).
    pose proof (dial_result_weight b) as H7.
    destruct pc as [| | | | | |q pc|res|res|].
    1-6: right; rewrite ?Hcl in E; cases; apply Nat.add_lt_mono_l, Hw; unfold dial_weight; simpl; lia.
    + destruct (returned pc) eqn:Hr.
      * destruct pc; try done. right. simplify_eq/=. apply Nat.add_lt_mono_l, Hw. unfold dial_weight. simpl. lia.
      * assert (exists s1 pc', add_step Client q pc h s = Some (s1, pc') /\ s' = set_dialer name b (DAdd q pc') s1)
          as (s1 & pc' & Ea & ->).
        { destruct pc; try done; apply bind_Some in E as ([s1 pc'] & Ea & [= <-]); eauto. }
        destruct (add_step_frame _ _ _ _ _ _ _ Ea) as [_ _ _ Fa Fs Fd _ _ _].
        destruct (add_step_weight _ _ _ _ _ _ _ Ea) as [?|Hlt]; [by left|right]. simpl. rewrite Fa, Fs, Fd.
        apply Nat.add_lt_mono_l, Hw. unfold dial_weight. simpl. lia.
    + right. simplify_eq/=. apply Nat.add_lt_mono_l, Hw. specialize (H7 res). change (dial_weight (b, DLeave res)) with 8. lia.
    + destruct res as [e|].
      * destruct e; cases; first [left; by eexists | right; apply Nat.add_lt_mono_l, Hw; unfold dial_weight; simpl; lia].
      * right. opt_inv. apply Nat.add_lt_mono_l, Hw. unfold dial_weight. simpl. lia.
    + done.
Qed.

(** A handshake that fails, for a goroutine that has to be moved on. *)
Definition failing : handshake := mkHandshake (Some io_EOF) (Ok []) ("", None).

Lemma add_progress persp q pc s g :
  sys_inv s -> adding s g q pc -> returned pc = false ->
  exists s1 pc', add_step persp q pc failing s = Some (s1, pc') /\ panicked s1 = panicked s.
Proof.
  intros I Had Hr. destruct (si_adding _ I _ _ _ Had) as ((cn & Hcn & Hin) & Hok & _).
  unfold add_step. destruct pc as [|name|name|err|res]; try done.
  - apply (ci_keys _ _ _ (si_conn _ I)) in Hin as [c Hc]. unfold add_lookup. rewrite Hcn, Hc.
    destruct (establish_fast c); eauto.
  - destruct Hok as [c Hc]. rewrite Hc. simpl. eauto.
  - destruct Hok as [c Hc]. rewrite Hc. simpl. unfold establish_commit. case_bool_decide; eauto.
  - simpl. eauto.
Qed.

Lemma dial_progress s name b pc :
  sys_inv s -> panicked s = None -> dialers s !! name = Some (b, pc) ->
  dial_entering (b, pc) + dial_refused (b, pc) + dial_serving (b, pc) <> 0 ->
  exists s', dial name (inl io_EOF) failing 0 s = Some s' /\ panicked s' = None /\
    (handlers_count s' = handlers_count s \/ handlers_count s' = i64 (handlers_count s - 1)).
Proof.
  intros I Hpan Hd Hne. destruct (si_dialer _ I _ _ Hd) as [c Hc]. unfold dial. rewrite Hd. simpl. rewrite Hc. simpl.
  destruct pc as [| | | | | |q pc|res|res|]; try done; try (eexists; split; [done|]; split; [done|]; simpl; by auto).
  destruct (returned pc) eqn:Hr; [destruct pc; try done; eexists; split; [done|]; split; [done|]; simpl; by auto|].
  destruct (add_progress Client q pc s (HDialer name) I) as (s1 & pc' & Ea & Hp); [by econstructor|done|].
  pose proof (add_step_frame _ _ _ _ _ _ _ Ea) as F.
  exists (set_dialer name b (DAdd q pc') s1). split; [destruct pc; try done; by rewrite Ea|].
  split; [simpl; congruence|]. left. simpl. apply F.
Qed.

Lemma serve_progress s id q pc :
  sys_inv s -> panicked s = None -> servers s !! id = Some (q, pc) ->
  exists s', serve id failing s = Some s' /\ panicked s' = None /\
    (handlers_count s' = handlers_count s \/ handlers_count s' = i64 (handlers_count s - 1)).
Proof.
  intros I Hpan Hs. unfold serve. rewrite Hs. destruct (returned pc) eqn:Hr.
  - destruct pc; try done. eexists. split; [done|]. split; [done|]. simpl. auto.
  - destruct (add_progress Server q pc s HServer I) as (s1 & pc' & Ea & Hp); [by econstructor|done|].
    pose proof (add_step_frame _ _ _ _ _ _ _ Ea) as F.
    exists (set_servers (<[id := (q, pc')]> (servers s1)) s1). split; [destruct pc; try done; by rewrite Ea|].
    split; [simpl; congruence|]. left. simpl. apply F.
Qed.

(** As long as the counter is not zero, one of the goroutines it counts can move. *)
Lemma handler_progress s :
  sys_inv s -> handlers_inv (view s) -> panicked s = None -> handlers_count s <> 0%Z ->
  exists e s', handler_event e = true /\ pool_exec e s = Some s' /\ panicked s' = None /\
    (handlers_count s' <= handlers_count s)%Z.
Proof.
  intros I H Hpan Hne. pose proof (hi_count _ H) as Hc. pose proof (hi_bound _ H) as Hb. simpl in Hc, Hb.
  assert (forall x, (x = handlers_count s \/ x = i64 (handlers_count s - 1)) -> (x <= handlers_count s)%Z) as Hle.
  { intros x [->| ->]; [done|]. unfold i64. rewrite wrapS_small; lia. }
  unfold pool_exec.
  destruct (decide (acc_entering (acceptor s) + acc_refused (acceptor s) + acc_serving (acceptor s) = 0)) as [Ha|Ha].
  2: { exists EvAcceptMove. rewrite Hpan. unfold accept_move.
    destruct (acceptor s) as [|r|r|r| |]; try done.
    - destruct (closed s); [|destruct r]; eexists; (split; [done|]); (split; [done|]); (split; [done|]); done.
    - destruct r; eexists; (split; [done|]); (split; [done|]); (split; [done|]); simpl; auto.
    - eexists; (split; [done|]); (split; [done|]); (split; [done|]); simpl; auto. }
  destruct (decide (map_sum one (servers s) = 0)) as [Hs|Hs].
  2: { apply map_sum_witness in Hs as (id & [q pc] & Hs & _).
    destruct (serve_progress s id q pc I Hpan Hs) as (s' & E & Hp & Hx).
    exists (EvServe id failing), s'. rewrite Hpan. eauto. }
  assert (exists name d, dialers s !! name = Some d /\ dial_entering d + dial_refused d + dial_serving d <> 0)
    as (name & [b pc] & Hd & Hnz).
  { destruct (decide (map_sum dial_entering (dialers s) = 0)) as [H1|H1].
    2: { apply map_sum_witness in H1 as (name & d & Hd & ?). exists name, d. split; [done|lia]. }
    destruct (decide (map_sum dial_refused (dialers s) = 0)) as [H2|H2].
    2: { apply map_sum_witness in H2 as (name & d & Hd & ?). exists name, d. split; [done|lia]. }
    destruct (map_sum_witness dial_serving (dialers s)) as (name & d & Hd & ?); [lia|].
    exists name, d. split; [done|lia]. }
  destruct (dial_progress s name b pc I Hpan Hd Hnz) as (s' & E & Hp & Hx).
  exists (EvDial name (inl io_EOF) failing 0), s'. rewrite Hpan. eauto.
Qed.

(** ** What the goroutines wait for *)

(** Inside a handshake a goroutine depends on others: on the peer, whose resolvent it
    reads (the read of the size header heeds no context) and to whom it closes the
    connection, and on the mutex of the [Connection], which a [Connection.Close] may hold
    while it closes. *)
Definition in_handshake (pc : add_pc) : bool :=
  match pc with AddResolve _ | AddCommit _ | AddClose _ => true | AddLookup | AddReturned _ => false end.

Definition waits_for_others (s : sys) : Prop := exists g q pc, adding s g q pc /\ in_handshake pc = true.

(** Steps of the counted goroutines that depend on nobody: a dial returns since its
    context is cancelled. *)
Definition moves_alone (s : sys) (e : pool_event) : bool :=
  match e with
  | EvAcceptMove => true
  | EvServe id _ => match servers s !! id with Some (_, pc) => negb (in_handshake pc) | None => false end
  | EvDial name (inl _) _ _ =>
      match dialers s !! name with
      | Some (_, (DEnter | DCheck | DRefused | DDial | DLeave _)) => true
      | Some (_, DAdd _ pc) => negb (in_handshake pc)
      | _ => false
      end
  | _ => false
  end.

(** The counter is not zero because of a goroutine that is inside a handshake or can move
    by itself. *)
Lemma counted_goroutines_move s :
  sys_inv s -> handlers_inv (view s) -> panicked s = None -> handlers_count s <> 0%Z ->
  waits_for_others s \/ exists e s', moves_alone s e = true /\ pool_exec e s = Some s'.
Proof.
  intros I H Hpan Hne. pose proof (hi_count _ H) as Hc. simpl in Hc. unfold pool_exec.
  destruct (decide (acc_entering (acceptor s) + acc_refused (acceptor s) + acc_serving (acceptor s) = 0)) as [Ha|Ha].
  2: { right. exists EvAcceptMove. rewrite Hpan. unfold accept_move. destruct (acceptor s) as [|r|r|r| |]; try done; eauto.
    destruct (closed s); [|destruct r]; eauto. }
  destruct (decide (map_sum one (servers s) = 0)) as [Hs|Hs].
  2: { apply map_sum_witness in Hs as (id & [q pc] & Hs & _). destruct (in_handshake pc) eqn:Hh.
    - left. exists HServer, q, pc. split; [by econstructor|done].
    - right. destruct (serve_progress s id q pc I Hpan Hs) as (s' & E & _). exists (EvServe id failing), s'.
      rewrite Hpan. simpl. by rewrite Hs, Hh. }
  assert (exists name d, dialers s !! name = Some d /\ dial_entering d + dial_refused d + dial_serving d <> 0)
    as (name & [b pc] & Hd & Hnz).
  { destruct (decide (map_sum dial_entering (dialers s) = 0)) as [H1|H1].
    2: { apply map_sum_witness in H1 as (name & d & Hd & ?). exists name, d. split; [done|lia]. }
    destruct (decide (map_sum dial_refused (dialers s) = 0)) as [H2|H2].
    2: { apply map_sum_witness in H2 as (name & d & Hd & ?). exists name, d. split; [done|lia]. }
    destruct (map_sum_witness dial_serving (dialers s)) as (name & d & Hd & ?); [lia|].
    exists name, d. split; [done|lia]. }
  assert (waits_for_others s \/ moves_alone s (EvDial name (inl io_EOF) failing 0) = true) as [?|Hm]; [|by left|].
  { unfold moves_alone. rewrite Hd. destruct pc as [| | | | | |q pc|res|res|]; try done; try by right.
    destruct (in_handshake pc) eqn:Hh; [left|by right]. exists (HDialer name), q, pc. split; [by econstructor|done]. }
  right. destruct (dial_progress s name b pc I Hpan Hd Hnz) as (s' & E & _).
  exists (EvDial name (inl io_EOF) failing 0), s'. by rewrite Hpan.
Qed.

(** The steps of everybody but the handler of one accepted connection. *)
Definition serves (id : nat) (e : pool_event) : bool := match e with EvServe id' _ => (id' =? id)%nat | _ => false end.

Definition step_without (id : nat) (s s' : sys) : Prop :=
  few s /\ exists e, serves id e = false /\ pool_exec e s = Some s'.

Lemma server_stays e s s' id :
  pool_exec e s = Some s' -> serves id e = false -> is_Some (servers s !! id) -> is_Some (servers s' !! id).
Proof.
  intros E He Hid. unfold pool_exec in E. destruct (panicked s); [done|].
  destruct e as [r| |id' h|name r h z|name d r rm| |id' rm|id'|name err rm|lerr o rm].
  - unfold accept_return in E. by cases.
  - unfold accept_move in E. cases; try done. simpl. apply lookup_insert_is_Some. destruct (decide (q_id q = id)); [by left|by right].
  - apply Nat.eqb_neq in He. unfold serve in E. destruct (servers s !! id') as [[q pc]|]; [|done].
    destruct pc; try (apply bind_Some in E as ([s1 pc'] & Ea & [= <-]); apply add_step_frame in Ea as [_ _ _ _ Fs _ _ _ _];
      simpl; by rewrite Fs, lookup_insert_ne).
    simplify_eq/=. by rewrite lookup_delete_ne.
  - unfold dial in E. apply bind_Some in E as ([b pc] & _ & (c & _ & E)%bind_Some).
    destruct pc as [| | | | | |q pc|res|res|];
      try (destruct pc; try (apply bind_Some in E as ([s1 pc'] & Ea & [= <-]); apply add_step_frame in Ea as [_ _ _ _ Fs _ _ _ _];
        simpl; by rewrite Fs));
      try (by cases).
    destruct res as [e|]; [destruct e|]; opt_inv; by cases.
  - unfold Listen in E. apply bind_Some in E as (pc & _ & (c & _ & E)%bind_Some).
    destruct pc; cases; try done; opt_inv; by cases.
  - unfold Receive in E. by destruct (msgs s); simplify_eq/=.
  - unfold watchConnection in E. opt_inv. by cases.
  - by simplify_eq.
  - unfold send_returns in E. opt_inv. by cases.
  - unfold Close in E. destruct (pcloser s) as [| | | |[|name todo] m|]; cases; try done; opt_inv; by cases.
Qed.

Lemma handlers_closed_stays h h' : steps handlers_step h h' -> h_closed h = true -> h_closed h' = true.
Proof.
  intros Hs Hc. revert Hs. apply (steps_invariant handlers_step (fun h => h_closed h = true)); [done|].
  intros x y Hx [Hlt|y' e E|b y' E| |y' E]; simpl; try done.
  - unfold addConnectionHandler in E. by cases.
  - unfold removeConnectionHandler in E. by cases.
  - unfold close_loop_exit in E. by cases.
Qed.

Section termination.
Context (host : string) (peers : list string) (b : Backoff) (buffer : nat).
Hypothesis peers_unique : NoDup peers.
Hypothesis peers_few : (Z.of_nat (length peers) < 2 ^ 62)%Z.
Abbreviation reachable := (reachable host peers b buffer).
Abbreviation facts := (reachable_facts host peers b buffer peers_unique peers_few).

Lemma reachable_step s s' e : reachable s -> few s -> pool_exec e s = Some s' -> reachable s'.
Proof. intros Hr Hf E. apply (steps_snoc _ _ s); [done|]. by split; eauto. Qed.

Lemma few_of_count s s' :
  handlers_inv (view s) -> handlers_inv (view s') -> (handlers_count s' <= handlers_count s)%Z -> few s -> few s'.
Proof.
  intros H H' Hle Hf. pose proof (hi_count _ H) as E. pose proof (hi_count _ H') as E'.
  unfold few in *. change (h_count (view s)) with (handlers_count s) in E.
  change (h_count (view s')) with (handlers_count s') in E'. lia.
Qed.

Lemma steps_cons s s1 s' e : few s -> pool_exec e s = Some s1 -> steps sys_step s1 s' -> steps sys_step s s'.
Proof. intros Hf E Hs. eapply steps_trans; [|exact Hs]. apply steps_one. by split; eauto. Qed.

(** The goroutines that are counted can be driven out. *)
Lemma drain s :
  reachable s -> panicked s = None -> closed s = true -> few s ->
  exists s', steps sys_step s s' /\ reachable s' /\ handlers_count s' = 0%Z /\ panicked s' = None /\
    pcloser s' = pcloser s /\ few s'.
Proof.
  remember (work_left s) as k eqn:Hk. revert s Hk. induction k as [k IH] using lt_wf_ind.
  intros s -> Hr Hpan Hcl Hf.
  destruct (decide (handlers_count s = 0%Z)) as [H0|H0]; [by exists s; eauto 10 using steps|].
  destruct (facts s Hr) as (I & _ & H & _).
  destruct (handler_progress s I H Hpan H0) as (e & s1 & He & E & Hp1 & Hle).
  destruct (handler_event_works _ _ _ Hcl He E) as [[w Hw]|Hlt]; [congruence|].
  pose proof (reachable_step _ _ _ Hr Hf E) as Hr1. destruct (facts s1 Hr1) as (_ & _ & H1 & _).
  pose proof (pool_exec_refines _ _ _ I Hf E) as [_ Hh].
  destruct (IH (work_left s1) Hlt s1 eq_refl Hr1 Hp1) as (s' & Hs & Hr' & Hz & Hp' & Hc' & Hf').
  { by apply (handlers_closed_stays _ _ Hh). }
  { exact (few_of_count s s1 H H1 Hle Hf). }
  exists s'. split; [|split; [done|split; [done|split; [done|split; [|done]]]]].
  - exact (steps_cons _ _ _ _ Hf E Hs).
  - rewrite Hc'. eapply exec_closer; [done|]. by destruct e.
Qed.

(** Past its loop, [Close] goes through the connections. *)
Lemma close_conns todo m s :
  reachable s -> panicked s = None -> pcloser s = PConns todo m -> few s ->
  exists s' res, steps sys_step s s' /\ pcloser s' = PDone res.
Proof.
  revert m s. induction todo as [|name todo IH]; intros m s Hr Hpan Hp Hf.
  { exists (set_closer (PDone (MultiErr_result m)) s), (MultiErr_result m). split; [|done].
    apply steps_one. split; [done|]. exists (EvPoolClose None [] ("", None)).
    unfold pool_exec, Close. by rewrite Hpan, Hp. }
  destruct (facts s Hr) as (I & P & _ & Hci). unfold close_inv in Hci. rewrite Hp in Hci.
  destruct Hci as [[[c Hc] _]%Forall_cons _].
  destruct (Connection.Close (Some (ErrConn connErrClosed)) (ctx_err s c) ("", None) c (activeConnections (base s)))
    as [[[c' a] res] code] eqn:EC.
  assert (is_panic res = false) as Hnp.
  { unfold Connection.Close in EC. case_bool_decide as Hd; simplify_eq; [done|].
    destruct (pi_status _ P _ _ Hc) as [?|Ha]; [done|].
    destruct (ci_alive _ _ _ (si_conn _ I) _ _ Hc Ha) as (id & Hid & _). rewrite Hid in EC.
    destruct (ctx_err s c); simplify_eq/=; done. }
  assert (exists s1 m1, pool_exec (EvPoolClose None [] ("", None)) s = Some s1 /\ pcloser s1 = PConns todo m1 /\
    panicked s1 = None /\ view s1 = view s) as (s1 & m1 & E & Hp1 & Hpan1 & Hv).
  { unfold pool_exec, Close. rewrite Hpan, Hp, Hc. simpl. rewrite EC.
    destruct res as [u|e|w]; [| |done]; eexists _, _; (split; [done|]); (split; [done|]); (split; [done|]);
      unfold view; simpl; by rewrite Hp. }
  destruct (IH m1 s1) as (s' & r & Hs & Hd); [by eapply reachable_step|done|done|unfold few; by rewrite Hv|].
  exists s', r. split; [exact (steps_cons _ _ _ _ Hf E Hs)|done].
Qed.

Lemma close_from_listener s :
  reachable s -> panicked s = None -> few s -> pcloser s = PListener ->
  exists s' res, steps sys_step s s' /\ pcloser s' = PDone res.
Proof.
  intros Hr Hpan Hf Hp. set (order := (map_to_list (pool (base s))).*1).
  assert (pool_exec (EvPoolClose None order ("", None)) s = Some (set_closer (PConns order MultiErr_new) s)) as E.
  { unfold pool_exec, Close. by rewrite Hpan, Hp, bool_decide_eq_true_2. }
  destruct (close_conns order MultiErr_new (set_closer (PConns order MultiErr_new) s)) as (s' & r & Hs & Hd);
    [by eapply reachable_step|done|done|exact Hf|].
  exists s', r. split; [exact (steps_cons _ _ _ _ Hf E ltac:(eassumption))|done].
Qed.

Lemma close_from_wait s :
  reachable s -> panicked s = None -> few s -> closed s = true -> pcloser s = PWait ->
  exists s' res, steps sys_step s s' /\ pcloser s' = PDone res.
Proof.
  intros Hr Hpan Hf Hcl Hp. destruct (drain s) as (s1 & Hs & Hr1 & H0 & Hpan1 & Hp1 & Hf1); try done.
  rewrite Hp in Hp1.
  assert (pool_exec (EvPoolClose None [] ("", None)) s1 = Some (set_closer PListener s1)) as E.
  { unfold pool_exec, Close. by rewrite Hpan1, Hp1, H0. }
  destruct (close_from_listener (set_closer PListener s1)) as (s' & r & Hs' & Hd);
    [by eapply reachable_step|done|exact Hf1|done|].
  exists s', r. split; [|done]. exact (steps_trans _ _ _ _ Hs (steps_cons _ _ _ _ Hf1 E Hs')).
Qed.

(** A handler that stays where it is keeps [Close] in its loop. *)
Lemma stuck_handler_keeps_waiting s id s' :
  reachable s -> pcloser s = PWait -> is_Some (servers s !! id) -> steps (step_without id) s s' -> pcloser s' = PWait.
Proof.
  intros Hr Hp Hid Hs.
  enough (reachable s' /\ pcloser s' = PWait /\ is_Some (servers s' !! id)) by tauto. revert Hs.
  apply (steps_invariant (step_without id) (fun s => reachable s /\ pcloser s = PWait /\ is_Some (servers s !! id))); [done|].
  intros x y (Hx & Hpx & Hix) (Hf & e & He & E). split; [by eapply reachable_step|].
  split; [|by eapply server_stays]. destruct (is_close e) eqn:Hc; [|by rewrite (exec_closer _ _ _ E Hc)].
  destruct e; try done. unfold pool_exec, Close in E. rewrite Hpx in E. destruct (panicked x); [done|].
  destruct (Z.eqb_spec (handlers_count x) 0) as [H0|]; [|done]. destruct (facts x Hx) as (_ & _ & H & _).
  destruct Hix as [a Ha]. pose proof (map_sum_pos one _ _ _ Ha). pose proof (hi_count _ H) as Hcount. simpl in Hcount.
  unfold one in *. lia.
Qed.

(** C14: What [Close] waits for. In its waiting loop it waits for nothing but handshakes:
    as long as the counter is not zero, a goroutine is inside a handshake, depending on
    the peer or on the mutex of a connection, or some counted goroutine can move by
    itself, and every step of the accept loop, the connection handlers and the dial loops
    leaves them less to do, so they cannot keep it waiting by running on. If the
    handshakes return, [Close] can run to its end. If one of them does not, as when the
    peer opens the stream of the resolution and never sends the size header, [Close] does
    not leave its loop, whatever the other goroutines do. *)
Theorem Close_waits_only_for_handshakes s :
  reachable s -> panicked s = None -> few s -> pcloser s = PWait ->
  (handlers_count s <> 0%Z ->
     waits_for_others s \/ exists e s', moves_alone s e = true /\ pool_exec e s = Some s') /\
  (forall e s', handler_event e = true -> pool_exec e s = Some s' ->
     is_Some (panicked s') \/ work_left s' < work_left s) /\
  (exists s' res, steps sys_step s s' /\ pcloser s' = PDone res) /\
  (forall id s', is_Some (servers s !! id) -> steps (step_without id) s s' -> pcloser s' = PWait).
Proof.
  intros Hr Hpan Hf Hp. destruct (facts s Hr) as (I & _ & H & _).
  assert (closed s = true) as Hcl by (apply (hi_closed _ H); simpl; by rewrite Hp).
  split; [by apply counted_goroutines_move|]. split; [intros e s'; by apply handler_event_works|].
  split; [by apply close_from_wait|]. intros id s'. by apply stuck_handler_keeps_waiting.
Qed.
End termination.

(** ** Dial loops and the back-off timer *)

Definition backoff_moves (b b' : Backoff) : Prop :=
  b' = b \/ (exists z v, Next b z = Some (Ok (b', v))) \/ Backoff.Reset b = Some b'.

(** Only its own events move a dial loop, and they use the back-off by its methods. *)
Definition dialer_moved (e : pool_event) (s s' : sys) : Prop :=
  dialers s' = dialers s \/
  exists name r h z b pc b' pc', e = EvDial name r h z /\ dialers s !! name = Some (b, pc) /\
    dialers s' = <[name := (b', pc')]> (dialers s) /\ backoff_moves b b'.

Lemma dial_moves name r h z s s' : dial name r h z s = Some s' -> dialer_moved (EvDial name r h z) s s'.
Proof.
  unfold dial. intros ([b pc] & Hd & (c & _ & E)%bind_Some)%bind_Some.
  assert (forall b' pc' x, s' = set_dialer name b' pc' x -> dialers x = dialers s -> backoff_moves b b' ->
    dialer_moved (EvDial name r h z) s s') as Hset.
  { intros b' pc' x -> Hx Hb. right. exists name, r, h, z, b, pc, b', pc'. simpl. by rewrite Hx. }
  assert (backoff_moves b b) as Hbb by (by left).
  destruct pc as [| | | | | |q pc|res|res|].
  1-6, 8: cases; by eapply Hset.
  - destruct pc; try (apply bind_Some in E as ([s1 pc'] & Ea & [= <-]); apply add_step_frame in Ea;
      by eapply Hset; [done|apply (fr_dialers _ _ Ea)|done]). by simplify_eq; eapply Hset.
  - destruct res as [e|].
    + destruct e; cases; first [by left | by eapply Hset | eapply Hset; [done|done|right; left; by eauto]].
    + apply bind_Some in E as (b' & Hb & [= <-]). eapply Hset; [done|done|by right; right].
  - done.
Qed.

Lemma exec_dialers e s s' : pool_exec e s = Some s' -> dialer_moved e s s'.
Proof.
  intros E. unfold pool_exec in E. destruct (panicked s); [done|].
  destruct e as [r| |id h|n r h z|n d r rm| |id rm|id|n err rm|lerr o rm];
    try (by apply dial_moves); left.
  - unfold accept_return in E. by cases.
  - unfold accept_move in E. by cases.
  - unfold serve in E. destruct (servers s !! id) as [[q pc]|]; [|done].
    destruct pc; try (apply bind_Some in E as ([s1 pc'] & Ea & [= <-]); apply add_step_frame in Ea;
      apply (fr_dialers _ _ Ea)). by simplify_eq.
  - unfold Listen in E. apply bind_Some in E as (pc & _ & (c & _ & E)%bind_Some).
    destruct pc; cases; try done; opt_inv; by cases.
  - unfold Receive in E. by destruct (msgs s); simplify_eq/=.
  - unfold watchConnection in E. opt_inv. by cases.
  - by simplify_eq.
  - unfold send_returns in E. opt_inv. by cases.
  - unfold Close in E. destruct (pcloser s) as [| | | |[|m todo] me|res]; cases; try done. opt_inv. by cases.
Qed.

(** The timer is either not there or has fired and been drained. *)
Definition spent (b : Backoff) : Prop := b_timer b = None \/ b_timer b = Some (mkTimer false false).

Lemma spent_moves b b' : spent b -> backoff_moves b b' -> spent b'.
Proof.
  intros Hs [->|[(z & v & E)|E]]; [done| |].
  - unfold Next in E. destruct (f_is_zero _); [by simplify_eq/=; right|].
    destruct (next b z); [|done..]. destruct Hs as [Hs|Hs]; rewrite Hs in E; simplify_eq/=. by right.
  - unfold Backoff.Reset in E. destruct Hs as [Hs|Hs]; rewrite Hs in E; simplify_eq/=. by left.
Qed.

Section dialling.
Context (host : string) (peers : list string) (b : Backoff) (buffer : nat).
Hypothesis fresh : b_timer b = None.
Abbreviation reachable := (reachable host peers b buffer).

Lemma reachable_spent s : reachable s -> forall name d, dialers s !! name = Some d -> spent d.1.
Proof.
  apply (steps_invariant sys_step (fun s => forall name d, dialers s !! name = Some d -> spent d.1)).
  - intros name d Hd%elem_of_list_to_map_2. apply list_elem_of_fmap in Hd as (p & [= -> ->] & _). by left.
  - intros x y IH (_ & e & E) name d'.
    destruct (exec_dialers _ _ _ E) as [->|(n & r & h & z & b0 & pc & b' & pc' & _ & Hd & -> & Hm)]; [apply IH|].
    intros [[<- <-]|[_ H]]%lookup_insert_Some; [|by eapply IH].
    eapply spent_moves; [|done]. exact (IH _ _ Hd).
Qed.

(** C36: A dial loop that has waited once in its back-off and then succeeds never dials
    again: it stays in [Reset] whatever happens, also when the connection it made is
    lost. *)
Theorem recovered_dialer_never_dials_again s s' name b1 :
  reachable s -> dialers s !! name = Some (b1, DResult None) -> b_timer b1 <> None ->
  steps sys_step s s' -> dialers s' !! name = Some (b1, DResult None).
Proof.
  intros Hr Hd Ht Hs. assert (Backoff.Reset b1 = None) as Hreset.
  { destruct (reachable_spent _ Hr _ _ Hd) as [H|H]; [done|]. simpl in H. unfold Backoff.Reset. by rewrite H. }
  revert Hs. apply (steps_invariant sys_step (fun s => dialers s !! name = Some (b1, DResult None))); [done|].
  intros x y Hx (_ & e & E). pose proof (exec_dialers _ _ _ E) as Hm.
  destruct Hm as [->|(n & r & h & z & b0 & pc & b' & pc' & -> & Hn & -> & _)]; [done|].
  destruct (decide (n = name)) as [->|Hne]; [|by rewrite lookup_insert_ne].
  exfalso. unfold pool_exec, dial in E. destruct (panicked x); [done|]. rewrite Hx in E. simpl in E.
  destruct (pool (base x) !! name); [|done]. simpl in E. by rewrite Hreset in E.
Qed.
End dialling.

(** ** Ranges *)

Definition buffer_ok (s s' : sys) : Prop :=
  capacity s' = capacity s /\ (length (msgs s') <= length (msgs s) \/ length (msgs s') <= capacity s).

Lemma buffer_same s s' : capacity s' = capacity s -> msgs s' = msgs s -> buffer_ok s s'.
Proof. intros H1 H2. split; [done|]. left. by rewrite H2. Qed.

Lemma add_step_buffer persp q pc h s s' pc' :
  add_step persp q pc h s = Some (s', pc') -> capacity s' = capacity s /\ msgs s' = msgs s.
Proof. unfold add_step. intros E. destruct pc; simpl in E; opt_inv; by cases. Qed.

Lemma exec_buffer e s s' : pool_exec e s = Some s' -> buffer_ok s s'.
Proof.
  intros E. unfold pool_exec in E. destruct (panicked s); [done|].
  destruct e as [r| |id h|n r h z|n d r rm| |id rm|id|n err rm|lerr o rm].
  - unfold accept_return in E. cases; by apply buffer_same.
  - unfold accept_move in E. cases; by apply buffer_same.
  - unfold serve in E. destruct (servers s !! id) as [[q pc]|]; [|done].
    destruct pc; try (apply bind_Some in E as ([s1 pc'] & Ea & [= <-]); apply add_step_buffer in Ea as [??];
      by apply buffer_same). simplify_eq. by apply buffer_same.
  - unfold dial in E. apply bind_Some in E as ([b pc] & _ & (c & _ & E)%bind_Some).
    destruct pc as [| | | | | |q pc|res|res|].
    1-6, 8, 10: cases; by apply buffer_same.
    + destruct pc; try (apply bind_Some in E as ([s1 pc'] & Ea & [= <-]); apply add_step_buffer in Ea as [??];
        by apply buffer_same). simplify_eq. by apply buffer_same.
    + destruct res as [e|]; [destruct e|]; opt_inv; cases; by apply buffer_same.
  - unfold Listen in E. apply bind_Some in E as (pc & _ & (c & _ & E)%bind_Some).
    destruct pc as [| | | |m|]; [..|done]; try (cases; opt_inv; cases; by apply buffer_same).
    destruct (Nat.ltb_spec (length (msgs s)) (capacity s)); simplify_eq. split; [done|]. right. simpl.
    rewrite length_app. simpl. lia.
  - unfold Receive in E. destruct (msgs s) as [|m l] eqn:Hm; simplify_eq/=. split; [done|]. left. simpl. rewrite Hm. simpl. lia.
  - unfold watchConnection in E. opt_inv. cases; by apply buffer_same.
  - simplify_eq. by apply buffer_same.
  - unfold send_returns in E. opt_inv. cases; by apply buffer_same.
  - unfold Close in E. destruct (pcloser s) as [| | | |[|m todo] me|res]; cases; try (by apply buffer_same).
    opt_inv. cases; by apply buffer_same.
Qed.

Section ranges.
Context (host : string) (peers : list string) (b : Backoff) (buffer : nat).
Hypothesis peers_unique : NoDup peers.
Hypothesis peers_few : (Z.of_nat (length peers) < 2 ^ 62)%Z.

(** C19: The counters of a running pool hold numbers of things: live connections, at most
    one per peer; handlers at work; and at most as many messages are buffered as the
    configuration allows. None of the atomic counters wraps around. *)
Theorem pool_counters_in_range s :
  reachable host peers b buffer s ->
  (0 <= activeConnections (base s) <= Z.of_nat (length peers))%Z /\
  handlers_count s = Z.of_nat (entering (view s) + refused (view s) + serving (view s)) /\
  length (msgs s) <= buffer.
Proof.
  intros Hr. destruct (reachable_facts _ _ _ _ peers_unique peers_few s Hr) as (_ & P & H & _).
  destruct (reachable_refines _ _ _ _ peers_unique peers_few s Hr) as (_ & Hp & _).
  destruct (reachable_pool_inv _ _ _ peers_unique peers_few Hp) as [_ Hsz].
  split; [|split].
  - rewrite (pi_active _ P), <- Hsz. apply live_count_bound.
  - apply (hi_count _ H).
  - enough (capacity s = buffer /\ length (msgs s) <= capacity s) as [? ?] by lia. revert Hr.
    apply (steps_invariant sys_step (fun s => capacity s = buffer /\ length (msgs s) <= capacity s)); [simpl; split; [done|lia]|].
    intros x y [Hc Hl] (_ & e & E). destruct (exec_buffer _ _ _ E) as [Hc' [?|?]]; split; lia.
Qed.
End ranges.

(** ** Concrete schedules *)

Definition few_b (s : sys) : bool :=
  (Z.of_nat (entering (view s) + refused (view s) + serving (view s)) <? 2 ^ 62)%Z.

Fixpoint guarded_run (s : sys) (es : list pool_event) : option sys :=
  match es with
  | [] => Some s
  | e :: es => if few_b s then s' ← pool_exec e s; guarded_run s' es else None
  end.

Lemma guarded_run_steps es s s' : guarded_run s es = Some s' -> steps sys_step s s'.
Proof.
  revert s. induction es as [|e es IH]; intros s E; simpl in E; [simplify_eq; apply steps_refl|].
  destruct (few_b s) eqn:Hf; [|done]. apply bind_Some in E as (s1 & E1 & E2).
  eapply steps_trans; [|by apply IH]. apply steps_one. split; [by apply Z.ltb_lt|eauto].
Qed.

Definition two_peers : list string := ["Legolas"; "Gimli"].
Definition start : sys := Run "Aragorn" two_peers shipped_backoff 2.

Definition to_gimli (n : nat) : qconn := mkQconn n ["Gimli"].

(** The peer answers the resolution with the same counter. *)
Definition agreed (byte : byte) : handshake := mkHandshake None (Ok [byte]) ("localhost:9005", None).

Definition dial_gimli (r : error + qconn) (h : handshake) : pool_event := EvDial "Gimli" r h 3.

(** The first dial fails, the second one makes connection 7. *)
Definition recovering : list pool_event :=
  repeat (dial_gimli (inl io_EOF) failing) 6 ++ repeat (dial_gimli (inr (to_gimli 7)) (agreed Byte.x41)) 9.

Definition after (es : list pool_event) : sys := default start (guarded_run start es).

Definition recovered : sys := after recovering.

Example recovered_state :
  guarded_run start recovering = Some recovered /\
  (snd <$> dialers recovered !! "Gimli") = Some (DResult None) /\
  activeConnections (base recovered) = 1%Z /\ watchers recovered !! 7 = Some "Gimli".
Proof. vm_compute. by repeat split. Qed.

(** Connection 7 ends; its watcher runs. *)
Definition losing : list pool_event := [EvLost 7; EvWatch 7 ("localhost:9005", None)].
Definition lost : sys := after (recovering ++ losing).

(** The pool is closed while a connection is being accepted; all six parts of [Close]. *)
Definition closing : list pool_event :=
  [EvAccept (inr (to_gimli 8)); EvAcceptMove; EvPoolClose None [] ("", None); EvPoolClose None [] ("", None);
   EvAcceptMove; EvAcceptMove; EvPoolClose None [] ("", None);
   EvPoolClose None ["Legolas"; "Gimli"] ("", None); EvPoolClose None [] ("", None);
   EvPoolClose None [] ("localhost:9005", None); EvPoolClose None [] ("", None)].
Definition shut : sys := after (recovering ++ closing).

Lemma after_reachable es :
  bool_decide (is_Some (guarded_run start es)) = true -> reachable "Aragorn" two_peers shipped_backoff 2 (after es).
Proof.
  intros [s Hs]%bool_decide_eq_true. unfold after. rewrite Hs. simpl. by apply guarded_run_steps in Hs.
Qed.

Lemma two_peers_unique : NoDup two_peers.
Proof. by apply (bool_decide_eq_true_1 (NoDup two_peers)). Qed.

Lemma two_peers_few : (Z.of_nat (length two_peers) < 2 ^ 62)%Z.
Proof. done. Qed.

Lemma goroutines_refine_the_pool_witness :
  steps pool_step (NewPool "Aragorn" two_peers) (base recovered) /\ steps handlers_step handlers_init (view recovered) /\
  activeConnections (base recovered) = 1%Z.
Proof.
  destruct (goroutines_refine_the_pool "Aragorn" two_peers shipped_backoff 2 two_peers_unique two_peers_few recovered)
    as [H1 H2]; [apply after_reachable; vm_compute; reflexivity|].
  split; [exact H1|]. split; [exact H2|]. vm_compute. reflexivity.
Defined.

Lemma closed_pool_stays_dead_witness :
  pcloser shut = PDone None /\ activeConnections (base shut) = 0%Z /\ serving (view shut) = 0 /\
  forall n c, pool (base shut) !! n = Some c -> c_status c = StatusDead.
Proof.
  apply (closed_pool_stays_dead "Aragorn" two_peers shipped_backoff 2 two_peers_unique two_peers_few shut shut None).
  - apply after_reachable. vm_compute. reflexivity.
  - vm_compute. reflexivity.
  - apply steps_refl.
Defined.

Definition gimli_up : Connection := default (NewConnection "" "") (pool (base recovered) !! "Gimli").

Lemma lost_connections_are_noticed_witness :
  exists s' c', pool_exec (EvWatch 7 ("localhost:9005", None)) (after (recovering ++ [EvLost 7])) = Some s' /\
    panicked s' = None /\ pool (base s') !! "Gimli" = Some c' /\ c_status c' = StatusDead.
Proof.
  apply (lost_connections_are_noticed "Aragorn" two_peers shipped_backoff 2 two_peers_unique two_peers_few
    (after (recovering ++ [EvLost 7])) "Gimli" gimli_up 7 ("localhost:9005", None)).
  - apply after_reachable. vm_compute. reflexivity.
  - vm_compute. reflexivity.
  - vm_compute. reflexivity.
  - vm_compute. reflexivity.
  - vm_compute. reflexivity.
  - by apply (bool_decide_eq_true_1 (7 ∈ gone (after (recovering ++ [EvLost 7])))).
Defined.

(** [Close] waits: a connection of Legolas is being resolved, the dialler of Legolas is at
    work. *)
Definition closing_busy : sys :=
  after (recovering ++ [EvAccept (inr (mkQconn 8 ["Legolas"])); EvAcceptMove; EvAcceptMove; EvServe 8 failing;
    EvDial "Legolas" (inl io_EOF) failing 0; EvDial "Legolas" (inl io_EOF) failing 0;
    EvPoolClose None [] ("", None); EvPoolClose None [] ("", None)]).

Example closing_busy_state :
  handlers_count closing_busy = 2%Z /\ (snd <$> servers closing_busy !! 8) = Some (AddResolve "Legolas").
Proof. vm_compute. by split. Qed.

Lemma Close_waits_only_for_handshakes_witness :
  (waits_for_others closing_busy \/ exists e s', moves_alone closing_busy e = true /\ pool_exec e closing_busy = Some s') /\
  (exists s' res, steps sys_step closing_busy s' /\ pcloser s' = PDone res) /\
  (forall s', steps (step_without 8) closing_busy s' -> pcloser s' = PWait).
Proof.
  destruct (Close_waits_only_for_handshakes "Aragorn" two_peers shipped_backoff 2 two_peers_unique two_peers_few closing_busy)
    as (Hmove & _ & Hend & Hstuck).
  - apply after_reachable. vm_compute. reflexivity.
  - vm_compute. reflexivity.
  - apply Z.ltb_lt. vm_compute. reflexivity.
  - vm_compute. reflexivity.
  - split; [apply Hmove; vm_compute; discriminate|]. split; [exact Hend|].
    intros s'. apply (Hstuck 8 s'). apply (bool_decide_eq_true_1 (is_Some (servers closing_busy !! 8))). vm_compute. reflexivity.
Defined.

Definition recovered_backoff : Backoff := default shipped_backoff (fst <$> dialers recovered !! "Gimli").

Lemma recovered_dialer_never_dials_again_witness :
  dialers lost !! "Gimli" = Some (recovered_backoff, DResult None) /\
  (c_status <$> pool (base lost) !! "Gimli") = Some StatusDead.
Proof.
  split; [|vm_compute; reflexivity].
  apply (recovered_dialer_never_dials_again "Aragorn" two_peers shipped_backoff 2 eq_refl recovered lost "Gimli" recovered_backoff).
  - apply after_reachable. vm_compute. reflexivity.
  - vm_compute. reflexivity.
  - vm_compute. discriminate.
  - apply (guarded_run_steps losing). vm_compute. reflexivity.
Defined.

Lemma pool_counters_in_range_witness :
  (0 <= activeConnections (base recovered) <= 2)%Z /\
  handlers_count recovered = Z.of_nat (entering (view recovered) + refused (view recovered) + serving (view recovered)) /\
  length (msgs recovered) <= 2.
Proof.
  apply (pool_counters_in_range "Aragorn" two_peers shipped_backoff 2 two_peers_unique two_peers_few recovered).
  apply after_reachable. vm_compute. reflexivity.
Defined.
