(* ===== verification/Settings.v ===== *)
(** * The configuration as a whole ([config/config.go])

    The structs of the configuration with their validation tags, the reading of a
    configuration and the embedded default. Decoding of JSON is an answer of the
    environment; the validator (go-playground/validator) is an interface whose law is
    that it accepts exactly what the tags describe. *)

From S2P Require Import Prelude Errors Path Protobuf Backoff Config.
From Stdlib Require Import SpecFloat.

(** ** The structs. A pointer that the document leaves out is [None]. *)

Record BackoffConf := mkBackoffConf {
  bc_Factor : spec_float;
  bc_MaxFactorJitter : spec_float;
  bc_Initial : Z;
  bc_Max : Z;
}.

Record TLS := mkTLS { Version : string; CAPath : string; CertPath : string; KeyPath : string }.

Record ConnectionConf := mkConnectionConf {
  DialBackoff : BackoffConf;
  MessageBufferSize : Z;
  SendRecvTimeout : Z;
  HandshakeTimeout : Z;
  Network : string;
  Compression : string;
  cc_TLS : TLS;
}.

Record Paths := mkPaths { FuseDir : string; MirrorDir : string }.

Record Config := mkConfig {
  HostName : string;
  cf_Connection : option ConnectionConf;
  cf_Peers : list Peer;
  cf_Paths : option Paths;
  cf_Logging : option string;
  ReplicationTimeout : Z;
}.

(** ** The tags *)

Definition required (s : string) : bool := negb (String.eqb s "").
Definition oneof (options : list string) (s : string) : bool := existsb (String.eqb s) options.
Definition positive_required (z : Z) : bool := negb (z =? 0)%Z && (0 <? z)%Z.

(** [required] on a number excludes zero. *)
Definition f_ge (x y : spec_float) : bool := SFleb y x.

Definition Backoff_rules (b : BackoffConf) : bool :=
  negb (f_is_zero (bc_Factor b)) && f_ge (bc_Factor b) (f_of_Z 1) &&
  negb (f_is_zero (bc_MaxFactorJitter b)) && f_ge (bc_MaxFactorJitter b) (f_of_Z 0) &&
  positive_required (bc_Initial b) && positive_required (bc_Max b) && (bc_Initial b <=? bc_Max b)%Z.

Definition TLS_rules (t : TLS) : bool :=
  required (Version t) && oneof ["1.3"; "1.2"; "1.1"; "1.0"] (Version t) &&
  required (CAPath t) && required (CertPath t) && required (KeyPath t).

Definition Connection_rules (c : ConnectionConf) : bool :=
  Backoff_rules (DialBackoff c) && positive_required (MessageBufferSize c) &&
  positive_required (SendRecvTimeout c) && positive_required (HandshakeTimeout c) &&
  required (Network c) && oneof ["tcp"; "quic"] (Network c) &&
  required (Compression c) &&
  oneof ["NoCompression"; "BestSpeed"; "BestCompression"; "DefaultCompression"; "HuffmanOnly"] (Compression c) &&
  TLS_rules (cc_TLS c).

Definition Paths_rules (p : Paths) : bool := required (FuseDir p) && required (MirrorDir p).

Definition Logging_rules (level : string) : bool :=
  required level && oneof ["trace"; "debug"; "info"; "warn"; "error"; "fatal"; "panic"; "disabled"] level.

Definition present {A} (rules : A -> bool) (o : option A) : bool :=
  match o with Some a => rules a | None => false end.

(** The list of peers has no [dive] tag: its entries are not looked into. *)
Definition Config_rules (c : Config) : bool :=
  required (HostName c) && present Connection_rules (cf_Connection c) &&
  (0 <? length (cf_Peers c))%nat && bool_decide (NoDup (peer_Name <$> cf_Peers c)) &&
  present Paths_rules (cf_Paths c) && present Logging_rules (cf_Logging c).

Class Validator := {
  validate_Struct : Config -> option error;
  validate_ok : forall c, validate_Struct c = None <-> Config_rules c = true;
}.

Definition Validate `{Validator} (c : Config) : option error :=
  (fun e => ErrWrap e "validation failed for config") <$> validate_Struct c.

(** ** Reading *)

(** [decoded] is the result of [json.Unmarshal], [usr] that of [user.Current]. The
    paths are expanded before anything is validated; [log.Fatal] ends the process. *)
Definition MustUnmarshalConfig (usr : error + string) (decoded : error + Config) : outcome Empty_set Config :=
  match decoded with
  | inl _ => Panics "failed to read config.json"
  | inr c =>
      match cf_Paths c with
      | None => Panics "nil Paths"
      | Some p =>
          match expandHome usr (FuseDir p), expandHome usr (MirrorDir p) with
          | Ok fuse, Ok mirror =>
              Ok (mkConfig (HostName c) (cf_Connection c) (cf_Peers c) (Some (mkPaths fuse mirror))
                    (cf_Logging c) (ReplicationTimeout c))
          | _, _ => Panics "failed to expand home"
          end
      end
  end.

(** [opened] and [raw] are the results of [os.Open] and [io.ReadAll]. *)
Definition Read (opened : option error) (raw : error + list byte) (unmarshal : list byte -> error + Config)
    (usr : error + string) : outcome Empty_set Config :=
  match opened, raw with
  | Some _, _ => Panics "failed to open config file"
  | None, inl _ => Panics "failed to read config file contents"
  | None, inr raw => MustUnmarshalConfig usr (unmarshal raw)
  end.

(** [config.json]. Its [replication_timeout] has no field: the tag of the field is
    [replicationTimeout]. *)
Definition default_peers : list Peer :=
  [mkPeer "Aragorn" "localhost:9001"; mkPeer "Legolas" "localhost:9002"; mkPeer "Frodo" "localhost:9003";
   mkPeer "Gandalf" "localhost:9004"; mkPeer "Gimli" "localhost:9005"].

Definition defaultConfig : Config :=
  mkConfig "Aragorn"
    (Some (mkConnectionConf (mkBackoffConf f_1_3 f_0_2 100000000 30000000000) 10000 60000000000 5000000000
      "tcp" "DefaultCompression"
      (mkTLS "1.3" "connection/cert/ca.crt" "connection/cert/Aragorn.crt" "connection/cert/Aragorn.key")))
    default_peers (Some (mkPaths "~/other/rfs/virtual" "~/other/rfs/contents")) (Some "info") 0.

Definition Default (usr : error + string) : outcome Empty_set Config := MustUnmarshalConfig usr (inr defaultConfig).

(** ** What validation is good for *)

Lemma oneof_In l s : oneof l s = true <-> s ∈ l.
Proof.
  unfold oneof. rewrite existsb_elem. split.
  - by intros (x & Hx & ->%String.eqb_eq).
  - intros Hs. exists s. by rewrite String.eqb_refl.
Qed.

Lemma positive_required_spec z : positive_required z = true <-> (0 < z)%Z.
Proof. unfold positive_required. destruct (Z.eqb_spec z 0), (Z.ltb_spec 0 z); simpl; split; try done; lia. Qed.

(** What the rest of the program relies on. *)
Record sound_connection (c : ConnectionConf) : Prop := {
  sc_level : exists level, SetCompression (Compression c) = Some level /\ gzip_valid_level level = true;
  sc_tls : (769 <= GetTLSVersion (Version (cc_TLS c)) <= 772)%Z;
  sc_buffer : (0 < MessageBufferSize c)%Z;
  sc_timeouts : (0 < SendRecvTimeout c)%Z /\ (0 < HandshakeTimeout c)%Z;
  sc_backoff : (0 < bc_Initial (DialBackoff c) <= bc_Max (DialBackoff c))%Z;
}.

Lemma Connection_rules_sound c : Connection_rules c = true -> sound_connection c.
Proof.
  unfold Connection_rules, Backoff_rules, TLS_rules. rewrite !andb_true_iff, !positive_required_spec, !oneof_In, Z.leb_le.
  intros ((((((((B & Hbuf) & Hsr) & Hhs) & _) & _) & _) & Hcmp) & ((((_ & Hver) & _) & _) & _)).
  destruct B as ((((((_ & _) & _) & _) & Hi) & _) & Him). split; [|..|lia].
  - assert (is_Some (SetCompression (Compression c))) as [level Hl].
    { repeat (apply elem_of_cons in Hcmp as [->|Hcmp]; [by eexists|]). inversion Hcmp. }
    exists level. split; [done|by eapply SetCompression_valid].
  - repeat (apply elem_of_cons in Hver as [->|Hver]; [done|]). inversion Hver.
  - done.
  - done.
Qed.

Lemma validated_sound `{Validator} c :
  Validate c = None ->
  (exists conn, cf_Connection c = Some conn /\ sound_connection conn) /\
  (exists p, cf_Paths c = Some p /\ FuseDir p <> "" /\ MirrorDir p <> "") /\
  cf_Peers c <> [] /\ NoDup (peer_Name <$> cf_Peers c).
Proof.
  unfold Validate. intros Hv%fmap_None%validate_ok. unfold Config_rules in Hv.
  rewrite !andb_true_iff in Hv. destruct Hv as (((((_ & Hc) & Hlen) & Hnd) & Hp) & _).
  destruct (cf_Connection c) as [conn|]; [|done]. destruct (cf_Paths c) as [p|]; [|done].
  split; [|split; [|split]].
  - exists conn. split; [done|by apply Connection_rules_sound].
  - exists p. unfold present, Paths_rules, required in Hp. rewrite andb_true_iff, !negb_true_iff, !String.eqb_neq in Hp. by destruct Hp.
  - by destruct (cf_Peers c).
  - by apply bool_decide_eq_true in Hnd.
Qed.

(** C21: A configuration that passes [Validate] has what the rest of the program relies on:
    a known compression level, a TLS version, a buffer, timeouts that do expire, a
    back-off whose bounds are in order, and uniquely named peers. *)
Theorem validated_config_is_sound `{Validator} c :
  Validate c = None ->
  (exists conn, cf_Connection c = Some conn /\ sound_connection conn) /\
  (exists p, cf_Paths c = Some p /\ FuseDir p <> "" /\ MirrorDir p <> "") /\
  cf_Peers c <> [] /\ NoDup (peer_Name <$> cf_Peers c).
Proof. apply validated_sound. Qed.

(** ** The validator as its rules, and what it misses *)

#[export] Instance rules_validator : Validator.
Proof.
  refine {| validate_Struct := fun c => if Config_rules c then None else Some (ErrNew "rules") |}.
  intros c. by destruct (Config_rules c).
Defined.

Lemma validated_config_is_sound_witness :
  Validate defaultConfig = None /\
  (exists conn, cf_Connection defaultConfig = Some conn /\ sound_connection conn) /\
  (exists p, cf_Paths defaultConfig = Some p /\ FuseDir p <> "" /\ MirrorDir p <> "") /\
  cf_Peers defaultConfig <> [] /\ NoDup (peer_Name <$> cf_Peers defaultConfig).
Proof.
  split; [vm_compute; reflexivity|]. apply (validated_config_is_sound defaultConfig). vm_compute. reflexivity.
Defined.

Definition with_peers (ps : list Peer) (c : Config) : Config :=
  mkConfig (HostName c) (cf_Connection c) ps (cf_Paths c) (cf_Logging c) (ReplicationTimeout c).

Definition with_jitter (j : spec_float) (c : Config) : Config :=
  mkConfig (HostName c)
    ((fun k => mkConnectionConf
       (mkBackoffConf (bc_Factor (DialBackoff k)) j (bc_Initial (DialBackoff k)) (bc_Max (DialBackoff k)))
       (MessageBufferSize k) (SendRecvTimeout k) (HandshakeTimeout k) (Network k) (Compression k) (cc_TLS k))
     <$> cf_Connection c) (cf_Peers c) (cf_Paths c) (cf_Logging c) (ReplicationTimeout c).

(** What passes and should not, and what should pass and does not: a peer without name
    and address, a jitter on which the second failed dial panics, the jitter zero that
    the documentation offers to turn it off, and a host name that is no peer. *)
Theorem validation_gaps :
  Validate (with_peers [mkPeer "" ""] defaultConfig) = None /\
  Validate (with_jitter f_0_005 defaultConfig) = None /\
  waits (NewBackoff f_1_3 f_0_005 100000000 30000000000) [0; 0]%Z = Some (Panics "invalid argument to Intn") /\
  Validate (with_jitter (f_of_Z 0) defaultConfig) <> None /\
  Validate (mkConfig "Sauron" (cf_Connection defaultConfig) default_peers (cf_Paths defaultConfig)
    (cf_Logging defaultConfig) 0) = None.
Proof. repeat split; vm_compute; congruence. Qed.
