(* ===== verification/Logging.v ===== *)
(** * What is logged ([logging/logging.go], [protobuf/logging.go] and the log objects of the other packages)

    The fields each [MarshalZerologObject] adds to an event, and the set-up of the
    logger. An event below the configured level is nil in zerolog: nothing is added to
    it and no object is looked at. A method called through a nil pointer panics as soon
    as it reads a field. *)

From S2P Require Import Prelude Errors Protobuf Conflicts Host Perspective Backoff Connection Config Settings.
From stdpp Require Import pretty.
From Stdlib Require Import SpecFloat.

(** ** Enum value maps of [message.pb.go] *)

Definition Request_Type_name (t : Request_Type) : string :=
  match t with
  | Request_CREATE => "CREATE"
  | Request_LINK => "LINK"
  | Request_MKDIR => "MKDIR"
  | Request_RENAME => "RENAME"
  | Request_RMDIR => "RMDIR"
  | Request_SETATTR => "SETATTR"
  | Request_SYMLINK => "SYMLINK"
  | Request_UNLINK => "UNLINK"
  | Request_WRITE => "WRITE"
  | Request_COPY_FILE_RANGE => "COPY_FILE_RANGE"
  | Request_Unrecognised n => pretty n
  end.

Definition Response_Type_name (t : Response_Type) : string :=
  match t with
  | Response_ACK => "ACK"
  | Response_NACK => "NACK"
  | Response_Type_Unrecognised n => pretty n
  end.

Definition Response_Error_name (e : Response_Error) : string :=
  match e with
  | Response_ERR_UNKNOWN => "ERR_UNKNOWN"
  | Response_ERR_ALREADY_EXISTS => "ERR_ALREADY_EXISTS"
  | Response_ERR_DOES_NOT_EXIST => "ERR_DOES_NOT_EXIST"
  | Response_ERR_TRANSACTION_CONFLICT => "ERR_TRANSACTION_CONFLICT"
  | Response_ERR_NOT_A_DIRECTORY => "ERR_NOT_A_DIRECTORY"
  | Response_ERR_NOT_A_FILE => "ERR_NOT_A_FILE"
  | Response_ERR_INVALID_MODE => "ERR_INVALID_MODE"
  | Response_Error_Unrecognised n => pretty n
  end.

(** ** Fields of an event *)

#[warnings="-register-all"]
Inductive field :=
| FStr (s : string)
| FInt (z : Z)
| FFloat (x : spec_float)
| FDuration (ns : Z)
| FPeers (ps : list Peer)
| FObject (fields : list (string * field)).

Definition fields := list (string * field).

(** [e.Object(key, p)] for a pointer: the method runs on what it points to. *)
Definition Object {A} (key : string) (marshal : A -> outcome Empty_set fields) (p : option A) : outcome Empty_set fields :=
  match p with
  | Some a => fs <-! marshal a ;; Ok [(key, FObject fs)]
  | None => Panics "nil pointer"
  end.

(** ** Messages *)

Definition Metadata_fields (m : Request_Metadata) : fields :=
  [("path", FStr (RelativePath m)); ("mode", FInt (Mode m)); ("write_offset", FInt (WriteOffset m));
   ("read_offset", FInt (ReadOffset m)); ("write_len", FInt (WriteLen m))].

Definition content_size (r : Request) : nat := match Content r with Some c => length c | None => 0 end.

Definition Request_fields (r : Request) : outcome Empty_set fields :=
  md <-! Object "metadata" (fun m => Ok (Metadata_fields m)) (Metadata r) ;;
  Ok ([("type", FStr (Request_Type_name (req_Type r))); ("content_size", FInt (Z.of_nat (content_size r)))] ++ md).

Definition Response_fields (r : Response) : fields :=
  [("type", FStr (Response_Type_name (resp_Type r)))] ++
  match resp_Error r with Some e => [("error", FStr (Response_Error_name e))] | None => [] end ++
  match ErrorMsg r with Some m => [("error_msg", FStr m)] | None => [] end.

Definition Message_fields (m : Message) : outcome Empty_set fields :=
  req <-! match GetRequest m with
          | Some r => Object "request" Request_fields (Some r)
          | None => Ok []
          end ;;
  resp <-! match GetResponse m with
           | Some r => Object "response" (fun r => Ok (Response_fields r)) (Some r)
           | None => Ok []
           end ;;
  Ok ([("tid", FStr (Tid m)); ("peer_name", FStr (PeerName m))] ++ req ++ resp).

(** ** Configuration, connections, back-off *)

Definition BackoffConf_fields (b : BackoffConf) : fields :=
  [("factor", FFloat (bc_Factor b)); ("max_factor_jitter", FFloat (bc_MaxFactorJitter b));
   ("initial", FDuration (bc_Initial b)); ("max", FDuration (bc_Max b))].

Definition TLS_fields (t : TLS) : fields :=
  [("tls_version", FStr (Version t)); ("ca_path", FStr (CAPath t)); ("crt_path", FStr (CertPath t)); ("key_path", FStr (KeyPath t))].

Definition ConnectionConf_fields (c : ConnectionConf) : fields :=
  [("backoff", FObject (BackoffConf_fields (DialBackoff c))); ("tls", FObject (TLS_fields (cc_TLS c)));
   ("message_buffer_size", FInt (MessageBufferSize c)); ("send_recv_timeout", FDuration (SendRecvTimeout c));
   ("handshake_timeout", FDuration (HandshakeTimeout c)); ("network", FStr (Network c)); ("compression", FStr (Compression c))].

Definition Paths_fields (p : Paths) : fields := [("fuse_dir", FStr (FuseDir p)); ("mirror_dir", FStr (MirrorDir p))].

Definition Logging_fields (level : string) : fields := [("level", FStr level)].

Definition Peer_fields (p : Peer) : fields := [("name", FStr (peer_Name p)); ("address", FStr (Address p))].

Definition Config_fields (c : Config) : outcome Empty_set fields :=
  conn <-! Object "connection" (fun k => Ok (ConnectionConf_fields k)) (cf_Connection c) ;;
  paths <-! Object "paths" (fun p => Ok (Paths_fields p)) (cf_Paths c) ;;
  log <-! Object "logging" (fun l => Ok (Logging_fields l)) (cf_Logging c) ;;
  Ok (conn ++ paths ++ [("peers", FPeers (cf_Peers c))] ++ log).

Definition Connection_fields (peer : Peer) (c : Connection) : fields :=
  [("peer", FObject (Peer_fields peer)); ("status", FStr (Status_String (c_status c)));
   ("perspective", FStr (Perspective_String (c_perspective c)))].

Definition Backoff_fields (b : Backoff) : fields :=
  [("backoff", FObject (BackoffConf_fields (mkBackoffConf (Factor b) (MaxFactorJitter b) (Initial b) (Max b)) ++ [("attempt", FFloat (attempt b)); ("value", FDuration (val b))]))].

(** ** The logger *)

(** The levels of zerolog, in order, and [ParseLevel]. *)
Inductive Level := TraceLevel | DebugLevel | InfoLevel | WarnLevel | ErrorLevel | FatalLevel | PanicLevel | Disabled.

Definition level_rank (l : Level) : nat :=
  match l with
  | TraceLevel => 0 | DebugLevel => 1 | InfoLevel => 2 | WarnLevel => 3
  | ErrorLevel => 4 | FatalLevel => 5 | PanicLevel => 6 | Disabled => 7
  end.

Definition level_names : list (string * Level) :=
  [("trace", TraceLevel); ("debug", DebugLevel); ("info", InfoLevel); ("warn", WarnLevel); ("error", ErrorLevel);
   ("fatal", FatalLevel); ("panic", PanicLevel); ("disabled", Disabled)].

Class Zerolog := {
  ParseLevel : string -> error + Level;
  parse_level_names : forall s l, (s, l) ∈ level_names -> ParseLevel s = inr l;
}.

Definition enabled (global event : Level) : bool := (level_rank global <=? level_rank event)%nat.

Record logger := mkLogger { lg_host : string; lg_console : bool; lg_level : Level }.

(** [terminal]: whether the standard output is one. *)
Definition Configure `{Zerolog} (name : string) (terminal : bool) (level : string) : logger :=
  mkLogger name terminal (match ParseLevel level with inr l => l | inl _ => InfoLevel end).

(** An event with a message object, as [handleTransaction] and [Replicate] log what
    they receive. *)
Definition log_message (lg : logger) (l : Level) (m : Message) : outcome Empty_set (option fields) :=
  if enabled (lg_level lg) l then
    obj <-! Object "msg" Message_fields (Some m) ;; Ok (Some (("host", FStr (lg_host lg)) :: obj))
  else Ok None.

(** The event of [setup]. *)
Definition log_config (lg : logger) (c : Config) : outcome Empty_set (option fields) :=
  if enabled (lg_level lg) DebugLevel then
    obj <-! Object "config" Config_fields (Some c) ;; Ok (Some (("host", FStr (lg_host lg)) :: obj))
  else Ok None.

(** ** Properties *)

Lemma Object_panics {A} key (marshal : A -> outcome Empty_set fields) p :
  is_panic (Object key marshal p) = true <-> match p with Some a => is_panic (marshal a) = true | None => True end.
Proof. destruct p as [a|]; [|done]. simpl. by destruct (marshal a) as [|[]|]. Qed.

(** The message object of an event reads what it should: it panics exactly on a request
    without metadata, and of the content it shows nothing but the size. A peer that
    sends a bare request therefore ends the process at the [log.Info] that precedes the
    consultation, unless the level is above info. *)
Theorem message_log_outcome lg l m :
  (is_panic (log_message lg l m) = true <->
     enabled (lg_level lg) l = true /\ exists r, GetRequest m = Some r /\ Metadata r = None) /\
  (forall r c, GetRequest m = Some r -> length c = content_size r ->
     log_message lg l (mkMessage (Tid m) (PeerName m) (Some (Message_Request (set_Content (Some c) r)))) = log_message lg l m).
Proof.
  unfold log_message. cbn [Object]. unfold Message_fields, GetRequest, GetResponse. split.
  - destruct (enabled (lg_level lg) l); [|by split; [|intros []]].
    destruct (msg_Type m) as [[r|r]|]; simpl; [|by split; [|intros (_ & ? & [=] & _)]..].
    unfold Request_fields. destruct (Metadata r) eqn:E; simpl; [|by split; eauto].
    split; [done|]. intros (_ & r' & [= <-] & ?). congruence.
  - intros r c Hr Hc. destruct (enabled (lg_level lg) l); [|done].
    destruct (msg_Type m) as [[?|?]|]; simplify_eq/=. unfold Request_fields. simpl. by rewrite <- Hc.
Qed.

Lemma level_name_known name : Logging_rules name = true -> exists l, (name, l) ∈ level_names.
Proof.
  unfold Logging_rules. rewrite andb_true_iff, oneof_In. intros [_ H].
  repeat (apply elem_of_cons in H as [->|H]; [eexists; unfold level_names; by repeat first [left|right]|]). inversion H.
Qed.

(** A validated configuration sets up the logger it names: its level is one that zerolog
    parses, so nothing falls back to info, and logging the configuration meets no nil
    pointer. *)
Theorem validated_config_is_logged `{Validator} `{Zerolog} c name terminal :
  Validate c = None ->
  exists level l, cf_Logging c = Some level /\ (level, l) ∈ level_names /\
    lg_level (Configure name terminal level) = l /\ is_panic (log_config (Configure name terminal level) c) = false.
Proof.
  intros Hv. pose proof Hv as Hr%fmap_None%validate_ok. unfold Config_rules in Hr.
  rewrite !andb_true_iff in Hr. destruct Hr as (_ & Hlog).
  destruct (validated_sound c Hv) as ((k & Hk & _) & (p & Hp & _) & _).
  destruct (cf_Logging c) as [level|] eqn:El; [|done]. destruct (level_name_known level Hlog) as [l Hl].
  exists level, l. split; [done|]. split; [done|]. unfold Configure. rewrite (parse_level_names _ _ Hl). split; [done|].
  unfold log_config. cbn [Object]. unfold Config_fields. rewrite Hk, Hp, El. by destruct (enabled _ _).
Qed.

(** ** On concrete data *)

#[export] Instance table_zerolog : Zerolog.
Proof.
  refine {| ParseLevel := fun s => match list_find (fun x => x.1 = s) level_names with
                                   | Some (_, (_, l)) => inr l | None => inl (ErrNew "unknown level") end |}.
  intros s l H. repeat (apply elem_of_cons in H as [[= -> ->]|H]; [reflexivity|]). inversion H.
Defined.

Lemma validated_config_is_logged_witness :
  exists level l, cf_Logging defaultConfig = Some level /\ (level, l) ∈ level_names /\
    lg_level (Configure "Aragorn" true level) = l /\ is_panic (log_config (Configure "Aragorn" true level) defaultConfig) = false.
Proof. apply (validated_config_is_logged defaultConfig "Aragorn" true). vm_compute. reflexivity. Defined.

Example bare_request_ends_the_process :
  log_message (Configure "Gimli" true "info") InfoLevel
    (mkMessage "1" "Legolas" (Some (Message_Request (mkRequest Request_MKDIR None 0 None)))) = Panics "nil pointer".
Proof. reflexivity. Qed.
