(* ===== verification/Descriptor.v ===== *)
(** * The embedded file descriptor ([protobuf/message.pb.go])

    The generated code carries [message.proto] in compiled form: the bytes of a
    [FileDescriptorProto], which the library reads at start and by which it encodes the
    structs. This file has those bytes, a reader for them built on [Wire], the struct tags
    and the tables of the generated code, and the theorem that they all say the same. *)

From Stdlib Require Import Ascii.
From stdpp Require Import pretty.
From S2P Require Import Prelude Errors Protobuf Wire MessagePb Codecs Logging.

(** ** The bytes *)

Definition file_message_proto_rawDesc : list byte := byte_of_Z <$>
  [0x0a; 0x0d; 0x6d; 0x65; 0x73; 0x73; 0x61; 0x67; 0x65; 0x2e; 0x70; 0x72; 0x6f; 0x74; 0x6f; 0x12;
   0x07; 0x6d; 0x65; 0x73; 0x73; 0x61; 0x67; 0x65; 0x22; 0x9f; 0x01; 0x0a; 0x07; 0x4d; 0x65; 0x73;
   0x73; 0x61; 0x67; 0x65; 0x12; 0x10; 0x0a; 0x03; 0x74; 0x69; 0x64; 0x18; 0x01; 0x20; 0x01; 0x28;
   0x09; 0x52; 0x03; 0x74; 0x69; 0x64; 0x12; 0x1b; 0x0a; 0x09; 0x70; 0x65; 0x65; 0x72; 0x5f; 0x6e;
   0x61; 0x6d; 0x65; 0x18; 0x02; 0x20; 0x01; 0x28; 0x09; 0x52; 0x08; 0x70; 0x65; 0x65; 0x72; 0x4e;
   0x61; 0x6d; 0x65; 0x12; 0x2c; 0x0a; 0x07; 0x72; 0x65; 0x71; 0x75; 0x65; 0x73; 0x74; 0x18; 0x03;
   0x20; 0x01; 0x28; 0x0b; 0x32; 0x10; 0x2e; 0x6d; 0x65; 0x73; 0x73; 0x61; 0x67; 0x65; 0x2e; 0x52;
   0x65; 0x71; 0x75; 0x65; 0x73; 0x74; 0x48; 0x00; 0x52; 0x07; 0x72; 0x65; 0x71; 0x75; 0x65; 0x73;
   0x74; 0x12; 0x2f; 0x0a; 0x08; 0x72; 0x65; 0x73; 0x70; 0x6f; 0x6e; 0x73; 0x65; 0x18; 0x04; 0x20;
   0x01; 0x28; 0x0b; 0x32; 0x11; 0x2e; 0x6d; 0x65; 0x73; 0x73; 0x61; 0x67; 0x65; 0x2e; 0x52; 0x65;
   0x73; 0x70; 0x6f; 0x6e; 0x73; 0x65; 0x48; 0x00; 0x52; 0x08; 0x72; 0x65; 0x73; 0x70; 0x6f; 0x6e;
   0x73; 0x65; 0x42; 0x06; 0x0a; 0x04; 0x74; 0x79; 0x70; 0x65; 0x22; 0x86; 0x04; 0x0a; 0x07; 0x52;
   0x65; 0x71; 0x75; 0x65; 0x73; 0x74; 0x12; 0x29; 0x0a; 0x04; 0x74; 0x79; 0x70; 0x65; 0x18; 0x01;
   0x20; 0x01; 0x28; 0x0e; 0x32; 0x15; 0x2e; 0x6d; 0x65; 0x73; 0x73; 0x61; 0x67; 0x65; 0x2e; 0x52;
   0x65; 0x71; 0x75; 0x65; 0x73; 0x74; 0x2e; 0x54; 0x79; 0x70; 0x65; 0x52; 0x04; 0x74; 0x79; 0x70;
   0x65; 0x12; 0x35; 0x0a; 0x08; 0x6d; 0x65; 0x74; 0x61; 0x64; 0x61; 0x74; 0x61; 0x18; 0x02; 0x20;
   0x01; 0x28; 0x0b; 0x32; 0x19; 0x2e; 0x6d; 0x65; 0x73; 0x73; 0x61; 0x67; 0x65; 0x2e; 0x52; 0x65;
   0x71; 0x75; 0x65; 0x73; 0x74; 0x2e; 0x4d; 0x65; 0x74; 0x61; 0x64; 0x61; 0x74; 0x61; 0x52; 0x08;
   0x6d; 0x65; 0x74; 0x61; 0x64; 0x61; 0x74; 0x61; 0x12; 0x14; 0x0a; 0x05; 0x63; 0x6c; 0x6f; 0x63;
   0x6b; 0x18; 0x03; 0x20; 0x01; 0x28; 0x04; 0x52; 0x05; 0x63; 0x6c; 0x6f; 0x63; 0x6b; 0x12; 0x1d;
   0x0a; 0x07; 0x63; 0x6f; 0x6e; 0x74; 0x65; 0x6e; 0x74; 0x18; 0x04; 0x20; 0x01; 0x28; 0x0c; 0x48;
   0x00; 0x52; 0x07; 0x63; 0x6f; 0x6e; 0x74; 0x65; 0x6e; 0x74; 0x88; 0x01; 0x01; 0x1a; 0xd0; 0x01;
   0x0a; 0x08; 0x4d; 0x65; 0x74; 0x61; 0x64; 0x61; 0x74; 0x61; 0x12; 0x23; 0x0a; 0x0d; 0x72; 0x65;
   0x6c; 0x61; 0x74; 0x69; 0x76; 0x65; 0x5f; 0x70; 0x61; 0x74; 0x68; 0x18; 0x01; 0x20; 0x01; 0x28;
   0x09; 0x52; 0x0c; 0x72; 0x65; 0x6c; 0x61; 0x74; 0x69; 0x76; 0x65; 0x50; 0x61; 0x74; 0x68; 0x12;
   0x2a; 0x0a; 0x11; 0x6e; 0x65; 0x77; 0x5f; 0x72; 0x65; 0x6c; 0x61; 0x74; 0x69; 0x76; 0x65; 0x5f;
   0x70; 0x61; 0x74; 0x68; 0x18; 0x02; 0x20; 0x01; 0x28; 0x09; 0x52; 0x0f; 0x6e; 0x65; 0x77; 0x52;
   0x65; 0x6c; 0x61; 0x74; 0x69; 0x76; 0x65; 0x50; 0x61; 0x74; 0x68; 0x12; 0x12; 0x0a; 0x04; 0x6d;
   0x6f; 0x64; 0x65; 0x18; 0x03; 0x20; 0x01; 0x28; 0x0d; 0x52; 0x04; 0x6d; 0x6f; 0x64; 0x65; 0x12;
   0x21; 0x0a; 0x0c; 0x77; 0x72; 0x69; 0x74; 0x65; 0x5f; 0x6f; 0x66; 0x66; 0x73; 0x65; 0x74; 0x18;
   0x04; 0x20; 0x01; 0x28; 0x03; 0x52; 0x0b; 0x77; 0x72; 0x69; 0x74; 0x65; 0x4f; 0x66; 0x66; 0x73;
   0x65; 0x74; 0x12; 0x1f; 0x0a; 0x0b; 0x72; 0x65; 0x61; 0x64; 0x5f; 0x6f; 0x66; 0x66; 0x73; 0x65;
   0x74; 0x18; 0x05; 0x20; 0x01; 0x28; 0x03; 0x52; 0x0a; 0x72; 0x65; 0x61; 0x64; 0x4f; 0x66; 0x66;
   0x73; 0x65; 0x74; 0x12; 0x1b; 0x0a; 0x09; 0x77; 0x72; 0x69; 0x74; 0x65; 0x5f; 0x6c; 0x65; 0x6e;
   0x18; 0x06; 0x20; 0x01; 0x28; 0x03; 0x52; 0x08; 0x77; 0x72; 0x69; 0x74; 0x65; 0x4c; 0x65; 0x6e;
   0x22; 0x84; 0x01; 0x0a; 0x04; 0x54; 0x79; 0x70; 0x65; 0x12; 0x0a; 0x0a; 0x06; 0x43; 0x52; 0x45;
   0x41; 0x54; 0x45; 0x10; 0x00; 0x12; 0x08; 0x0a; 0x04; 0x4c; 0x49; 0x4e; 0x4b; 0x10; 0x01; 0x12;
   0x09; 0x0a; 0x05; 0x4d; 0x4b; 0x44; 0x49; 0x52; 0x10; 0x02; 0x12; 0x0a; 0x0a; 0x06; 0x52; 0x45;
   0x4e; 0x41; 0x4d; 0x45; 0x10; 0x03; 0x12; 0x09; 0x0a; 0x05; 0x52; 0x4d; 0x44; 0x49; 0x52; 0x10;
   0x04; 0x12; 0x0b; 0x0a; 0x07; 0x53; 0x45; 0x54; 0x41; 0x54; 0x54; 0x52; 0x10; 0x05; 0x12; 0x0b;
   0x0a; 0x07; 0x53; 0x59; 0x4d; 0x4c; 0x49; 0x4e; 0x4b; 0x10; 0x06; 0x12; 0x0a; 0x0a; 0x06; 0x55;
   0x4e; 0x4c; 0x49; 0x4e; 0x4b; 0x10; 0x07; 0x12; 0x09; 0x0a; 0x05; 0x57; 0x52; 0x49; 0x54; 0x45;
   0x10; 0x08; 0x12; 0x13; 0x0a; 0x0f; 0x43; 0x4f; 0x50; 0x59; 0x5f; 0x46; 0x49; 0x4c; 0x45; 0x5f;
   0x52; 0x41; 0x4e; 0x47; 0x45; 0x10; 0x09; 0x42; 0x0a; 0x0a; 0x08; 0x5f; 0x63; 0x6f; 0x6e; 0x74;
   0x65; 0x6e; 0x74; 0x22; 0xeb; 0x02; 0x0a; 0x08; 0x52; 0x65; 0x73; 0x70; 0x6f; 0x6e; 0x73; 0x65;
   0x12; 0x2a; 0x0a; 0x04; 0x74; 0x79; 0x70; 0x65; 0x18; 0x01; 0x20; 0x01; 0x28; 0x0e; 0x32; 0x16;
   0x2e; 0x6d; 0x65; 0x73; 0x73; 0x61; 0x67; 0x65; 0x2e; 0x52; 0x65; 0x73; 0x70; 0x6f; 0x6e; 0x73;
   0x65; 0x2e; 0x54; 0x79; 0x70; 0x65; 0x52; 0x04; 0x74; 0x79; 0x70; 0x65; 0x12; 0x32; 0x0a; 0x05;
   0x65; 0x72; 0x72; 0x6f; 0x72; 0x18; 0x02; 0x20; 0x01; 0x28; 0x0e; 0x32; 0x17; 0x2e; 0x6d; 0x65;
   0x73; 0x73; 0x61; 0x67; 0x65; 0x2e; 0x52; 0x65; 0x73; 0x70; 0x6f; 0x6e; 0x73; 0x65; 0x2e; 0x45;
   0x72; 0x72; 0x6f; 0x72; 0x48; 0x00; 0x52; 0x05; 0x65; 0x72; 0x72; 0x6f; 0x72; 0x88; 0x01; 0x01;
   0x12; 0x20; 0x0a; 0x09; 0x65; 0x72; 0x72; 0x6f; 0x72; 0x5f; 0x6d; 0x73; 0x67; 0x18; 0x03; 0x20;
   0x01; 0x28; 0x09; 0x48; 0x01; 0x52; 0x08; 0x65; 0x72; 0x72; 0x6f; 0x72; 0x4d; 0x73; 0x67; 0x88;
   0x01; 0x01; 0x22; 0x19; 0x0a; 0x04; 0x54; 0x79; 0x70; 0x65; 0x12; 0x07; 0x0a; 0x03; 0x41; 0x43;
   0x4b; 0x10; 0x00; 0x12; 0x08; 0x0a; 0x04; 0x4e; 0x41; 0x43; 0x4b; 0x10; 0x01; 0x22; 0xa9; 0x01;
   0x0a; 0x05; 0x45; 0x72; 0x72; 0x6f; 0x72; 0x12; 0x0f; 0x0a; 0x0b; 0x45; 0x52; 0x52; 0x5f; 0x55;
   0x4e; 0x4b; 0x4e; 0x4f; 0x57; 0x4e; 0x10; 0x00; 0x12; 0x16; 0x0a; 0x12; 0x45; 0x52; 0x52; 0x5f;
   0x41; 0x4c; 0x52; 0x45; 0x41; 0x44; 0x59; 0x5f; 0x45; 0x58; 0x49; 0x53; 0x54; 0x53; 0x10; 0x01;
   0x12; 0x16; 0x0a; 0x12; 0x45; 0x52; 0x52; 0x5f; 0x44; 0x4f; 0x45; 0x53; 0x5f; 0x4e; 0x4f; 0x54;
   0x5f; 0x45; 0x58; 0x49; 0x53; 0x54; 0x10; 0x02; 0x12; 0x1c; 0x0a; 0x18; 0x45; 0x52; 0x52; 0x5f;
   0x54; 0x52; 0x41; 0x4e; 0x53; 0x41; 0x43; 0x54; 0x49; 0x4f; 0x4e; 0x5f; 0x43; 0x4f; 0x4e; 0x46;
   0x4c; 0x49; 0x43; 0x54; 0x10; 0x03; 0x12; 0x17; 0x0a; 0x13; 0x45; 0x52; 0x52; 0x5f; 0x4e; 0x4f;
   0x54; 0x5f; 0x41; 0x5f; 0x44; 0x49; 0x52; 0x45; 0x43; 0x54; 0x4f; 0x52; 0x59; 0x10; 0x04; 0x12;
   0x12; 0x0a; 0x0e; 0x45; 0x52; 0x52; 0x5f; 0x4e; 0x4f; 0x54; 0x5f; 0x41; 0x5f; 0x46; 0x49; 0x4c;
   0x45; 0x10; 0x05; 0x12; 0x14; 0x0a; 0x10; 0x45; 0x52; 0x52; 0x5f; 0x49; 0x4e; 0x56; 0x41; 0x4c;
   0x49; 0x44; 0x5f; 0x4d; 0x4f; 0x44; 0x45; 0x10; 0x06; 0x42; 0x08; 0x0a; 0x06; 0x5f; 0x65; 0x72;
   0x72; 0x6f; 0x72; 0x42; 0x0c; 0x0a; 0x0a; 0x5f; 0x65; 0x72; 0x72; 0x6f; 0x72; 0x5f; 0x6d; 0x73;
   0x67; 0x42; 0x3d; 0x5a; 0x3b; 0x67; 0x69; 0x74; 0x68; 0x75; 0x62; 0x2e; 0x63; 0x6f; 0x6d; 0x2f;
   0x5a; 0x61; 0x6d; 0x65; 0x72; 0x79; 0x6b; 0x61; 0x6e; 0x69; 0x7a; 0x6f; 0x77; 0x61; 0x6e; 0x61;
   0x2f; 0x72; 0x65; 0x70; 0x6c; 0x69; 0x63; 0x61; 0x74; 0x65; 0x64; 0x2d; 0x66; 0x69; 0x6c; 0x65;
   0x2d; 0x73; 0x79; 0x73; 0x74; 0x65; 0x6d; 0x2f; 0x70; 0x72; 0x6f; 0x74; 0x6f; 0x62; 0x75; 0x66;
   0x62; 0x06; 0x70; 0x72; 0x6f; 0x74; 0x6f; 0x33]%Z.

(** ** Reading a descriptor: the messages of [descriptor.proto] *)

(** The payloads and the numbers of a field, in order. *)
Definition payloads (n : Z) (l : list wire_field) : list (list byte) :=
  omap (fun x => match x.2 with WLen b => if (x.1 =? n)%Z then Some b else None | _ => None end) l.

Definition numbers (n : Z) (l : list wire_field) : list Z :=
  omap (fun x => match x.2 with WVarint z => if (x.1 =? n)%Z then Some z else None | _ => None end) l.

Definition text (n : Z) (l : list wire_field) : string := string_of_bytes (default [] (last (payloads n l))).
Definition texts (n : Z) (l : list wire_field) : list string := string_of_bytes <$> payloads n l.
Definition number (n : Z) (l : list wire_field) : Z := default 0%Z (last (numbers n l)).

(** [FieldDescriptorProto] *)
Record field_desc := mkFieldDesc {
  fd_name : string;
  fd_number : Z;
  fd_type : Z;
  fd_type_name : string;
  fd_oneof_index : option Z;
  fd_json_name : string;
  fd_proto3_optional : bool;
}.

(** [EnumDescriptorProto] *)
Record enum_desc := mkEnumDesc { ed_name : string; ed_values : list (string * Z) }.

(** [DescriptorProto] *)
#[warnings="-register-all"] Inductive message_desc := mkMessageDesc {
  md_name : string;
  md_fields : list field_desc;
  md_nested : list message_desc;
  md_enums : list enum_desc;
  md_oneofs : list string;
}.

(** [FileDescriptorProto] *)
Record file_desc := mkFileDesc {
  file_name : string;
  file_package : string;
  file_messages : list message_desc;
  file_go_package : string;
  file_syntax : string;
}.

Definition read_field (b : list byte) : option field_desc :=
  l ← get_fields b;
  Some (mkFieldDesc (text 1 l) (number 3 l) (number 5 l) (text 6 l) (last (numbers 9 l)) (text 10 l) (number 17 l =? 1)%Z).

Definition read_value (b : list byte) : option (string * Z) := l ← get_fields b; Some (text 1 l, number 2 l).

Definition read_enum (b : list byte) : option enum_desc :=
  l ← get_fields b; vs ← mapM read_value (payloads 2 l); Some (mkEnumDesc (text 1 l) vs).

Definition read_oneof (b : list byte) : option string := text 1 <$> get_fields b.

(** Messages are nested; [k] bounds the depth. *)
Fixpoint read_message (k : nat) (b : list byte) : option message_desc :=
  match k with
  | 0 => None
  | S k =>
      l ← get_fields b; fs ← mapM read_field (payloads 2 l); ms ← mapM (read_message k) (payloads 3 l);
      es ← mapM read_enum (payloads 4 l); os ← mapM read_oneof (payloads 8 l);
      Some (mkMessageDesc (text 1 l) fs ms es os)
  end.

Definition read_file (b : list byte) : option file_desc :=
  l ← get_fields b; ms ← mapM (read_message 4) (payloads 4 l); o ← get_fields (concat (payloads 8 l));
  Some (mkFileDesc (text 1 l) (text 2 l) ms (text 11 o) (text 12 l)).

Definition message_proto : file_desc :=
  default (mkFileDesc "" "" [] "" "") (read_file file_message_proto_rawDesc).

(** ** The structs of the generated code: Go name, Go type and [protobuf] tag of each field,
    the two alternatives of the [oneof] with the fields of their wrappers *)

Abbreviation struct_field := (string * string * string)%type.

Definition Message_struct : list struct_field :=
  [("Tid", "string", "bytes,1,opt,name=tid,proto3");
   ("PeerName", "string", "bytes,2,opt,name=peer_name,json=peerName,proto3");
   ("Request", "*Request", "bytes,3,opt,name=request,proto3,oneof");
   ("Response", "*Response", "bytes,4,opt,name=response,proto3,oneof")].

Definition Request_struct : list struct_field :=
  [("Type", "Request_Type", "varint,1,opt,name=type,proto3,enum=message.Request_Type");
   ("Metadata", "*Request_Metadata", "bytes,2,opt,name=metadata,proto3");
   ("Clock", "uint64", "varint,3,opt,name=clock,proto3");
   ("Content", "[]byte", "bytes,4,opt,name=content,proto3,oneof")].

Definition Response_struct : list struct_field :=
  [("Type", "Response_Type", "varint,1,opt,name=type,proto3,enum=message.Response_Type");
   ("Error", "*Response_Error", "varint,2,opt,name=error,proto3,enum=message.Response_Error,oneof");
   ("ErrorMsg", "*string", "bytes,3,opt,name=error_msg,json=errorMsg,proto3,oneof")].

Definition Metadata_struct : list struct_field :=
  [("RelativePath", "string", "bytes,1,opt,name=relative_path,json=relativePath,proto3");
   ("NewRelativePath", "string", "bytes,2,opt,name=new_relative_path,json=newRelativePath,proto3");
   ("Mode", "uint32", "varint,3,opt,name=mode,proto3");
   ("WriteOffset", "int64", "varint,4,opt,name=write_offset,json=writeOffset,proto3");
   ("ReadOffset", "int64", "varint,5,opt,name=read_offset,json=readOffset,proto3");
   ("WriteLen", "int64", "varint,6,opt,name=write_len,json=writeLen,proto3")].

(** [file_message_proto_goTypes], [file_message_proto_depIdxs] and the builder of
    [file_message_proto_init]; the last message has no wrappers set. *)
Definition file_message_proto_goTypes : list string :=
  ["Request_Type"; "Response_Type"; "Response_Error"; "Message"; "Request"; "Response"; "Request_Metadata"].

Definition file_message_proto_depIdxs : list nat := [4; 5; 0; 6; 1; 2; 6; 6; 6; 6; 0].

Record TypeBuilder := mkTypeBuilder {
  RawDescriptor : list byte;
  NumEnums : nat;
  NumMessages : nat;
  NumExtensions : nat;
  NumServices : nat;
  GoTypes : list string;
  DependencyIndexes : list nat;
  OneofWrappers : list (list string);
}.

Definition file_message_proto_builder : TypeBuilder :=
  mkTypeBuilder file_message_proto_rawDesc 3 4 0 0 file_message_proto_goTypes file_message_proto_depIdxs
    [["Message_Request"; "Message_Response"]; []; []; []].

(** ** What the descriptor makes of a field *)

(** The Go name of a field: the parts between underscores, capitalised. *)
Definition upper (c : ascii) : ascii :=
  let n := nat_of_ascii c in if (97 <=? n)%nat && (n <=? 122)%nat then ascii_of_nat (n - 32) else c.

Fixpoint camel (up : bool) (s : string) : string :=
  match s with
  | EmptyString => ""
  | String c s => if Ascii.eqb c "_" then camel true s else String (if up then upper c else c) (camel false s)
  end.

(** The Go name of a type: its full name without the package, dots as underscores. *)
Fixpoint underscores (s : string) : string :=
  match s with
  | EmptyString => ""
  | String c s => String (if Ascii.eqb c "." then "_"%char else c) (underscores s)
  end.

Definition go_type_name (pkg full : string) : string :=
  underscores (String.substring (String.length pkg + 2) (String.length full) full).

(** The types of [descriptor.proto] that occur. *)
Definition TYPE_INT64 : Z := 3.
Definition TYPE_UINT64 : Z := 4.
Definition TYPE_STRING : Z := 9.
Definition TYPE_MESSAGE : Z := 11.
Definition TYPE_BYTES : Z := 12.
Definition TYPE_UINT32 : Z := 13.
Definition TYPE_ENUM : Z := 14.

Definition base_type (pkg : string) (d : field_desc) : string :=
  if (fd_type d =? TYPE_STRING)%Z then "string"
  else if (fd_type d =? TYPE_BYTES)%Z then "[]byte"
  else if (fd_type d =? TYPE_INT64)%Z then "int64"
  else if (fd_type d =? TYPE_UINT64)%Z then "uint64"
  else if (fd_type d =? TYPE_UINT32)%Z then "uint32"
  else go_type_name pkg (fd_type_name d).

(** A message is held by a pointer, an optional scalar other than a slice too. *)
Definition go_type (pkg : string) (d : field_desc) : string :=
  if (fd_type d =? TYPE_MESSAGE)%Z || (fd_proto3_optional d && negb (fd_type d =? TYPE_BYTES)%Z)
  then "*" ++ base_type pkg d else base_type pkg d.

Definition is_varint (d : field_desc) : bool :=
  existsb (Z.eqb (fd_type d)) [TYPE_INT64; TYPE_UINT64; TYPE_UINT32; TYPE_ENUM].

Definition struct_tag (pkg : string) (d : field_desc) : string :=
  (if is_varint d then "varint" else "bytes") ++ "," ++ pretty (fd_number d) ++ ",opt,name=" ++ fd_name d ++
  (if String.eqb (fd_json_name d) (fd_name d) then "" else ",json=" ++ fd_json_name d) ++ ",proto3" ++
  (if (fd_type d =? TYPE_ENUM)%Z then ",enum=" ++ pkg ++ "." ++ go_type_name pkg (fd_type_name d) else "") ++
  (if bool_decide (is_Some (fd_oneof_index d)) then ",oneof" else "").

Definition struct_of (pkg : string) (m : message_desc) : list struct_field :=
  (fun d => (camel true (fd_name d), go_type pkg d, struct_tag pkg d)) <$> md_fields m.

(** The messages of a file, level by level, and its enums, under their Go names. *)
Definition go_messages (f : file_desc) : list (string * message_desc) :=
  ((fun m => (md_name m, m)) <$> file_messages f) ++
  (file_messages f ≫= fun m => (fun x => ((md_name m ++ "_" ++ md_name x)%string, x)) <$> md_nested m).

Definition go_enums (f : file_desc) : list (string * enum_desc) :=
  file_messages f ≫= fun m => (fun e => ((md_name m ++ "_" ++ ed_name e)%string, e)) <$> md_enums m.

(** The fields that refer to a type, in the order of the dependency indexes. *)
Definition type_references (f : file_desc) : list string :=
  go_messages f ≫= fun '(_, m) =>
    omap (fun d => if String.eqb (fd_type_name d) "" then None else Some (go_type_name (file_package f) (fd_type_name d))) (md_fields m).

(** The members of the declared [oneof]s, those made up for optional fields aside. *)
Definition oneof_wrappers (x : string * message_desc) : list string :=
  omap (fun d => if bool_decide (is_Some (fd_oneof_index d)) && negb (fd_proto3_optional d)
                 then Some (x.1 ++ "_" ++ camel true (fd_name d))%string else None) (md_fields x.2).

(** ** One description of the messages *)

(** The generated code says one thing: the embedded descriptor can be read, it is the
    proto3 file of this package, and from it follow the structs with the name, Go type and
    tag of each of their fields, the constants and names of the enums, the numbers by
    which the codecs of [MessagePb] write the fields, the Go types, the type that each
    dependency index refers to and the offsets after them, the wrappers of the [oneof] and
    the counts that the builder is given. *)
Lemma descriptor_matches_the_code :
  is_Some (read_file file_message_proto_rawDesc) /\
  (file_package message_proto, file_syntax message_proto) = ("message", "proto3") /\
  (fun x => (x.1, struct_of "message" x.2)) <$> go_messages message_proto =
    [("Message", Message_struct); ("Request", Request_struct); ("Response", Response_struct);
     ("Request_Metadata", Metadata_struct)] /\
  (fun x => (x.1, ed_values x.2)) <$> go_enums message_proto =
    [("Request_Type", (fun t => (Request_Type_name t, Request_Type_Number t)) <$> declared_Request_Types);
     ("Response_Type", (fun t => (Response_Type_name t, Response_Type_Number t)) <$> declared_Response_Types);
     ("Response_Error", (fun e => (Response_Error_name e, Response_Error_Number e)) <$> declared_Response_Errors)] /\
  (fun x => fd_number <$> md_fields x.2) <$> go_messages message_proto =
    [Message_wire ≫= f_nums; Request_wire ≫= f_nums; Response_wire ≫= f_nums; Metadata_wire ≫= f_nums] /\
  GoTypes file_message_proto_builder = (go_enums message_proto).*1 ++ (go_messages message_proto).*1 /\
  omap (fun i => GoTypes file_message_proto_builder !! i) (take (length (type_references message_proto))
    (DependencyIndexes file_message_proto_builder)) = type_references message_proto /\
  drop (length (type_references message_proto)) (DependencyIndexes file_message_proto_builder) =
    repeat (length (type_references message_proto)) 4 ++ [0] /\
  OneofWrappers file_message_proto_builder = oneof_wrappers <$> go_messages message_proto /\
  (NumEnums file_message_proto_builder, NumMessages file_message_proto_builder, NumExtensions file_message_proto_builder,
   NumServices file_message_proto_builder) = (length (go_enums message_proto), length (go_messages message_proto), 0, 0).
Proof. split; [by eexists; vm_compute|]. vm_compute. repeat split. Qed.

(** The numbers of the constants are distinct, so a received number has one reading. *)
Lemma enum_numbers_distinct :
  Forall (fun t => Request_Type_of_number (Request_Type_Number t) = t) declared_Request_Types /\
  Forall (fun t => Response_Type_of_number (Response_Type_Number t) = t) declared_Response_Types /\
  Forall (fun e => Response_Error_of_number (Response_Error_Number e) = e) declared_Response_Errors.
Proof. repeat split; repeat constructor. Qed.

(** A write of three bytes, with a field from the future. *)
Definition future_field : wire_field := (9%Z, WVarint 300).
Definition three_bytes : Request :=
  mkRequest Request_WRITE (Some (mkMetadata "/a" "" 420 7 (-1) 3)) 5 (Some [Byte.x01; Byte.xff; Byte.x00]).

Lemma request_survives_the_wire_witness :
  exists m raw, (NewRequestMessage gzip_DefaultCompression "T" "Gimli" three_bytes).2 = Ok m /\
    proto_Marshal (ProtoCodec := wire_codec) m = inr raw /\
    ReadMessage (H0 := wire_codec) (raw ++ put_fields [future_field]) = Ok (mkMessage "T" "Gimli" (Some (Message_Request three_bytes))).
Proof.
  apply (request_survives_the_wire "DefaultCompression" gzip_DefaultCompression "T" "Gimli" three_bytes [future_field]).
  - reflexivity.
  - vm_compute. reflexivity.
  - vm_compute. reflexivity.
  - vm_compute. reflexivity.
  - apply Forall_singleton. split; [|by apply (bool_decide_eq_true_1 (9%Z ∉ [1; 2; 3; 4]%Z))].
    unfold field_ok, max_field_number. simpl. lia.
Defined.
