(* ===== verification/Tls.v ===== *)
(** * Who a connection belongs to ([connection/tlsconf], [connection/cert], [VerifyConnection])

    The TLS configuration of a peer, and the checks of a handshake on both sides: what
    crypto/tls does with that configuration, followed by the pool's own
    [VerifyConnection]. Whether a certificate chain is signed by an authority is an
    argument. *)

From S2P Require Import Prelude Errors Perspective Framing Connection Pool Config Settings.

(** A certificate as the program reads it: its bytes and the common name. *)
Record certificate := mkCertificate { CommonName : string; c_raw : list byte }.

(** [tls.X509KeyPair] and [AppendCertsFromPEM]. *)
Class X509 := {
  X509KeyPair : list byte -> list byte -> error + certificate;
  AppendCertsFromPEM : list byte -> bool;
}.

Inductive ClientAuthType := NoClientCert | RequireAndVerifyClientCert.

(** A pool of authorities is the PEM data it was made of. *)
Record tls_Config := mkTlsConfig {
  Certificates : list certificate;
  RootCAs : option (list byte);
  ClientCAs : option (list byte);
  ClientAuth : ClientAuthType;
  InsecureSkipVerify : bool;
  MinVersion : Z;
  MaxVersion : Z;
  NextProtos : list string;
}.

Definition Protocol : string := "p2p-quic".

Section certificates.
Context `{X509}.
Context (ReadFile : string -> error + list byte).

Definition Certificate (certPath keyPath : string) : outcome error certificate :=
  match ReadFile certPath with
  | inl e => Err (ErrWrap e ("failed to read: " ++ certPath ++ " cert file"))
  | inr certPEM =>
      match ReadFile keyPath with
      | inl e => Err (ErrWrap e ("failed to read: " ++ keyPath ++ " key file"))
      | inr keyPEM =>
          match X509KeyPair certPEM keyPEM with
          | inl e => Err (ErrWrap e "failed to parse peer's cert and key pair")
          | inr cert => Ok cert
          end
      end
  end.

Definition CAPool (path : string) : outcome error (list byte) :=
  match ReadFile path with
  | inl e => Err (ErrWrap e ("failed to read: " ++ path ++ " CA file"))
  | inr caPEM => if AppendCertsFromPEM caPEM then Ok caPEM else Err (ErrNew "failed to parse CA certificate")
  end.

(** [tlsconf.Default]: an error ends the process. *)
Definition tls_Default (conf : TLS) : outcome Empty_set tls_Config :=
  match Certificate (CertPath conf) (KeyPath conf) with
  | Ok cert =>
      match CAPool (CAPath conf) with
      | Ok ca =>
          Ok (mkTlsConfig [cert] (Some ca) (Some ca) RequireAndVerifyClientCert true
                (GetTLSVersion (Version conf)) (GetTLSVersion (Version conf)) [])
      | Err _ => Panics "failed to read the CA"
      | Panics w => Panics w
      end
  | Err _ => Panics "failed to read the certificate"
  | Panics w => Panics w
  end.
End certificates.

(** [NewPool] completes it. *)
Definition pool_tls (c : tls_Config) : tls_Config :=
  mkTlsConfig (Certificates c) (RootCAs c) (ClientCAs c) (ClientAuth c) (InsecureSkipVerify c)
    (MinVersion c) (MaxVersion c) [Protocol].

(** ** The handshake

    [signed ca chain] says that the chain a peer presents leads to the authority [ca]
    and that the peer holds the key of its first certificate. *)

Section handshake.
Context (signed : list byte -> list certificate -> bool).
Context (host_ok : list certificate -> bool).

(** The side that accepts: with [RequireAndVerifyClientCert] a certificate is needed
    and its chain is verified. *)
Definition server_verifies (c : tls_Config) (s : Pool) (chain : list certificate) : bool :=
  match ClientAuth c with
  | NoClientCert => true
  | RequireAndVerifyClientCert =>
      bool_decide (chain <> []) && match ClientCAs c with Some ca => signed ca chain | None => false end
  end && is_ok (VerifyConnection s (CommonName <$> chain)).

(** The side that dials: [InsecureSkipVerify] turns both the chain and the host name
    check off. *)
Definition client_verifies (c : tls_Config) (s : Pool) (chain : list certificate) : bool :=
  (InsecureSkipVerify c || match RootCAs c with Some ca => signed ca chain && host_ok chain | None => false end) &&
  is_ok (VerifyConnection s (CommonName <$> chain)).

(** ** What is authenticated *)

Context `{X509} (ReadFile : string -> error + list byte).

Lemma VerifyConnection_whitelist s names :
  is_ok (VerifyConnection s names) = true <-> exists cn, names = [cn] /\ cn ∈ whitelist s.
Proof.
  unfold VerifyConnection. destruct names as [|cn [|? ?]].
  - split; [done|]. by intros (? & ? & _).
  - case_bool_decide as Hin; simpl; split; try done; [by exists cn|]. by intros (? & [= <-] & ?).
  - split; [done|]. by intros (? & ? & _).
Qed.

Lemma tls_Default_Ok conf c :
  tls_Default ReadFile conf = Ok c ->
  exists ca, CAPool ReadFile (CAPath conf) = Ok ca /\ RootCAs c = Some ca /\ ClientCAs c = Some ca /\
    ClientAuth c = RequireAndVerifyClientCert /\ InsecureSkipVerify c = true /\
    MinVersion c = GetTLSVersion (Version conf) /\ MaxVersion c = GetTLSVersion (Version conf).
Proof. unfold tls_Default. intros E. cases. eauto 10. Qed.

(** C22: An accepted connection is authenticated: with the configuration [Default] builds,
    whoever dials us has a single certificate of the configured authority, and its
    common name is that of a peer of the pool, so the connection is filed under the
    name that was proved. *)
Theorem accepted_peers_are_authenticated conf c s chain :
  tls_Default ReadFile conf = Ok c -> server_verifies (pool_tls c) s chain = true ->
  exists ca crt, CAPool ReadFile (CAPath conf) = Ok ca /\ chain = [crt] /\ signed ca [crt] = true /\
    CommonName crt ∈ whitelist s.
Proof.
  intros (ca & Hca & _ & Hcl & Hauth & _)%tls_Default_Ok. unfold server_verifies, pool_tls. simpl.
  rewrite Hauth, Hcl. rewrite !andb_true_iff, VerifyConnection_whitelist. intros [[_ Hs] (cn & Hcn & Hin)].
  destruct chain as [|crt [|? ?]]; simplify_eq/=. eauto 10.
Qed.

(** A dialled connection is not: the check of the chain is switched off and nothing
    replaces it, so any certificate with the common name of a peer will do, whoever
    signed it. *)
Theorem dialled_peers_are_not_authenticated conf c s impostor raw :
  tls_Default ReadFile conf = Ok c -> impostor ∈ whitelist s ->
  client_verifies (pool_tls c) s [mkCertificate impostor raw] = true.
Proof.
  intros (ca & _ & _ & _ & _ & Hskip & _)%tls_Default_Ok Hin. unfold client_verifies, pool_tls. simpl.
  rewrite Hskip. simpl. by rewrite bool_decide_eq_true_2.
Qed.
End handshake.

(** ** On concrete files *)

(** A toy reading of the files: a key fits the certificate of the same bytes, and an
    authority signs what begins with its own bytes. *)
#[export] Instance plain_x509 : X509 :=
  {| X509KeyPair := fun c k => if bool_decide (c = k) then inr (mkCertificate "Aragorn" c) else inl (ErrNew "mismatch");
     AppendCertsFromPEM := fun c => bool_decide (c <> []) |}.

Definition pem_file (p : string) : error + list byte :=
  if String.eqb p "connection/cert/ca.crt" then inr [Byte.x01] else inr [Byte.x02].

Definition signed_prefix (ca : list byte) (chain : list certificate) : bool :=
  match chain with c :: _ => bool_decide (ca `prefix_of` c_raw c) | [] => false end.

Definition shipped_tls : TLS :=
  mkTLS "1.3" "connection/cert/ca.crt" "connection/cert/Aragorn.crt" "connection/cert/Aragorn.key".

Definition shipped_tls_config : tls_Config :=
  mkTlsConfig [mkCertificate "Aragorn" [Byte.x02]] (Some [Byte.x01]) (Some [Byte.x01]) RequireAndVerifyClientCert true
    772 772 [].

Lemma accepted_peers_are_authenticated_witness :
  exists ca crt, CAPool pem_file "connection/cert/ca.crt" = Ok ca /\ [mkCertificate "Gimli" [Byte.x01; Byte.x07]] = [crt] /\
    signed_prefix ca [crt] = true /\ CommonName crt ∈ whitelist small_pool.
Proof.
  apply (accepted_peers_are_authenticated signed_prefix pem_file shipped_tls shipped_tls_config small_pool
    [mkCertificate "Gimli" [Byte.x01; Byte.x07]]); vm_compute; reflexivity.
Defined.

(** The dialled impostor is turned away by the very check that the dialling side skips. *)
Lemma dialled_peers_are_not_authenticated_witness :
  client_verifies signed_prefix (fun _ => false) (pool_tls shipped_tls_config) small_pool [mkCertificate "Gimli" [Byte.x66]] = true /\
  server_verifies signed_prefix (pool_tls shipped_tls_config) small_pool [mkCertificate "Gimli" [Byte.x66]] = false.
Proof.
  split; [|vm_compute; reflexivity].
  apply (dialled_peers_are_not_authenticated signed_prefix (fun _ => false) pem_file shipped_tls shipped_tls_config
    small_pool "Gimli" [Byte.x66]); [vm_compute; reflexivity|].
  by apply (bool_decide_eq_true_1 ("Gimli" ∈ whitelist small_pool)).
Defined.
