(* ===== verification/Fuse.v ===== *)
(** * The FUSE server and the descriptors of its handlers ([rfs/fuse.go], [rfs/root.go])

    Building and mounting the file system, the descriptors a process has open while the
    handlers of [Rfs] run, and the inode numbers they report. What go-fuse and the system
    calls answer is an argument. *)

From S2P Require Import Prelude Errors Protobuf Host Path Mirror Rfs.

(** ** The server *)

Record Server (L : Type) := mkServer {
  LoopbackPath : string;
  RfsRoot : root L;
  FuseDirOf : string;
  mounted : bool;              (** [Server.Server] is not nil *)
}.

Arguments mkServer {L}.
Arguments LoopbackPath {L}.
Arguments RfsRoot {L}.
Arguments FuseDirOf {L}.
Arguments mounted {L}.

(** [mkdir] is the result of [os.MkdirAll]; a failure ends the process. *)
Definition NewServer {L} (fuseDir mirrorDir : string) (s : services L) (mkdir : option error) : outcome Empty_set (Server L) :=
  match mkdir with
  | Some _ => Panics "unable to create local directory"
  | None => Ok (mkServer mirrorDir (newRfsRoot (mkRoot s "" 0) mirrorDir 0) fuseDir false)
  end.

(** [result] is that of [fs.Mount]. *)
Definition Mount {L} (result : option error) (s : Server L) : Server L * option error :=
  (mkServer (LoopbackPath s) (RfsRoot s) (FuseDirOf s) (match result with None => true | Some _ => false end), result).

(** [unmounted] is the result of [Unmount]. *)
Definition server_Close {L} (unmounted : option error) (s : Server L) : outcome error unit :=
  if mounted s then
    match unmounted with
    | None => Ok tt
    | Some e => Err (ErrWrap e ("failed to unmount fuse, unmount manually by calling: fusermount -u " ++ FuseDirOf s))
    end
  else Panics "nil Server".

(** ** Descriptors *)

(** What [open] and [close] do to the open descriptors of the process, as the manual
    pages say: a descriptor that [open] returns was not open before, a failed [open]
    leaves none, and after [close] the descriptor is not open whatever it returned. *)
Class FdTable (L : Type) `{Local L} := {
  open_fds : L -> gset Z;
  open_new f p flags mode f' fd :
    syscall_Open f p flags mode = (f', inr fd) -> (fd ∉ open_fds f) /\ open_fds f' = {[fd]} ∪ open_fds f;
  open_failed f p flags mode f' errno :
    syscall_Open f p flags mode = (f', inl errno) -> open_fds f' = open_fds f;
  close_releases f fd : open_fds (syscall_Close f fd) = open_fds f ∖ {[fd]};
}.

(** ** Properties *)

Lemma swap_bits d i :
  (0 <= d < 2 ^ 64)%Z -> (0 <= i < 64)%Z ->
  Z.testbit (swap d) i = Z.testbit d (if (i <? 32)%Z then i + 32 else i - 32).
Proof.
  intros Hd Hi. unfold swap, u64, wrapU. rewrite Z.lor_spec, Z.mod_pow2_bits_low by lia.
  rewrite Z.shiftl_spec, Z.shiftr_spec by lia. destruct (Z.ltb_spec i 32).
  - by rewrite (Z.testbit_neg_r d (i - 32)) by lia.
  - destruct (decide (d = 0)%Z) as [->|Hd0]; [by rewrite !Z.bits_0|].
    rewrite (Z.bits_above_log2 d (i + 32)); [by rewrite orb_false_r|lia|].
    apply Z.log2_lt_pow2; [lia|]. apply Z.lt_le_trans with (2 ^ 64)%Z; [lia|]. apply Z.pow_le_mono_r; lia.
Qed.

Lemma swap_range d : (0 <= d < 2 ^ 64)%Z -> (0 <= swap d < 2 ^ 64)%Z.
Proof.
  intros Hd. unfold swap. pose proof (wrapU_range 64 (Z.shiftl d 32) ltac:(lia)) as Hr.
  assert (0 <= Z.shiftr d 32 < 2 ^ 64)%Z as Hs.
  { rewrite Z.shiftr_div_pow2 by lia. split; [apply Z.div_pos; lia|].
    apply Z.le_lt_trans with d; [|lia]. apply Z.div_le_upper_bound; lia. }
  split; [apply Z.lor_nonneg; unfold u64; lia|].
  destruct (decide (Z.lor (u64 (Z.shiftl d 32)) (Z.shiftr d 32) = 0)%Z) as [->|Hne]; [lia|].
  apply Z.log2_lt_pow2; [|].
  - assert (0 <= Z.lor (u64 (Z.shiftl d 32)) (Z.shiftr d 32))%Z by (apply Z.lor_nonneg; unfold u64; lia). lia.
  - rewrite Z.log2_lor by (unfold u64; lia).
    assert (forall x, (0 <= x < 2 ^ 64)%Z -> (Z.log2 x < 64)%Z) as Hlog.
    { intros x Hx. destruct (decide (x = 0)%Z) as [->|]; [done|]. apply Z.log2_lt_pow2; lia. }
    pose proof (Hlog _ Hr). pose proof (Hlog _ Hs). unfold u64. lia.
Qed.

Lemma lxor_cancel a b c x y : Z.lxor (Z.lxor a c) x = Z.lxor (Z.lxor b c) y -> Z.lxor a x = Z.lxor b y.
Proof.
  intros E. apply Z.bits_inj'. intros i Hi. apply (f_equal (fun z => Z.testbit z i)) in E.
  rewrite !Z.lxor_spec in *. by destruct (Z.testbit a i), (Z.testbit b i), (Z.testbit c i), (Z.testbit x i), (Z.testbit y i).
Qed.

Lemma small_bits_high z k i : (0 <= z < 2 ^ k)%Z -> (0 <= k <= i)%Z -> Z.testbit z i = false.
Proof.
  intros Hz Hi. destruct (decide (z = 0)%Z) as [->|Hne]; [apply Z.bits_0|].
  apply Z.bits_above_log2; [lia|]. apply Z.log2_lt_pow2; [lia|].
  apply Z.lt_le_trans with (2 ^ k)%Z; [lia|]. apply Z.pow_le_mono_r; lia.
Qed.

(** A small device number ends up in the upper half, a small inode in the lower. *)
Lemma swap_xor_halves d x i :
  (0 <= d < 2 ^ 32)%Z -> (0 <= x < 2 ^ 32)%Z -> (0 <= i < 32)%Z ->
  Z.testbit (Z.lxor (swap d) x) i = Z.testbit x i /\ Z.testbit (Z.lxor (swap d) x) (i + 32) = Z.testbit d i.
Proof.
  intros Hd Hx Hi. rewrite !Z.lxor_spec, !swap_bits by lia. split.
  - rewrite (proj2 (Z.ltb_lt i 32)) by lia. by rewrite (small_bits_high d 32), xorb_false_l by lia.
  - rewrite (proj2 (Z.ltb_ge (i + 32) 32)) by lia. rewrite (small_bits_high x 32 (i + 32)), xorb_false_r by lia. f_equal. lia.
Qed.

Lemma small_bits_eq a b :
  (0 <= a < 2 ^ 32)%Z -> (0 <= b < 2 ^ 32)%Z -> (forall i, (0 <= i < 32)%Z -> Z.testbit a i = Z.testbit b i) -> a = b.
Proof.
  intros Ha Hb H. apply Z.bits_inj'. intros i Hi. destruct (decide (i < 32)%Z); [by apply H|].
  by rewrite !(small_bits_high _ 32) by lia.
Qed.

(** C39: Files get different inode numbers: on one device always, and across devices as long
    as device and inode numbers have 32 bits. *)
Theorem inode_numbers_unique {L} (r : root L) s t :
  (0 <= st_Dev s < 2 ^ 64)%Z -> (0 <= st_Dev t < 2 ^ 64)%Z ->
  st_Dev s = st_Dev t \/
    (st_Dev s < 2 ^ 32 /\ st_Dev t < 2 ^ 32 /\ 0 <= st_Ino s < 2 ^ 32 /\ 0 <= st_Ino t < 2 ^ 32)%Z ->
  sa_Ino (idFromStat r s) = sa_Ino (idFromStat r t) -> st_Dev s = st_Dev t /\ st_Ino s = st_Ino t.
Proof.
  intros Hs Ht Hcase E. simpl in E. apply lxor_cancel in E. destruct Hcase as [Hd|(H1 & H2 & H3 & H4)].
  - split; [done|]. rewrite Hd in E. apply Z.bits_inj'. intros i Hi.
    apply (f_equal (fun z => Z.testbit z i)) in E. rewrite !Z.lxor_spec in E.
    by destruct (Z.testbit (swap (st_Dev t)) i), (Z.testbit (st_Ino s) i), (Z.testbit (st_Ino t) i).
  - assert (forall i, (0 <= i < 32)%Z -> Z.testbit (st_Dev s) i = Z.testbit (st_Dev t) i /\
      Z.testbit (st_Ino s) i = Z.testbit (st_Ino t) i) as H.
    { intros i Hi. destruct (swap_xor_halves (st_Dev s) (st_Ino s) i) as [A1 A2]; [lia..|].
      destruct (swap_xor_halves (st_Dev t) (st_Ino t) i) as [B1 B2]; [lia..|]. rewrite E in A1, A2. split; congruence. }
    split; apply small_bits_eq; try lia; intros i Hi; by apply H.
Qed.

(** [O_APPEND] is dropped and no other flag: with it [Write] at an offset would fail. *)
Lemma clear_append_bits flags i :
  (0 <= i)%Z -> Z.testbit (clear_append flags) i = (Z.testbit flags i && negb (i =? 10)%Z)%bool.
Proof.
  intros Hi. unfold clear_append. rewrite Z.ldiff_spec. f_equal. f_equal.
  change O_APPEND with (2 ^ 10)%Z. rewrite Z.pow2_bits_eqb by lia. apply Z.eqb_sym.
Qed.

Section descriptors.
Context {L : Type} `{FdTable L}.
Implicit Types f : L.

(** The part of [Create] after replication. *)
Lemma create_local_descriptors (r : root L) here name flags mode f f' c :
  create_local r here name flags mode f = (f', Ok c) ->
  match cr_handle c with
  | Some (h, id) =>
      f_path h = relativePath here name /\ (f_fd h ∉ open_fds f) /\ open_fds f' = {[f_fd h]} ∪ open_fds f /\
      syscall_Open f (Mirror.path (RootPath r) (f_path h)) (create_flags flags) mode = (f', inr (f_fd h)) /\
      exists st, syscall_Fstat f' (f_fd h) = inr st /\ id = idFromStat r st
  | None => open_fds f' = open_fds f
  end.
Proof.
  unfold create_local, h_bind, h_ret, h_call. destruct (syscall_Open f _ _ _) as [f1 [e|fd]] eqn:Ho.
  { intros [= <- <-]. by eapply open_failed. }
  destruct (open_new _ _ _ _ _ _ Ho) as [Hnew Hfds]. destruct (syscall_Fstat f1 fd) as [e|st] eqn:Hf; intros [= <- <-]; simpl; [|eauto 10].
  rewrite close_releases, Hfds. set_solver.
Qed.

(** C30: [Create] leaks no descriptor and opens none before the cluster agreed. When
    replication is refused, the files and descriptors are those that replication left
    and the errno is that of the refusal. When it is not, the descriptors open afterwards
    are those that were open, also when the new file could not be opened or examined,
    plus, on success, one new descriptor: that of the handle, which carries the
    replicated path and was opened on that path in the mirror directory. *)
Theorem create_keeps_its_descriptor (r : root L) here name flags mode f f' c :
  Create r here name flags mode f = (f', Ok c) ->
  exists f1 errno, replicate (r_services r) (create_request here name mode) f = (f1, Ok errno) /\
    (errno <> NoError -> f' = f1 /\ c = mkCreated None errno) /\
    (errno = NoError ->
      match cr_handle c with
      | Some (h, id) =>
          f_path h = relativePath here name /\ (f_fd h ∉ open_fds f1) /\ open_fds f' = {[f_fd h]} ∪ open_fds f1 /\
          syscall_Open f1 (Mirror.path (RootPath r) (f_path h)) (create_flags flags) mode = (f', inr (f_fd h)) /\
          exists st, syscall_Fstat f' (f_fd h) = inr st /\ id = idFromStat r st
      | None => open_fds f' = open_fds f1
      end).
Proof.
  unfold Create, h_bind. destruct (replicate _ _ f) as [f1 [errno|[]|w]]; [|done]. intros E. exists f1, errno. split; [done|].
  destruct (Z.eqb_spec errno NoError) as [Hz|Hne]; simpl in E.
  - split; [done|]. intros _. by eapply create_local_descriptors.
  - split; [|done]. intros _. by injection E as <- <-.
Qed.
End descriptors.

(** What the server shows is the mirror directory, and writes go to the path that was
    opened: a file opened at [here] replicates its writes under [here]. *)
Lemma server_shows_mirror {L} fuse mirror (s : services L) mkdir srv :
  NewServer fuse mirror s mkdir = Ok srv -> LoopbackPath srv = mirror /\ RootPath (RfsRoot srv) = mirror /\ r_services (RfsRoot srv) = s.
Proof. unfold NewServer. by destruct mkdir; intros; simplify_eq. Qed.

Lemma inode_numbers_unique_witness :
  sa_Ino (idFromStat (mkRoot (L := unit) agreeing "/m" 0) (mkStat 2049 77 33188)) <> sa_Ino (idFromStat (mkRoot (L := unit) agreeing "/m" 0) (mkStat 2050 77 33188)).
Proof.
  intros H. assert (2049 = 2050 /\ 77 = 77)%Z as [H1 _]; [|discriminate H1].
  apply (inode_numbers_unique (mkRoot (L := unit) agreeing "/m" 0) (mkStat 2049 77 33188) (mkStat 2050 77 33188)); simpl; try lia.
  exact H.
Defined.

#[export] Instance journal_fds : FdTable journal.
Proof.
  refine {| open_fds := j_fds |}.
  - intros f p flags mode f' fd E. simpl in E. injection E as <- <-. split; [apply is_fresh|done].
  - intros f p flags mode f' e E. done.
  - done.
Defined.

(** A file that can be opened and not examined: the descriptor is closed again. *)
Definition broken : journal := mkJournal ["broken"] {[0%Z]}.

Definition broken_create : journal * outcome Empty_set (created journal) :=
  Create (mkRoot agreeing "/m" 0) "docs" "a" 1025 420 broken.

Lemma create_keeps_its_descriptor_witness :
  broken_create.2 = Ok (mkCreated None EBADF) /\ j_ops broken_create.1 = ["broken"; "/m/docs/a"] /\
  open_fds broken_create.1 = {[0%Z]}.
Proof.
  assert (broken_create = (broken_create.1, Ok (mkCreated None EBADF))) as E by reflexivity.
  split; [reflexivity|]. split; [reflexivity|].
  destruct (create_keeps_its_descriptor (mkRoot agreeing "/m" 0) "docs" "a" 1025 420 broken _ _ E) as (f1 & errno & E1 & _ & Hok).
  injection E1 as <- <-. exact (Hok eq_refl).
Defined.

(** Two files can share a number when a device number does not fit 32 bits. *)
Example inode_collision :
  sa_Ino (idFromStat (mkRoot (L := unit) agreeing "/m" 0) (mkStat (2 ^ 32) 0 33188)) =
  sa_Ino (idFromStat (mkRoot (L := unit) agreeing "/m" 0) (mkStat 0 1 33188)).
Proof. reflexivity. Qed.
