(* ===== verification/Main.v ===== *)
(** * Putting the program together ([main.go], [connection/quic.go], [connection/context.go])

    [setup] reads and checks the configuration, [run] builds the components from it and
    starts them. The theorems connect the parts that the other files treat one by one:
    the host and the pool that [run] builds are those of [Network] and [PoolRun]. *)

From S2P Require Import Prelude Errors Protobuf Transactions Conflicts Responses Host HostFacts Network.
From S2P Require Import Path Mirror Rfs Perspective Framing Backoff Connection Pool PoolRun Config Settings Logging Tls Fuse.

(** [flagValues]; the name's default is set by the build. *)
Record flagValues := mkFlags {
  fl_Name : string;
  fl_Path : string;
  fl_CAPath : string;
  fl_CertPath : string;
  fl_KeyPath : string;
}.

(** ** The command line

    The flags that [main] declares. The parser (github.com/urfave/cli) is an interface: it
    fails, prints the help and does nothing more, or runs the action after it assigned the
    values it found to the flags' destinations, in the order of the arguments. *)

Inductive flag_kind := PathFlag | StringFlag.

(** A field of [flagValues]. *)
Inductive destination := DName | DPath | DCAPath | DCertPath | DKeyPath.

#[export] Instance destination_eq_dec : EqDecision destination.
Proof. solve_decision. Defined.

Record cli_Flag := mkFlag {
  cf_kind : flag_kind;
  cf_Name : string;
  cf_Aliases : list string;
  cf_Value : string;
  cf_Destination : destination;
  cf_TakesFile : bool;
}.

(** [app.Flags]; [name] is set during the build. *)
Definition app_Flags (name : string) : list cli_Flag :=
  [mkFlag PathFlag "config" ["c"] "" DPath true;
   mkFlag StringFlag "name" ["n"] name DName false;
   mkFlag StringFlag "ca" [] "" DCAPath true;
   mkFlag StringFlag "crt" [] "" DCertPath true;
   mkFlag StringFlag "key" [] "" DKeyPath true].

(** The names a flag answers to. *)
Definition flag_names (fl : cli_Flag) : list string := cf_Name fl :: cf_Aliases fl.

Inductive cli_run :=
| CliError (e : error)
| CliHelp
| CliAction (given : list (string * string)).

Class CliParser := {
  cli_parse : list cli_Flag -> list string -> cli_run;
  cli_declared : forall fls args given, cli_parse fls args = CliAction given ->
    Forall (fun x => exists fl, fl ∈ fls /\ x.1 ∈ flag_names fl) given;
}.

Definition set_flag (d : destination) (v : string) (fl : flagValues) : flagValues :=
  match d with
  | DName => mkFlags v (fl_Path fl) (fl_CAPath fl) (fl_CertPath fl) (fl_KeyPath fl)
  | DPath => mkFlags (fl_Name fl) v (fl_CAPath fl) (fl_CertPath fl) (fl_KeyPath fl)
  | DCAPath => mkFlags (fl_Name fl) (fl_Path fl) v (fl_CertPath fl) (fl_KeyPath fl)
  | DCertPath => mkFlags (fl_Name fl) (fl_Path fl) (fl_CAPath fl) v (fl_KeyPath fl)
  | DKeyPath => mkFlags (fl_Name fl) (fl_Path fl) (fl_CAPath fl) (fl_CertPath fl) v
  end.

Definition get_flag (d : destination) (fl : flagValues) : string :=
  match d with
  | DName => fl_Name fl
  | DPath => fl_Path fl
  | DCAPath => fl_CAPath fl
  | DCertPath => fl_CertPath fl
  | DKeyPath => fl_KeyPath fl
  end.

Definition no_flags : flagValues := mkFlags "" "" "" "" "".

(** Every destination gets its flag's default, then the values given. *)
Definition assign (fls : list cli_Flag) (fl : flagValues) (x : string * string) : flagValues :=
  match list_find (fun y => x.1 ∈ flag_names y) fls with
  | Some (_, y) => set_flag (cf_Destination y) x.2 fl
  | None => fl
  end.

Definition flag_values (fls : list cli_Flag) (given : list (string * string)) : flagValues :=
  fold_left (assign fls) given
    (fold_left (fun fl y => set_flag (cf_Destination y) (cf_Value y) fl) fls no_flags).

(** ** Configuration *)

(** [read] is what [config.Read] makes of the path. *)
Definition mustReadConfig (fl : flagValues) (usr : error + string) (read : string -> outcome Empty_set Config) :
    outcome Empty_set Config :=
  if (String.length (fl_Path fl) =? 0)%nat then Default usr else read (fl_Path fl).

Definition override (flag value : string) : string := if (0 <? String.length flag)%nat then flag else value.

Definition tls_flags (fl : flagValues) (t : TLS) : TLS :=
  mkTLS (Version t) (override (fl_CAPath fl) (CAPath t)) (override (fl_CertPath fl) (CertPath t))
    (override (fl_KeyPath fl) (KeyPath t)).

Definition has_tls_flag (fl : flagValues) : bool :=
  (0 <? String.length (fl_CAPath fl))%nat || (0 <? String.length (fl_CertPath fl))%nat ||
  (0 <? String.length (fl_KeyPath fl))%nat.

(** The assignments at the head of [setup]. *)
Definition apply_flags (fl : flagValues) (c : Config) : outcome error Config :=
  if has_tls_flag fl && negb (bool_decide (is_Some (cf_Connection c))) then Panics "nil Connection"
  else Ok (mkConfig (override (fl_Name fl) (HostName c))
         ((fun k => mkConnectionConf (DialBackoff k) (MessageBufferSize k) (SendRecvTimeout k) (HandshakeTimeout k)
            (Network k) (Compression k) (tls_flags fl (cc_TLS k))) <$> cf_Connection c)
         (cf_Peers c) (cf_Paths c) (cf_Logging c) (ReplicationTimeout c)).

(** [setup]: the configuration, the logger and the compression level it sets; [terminal]
    tells whether the standard output is one. *)
Definition setup `{Validator} `{Zerolog} (fl : flagValues) (terminal : bool) (read : outcome Empty_set Config) :
    outcome error (Config * logger * Z) :=
  match read with
  | Panics w => Panics w
  | Err e => match e with end
  | Ok c =>
      conf <-! apply_flags fl c ;;
      match Validate conf with
      | Some e => Err e
      | None =>
          match cf_Logging conf with
          | None => Panics "nil Logging"
          | Some level =>
              let lg := Configure (HostName conf) terminal level in
              match log_config lg conf, cf_Connection conf with
              | Panics w, _ => Panics w
              | _, None => Panics "nil Connection"
              | _, Some k =>
                  match SetCompression (Compression k) with
                  | Some level => Ok (conf, lg, level)
                  | None => Panics "invalid compression level"
                  end
              end
          end
      end
  end.

(** ** Start *)

(** [contextWithOptionalTimeout]: the deadline it sets. *)
Definition contextWithOptionalTimeout (timeout : Z) : option Z := if (timeout =? 0)%Z then None else Some timeout.

(** [quicConfig]; durations in nanoseconds. *)
Inductive quic_Version := Version1 | Version2.

Record quic_Config := mkQuicConfig {
  Versions : list quic_Version;
  ConnectionIDLength : Z;
  HandshakeIdleTimeout : Z;
  MaxIdleTimeout : Z;
  KeepAlivePeriod : Z;
  InitialStreamReceiveWindow : Z;
  MaxStreamReceiveWindow : Z;
  InitialConnectionReceiveWindow : Z;
  MaxConnectionReceiveWindow : Z;
  MaxIncomingStreams : Z;
  MaxIncomingUniStreams : Z;
  StatelessResetKey : option (list byte);
  DisablePathMTUDiscovery : bool;
  DisableVersionNegotiationPackets : bool;
  EnableDatagrams : bool;
}.

Definition quicConfig : quic_Config :=
  mkQuicConfig [Version2] 12 (5 * 1000000000) (12 * 1000000000) (4 * 1000000000) (Z.shiftl 1 10 * 512) (Z.shiftl 1 20 * 6)
    (Z.shiftl 1 10 * 512 * 3 / 2) (Z.shiftl 1 20 * 15) (-1) 100 None false true false.

(** An idle connection is kept open by at least two packets, windows grow, and there are
    no bidirectional streams. *)
Lemma quicConfig_consistent :
  (2 * KeepAlivePeriod quicConfig < MaxIdleTimeout quicConfig)%Z /\
  (InitialStreamReceiveWindow quicConfig <= MaxStreamReceiveWindow quicConfig)%Z /\
  (InitialConnectionReceiveWindow quicConfig <= MaxConnectionReceiveWindow quicConfig)%Z /\
  (InitialStreamReceiveWindow quicConfig <= InitialConnectionReceiveWindow quicConfig)%Z /\
  (MaxIncomingStreams quicConfig < 0)%Z.
Proof. vm_compute. repeat split; discriminate. Qed.

(** What [run] built. *)
Record system (FS L : Type) := mkSystem {
  sy_host : Peer;
  sy_peers : list Peer;
  sy_mirror : string;
  sy_tls : tls_Config;
  sy_pool : sys;
  sy_node : node FS;
  sy_timeout : Z;
  sy_server : Server L;
}.
Arguments mkSystem {FS L}.
Arguments sy_host {FS L}.
Arguments sy_peers {FS L}.
Arguments sy_mirror {FS L}.
Arguments sy_tls {FS L}.
Arguments sy_pool {FS L}.
Arguments sy_node {FS L}.
Arguments sy_timeout {FS L}.
Arguments sy_server {FS L}.

(** [NewBackoff] of the dial loops. *)
Definition dial_backoff (b : BackoffConf) : Backoff :=
  NewBackoff (bc_Factor b) (bc_MaxFactorJitter b) (bc_Initial b) (bc_Max b).

(** [NewMirror]: the directory below which the mirror works. *)
Definition NewMirror (conf : Paths) : string := MirrorDir conf.

(** [Host.Run]: the pool is run, which needs a listener, and the goroutine that listens
    to it is started. *)
Definition Host_Run {FS : Type} (listen : option error) (name : string) (ps : list string) (b : Backoff) (buffer : nat)
    (f : FS) : outcome Empty_set (sys * node FS) :=
  pool <-! Pool_Run listen name ps b buffer ;;
  Ok (pool, NewHost name ps f).

(** What the environment of [run] answers: [tlsconf.Default], [quic.ListenAddr] of
    [Pool.Run], [os.MkdirAll] of [NewServer] and [fs.Mount]. *)
Record environment := mkEnvironment {
  env_tls : TLS -> outcome Empty_set tls_Config;
  env_listen : option error;
  env_mkdir : option error;
  env_mount : option error;
}.

Definition no_error {E A} (r : outcome Empty_set A) : outcome E A :=
  match r with
  | Ok a => Ok a
  | Err e => match e with end
  | Panics w => Panics w
  end.

(** [run] up to the wait for a signal, in the order of the code: the host and the pool run
    before the file system is built and mounted. [sv] are the services the file system
    gets (the mirror and the host), [f] the files of the mirror directory. *)
Definition run {FS L : Type} (fl : flagValues) (conf : Config) (env : environment) (sv : services L) (f : FS) :
    outcome error (system FS L) :=
  match cf_Paths conf with
  | None => Panics "nil Paths"
  | Some paths =>
      let mir := NewMirror paths in
      popped <-! Pop (fl_Name fl) (cf_Peers conf) ;;
      let '(host, peers, _) := popped in
      if (String.length (peer_Name host) =? 0)%nat
      then Panics "invalid host name provided, host must be listed in the peers config"
      else
        match cf_Connection conf with
        | None => Panics "nil Connection"
        | Some k =>
            tc <-! no_error (env_tls env (cc_TLS k)) ;;
            started <-! no_error (Host_Run (env_listen env) (peer_Name host) (peer_Name <$> peers)
              (dial_backoff (DialBackoff k)) (Z.to_nat (MessageBufferSize k)) f) ;;
            let '(pool, node) := started in
            server <-! no_error (NewServer (FuseDir paths) (MirrorDir paths) sv (env_mkdir env)) ;;
            match Mount (env_mount env) server with
            | (_, Some e) => Err (ErrWrap e "unable to mount fuse filesystem")
            | (server, None) =>
                Ok (mkSystem host peers mir (pool_tls tc) pool node (effective_timeout (ReplicationTimeout conf)) server)
            end
        end
  end.

(** [main]: the parsed flags, [setup], [run]; an error ends the process ([log.Fatal]), the
    help ends it without one. *)
Definition main {FS L : Type} `{Validator} `{Zerolog} `{CliParser} (name : string) (args : list string) (terminal : bool)
    (usr : error + string) (read : string -> outcome Empty_set Config) (env : environment) (sv : services L) (f : FS) :
    outcome Empty_set (option (system FS L)) :=
  match cli_parse (app_Flags name) args with
  | CliError e => Panics (Error e)
  | CliHelp => Ok None
  | CliAction given =>
      let fl := flag_values (app_Flags name) given in
      match setup fl terminal (mustReadConfig fl usr read) with
      | Panics w => Panics w
      | Err e => Panics (Error e)
      | Ok (conf, _, _) =>
          match run fl conf env sv f with
          | Panics w => Panics w
          | Err e => Panics (Error e)
          | Ok s => Ok (Some s)
          end
      end
  end.

(** [newSignalHandler]: the channel holds one signal, further ones are dropped; it is told
    about these two. *)
Inductive Signal := SIGINT | SIGTERM | SIGHUP.

#[export] Instance Signal_eq_dec : EqDecision Signal.
Proof. solve_decision. Defined.

Record signalHandler := mkSignalHandler { sigs : list Signal; sigs_cap : nat; notified : list Signal }.

Definition newSignalHandler : signalHandler := mkSignalHandler [] 1 [SIGINT; SIGTERM].

(** A signal arrives: [None] when the process is not told and takes the default action. *)
Definition signal_arrives (sg : Signal) (h : signalHandler) : option signalHandler :=
  if bool_decide (sg ∈ notified h) then
    Some (if (length (sigs h) <? sigs_cap h)%nat then mkSignalHandler (sigs h ++ [sg]) (sigs_cap h) (notified h) else h)
  else None.

(** The loop of [closeOnSignal]: every closer is called, errors are logged. *)
Fixpoint close_all (closers : list (outcome error unit)) : outcome Empty_set (list error) :=
  match closers with
  | [] => Ok []
  | Ok _ :: cs => close_all cs
  | Err e :: cs => logged <-! close_all cs ;; Ok (e :: logged)
  | Panics w :: _ => Panics w
  end.

(** [closeOnSignal] waits for a signal ([None]: there is none yet) and closes. *)
Definition closeOnSignal (h : signalHandler) (closers : list (outcome error unit)) :
    option (Signal * signalHandler * outcome Empty_set (list error)) :=
  match sigs h with
  | [] => None
  | sg :: rest => Some (sg, mkSignalHandler rest (sigs_cap h) (notified h), close_all closers)
  end.

(** ** What is wired to what *)

Lemma setup_Ok `{Validator} `{Zerolog} fl terminal read conf lg level :
  setup fl terminal read = Ok (conf, lg, level) ->
  exists c k, read = Ok c /\ apply_flags fl c = Ok conf /\ Validate conf = None /\ cf_Connection conf = Some k /\
    SetCompression (Compression k) = Some level.
Proof.
  unfold setup. intros E. destruct read as [c|[]|]; [|done]. apply bind_ok in E as (conf' & Ha & E).
  destruct (Validate conf') eqn:Hv; [done|]. destruct (cf_Logging conf'); [|done].
  destruct (log_config _ conf') as [|[]|]; [|done]. cases. eauto 10.
Qed.

Lemma apply_flags_Ok fl c conf :
  apply_flags fl c = Ok conf -> cf_Peers conf = cf_Peers c /\ cf_Paths conf = cf_Paths c /\
    ReplicationTimeout conf = ReplicationTimeout c.
Proof. unfold apply_flags. intros E. by cases. Qed.

Lemma filter_names name p :
  peer_Name <$> filter (fun y : Peer => peer_Name y <> name) p = others (peer_Name <$> p) name.
Proof.
  unfold others. induction p as [|x p IH]; [done|]. rewrite fmap_cons.
  destruct (decide (peer_Name x <> name)).
  - rewrite !filter_cons_True by done. rewrite fmap_cons. by f_equal.
  - rewrite !filter_cons_False by done. done.
Qed.

Lemma net_init_lookup {FS} names (f : string -> FS) name :
  name ∈ names -> nodes (net_init names f) !! name = Some (NewHost name (others names name) (f name)).
Proof.
  intros Hn. simpl. apply elem_of_list_to_map_1'.
  - intros y Hy. by apply list_elem_of_fmap in Hy as (p & [= -> ->] & _).
  - apply list_elem_of_fmap. by exists name.
Qed.

(** What was given for a destination; the last one counts. *)
Definition given_for (fls : list cli_Flag) (d : destination) (given : list (string * string)) : list string :=
  omap (fun x => '(_, y) ← list_find (fun y => x.1 ∈ flag_names y) fls;
                 if decide (cf_Destination y = d) then Some x.2 else None) given.

Lemma get_set_flag d d' v fl : get_flag d (set_flag d' v fl) = if decide (d' = d) then v else get_flag d fl.
Proof. by destruct d, d'. Qed.

Lemma assigned_last fls d given fl :
  get_flag d (fold_left (assign fls) given fl) = default (get_flag d fl) (last (given_for fls d given)).
Proof.
  induction given as [|x given IH] using rev_ind; [done|]. unfold given_for in *. rewrite fold_left_app, omap_app, last_app. simpl.
  unfold assign at 1. destruct (list_find _ fls) as [[k y]|]; simpl; [|by rewrite IH].
  rewrite get_set_flag. case_decide; simpl; [done|]. by rewrite IH.
Qed.

Lemma flag_values_last name d given :
  get_flag d (flag_values (app_Flags name) given) =
  default (if decide (d = DName) then name else "") (last (given_for (app_Flags name) d given)).
Proof. unfold flag_values. rewrite assigned_last. f_equal. by destruct d. Qed.

(** No name is declared twice, and none is that of the help flag, which the parser adds:
    each argument has one destination. *)
Lemma app_Flags_distinct name : NoDup ((app_Flags name ≫= flag_names) ++ ["help"; "h"]).
Proof. apply (bool_decide_eq_true_1 (NoDup ["config"; "c"; "name"; "n"; "ca"; "crt"; "key"; "help"; "h"])). reflexivity. Qed.

(** Everything [run] needs of its environment: certificates that load, an address it can
    listen on, a directory it can make, a file system it can mount. *)
Record helpful (env : environment) : Prop := {
  he_tls t : exists tc, env_tls env t = Ok tc;
  he_listen : env_listen env = None;
  he_mkdir : env_mkdir env = None;
  he_mount : env_mount env = None;
}.

Lemma run_builds {FS L} fl conf env (sv : services L) (f : FS) paths k host peers rest :
  helpful env -> cf_Paths conf = Some paths -> cf_Connection conf = Some k ->
  Pop (fl_Name fl) (cf_Peers conf) = Ok (host, peers, rest) -> peer_Name host <> "" ->
  exists tc, run fl conf env sv f =
    Ok (mkSystem host peers (MirrorDir paths) (pool_tls tc)
          (PoolRun.Run (peer_Name host) (peer_Name <$> peers) (dial_backoff (DialBackoff k)) (Z.to_nat (MessageBufferSize k)))
          (NewHost (peer_Name host) (peer_Name <$> peers) f) (effective_timeout (ReplicationTimeout conf))
          (mkServer (MirrorDir paths) (newRfsRoot (mkRoot sv "" 0) (MirrorDir paths) 0) (FuseDir paths) true)).
Proof.
  intros [Htls Hl Hm Hf] Hp Hk Hpop Hne. destruct (Htls (cc_TLS k)) as [tc Htc]. exists tc. unfold run. rewrite Hp, Hk, Hpop. simpl.
  assert ((String.length (peer_Name host) =? 0)%nat = false) as -> by (by destruct (peer_Name host)).
  rewrite Htc, Hl, Hm, Hf. done.
Qed.

(** C20: [main] builds the network: started with arguments that name a peer of a
    configuration that [setup] accepts, in an environment where the certificates load, the
    address can be listened on, the mount point can be made and the file system mounted,
    the process runs, under the last name given, and its components are those that the
    other theorems are about. Its state is that host's part of the initial network, its
    pool is the one for exactly the other peers, they carry distinct names, the file
    system shows the directory that the mirror writes to, and every wait has a deadline.
    When the address cannot be listened on, the process ends. *)
Theorem main_builds_the_network {FS L} `{Validator} `{Zerolog} `{CliParser} name args given terminal usr read conf lg level env
    (sv : services L) (f : string -> FS) :
  let fl := flag_values (app_Flags name) given in
  cli_parse (app_Flags name) args = CliAction given ->
  setup fl terminal (mustReadConfig fl usr read) = Ok (conf, lg, level) ->
  fl_Name fl ∈ (peer_Name <$> cf_Peers conf) -> fl_Name fl <> "" ->
  helpful env ->
  (exists s k, main name args terminal usr read env sv (f (fl_Name fl)) = Ok (Some s) /\ cf_Connection conf = Some k /\
    let names := peer_Name <$> cf_Peers conf in
    peer_Name (sy_host s) = default name (last (given_for (app_Flags name) DName given)) /\
    nodes (net_init names f) !! peer_Name (sy_host s) = Some (sy_node s) /\
    sy_pool s = PoolRun.Run (peer_Name (sy_host s)) (others names (peer_Name (sy_host s))) (dial_backoff (DialBackoff k))
      (Z.to_nat (MessageBufferSize k)) /\
    NoDup (others names (peer_Name (sy_host s))) /\
    LoopbackPath (sy_server s) = sy_mirror s /\ (exists p, cf_Paths conf = Some p /\ sy_mirror s = MirrorDir p) /\
    is_Some (contextWithOptionalTimeout (HandshakeTimeout k)) /\ is_Some (contextWithOptionalTimeout (SendRecvTimeout k)) /\
    sy_timeout s <> 0%Z) /\
  (forall e, main name args terminal usr read (mkEnvironment (env_tls env) (Some e) (env_mkdir env) (env_mount env)) sv
     (f (fl_Name fl)) = Panics "failed to create QUIC listener").
Proof.
  intros fl Hcli Hs Hname Hne Henv. unfold main. rewrite Hcli. fold fl. rewrite Hs. apply setup_Ok in Hs as (c & k & _ & _ & Hv & Hk & _).
  destruct (validated_sound conf Hv) as ((k' & Hk' & Hsound) & (p & Hp & _) & _ & Hnd). simplify_eq.
  destruct (Pop_split (fl_Name fl) (cf_Peers conf) Hnd Hname) as (x & z & Hpop & Hx & _ & _). rewrite <- Hx in Hne. split.
  - destruct (run_builds fl conf env sv (f (fl_Name fl)) p k x _ _ Henv Hp Hk Hpop Hne) as [tc ->].
    eexists _, k. split; [done|]. split; [done|]. simpl. rewrite filter_names, Hx.
    split; [apply (flag_values_last name DName given)|].
    split; [by apply net_init_lookup|]. split; [done|]. split; [by apply NoDup_filter|].
    split; [done|]. split; [eauto|]. destruct (sc_timeouts _ Hsound) as [Hhs Hsr].
    unfold contextWithOptionalTimeout, effective_timeout, defaultReplicationTimeout.
    destruct (Z.eqb_spec (HandshakeTimeout k) 0), (Z.eqb_spec (SendRecvTimeout k) 0); try lia.
    split; [done|]. split; [done|]. by destruct (Z.eqb_spec (ReplicationTimeout conf) 0).
  - intros e. unfold run. rewrite Hp, Hk, Hpop. simpl. destruct (he_tls _ Henv (cc_TLS k)) as [tc ->].
    by destruct (peer_Name x).
Qed.

(** The host name of the configuration is not used: [run] looks for the flag's value,
    and a value that names no peer, the empty default included, starts the process as
    the first peer of the list, whatever [host_name] says. *)
Theorem host_name_of_the_config_is_ignored {FS L} fl conf env (sv : services L) (f : FS) x ps paths k :
  cf_Paths conf = Some paths -> cf_Connection conf = Some k -> cf_Peers conf = x :: ps -> peer_Name x <> "" ->
  fl_Name fl ∉ (peer_Name <$> x :: ps) -> helpful env ->
  exists s, run fl conf env sv f = Ok s /\ sy_host s = x /\ Name (sy_node s) = peer_Name x.
Proof.
  intros Hp Hk Hps Hx Hn Henv.
  assert (exists ps' z, Pop (fl_Name fl) (cf_Peers conf) = Ok (x, ps', z)) as (ps' & z & Hpop).
  { unfold Pop. rewrite Hps, pop_index_missing by done. eauto. }
  destruct (run_builds fl conf env sv f paths k x ps' z Henv Hp Hk Hpop Hx) as [tc ->]. eauto.
Qed.

(** A closer that fails does not keep the next one from being closed. *)
Lemma close_all_calls_all cs :
  Forall (fun c => is_panic c = false) cs ->
  close_all cs = Ok (omap (fun c => match c with Err e => Some e | _ => None end) cs).
Proof. induction 1 as [|c cs Hc _ IH]; [done|]. destruct c as [[]|e|w]; simpl; by rewrite ?IH. Qed.

(** A signal that arrives while the process still starts is not lost, and the first of
    several is the one that is seen. Those that come later do nothing: once the process
    shuts down an interrupt neither ends it nor reaches anybody. *)
Fixpoint signals_arrive (l : list Signal) (h : signalHandler) : option signalHandler :=
  match l with
  | [] => Some h
  | sg :: l => h' ← signal_arrives sg h; signals_arrive l h'
  end.

Lemma signals_fill l h sg :
  sigs h = [sg] -> sigs_cap h = 1 -> notified h = [SIGINT; SIGTERM] -> Forall (fun x => x <> SIGHUP) l ->
  signals_arrive l h = Some h.
Proof.
  intros Hs Hc Hn. induction 1 as [|x l Hx _ IH]; [done|]. simpl. unfold signal_arrives.
  rewrite bool_decide_eq_true_2; [|rewrite Hn; destruct x; [left|right; left|done]]. rewrite Hs, Hc. simpl. done.
Qed.

Theorem first_signal_closes sg l closers :
  sg <> SIGHUP -> Forall (fun x => x <> SIGHUP) l -> Forall (fun c => is_panic c = false) closers ->
  exists h h', signals_arrive (sg :: l) newSignalHandler = Some h /\
    closeOnSignal h closers = Some (sg, h', Ok (omap (fun c => match c with Err e => Some e | _ => None end) closers)) /\
    forall l', Forall (fun x => x <> SIGHUP) l' -> is_Some (signals_arrive l' h').
Proof.
  intros Hsg Hl Hcs. exists (mkSignalHandler [sg] 1 [SIGINT; SIGTERM]), newSignalHandler.
  assert (forall x, x <> SIGHUP -> signal_arrives x newSignalHandler = Some (mkSignalHandler [x] 1 [SIGINT; SIGTERM])) as Hfirst.
  { intros [] Hx; [reflexivity|reflexivity|done]. }
  split; [|split].
  - simpl. rewrite Hfirst by done. simpl. by apply (signals_fill _ _ sg).
  - unfold closeOnSignal. simpl. by rewrite close_all_calls_all.
  - intros l' [|x l0 Hx Hl0]; [by eexists|]. simpl. rewrite Hfirst by done. simpl. eexists. by apply (signals_fill _ _ x).
Qed.

(** ** The shipped configuration *)

Definition gimli_flags : flagValues := mkFlags "Gimli" "" "" "crt" "key".
Definition home : error + string := inr "/home/gimli".
Definition shipped : outcome Empty_set Config := Default home.

Definition shipped_conf (fl : flagValues) : Config :=
  match setup fl true shipped with Ok (c, _, _) => c | _ => defaultConfig end.

(** A parser of the form the program relies on: a flag is a dash or two, a declared name
    and, as the next argument, its value; the first argument that is no flag ends them. *)
Definition strip_dashes (a : string) : option string :=
  if String.prefix "--" a then Some (String.substring 2 (String.length a) a)
  else if String.prefix "-" a then Some (String.substring 1 (String.length a) a)
  else None.

Definition declared (fls : list cli_Flag) (nm : string) : bool := existsb (fun fl => bool_decide (nm ∈ flag_names fl)) fls.

Fixpoint parse_flags (fls : list cli_Flag) (args : list string) : cli_run :=
  match args with
  | [] => CliAction []
  | a :: rest =>
      match strip_dashes a with
      | None => CliAction []
      | Some nm =>
          if bool_decide (nm ∈ ["help"; "h"]) then CliHelp
          else if declared fls nm then
            match rest with
            | [] => CliError (ErrNew ("flag needs an argument: -" ++ nm))
            | v :: rest =>
                match parse_flags fls rest with
                | CliAction given => CliAction ((nm, v) :: given)
                | r => r
                end
            end
          else CliError (ErrNew ("flag provided but not defined: -" ++ nm))
      end
  end.

Lemma parse_flags_declared fls args given :
  parse_flags fls args = CliAction given -> Forall (fun x => exists fl, fl ∈ fls /\ x.1 ∈ flag_names fl) given.
Proof.
  assert (forall k args given, length args <= k -> parse_flags fls args = CliAction given ->
    Forall (fun x => exists fl, fl ∈ fls /\ x.1 ∈ flag_names fl) given) as H; [|by eapply (H (length args))].
  clear. induction k as [|k IH]; intros args given Hk E.
  { destruct args; [|simpl in Hk; lia]. simplify_eq/=. constructor. }
  destruct args as [|a rest]; simplify_eq/=; [constructor|]. destruct (strip_dashes a) as [nm|]; simplify_eq/=; [|constructor].
  case_bool_decide; [done|]. destruct (declared fls nm) eqn:Hd; [|done]. destruct rest as [|v rest]; [done|].
  destruct (parse_flags fls rest) as [| |g] eqn:Hr; simplify_eq. constructor.
  - unfold declared in Hd. apply existsb_elem in Hd as (fl & Hfl & Hin%bool_decide_eq_true). by exists fl.
  - apply (IH rest); [simpl in Hk; lia|done].
Qed.

#[export] Instance dashed_parser : CliParser := {| cli_parse := parse_flags; cli_declared := parse_flags_declared |}.

Definition shipped_environment : environment := mkEnvironment (fun _ => Ok shipped_tls_config) None None None.

Lemma shipped_helpful : helpful shipped_environment.
Proof. split; try done. intros t. by eexists. Qed.

Definition gimli_args : list string := ["-crt"; "crt"; "--key"; "key"; "-n"; "Gimli"].

Lemma main_builds_the_network_witness :
  exists s : system unit journal,
    main "Aragorn" gimli_args true home (fun _ => Panics "no file") shipped_environment agreeing tt = Ok (Some s) /\
    peer_Name (sy_host s) = "Gimli" /\
    nodes (net_init (peer_Name <$> default_peers) (fun _ => tt)) !! "Gimli" = Some (sy_node s) /\
    main (L := journal) "Aragorn" gimli_args true home (fun _ => Panics "no file")
      (mkEnvironment (fun _ => Ok shipped_tls_config) (Some (ErrNew "in use")) None None) agreeing tt
    = Panics "failed to create QUIC listener".
Proof.
  destruct (main_builds_the_network (L := journal) "Aragorn" gimli_args
    [("crt", "crt"); ("key", "key"); ("n", "Gimli")] true home (fun _ => Panics "no file")
    (shipped_conf gimli_flags) (mkLogger "Gimli" true InfoLevel) gzip_DefaultCompression
    shipped_environment agreeing (fun _ => tt)) as [(s & k & Hm & _ & Hn & Hnode & _) Hl].
  - reflexivity.
  - vm_compute. reflexivity.
  - by apply (bool_decide_eq_true_1 ("Gimli" ∈ (peer_Name <$> cf_Peers (shipped_conf gimli_flags)))).
  - discriminate.
  - exact shipped_helpful.
  - exists s. split; [exact Hm|]. split; [exact Hn|]. rewrite Hn in Hnode. split; [exact Hnode|exact (Hl (ErrNew "in use"))].
Defined.

(** A configuration for Gimli, started without flags: the process runs as Aragorn. *)
Definition gimli_conf : Config :=
  mkConfig "Gimli" (cf_Connection defaultConfig) default_peers (cf_Paths defaultConfig) (cf_Logging defaultConfig) 0.

Lemma host_name_of_the_config_is_ignored_witness :
  is_ok (setup no_flags true (Ok gimli_conf)) = true /\
  exists s, run (L := journal) no_flags gimli_conf shipped_environment agreeing tt = Ok s /\
    sy_host s = mkPeer "Aragorn" "localhost:9001" /\ Name (sy_node s) = "Aragorn".
Proof.
  split; [vm_compute; reflexivity|].
  eapply (host_name_of_the_config_is_ignored (L := journal) no_flags gimli_conf shipped_environment agreeing tt (mkPeer "Aragorn" "localhost:9001") (tail default_peers)).
  - reflexivity.
  - reflexivity.
  - reflexivity.
  - discriminate.
  - by apply (bool_decide_eq_true_1 ("" ∉ (peer_Name <$> mkPeer "Aragorn" "localhost:9001" :: tail default_peers))).
  - exact shipped_helpful.
Defined.
